(** * btclib: the PSBT codec, validator, combiner, finalizer and extractor

    A shallow embedding of [btclib/psbt.py], of the parts of [btclib/tx.py]
    it calls, of [_deserialize_partial_sigs] of [btclib/psbt_in.py] and of
    [_convertbits] of [btclib/bech32_address.py].

    Python values are modelled as follows.
    - [bytes] is [list byte]; [str] is [string]; [int] is [Z].
    - an exception is a value of [exn], a computation that may raise
      returns a [result].
    - a [dict] is an association list in insertion order (the order
      [items()] and [values()] iterate in); its keys are unique.
    - dataclass instances that the code mutates in place ([Psbt],
      [PsbtInput], [PsbtOutput], the bound [Tx]) live in a [store] and are
      passed by location; read-only code works on the values. *)

From Stdlib Require Import ZArith List String Ascii Lia Bool.
From Stdlib Require Import Strings.Byte.
From stdpp Require Import base option list strings pretty.
Import ListNotations.

Local Open Scope string_scope.
Local Open Scope list_scope.
Local Open Scope Z_scope.

(** ** Exceptions and the error monad *)

Inductive exn : Type :=
| AssertionError (msg : string)
| IndexError
| KeyError
| ValueError
| OverflowError
| UnboundLocalError
| TypeError
| BTClibValueError (msg : string)
(** not a Python exception: the model ran out of fuel or met a location
    that holds no object; the theorems show that neither happens *)
| Stuck (why : string).

Inductive result (A : Type) : Type :=
| Ok (a : A)
| Raise (e : exn).
Arguments Ok {A} a.
Arguments Raise {A} e.

#[global] Instance result_ret : MRet result := fun A a => Ok a.
#[global] Instance result_bind : MBind result :=
  fun A B f c => match c with Ok a => f a | Raise e => Raise e end.

Definition is_ok {A} (r : result A) : bool :=
  match r with Ok _ => true | Raise _ => false end.

Definition raises {A} (r : result A) : Prop :=
  exists e, r = Raise e.

(** [assert cond, msg] *)
Definition py_assert (cond : bool) (msg : string) : result unit :=
  if cond then Ok tt else Raise (AssertionError msg).

(** ** Bytes, integers and hexadecimal strings *)

Abbreviation bytes := (list byte).

#[global] Instance byte_eq_dec' : EqDecision byte := Byte.byte_eq_dec.

Definition byte_to_Z (b : byte) : Z := Z.of_N (Byte.to_N b).

Definition byte_of_Z (z : Z) : byte :=
  match Byte.of_N (Z.to_N (z mod 256)) with
  | Some b => b
  | None => x00
  end.

(** [int.from_bytes(bs, "little")] *)
Fixpoint from_le (bs : bytes) : Z :=
  match bs with
  | [] => 0
  | b :: r => byte_to_Z b + 256 * from_le r
  end.

Fixpoint le_bytes (n : nat) (z : Z) : bytes :=
  match n with
  | O => []
  | S k => byte_of_Z z :: le_bytes k (z / 256)
  end.

(** [z.to_bytes(n, "little")] *)
Definition to_bytes (z : Z) (n : nat) : result bytes :=
  if (0 <=? z) && (z <? 256 ^ Z.of_nat n)
  then Ok (le_bytes n z) else Raise OverflowError.

(** [len(x)] as a Python [int] *)
Definition len {A} (l : list A) : Z := Z.of_nat (length l).
Definition slen (s : string) : Z := Z.of_nat (String.length s).

(** [l[i:]] and [l[:i]] for [0 <= i] *)
Definition slice_from {A} (i : Z) (l : list A) : list A := drop (Z.to_nat i) l.
Definition slice_to {A} (i : Z) (l : list A) : list A := take (Z.to_nat i) l.

(** [l[i]], negative indices counting from the end *)
Definition py_index {A} (l : list A) (i : Z) : result A :=
  let j := if i <? 0 then i + len l else i in
  if j <? 0 then Raise IndexError
  else match l !! Z.to_nat j with
       | Some x => Ok x
       | None => Raise IndexError
       end.

Definition hex_digit (n : N) : ascii :=
  match n with
  | 0 => "0" | 1 => "1" | 2 => "2" | 3 => "3" | 4 => "4" | 5 => "5"
  | 6 => "6" | 7 => "7" | 8 => "8" | 9 => "9" | 10 => "a" | 11 => "b"
  | 12 => "c" | 13 => "d" | 14 => "e" | _ => "f"
  end%N%char.

(** [bs.hex()] *)
Fixpoint hex (bs : bytes) : string :=
  match bs with
  | [] => EmptyString
  | b :: r =>
      String (hex_digit (Byte.to_N b / 16))
        (String (hex_digit (Byte.to_N b mod 16)) (hex r))
  end.

Definition digit_val (c : ascii) : option N :=
  let n := N_of_ascii c in
  if (48 <=? n)%N && (n <=? 57)%N then Some (n - 48)%N
  else if (97 <=? n)%N && (n <=? 102)%N then Some (n - 87)%N
  else if (65 <=? n)%N && (n <=? 70)%N then Some (n - 55)%N
  else None.

Definition is_space (c : ascii) : bool :=
  let n := N_of_ascii c in
  (n =? 32)%N || ((9 <=? n)%N && (n <=? 13)%N).

(** [bytes.fromhex(s)]: two hexadecimal digits per byte, either case,
    ASCII whitespace between bytes skipped. *)
Fixpoint fromhex (s : string) : result bytes :=
  match s with
  | EmptyString => Ok []
  | String c r =>
      if is_space c then fromhex r
      else match r with
           | EmptyString => Raise ValueError
           | String d r' =>
               match digit_val c, digit_val d with
               | Some h, Some l =>
                   bs ← fromhex r';
                   Ok (byte_of_Z (Z.of_N (16 * h + l)) :: bs)
               | _, _ => Raise ValueError
               end
           end
  end.

Definition upper_char (c : ascii) : ascii :=
  let n := N_of_ascii c in
  if (97 <=? n)%N && (n <=? 122)%N then ascii_of_N (n - 32) else c.

(** [s.upper()] *)
Fixpoint upper (s : string) : string :=
  match s with
  | EmptyString => EmptyString
  | String c r => String (upper_char c) (upper r)
  end.

(** ** Dictionaries *)

Definition dict (K V : Type) : Type := list (K * V).

Section Dict.
Context {K V : Type} `{EqDecision K}.

(** [d.get(k)] *)
Fixpoint dict_get (k : K) (d : dict K V) : option V :=
  match d with
  | [] => None
  | (k', v) :: r => if decide (k' = k) then Some v else dict_get k r
  end.

(** [k in d.keys()] *)
Definition dict_mem (k : K) (d : dict K V) : bool :=
  match dict_get k d with Some _ => true | None => false end.

(** [d[k] = v]: an existing key keeps its place, a new one goes last. *)
Fixpoint dict_set (k : K) (v : V) (d : dict K V) : dict K V :=
  match d with
  | [] => [(k, v)]
  | (k', v') :: r =>
      if decide (k' = k) then (k, v) :: r else (k', v') :: dict_set k v r
  end.

(** [d.update(d2)] *)
Definition dict_update (d d2 : dict K V) : dict K V :=
  fold_left (fun acc kv => dict_set (fst kv) (snd kv) acc) d2 d.

(** [list(d.values())] *)
Definition dict_values (d : dict K V) : list V := map snd d.
Definition dict_keys (d : dict K V) : list K := map fst d.

(** The representation invariant: no key occurs twice. *)
Definition dict_wf (d : dict K V) : Prop := NoDup (dict_keys d).

End Dict.

(** [d1 == d2] on dictionaries: the same keys with equal values, in any
    order. *)
Definition dict_eqb {K V} `{EqDecision K} (veqb : V -> V -> bool)
  (d1 d2 : dict K V) : bool :=
  (length d1 =? length d2)%nat &&
  forallb (fun kv => match dict_get (fst kv) d2 with
                     | Some v => veqb (snd kv) v
                     | None => false
                     end) d1.

(** ** Varint codec *)

(** Modelled from the spec: [btclib/varint.py] is not among the sources.
    Section 4.1 of the specification: the minimal Bitcoin compact-size
    representation; decoding peeks the first byte to choose a 1/3/5/9-byte
    form and fails on a truncated buffer; encoding rejects negative
    values. [read] is [decode] on a stream: it also returns what follows. *)
Module varint.

Definition encode (n : Z) : result bytes :=
  if n <? 0 then Raise ValueError
  else if n <? 0xfd then Ok [byte_of_Z n]
  else if n <=? 0xffff then Ok (xfd :: le_bytes 2 n)
  else if n <=? 0xffffffff then Ok (xfe :: le_bytes 4 n)
  else if n <=? 0xffffffffffffffff then Ok (xff :: le_bytes 8 n)
  else Raise ValueError.

Definition read_le (k : nat) (data : bytes) : result (Z * bytes) :=
  if (length data <? k)%nat then Raise ValueError
  else Ok (from_le (take k data), drop k data).

Definition read (data : bytes) : result (Z * bytes) :=
  match data with
  | [] => Raise ValueError
  | b :: r =>
      if decide (b = xfd) then read_le 2 r
      else if decide (b = xfe) then read_le 4 r
      else if decide (b = xff) then read_le 8 r
      else Ok (byte_to_Z b, r)
  end.

Definition decode (data : bytes) : result Z :=
  '(n, _) ← read data; Ok n.

End varint.

(** ** Key-value map codec ([psbt.py], [deserialize_map]) *)

(** One turn of the [while True] loop per unit of [fuel]; every turn that
    does not return consumes at least one byte of [data]. *)
Fixpoint deserialize_map_loop (fuel : nat) (data : bytes)
  (partial_map : dict bytes bytes) : result (dict bytes bytes * bytes) :=
  match fuel with
  | O => Raise (Stuck "fuel")
  | S fuel' =>
      d0 ← py_index data 0;
      if decide (d0 = x00) then Ok (partial_map, slice_from 1 data)
      else
        key_len ← varint.decode data;
        n ← varint.encode key_len;
        let data := slice_from (len n) data in
        let key := slice_to key_len data in
        let data := slice_from key_len data in
        value_len ← varint.decode data;
        n ← varint.encode value_len;
        let data := slice_from (len n) data in
        let value := slice_to value_len data in
        let data := slice_from value_len data in
        py_assert (negb (dict_mem key partial_map))
          "Malformed psbt: duplicate keys";;
        deserialize_map_loop fuel' data (dict_set key value partial_map)
  end.

Definition deserialize_map (data : bytes)
  : result (dict bytes bytes * bytes) :=
  py_assert (negb (len data =? 0))
    "Malformed psbt: at least a map is missing";;
  deserialize_map_loop (S (length data)) data [].

(** The wire form of a key-value map (specification, sections 4.2 and 6):
    length-prefixed key, length-prefixed value, for each entry in turn. *)
Definition frame (b : bytes) : result bytes :=
  n ← varint.encode (len b); Ok (n ++ b).

Fixpoint map_wire (entries : list (bytes * bytes)) : result bytes :=
  match entries with
  | [] => Ok []
  | (k, v) :: r =>
      fk ← frame k; fv ← frame v; w ← map_wire r;
      Ok (fk ++ fv ++ w)
  end.

(** ** Data model *)

(** [Token = Union[int, str, bytes]] ([alias.py]) *)
Inductive Token : Type :=
| TInt (n : Z)
| TStr (s : string)
| TBytes (b : bytes).

#[global] Instance Token_eq_dec : EqDecision Token.
Proof. solve_decision. Defined.

(** [TxIn] and [TxOut] are declared in [tx_in.py] and [tx_out.py], which
    are not among the sources; the fields are those [psbt.py] and [tx.py]
    read and write. *)
Module OutPoint.
Record t : Type := mk { hash : string; n : Z }.
End OutPoint.
Abbreviation OutPoint := OutPoint.t.

Module TxIn.
Record t : Type := mk {
  prevout : OutPoint;
  scriptSig : list Token;
  nSequence : Z;
  txinwitness : list string }.
End TxIn.
Abbreviation TxIn := TxIn.t.

Module TxOut.
Record t : Type := mk {
  nValue : Z;
  scriptPubKey : list Token }.
End TxOut.
Abbreviation TxOut := TxOut.t.

(** [tx.py], [class Tx] *)
Module Tx.
Record t : Type := mk {
  nVersion : Z;
  nLockTime : Z;
  vin : list TxIn;
  vout : list TxOut }.
End Tx.
Abbreviation Tx := Tx.t.

#[global] Instance OutPoint_eq_dec : EqDecision OutPoint.
Proof. solve_decision. Defined.
#[global] Instance TxIn_eq_dec : EqDecision TxIn.
Proof. solve_decision. Defined.
#[global] Instance TxOut_eq_dec : EqDecision TxOut.
Proof. solve_decision. Defined.
#[global] Instance Tx_eq_dec : EqDecision Tx.
Proof. solve_decision. Defined.

(** An entry of [hd_keypaths]: the dictionary with the keys ["xpub"],
    ["fingerprint"] and ["derivation_path"]. *)
Module HdKeypath.
Record t : Type := mk {
  xpub : string;
  fingerprint : string;
  derivation_path : string }.
End HdKeypath.
Abbreviation HdKeypath := HdKeypath.t.

#[global] Instance HdKeypath_eq_dec : EqDecision HdKeypath.
Proof. solve_decision. Defined.

(** [psbt.py], [class PsbtInput] *)
Module PsbtInput.
Record t : Type := mk {
  non_witness_utxo : option Tx;
  witness_utxo : option TxOut;
  partial_sigs : dict string string;
  sighash : option Z;
  redeem_script : list Token;
  witness_script : list Token;
  hd_keypaths : list HdKeypath;
  final_script_sig : list Token;
  final_script_witness : list string;
  por_commitment : option string;
  proprietary : dict Z (dict string string);
  unknown : dict string string }.

(** [PsbtInput()] *)
Definition default : t :=
  mk None None [] (Some 0) [] [] [] [] [] None [] [].

(** [r.f = v] *)
Definition set_non_witness_utxo v (r : t) : t :=
  mk v (witness_utxo r) (partial_sigs r) (sighash r) (redeem_script r)
    (witness_script r) (hd_keypaths r) (final_script_sig r)
    (final_script_witness r) (por_commitment r) (proprietary r) (unknown r).
Definition set_witness_utxo v (r : t) : t :=
  mk (non_witness_utxo r) v (partial_sigs r) (sighash r) (redeem_script r)
    (witness_script r) (hd_keypaths r) (final_script_sig r)
    (final_script_witness r) (por_commitment r) (proprietary r) (unknown r).
Definition set_partial_sigs v (r : t) : t :=
  mk (non_witness_utxo r) (witness_utxo r) v (sighash r) (redeem_script r)
    (witness_script r) (hd_keypaths r) (final_script_sig r)
    (final_script_witness r) (por_commitment r) (proprietary r) (unknown r).
Definition set_sighash v (r : t) : t :=
  mk (non_witness_utxo r) (witness_utxo r) (partial_sigs r) v
    (redeem_script r) (witness_script r) (hd_keypaths r)
    (final_script_sig r) (final_script_witness r) (por_commitment r)
    (proprietary r) (unknown r).
Definition set_redeem_script v (r : t) : t :=
  mk (non_witness_utxo r) (witness_utxo r) (partial_sigs r) (sighash r) v
    (witness_script r) (hd_keypaths r) (final_script_sig r)
    (final_script_witness r) (por_commitment r) (proprietary r) (unknown r).
Definition set_witness_script v (r : t) : t :=
  mk (non_witness_utxo r) (witness_utxo r) (partial_sigs r) (sighash r)
    (redeem_script r) v (hd_keypaths r) (final_script_sig r)
    (final_script_witness r) (por_commitment r) (proprietary r) (unknown r).
Definition set_hd_keypaths v (r : t) : t :=
  mk (non_witness_utxo r) (witness_utxo r) (partial_sigs r) (sighash r)
    (redeem_script r) (witness_script r) v (final_script_sig r)
    (final_script_witness r) (por_commitment r) (proprietary r) (unknown r).
Definition set_final_script_sig v (r : t) : t :=
  mk (non_witness_utxo r) (witness_utxo r) (partial_sigs r) (sighash r)
    (redeem_script r) (witness_script r) (hd_keypaths r) v
    (final_script_witness r) (por_commitment r) (proprietary r) (unknown r).
Definition set_final_script_witness v (r : t) : t :=
  mk (non_witness_utxo r) (witness_utxo r) (partial_sigs r) (sighash r)
    (redeem_script r) (witness_script r) (hd_keypaths r)
    (final_script_sig r) v (por_commitment r) (proprietary r) (unknown r).
Definition set_por_commitment v (r : t) : t :=
  mk (non_witness_utxo r) (witness_utxo r) (partial_sigs r) (sighash r)
    (redeem_script r) (witness_script r) (hd_keypaths r)
    (final_script_sig r) (final_script_witness r) v (proprietary r)
    (unknown r).
Definition set_proprietary v (r : t) : t :=
  mk (non_witness_utxo r) (witness_utxo r) (partial_sigs r) (sighash r)
    (redeem_script r) (witness_script r) (hd_keypaths r)
    (final_script_sig r) (final_script_witness r) (por_commitment r) v
    (unknown r).
Definition set_unknown v (r : t) : t :=
  mk (non_witness_utxo r) (witness_utxo r) (partial_sigs r) (sighash r)
    (redeem_script r) (witness_script r) (hd_keypaths r)
    (final_script_sig r) (final_script_witness r) (por_commitment r)
    (proprietary r) v.
End PsbtInput.
Abbreviation PsbtInput := PsbtInput.t.

(** [psbt.py], [class PsbtOutput] *)
Module PsbtOutput.
Record t : Type := mk {
  redeem_script : list Token;
  witness_script : list Token;
  hd_keypaths : list HdKeypath;
  proprietary : dict Z (dict string string);
  unknown : dict string string }.

(** [PsbtOutput()] *)
Definition default : t := mk [] [] [] [] [].

(** [r.f = v] *)
Definition set_redeem_script v (r : t) : t :=
  mk v (witness_script r) (hd_keypaths r) (proprietary r) (unknown r).
Definition set_witness_script v (r : t) : t :=
  mk (redeem_script r) v (hd_keypaths r) (proprietary r) (unknown r).
Definition set_hd_keypaths v (r : t) : t :=
  mk (redeem_script r) (witness_script r) v (proprietary r) (unknown r).
Definition set_proprietary v (r : t) : t :=
  mk (redeem_script r) (witness_script r) (hd_keypaths r) v (unknown r).
Definition set_unknown v (r : t) : t :=
  mk (redeem_script r) (witness_script r) (hd_keypaths r) (proprietary r) v.
End PsbtOutput.
Abbreviation PsbtOutput := PsbtOutput.t.

(** [psbt.py], [class Psbt], as a value: the transaction and the records
    it holds, read through its references. *)
Module Psbt.
Record t : Type := mk {
  tx : Tx;
  inputs : list PsbtInput;
  outputs : list PsbtOutput;
  version : option Z;
  hd_keypaths : list HdKeypath;
  proprietary : dict Z (dict string string);
  unknown : dict string string }.

(** [r.f = v] *)
Definition set_tx v (r : t) : t :=
  mk v (inputs r) (outputs r) (version r) (hd_keypaths r) (proprietary r)
    (unknown r).
Definition set_inputs v (r : t) : t :=
  mk (tx r) v (outputs r) (version r) (hd_keypaths r) (proprietary r)
    (unknown r).
Definition set_outputs v (r : t) : t :=
  mk (tx r) (inputs r) v (version r) (hd_keypaths r) (proprietary r)
    (unknown r).
Definition set_version v (r : t) : t :=
  mk (tx r) (inputs r) (outputs r) v (hd_keypaths r) (proprietary r)
    (unknown r).
Definition set_hd_keypaths v (r : t) : t :=
  mk (tx r) (inputs r) (outputs r) (version r) v (proprietary r) (unknown r).
Definition set_proprietary v (r : t) : t :=
  mk (tx r) (inputs r) (outputs r) (version r) (hd_keypaths r) v (unknown r).
Definition set_unknown v (r : t) : t :=
  mk (tx r) (inputs r) (outputs r) (version r) (hd_keypaths r)
    (proprietary r) v.
End Psbt.
Abbreviation Psbt := Psbt.t.

(** ** Collaborators *)

(** The functions [psbt.py] and [tx.py] import from modules that are not
    among the sources ([tx_in.py], [tx_out.py], [script.py], [utils.py],
    [scriptpubkey.py]) and from Python's [base64]. A parser of a stream
    returns its value and the rest of the stream. *)
Class Collaborators : Type := {
  TxIn_serialize : TxIn -> result bytes;
  TxIn_deserialize : bytes -> result (TxIn * bytes);
  TxIn_assert_valid : TxIn -> result unit;
  witness_serialize : list string -> result bytes;
  witness_deserialize : bytes -> result (list string * bytes);
  TxOut_serialize : TxOut -> result bytes;
  TxOut_deserialize : bytes -> result (TxOut * bytes);
  TxOut_assert_valid : TxOut -> result unit;
  script_encode : list Token -> result bytes;
  script_decode : bytes -> result (list Token);
  script_serialize : list Token -> result bytes;
  hash160 : bytes -> bytes;
  sha256 : bytes -> bytes;
  hash256 : bytes -> bytes;
  (** the tuple's second component is the payload *)
  payload_from_scriptPubKey : list Token -> result (string * bytes);
  b64encode : bytes -> string;
  b64decode : string -> result bytes }.

(** ** Control structure *)

(** [for x in l: s = f(s, x)], stopping at the first exception *)
Fixpoint foldM {A S : Type} (f : S -> A -> result S) (l : list A) (s : S)
  : result S :=
  match l with
  | [] => Ok s
  | x :: r => s' ← f s x; foldM f r s'
  end.

(** [[p(stream) for _ in range(n)]] *)
Fixpoint read_n {A : Type} (p : bytes -> result (A * bytes)) (n : nat)
  (stream : bytes) : result (list A * bytes) :=
  match n with
  | O => Ok ([], stream)
  | S k =>
      '(x, stream) ← p stream;
      '(xs, stream) ← read_n p k stream;
      Ok (x :: xs, stream)
  end.

(** Truth values of the conditions the code tests *)
Definition nonempty {A} (l : list A) : bool :=
  match l with [] => false | _ => true end.

Definition truthy_int (o : option Z) : bool :=
  match o with Some n => negb (n =? 0) | None => false end.

Definition truthy_str (o : option string) : bool :=
  match o with Some s => negb (String.eqb s "") | None => false end.

Definition is_some {A} (o : option A) : bool :=
  match o with Some _ => true | None => false end.

Section Codec.
Context `{Collaborators}.

(** ** Transactions ([tx.py]) *)

Definition Tx_assert_valid (self : Tx) : result unit :=
  (if negb (nonempty (Tx.vin self)) then Raise ValueError else Ok tt);;
  foldM (fun _ tx_in => TxIn_assert_valid tx_in) (Tx.vin self) tt;;
  (if negb (nonempty (Tx.vout self)) then Raise ValueError else Ok tt);;
  foldM (fun _ tx_out => TxOut_assert_valid tx_out) (Tx.vout self) tt.

Definition Tx_serialize (self : Tx) (include_witness assert_valid : bool)
  : result bytes :=
  (if assert_valid then Tx_assert_valid self else Ok tt);;
  out ← to_bytes (Tx.nVersion self) 4;
  let witness_flag := false in
  n ← varint.encode (len (Tx.vin self));
  let out := out ++ n in
  '(out, witness_flag) ←
    foldM (fun '(out, witness_flag) tx_input =>
             s ← TxIn_serialize tx_input;
             Ok (out ++ s,
                 if nonempty (TxIn.txinwitness tx_input)
                 then true else witness_flag))
      (Tx.vin self) (out, witness_flag);
  n ← varint.encode (len (Tx.vout self));
  let out := out ++ n in
  out ← foldM (fun out tx_output =>
                 s ← TxOut_serialize tx_output; Ok (out ++ s))
          (Tx.vout self) out;
  out ← (if witness_flag && include_witness
         then foldM (fun out tx_input =>
                       w ← witness_serialize (TxIn.txinwitness tx_input);
                       Ok (out ++ w))
                (Tx.vin self) out
         else Ok out);
  lt ← to_bytes (Tx.nLockTime self) 4;
  let out := out ++ lt in
  let out := if witness_flag && include_witness
             then take 4 out ++ [x00; x01] ++ drop 4 out else out in
  Ok out.

Definition set_txinwitness (w : list string) (i : TxIn) : TxIn :=
  TxIn.mk (TxIn.prevout i) (TxIn.scriptSig i) (TxIn.nSequence i) w.

Definition set_scriptSig (s : list Token) (i : TxIn) : TxIn :=
  TxIn.mk (TxIn.prevout i) s (TxIn.nSequence i) (TxIn.txinwitness i).

(** The stream is the part of [data] not read yet. *)
Definition Tx_deserialize (data : bytes) (assert_valid : bool)
  : result Tx :=
  let stream := data in
  let nVersion := from_le (take 4 stream) in
  let stream := drop 4 stream in
  let witness_flag := bool_decide (take 2 stream = [x00; x01]) in
  let stream := if witness_flag then drop 2 stream else stream in
  '(input_count, stream) ← varint.read stream;
  '(vin, stream) ← read_n TxIn_deserialize (Z.to_nat input_count) stream;
  '(output_count, stream) ← varint.read stream;
  '(vout, stream) ← read_n TxOut_deserialize (Z.to_nat output_count) stream;
  '(vin, stream) ←
    (if witness_flag
     then foldM (fun '(done, stream) tx_input =>
                   '(w, stream) ← witness_deserialize stream;
                   Ok (done ++ [set_txinwitness w tx_input], stream))
            vin ([], stream)
     else Ok (vin, stream));
  let nLockTime := from_le (take 4 stream) in
  let tx := Tx.mk nVersion nLockTime vin vout in
  (if assert_valid then Tx_assert_valid tx else Ok tt);;
  Ok tx.

(** [Tx.txid]: [hash256(self.serialize(False))[::-1].hex()] *)
Definition Tx_txid (self : Tx) : result string :=
  s ← Tx_serialize self false true;
  Ok (hex (rev (hash256 s))).

(** [Tx.hash]: [hash256(self.serialize())[::-1].hex()] *)
Definition Tx_hash (self : Tx) : result string :=
  s ← Tx_serialize self true true;
  Ok (hex (rev (hash256 s))).

(** [Tx.size]: [len(self.serialize())] *)
Definition Tx_size (self : Tx) : result Z :=
  s ← Tx_serialize self true true;
  Ok (len s).

(** [Tx.weight]: [len(self.serialize(False)) * 3 + len(self.serialize())] *)
Definition Tx_weight (self : Tx) : result Z :=
  a ← Tx_serialize self false true;
  b ← Tx_serialize self true true;
  Ok (len a * 3 + len b).

End Codec.

Section Records.
Context `{Collaborators}.

(** ** Per-role records ([psbt.py]) *)

(** The three decoders repeat these fragments verbatim; so do the three
    serializers. *)

(** [{"xpub": key[1:].hex(), "fingerprint": value[:4].hex(),
      "derivation_path": value[4:].hex()}] *)
Definition decode_hd_keypath (key value : bytes) : HdKeypath :=
  HdKeypath.mk (hex (slice_from 1 key)) (hex (slice_to 4 value))
    (hex (slice_from 4 value)).

Definition decode_proprietary (key value : bytes)
  (proprietary : dict Z (dict string string))
  : result (dict Z (dict string string)) :=
  prefix ← varint.decode (slice_from 1 key);
  let proprietary :=
    if negb (dict_mem prefix proprietary)
    then dict_set prefix [] proprietary else proprietary in
  n ← varint.encode prefix;
  let key := slice_from (1 + len n) key in
  inner ← match dict_get prefix proprietary with
          | Some d => Ok d
          | None => Raise KeyError
          end;
  Ok (dict_set prefix (dict_set (hex key) (hex value) inner) proprietary).

Definition decode_unknown (key value : bytes) (unknown : dict string string)
  : dict string string :=
  dict_set (hex key) (hex value) unknown.

Definition serialize_hd_keypaths (tag : bytes) (hd_keypaths : list HdKeypath)
  (out : bytes) : result bytes :=
  if nonempty hd_keypaths then
    foldM (fun out hd_keypath =>
             x ← fromhex (HdKeypath.xpub hd_keypath);
             let out := out ++ tag ++ x in
             keypath ← fromhex (HdKeypath.fingerprint hd_keypath);
             dp ← fromhex (HdKeypath.derivation_path hd_keypath);
             let keypath := keypath ++ dp in
             n ← varint.encode (len keypath);
             Ok (out ++ n ++ keypath))
      hd_keypaths out
  else Ok out.

Definition serialize_proprietary (proprietary : dict Z (dict string string))
  (out : bytes) : result bytes :=
  if nonempty proprietary then
    foldM (fun out '(owner, dictionary) =>
             foldM (fun out '(key, value) =>
                      o ← varint.encode owner;
                      k ← fromhex key;
                      let key_bytes := [xfc] ++ o ++ k in
                      n ← varint.encode (len key_bytes);
                      let out := out ++ n ++ key_bytes in
                      n ← varint.encode (slen value / 2);
                      v ← fromhex value;
                      Ok (out ++ n ++ v))
               dictionary out)
      proprietary out
  else Ok out.

Definition serialize_unknown (unknown : dict string string) (out : bytes)
  : result bytes :=
  if nonempty unknown then
    foldM (fun out '(key, value) =>
             n ← varint.encode (slen key / 2);
             k ← fromhex key;
             let out := out ++ n ++ k in
             n ← varint.encode (slen value / 2);
             v ← fromhex value;
             Ok (out ++ n ++ v))
      unknown out
  else Ok out.

(** [PsbtInput.assert_valid] and [PsbtOutput.assert_valid]: [pass] *)
Definition PsbtInput_assert_valid (self : PsbtInput) : result unit := Ok tt.
Definition PsbtOutput_assert_valid (self : PsbtOutput) : result unit := Ok tt.

(** The body of the loop of [PsbtInput.decode]; [out] holds the local
    variables the constructor is called with. *)
Definition PsbtInput_decode_entry (out : PsbtInput) (kv : bytes * bytes)
  : result PsbtInput :=
  let '(key, value) := kv in
  k0 ← py_index key 0;
  if decide (k0 = x00) then
    py_assert (len key =? 1) "";;
    non_witness_utxo ← Tx_deserialize value true;
    Ok (PsbtInput.set_non_witness_utxo (Some non_witness_utxo) out)
  else if decide (k0 = x01) then
    py_assert (len key =? 1) "";;
    '(witness_utxo, _) ← TxOut_deserialize value;
    Ok (PsbtInput.set_witness_utxo (Some witness_utxo) out)
  else if decide (k0 = x02) then
    py_assert (len key =? 33 + 1) "";;
    Ok (PsbtInput.set_partial_sigs
          (dict_set (hex (slice_from 1 key)) (hex value)
             (PsbtInput.partial_sigs out)) out)
  else if decide (k0 = x03) then
    py_assert (len key =? 1) "";;
    py_assert (len value =? 4) "";;
    Ok (PsbtInput.set_sighash (Some (from_le value)) out)
  else if decide (k0 = x04) then
    py_assert (len key =? 1) "";;
    redeem_script ← script_decode value;
    Ok (PsbtInput.set_redeem_script redeem_script out)
  else if decide (k0 = x05) then
    py_assert (len key =? 1) "";;
    witness_script ← script_decode value;
    Ok (PsbtInput.set_witness_script witness_script out)
  else if decide (k0 = x06) then
    py_assert (len key =? 33 + 1) "";;
    py_assert (len value mod 4 =? 0) "";;
    Ok (PsbtInput.set_hd_keypaths
          (PsbtInput.hd_keypaths out ++ [decode_hd_keypath key value]) out)
  else if decide (k0 = x07) then
    py_assert (len key =? 1) "";;
    final_script_sig ← script_decode value;
    Ok (PsbtInput.set_final_script_sig final_script_sig out)
  else if decide (k0 = x08) then
    py_assert (len key =? 1) "";;
    '(final_script_witness, _) ← witness_deserialize value;
    Ok (PsbtInput.set_final_script_witness final_script_witness out)
  else if decide (k0 = x09) then
    py_assert (len key =? 1) "";;
    Ok (PsbtInput.set_por_commitment (Some (hex value)) out)
  else if decide (k0 = xfc) then
    proprietary ← decode_proprietary key value (PsbtInput.proprietary out);
    Ok (PsbtInput.set_proprietary proprietary out)
  else
    Ok (PsbtInput.set_unknown
          (decode_unknown key value (PsbtInput.unknown out)) out).

Definition PsbtInput_decode (input_map : dict bytes bytes)
  : result PsbtInput :=
  out ← foldM PsbtInput_decode_entry input_map
          (PsbtInput.mk None None [] (Some 0) [] [] [] [] [] None [] []);
  PsbtInput_assert_valid out;;
  Ok out.

Definition PsbtInput_serialize (self : PsbtInput) : result bytes :=
  let out := [] in
  out ← match PsbtInput.non_witness_utxo self with
        | Some t =>
            let out := out ++ [x01; x00] in
            utxo ← Tx_serialize t true true;
            n ← varint.encode (len utxo);
            Ok (out ++ n ++ utxo)
        | None => Ok out
        end;
  out ← match PsbtInput.witness_utxo self with
        | Some t =>
            let out := out ++ [x01; x01] in
            utxo ← TxOut_serialize t;
            n ← varint.encode (len utxo);
            Ok (out ++ n ++ utxo)
        | None => Ok out
        end;
  out ← (if nonempty (PsbtInput.partial_sigs self) then
           foldM (fun out '(key, value) =>
                    k ← fromhex key;
                    let out := out ++ [x22; x02] ++ k in
                    n ← varint.encode (slen value / 2);
                    v ← fromhex value;
                    Ok (out ++ n ++ v))
             (PsbtInput.partial_sigs self) out
         else Ok out);
  out ← (if truthy_int (PsbtInput.sighash self) then
           let out := out ++ [x01; x03; x04] in
           s ← to_bytes (default 0 (PsbtInput.sighash self)) 4;
           Ok (out ++ s)
         else Ok out);
  out ← (if nonempty (PsbtInput.redeem_script self) then
           let out := out ++ [x01; x04] in
           s ← script_serialize (PsbtInput.redeem_script self);
           Ok (out ++ s)
         else Ok out);
  out ← (if nonempty (PsbtInput.witness_script self) then
           let out := out ++ [x01; x05] in
           s ← script_serialize (PsbtInput.witness_script self);
           Ok (out ++ s)
         else Ok out);
  out ← serialize_hd_keypaths [x22; x06] (PsbtInput.hd_keypaths self) out;
  out ← (if nonempty (PsbtInput.final_script_sig self) then
           let out := out ++ [x01; x07] in
           s ← script_serialize (PsbtInput.final_script_sig self);
           Ok (out ++ s)
         else Ok out);
  out ← (if nonempty (PsbtInput.final_script_witness self) then
           let out := out ++ [x01; x08] in
           wit ← witness_serialize (PsbtInput.final_script_witness self);
           n ← varint.encode (len wit);
           Ok (out ++ n ++ wit)
         else Ok out);
  out ← (if truthy_str (PsbtInput.por_commitment self) then
           let out := out ++ [x01; x09] in
           c ← fromhex (default "" (PsbtInput.por_commitment self));
           n ← varint.encode (len c);
           Ok (out ++ n ++ c)
         else Ok out);
  out ← serialize_proprietary (PsbtInput.proprietary self) out;
  out ← serialize_unknown (PsbtInput.unknown self) out;
  Ok out.

(** The body of the loop of [PsbtOutput.decode] *)
Definition PsbtOutput_decode_entry (out : PsbtOutput) (kv : bytes * bytes)
  : result PsbtOutput :=
  let '(key, value) := kv in
  k0 ← py_index key 0;
  if decide (k0 = x00) then
    py_assert (len key =? 1) "";;
    redeem_script ← script_decode value;
    Ok (PsbtOutput.set_redeem_script redeem_script out)
  else if decide (k0 = x01) then
    py_assert (len key =? 1) "";;
    witness_script ← script_decode value;
    Ok (PsbtOutput.set_witness_script witness_script out)
  else if decide (k0 = x02) then
    py_assert (len key =? 33 + 1) "";;
    py_assert (len value mod 4 =? 0) "";;
    Ok (PsbtOutput.set_hd_keypaths
          (PsbtOutput.hd_keypaths out ++ [decode_hd_keypath key value]) out)
  else if decide (k0 = xfc) then
    proprietary ← decode_proprietary key value (PsbtOutput.proprietary out);
    Ok (PsbtOutput.set_proprietary proprietary out)
  else
    Ok (PsbtOutput.set_unknown
          (decode_unknown key value (PsbtOutput.unknown out)) out).

Definition PsbtOutput_decode (output_map : dict bytes bytes)
  : result PsbtOutput :=
  out ← foldM PsbtOutput_decode_entry output_map (PsbtOutput.mk [] [] [] [] []);
  PsbtOutput_assert_valid out;;
  Ok out.

Definition PsbtOutput_serialize (self : PsbtOutput) : result bytes :=
  let out := [] in
  out ← (if nonempty (PsbtOutput.redeem_script self) then
           let out := out ++ [x01; x00] in
           s ← script_serialize (PsbtOutput.redeem_script self);
           Ok (out ++ s)
         else Ok out);
  out ← (if nonempty (PsbtOutput.witness_script self) then
           let out := out ++ [x01; x01] in
           s ← script_serialize (PsbtOutput.witness_script self);
           Ok (out ++ s)
         else Ok out);
  out ← serialize_hd_keypaths [x22; x02] (PsbtOutput.hd_keypaths self) out;
  out ← serialize_proprietary (PsbtOutput.proprietary self) out;
  out ← serialize_unknown (PsbtOutput.unknown self) out;
  Ok out.

End Records.

(** ** Transaction container ([psbt.py], [class Psbt]) *)

(** The local variables of the loop over the global map in
    [Psbt.deserialize]; [g_tx] is [None] while [tx] is unbound. *)
Record GlobalLocals : Type := mkGlobalLocals {
  g_tx : option Tx;
  g_version : Z;
  g_hd_keypaths : list HdKeypath;
  g_proprietary : dict Z (dict string string);
  g_unknown : dict string string }.

Section Container.
Context `{Collaborators}.

(** The local [scriptPubKey] of [assert_valid] is [None] while unbound;
    reading it then raises [UnboundLocalError]. It is not reset between
    the turns of the loop. *)
Definition read_local {A} (v : option A) : result A :=
  match v with Some x => Ok x | None => Raise UnboundLocalError end.

Definition utxo_scriptPubKey (utxo : Tx) (tx_in : TxIn)
  : result (list Token) :=
  o ← py_index (Tx.vout utxo) (OutPoint.n (TxIn.prevout tx_in));
  Ok (TxOut.scriptPubKey o).

(** The body of the loop [for i, tx_in in enumerate(self.tx.vin)]. The
    last assertion of the source carries the tuple [(witness_script, hash,
    scriptPubKey, payload)] as its message; [AssertionError] holds a
    string here, and that assertion is given the empty one. *)
Definition Psbt_assert_valid_input (self : Psbt)
  (scriptPubKey : option (list Token)) (entry : Z * TxIn)
  : result (option (list Token)) :=
  let '(i, tx_in) := entry in
  input ← py_index (Psbt.inputs self) i;
  scriptPubKey ←
    match PsbtInput.non_witness_utxo input with
    | Some utxo =>
        let txid := OutPoint.hash (TxIn.prevout tx_in) in
        utxo_txid ← Tx_txid utxo;
        py_assert (bool_decide (utxo_txid = txid)) "";;
        s ← utxo_scriptPubKey utxo tx_in;
        Ok (Some s)
    | None =>
        match PsbtInput.witness_utxo input with
        | Some utxo => Ok (Some (TxOut.scriptPubKey utxo))
        | None => Ok scriptPubKey
        end
    end;
  (if nonempty (PsbtInput.redeem_script input) then
     e ← script_encode (PsbtInput.redeem_script input);
     let hash := hash160 e in
     s ← read_local scriptPubKey;
     p ← payload_from_scriptPubKey s;
     py_assert (bool_decide (hash = snd p)) ""
   else Ok tt);;
  if nonempty (PsbtInput.witness_script input) then
    scriptPubKey ←
      match PsbtInput.non_witness_utxo input with
      | Some utxo => s ← utxo_scriptPubKey utxo tx_in; Ok (Some s)
      | None =>
          match PsbtInput.witness_utxo input with
          | Some utxo => Ok (Some (TxOut.scriptPubKey utxo))
          | None => Ok scriptPubKey
          end
      end;
    let scriptPubKey :=
      if nonempty (PsbtInput.redeem_script input)
      then Some (PsbtInput.redeem_script input) else scriptPubKey in
    e ← script_encode (PsbtInput.witness_script input);
    let hash := sha256 e in
    s ← read_local scriptPubKey;
    p ← payload_from_scriptPubKey s;
    py_assert (bool_decide (hash = snd p)) "";;
    Ok scriptPubKey
  else Ok scriptPubKey.

(** [enumerate(l)] *)
Definition enumerate {A} (l : list A) : list (Z * A) :=
  imap (fun i x => (Z.of_nat i, x)) l.

Definition Psbt_assert_valid (self : Psbt) : result unit :=
  foldM (fun _ vin =>
           py_assert (bool_decide (TxIn.scriptSig vin = [])) "";;
           py_assert (bool_decide (TxIn.txinwitness vin = [])) "")
    (Tx.vin (Psbt.tx self)) tt;;
  foldM (fun _ input_map => PsbtInput_assert_valid input_map)
    (Psbt.inputs self) tt;;
  foldM (fun _ output_map => PsbtOutput_assert_valid output_map)
    (Psbt.outputs self) tt;;
  foldM (Psbt_assert_valid_input self) (enumerate (Tx.vin (Psbt.tx self)))
    None;;
  Ok tt.

(** The body of the loop over the global map in [Psbt.deserialize] *)
Definition Psbt_deserialize_entry (g : GlobalLocals) (kv : bytes * bytes)
  : result GlobalLocals :=
  let '(key, value) := kv in
  k0 ← py_index key 0;
  if decide (k0 = x00) then
    py_assert (len key =? 1) "";;
    tx ← Tx_deserialize value true;
    Ok (mkGlobalLocals (Some tx) (g_version g) (g_hd_keypaths g)
          (g_proprietary g) (g_unknown g))
  else if decide (k0 = x01) then
    py_assert (len key =? 78 + 1) "";;
    py_assert (len value mod 4 =? 0) "";;
    Ok (mkGlobalLocals (g_tx g) (g_version g)
          (g_hd_keypaths g ++ [decode_hd_keypath key value])
          (g_proprietary g) (g_unknown g))
  else if decide (k0 = xfb) then
    py_assert (len value =? 4) "";;
    Ok (mkGlobalLocals (g_tx g) (from_le value) (g_hd_keypaths g)
          (g_proprietary g) (g_unknown g))
  else if decide (k0 = xfc) then
    proprietary ← decode_proprietary key value (g_proprietary g);
    Ok (mkGlobalLocals (g_tx g) (g_version g) (g_hd_keypaths g)
          proprietary (g_unknown g))
  else
    Ok (mkGlobalLocals (g_tx g) (g_version g) (g_hd_keypaths g)
          (g_proprietary g) (decode_unknown key value (g_unknown g))).

Definition read_input (data : bytes) : result (PsbtInput * bytes) :=
  '(input_map, data) ← deserialize_map data;
  i ← PsbtInput_decode input_map;
  Ok (i, data).

Definition read_output (data : bytes) : result (PsbtOutput * bytes) :=
  '(output_map, data) ← deserialize_map data;
  o ← PsbtOutput_decode output_map;
  Ok (o, data).

Definition magic : bytes := [x70; x73; x62; x74; xff].

Definition Psbt_deserialize (string : string) : result Psbt :=
  data ← b64decode string;
  let magic_bytes := slice_to 5 data in
  py_assert (bool_decide (magic_bytes = magic))
    "Malformed psbt: missing magic bytes";;
  let data := slice_from 5 data in
  '(global_map, data) ← deserialize_map data;
  g ← foldM Psbt_deserialize_entry global_map
        (mkGlobalLocals None 0 [] [] []);
  tx ← read_local (g_tx g);
  let input_len := length (Tx.vin tx) in
  let output_len := length (Tx.vout tx) in
  '(inputs, data) ← read_n read_input input_len data;
  '(outputs, data) ← read_n read_output output_len data;
  let psbt :=
    Psbt.mk tx inputs outputs (Some (g_version g)) (g_hd_keypaths g)
      (g_proprietary g) (g_unknown g) in
  Psbt_assert_valid psbt;;
  Ok psbt.

(** [Psbt.serialize] before [b64encode(out).decode()] *)
Definition Psbt_serialize_bytes (self : Psbt) : result bytes :=
  let out := magic in
  let out := out ++ [x01; x00] in
  tx ← Tx_serialize (Psbt.tx self) true true;
  n ← varint.encode (len tx);
  let out := out ++ n ++ tx in
  out ← serialize_hd_keypaths [x4f; x01] (Psbt.hd_keypaths self) out;
  out ← (if truthy_int (Psbt.version self) then
           let out := out ++ [x01; xfb; x04] in
           s ← to_bytes (default 0 (Psbt.version self)) 4;
           Ok (out ++ s)
         else Ok out);
  out ← serialize_proprietary (Psbt.proprietary self) out;
  out ← serialize_unknown (Psbt.unknown self) out;
  let out := out ++ [x00] in
  out ← foldM (fun out input_map =>
                 s ← PsbtInput_serialize input_map; Ok (out ++ s ++ [x00]))
          (Psbt.inputs self) out;
  out ← foldM (fun out output_map =>
                 s ← PsbtOutput_serialize output_map; Ok (out ++ s ++ [x00]))
          (Psbt.outputs self) out;
  Ok out.

Definition Psbt_serialize (self : Psbt) : result string :=
  out ← Psbt_serialize_bytes self;
  Ok (b64encode out).

End Container.

(** ** [psbt_in.py]: the later decoder of a partial-signature entry *)

Definition _deserialize_partial_sigs (k v : bytes)
  : result (dict bytes bytes) :=
  if negb ((len k - 1 =? 33) || (len k - 1 =? 65)) then
    Raise (BTClibValueError
             ("invalid partial signature pubkey length: " +:+
              pretty (len k - 1) +:+ " instead of (33, 65)"))
  else Ok [(slice_from 1 k, v)].

(** ** The object store *)

(** A [Psbt] object refers to its transaction and to its records; the
    records and the transaction are objects of their own, so that a write
    through one reference is seen through every other. Attribute values
    that are lists or dictionaries of plain data are held in the object
    that owns them. *)
Abbreviation loc := nat.

Module PsbtObj.
Record t : Type := mk {
  tx : loc;
  inputs : list loc;
  outputs : list loc;
  version : option Z;
  hd_keypaths : list HdKeypath;
  proprietary : dict Z (dict string string);
  unknown : dict string string }.

Definition set_inputs v (r : t) : t :=
  mk (tx r) v (outputs r) (version r) (hd_keypaths r) (proprietary r)
    (unknown r).
Definition set_outputs v (r : t) : t :=
  mk (tx r) (inputs r) v (version r) (hd_keypaths r) (proprietary r)
    (unknown r).
Definition set_unknown v (r : t) : t :=
  mk (tx r) (inputs r) (outputs r) (version r) (hd_keypaths r)
    (proprietary r) v.
End PsbtObj.
Abbreviation PsbtObj := PsbtObj.t.

Record store : Type := mkStore {
  txs : list Tx;
  ins : list PsbtInput;
  outs : list PsbtOutput;
  psbts : list PsbtObj }.

Definition set_txs v (s : store) : store := mkStore v (ins s) (outs s) (psbts s).
Definition set_ins v (s : store) : store := mkStore (txs s) v (outs s) (psbts s).
Definition set_outs v (s : store) : store := mkStore (txs s) (ins s) v (psbts s).
Definition set_psbts v (s : store) : store := mkStore (txs s) (ins s) (outs s) v.

(** A computation on the store that may raise; the store it leaves is kept
    also when it raises. *)
Definition M (A : Type) : Type := store -> result A * store.

#[global] Instance M_ret : MRet M := fun A a s => (Ok a, s).
#[global] Instance M_bind : MBind M :=
  fun A B f c s =>
    match c s with
    | (Ok a, s') => f a s'
    | (Raise e, s') => (Raise e, s')
    end.

Definition lift {A} (r : result A) : M A := fun s => (r, s).

(** [for x in l: f(x)] and [[f(x) for x in l]] on the store *)
Fixpoint forM_ {A} (f : A -> M unit) (l : list A) : M unit :=
  match l with
  | [] => mret tt
  | x :: r => f x;; forM_ f r
  end.

Fixpoint forM {A B} (f : A -> M B) (l : list A) : M (list B) :=
  match l with
  | [] => mret []
  | x :: r => y ← f x; ys ← forM f r; mret (y :: ys)
  end.

Definition deref {A} (heap : store -> list A) (l : loc) : M A :=
  fun s => match heap s !! l with
           | Some x => (Ok x, s)
           | None => (Raise (Stuck "dangling"), s)
           end.

Definition assign {A} (heap : store -> list A)
  (set_heap : list A -> store -> store) (l : loc) (x : A) : M unit :=
  fun s => (Ok tt, set_heap (<[l := x]> (heap s)) s).

Definition alloc {A} (heap : store -> list A)
  (set_heap : list A -> store -> store) (x : A) : M loc :=
  fun s => (Ok (length (heap s)), set_heap (heap s ++ [x]) s).

(** The value of the [Psbt] object at [p]: what its methods read. *)
Definition load (s : store) (p : loc) : option Psbt :=
  P ← psbts s !! p;
  T ← txs s !! PsbtObj.tx P;
  ri ← mapM (fun l => ins s !! l) (PsbtObj.inputs P);
  ro ← mapM (fun l => outs s !! l) (PsbtObj.outputs P);
  Some (Psbt.mk T ri ro (PsbtObj.version P) (PsbtObj.hd_keypaths P)
          (PsbtObj.proprietary P) (PsbtObj.unknown P)).

(** ** Attributes, for the code that goes through [__dict__] *)

(** The values the attributes of a record hold. *)
Inductive attr : Type :=
| ATx (v : option Tx)
| ATxOut (v : option TxOut)
| AInt (v : option Z)
| AStr (v : option string)
| ADict (v : dict string string)
| ADictOfDict (v : dict Z (dict string string))
| ATokens (v : list Token)
| AStrs (v : list string)
| AKeypaths (v : list HdKeypath).

#[global] Instance attr_eq_dec : EqDecision attr.
Proof. solve_decision. Defined.

(** [isinstance(a, dict)], [isinstance(a, list)], [bool(a)] *)
Definition isinstance_dict (a : attr) : bool :=
  match a with ADict _ | ADictOfDict _ => true | _ => false end.

Definition isinstance_list (a : attr) : bool :=
  match a with ATokens _ | AStrs _ | AKeypaths _ => true | _ => false end.

Definition truthy (a : attr) : bool :=
  match a with
  | ATx v => is_some v
  | ATxOut v => is_some v
  | AInt v => truthy_int v
  | AStr v => truthy_str v
  | ADict v => nonempty v
  | ADictOfDict v => nonempty v
  | ATokens v => nonempty v
  | AStrs v => nonempty v
  | AKeypaths v => nonempty v
  end.

(** [o.update(v)] *)
Definition attr_update (o v : attr) : result attr :=
  match o, v with
  | ADict d, ADict d2 => Ok (ADict (dict_update d d2))
  | ADictOfDict d, ADictOfDict d2 => Ok (ADictOfDict (dict_update d d2))
  | _, _ => Raise TypeError
  end.

(** [for x in v: if x not in o: o.append(x)] *)
Definition extend_new {A} `{EqDecision A} (o v : list A) : list A :=
  fold_left (fun o x => if bool_decide (x ∈ o) then o else o ++ [x]) v o.

Definition attr_extend (o v : attr) : result attr :=
  match o, v with
  | ATokens l, ATokens l2 => Ok (ATokens (extend_new l l2))
  | AStrs l, AStrs l2 => Ok (AStrs (extend_new l l2))
  | AKeypaths l, AKeypaths l2 => Ok (AKeypaths (extend_new l l2))
  | _, _ => Raise TypeError
  end.

(** A dataclass whose instances live in the store: the keys of
    [__dict__] in order, [getattr], [setattr], and the heap of its
    instances. *)
Class Dataclass (R : Type) : Type := {
  dict_keys_of : list string;
  getattr : R -> string -> result attr;
  setattr : R -> string -> attr -> result R;
  heap : store -> list R;
  set_heap : list R -> store -> store;
  assert_valid : R -> result unit }.

Definition PsbtInput_getattr (r : PsbtInput) (key : string) : result attr :=
  if decide (key = "non_witness_utxo") then Ok (ATx (PsbtInput.non_witness_utxo r))
  else if decide (key = "witness_utxo") then Ok (ATxOut (PsbtInput.witness_utxo r))
  else if decide (key = "partial_sigs") then Ok (ADict (PsbtInput.partial_sigs r))
  else if decide (key = "sighash") then Ok (AInt (PsbtInput.sighash r))
  else if decide (key = "redeem_script") then Ok (ATokens (PsbtInput.redeem_script r))
  else if decide (key = "witness_script") then Ok (ATokens (PsbtInput.witness_script r))
  else if decide (key = "hd_keypaths") then Ok (AKeypaths (PsbtInput.hd_keypaths r))
  else if decide (key = "final_script_sig") then Ok (ATokens (PsbtInput.final_script_sig r))
  else if decide (key = "final_script_witness") then Ok (AStrs (PsbtInput.final_script_witness r))
  else if decide (key = "por_commitment") then Ok (AStr (PsbtInput.por_commitment r))
  else if decide (key = "proprietary") then Ok (ADictOfDict (PsbtInput.proprietary r))
  else if decide (key = "unknown") then Ok (ADict (PsbtInput.unknown r))
  else Raise TypeError.

Definition PsbtInput_setattr (r : PsbtInput) (key : string) (a : attr)
  : result PsbtInput :=
  match a with
  | ATx v =>
      if decide (key = "non_witness_utxo") then Ok (PsbtInput.set_non_witness_utxo v r)
      else Raise TypeError
  | ATxOut v =>
      if decide (key = "witness_utxo") then Ok (PsbtInput.set_witness_utxo v r)
      else Raise TypeError
  | AInt v =>
      if decide (key = "sighash") then Ok (PsbtInput.set_sighash v r)
      else Raise TypeError
  | AStr v =>
      if decide (key = "por_commitment") then Ok (PsbtInput.set_por_commitment v r)
      else Raise TypeError
  | ADict v =>
      if decide (key = "partial_sigs") then Ok (PsbtInput.set_partial_sigs v r)
      else if decide (key = "unknown") then Ok (PsbtInput.set_unknown v r)
      else Raise TypeError
  | ADictOfDict v =>
      if decide (key = "proprietary") then Ok (PsbtInput.set_proprietary v r)
      else Raise TypeError
  | ATokens v =>
      if decide (key = "redeem_script") then Ok (PsbtInput.set_redeem_script v r)
      else if decide (key = "witness_script") then Ok (PsbtInput.set_witness_script v r)
      else if decide (key = "final_script_sig") then Ok (PsbtInput.set_final_script_sig v r)
      else Raise TypeError
  | AStrs v =>
      if decide (key = "final_script_witness")
      then Ok (PsbtInput.set_final_script_witness v r)
      else Raise TypeError
  | AKeypaths v =>
      if decide (key = "hd_keypaths") then Ok (PsbtInput.set_hd_keypaths v r)
      else Raise TypeError
  end.

#[global] Instance PsbtInput_dataclass : Dataclass PsbtInput := {
  dict_keys_of :=
    ["non_witness_utxo"; "witness_utxo"; "partial_sigs"; "sighash";
     "redeem_script"; "witness_script"; "hd_keypaths"; "final_script_sig";
     "final_script_witness"; "por_commitment"; "proprietary"; "unknown"];
  getattr := PsbtInput_getattr;
  setattr := PsbtInput_setattr;
  heap := ins;
  set_heap := set_ins;
  assert_valid := fun _ => Ok tt }.

Definition PsbtOutput_getattr (r : PsbtOutput) (key : string) : result attr :=
  if decide (key = "redeem_script") then Ok (ATokens (PsbtOutput.redeem_script r))
  else if decide (key = "witness_script") then Ok (ATokens (PsbtOutput.witness_script r))
  else if decide (key = "hd_keypaths") then Ok (AKeypaths (PsbtOutput.hd_keypaths r))
  else if decide (key = "proprietary") then Ok (ADictOfDict (PsbtOutput.proprietary r))
  else if decide (key = "unknown") then Ok (ADict (PsbtOutput.unknown r))
  else Raise TypeError.

Definition PsbtOutput_setattr (r : PsbtOutput) (key : string) (a : attr)
  : result PsbtOutput :=
  match a with
  | ATokens v =>
      if decide (key = "redeem_script") then Ok (PsbtOutput.set_redeem_script v r)
      else if decide (key = "witness_script") then Ok (PsbtOutput.set_witness_script v r)
      else Raise TypeError
  | AKeypaths v =>
      if decide (key = "hd_keypaths") then Ok (PsbtOutput.set_hd_keypaths v r)
      else Raise TypeError
  | ADictOfDict v =>
      if decide (key = "proprietary") then Ok (PsbtOutput.set_proprietary v r)
      else Raise TypeError
  | ADict v =>
      if decide (key = "unknown") then Ok (PsbtOutput.set_unknown v r)
      else Raise TypeError
  | _ => Raise TypeError
  end.

#[global] Instance PsbtOutput_dataclass : Dataclass PsbtOutput := {
  dict_keys_of :=
    ["redeem_script"; "witness_script"; "hd_keypaths"; "proprietary";
     "unknown"];
  getattr := PsbtOutput_getattr;
  setattr := PsbtOutput_setattr;
  heap := outs;
  set_heap := set_outs;
  assert_valid := fun _ => Ok tt }.

(** ** Combiner ([psbt.py], [_combine] and [combine_psbts]) *)

Section Combine.
Context {R : Type} `{Dataclass R}.

(** [getattr(l, key)] and [setattr(l, key, v)] on the object at [l] *)
Definition get_attr (l : loc) (key : string) : M attr :=
  r ← deref heap l; lift (getattr r key).

Definition set_attr (l : loc) (key : string) (v : attr) : M unit :=
  r ← deref heap l; r' ← lift (setattr r key v); assign heap set_heap l r'.

(** The body of the loop [for key in psbt_map.__dict__]. Where [out]'s
    attribute is empty, [setattr] gives it the value of [psbt_map]'s: in
    the source the two records then share one list or dictionary object,
    here [out] holds a copy. The difference shows only when a third
    record is merged into [out] afterwards, which then also changes
    [psbt_map]'s attribute in the source; on two records there is
    none. *)
Definition _combine_key (out psbt_map : loc) (key : string) : M unit :=
  v ← get_attr psbt_map key;
  if isinstance_dict v then
    o ← get_attr out key;
    if truthy o then
      v ← get_attr psbt_map key;
      o' ← lift (attr_update o v);
      set_attr out key o'
    else
      v ← get_attr psbt_map key;
      set_attr out key v
  else if isinstance_list v then
    o ← get_attr out key;
    if truthy o then
      v ← get_attr psbt_map key;
      o' ← lift (attr_extend o v);
      set_attr out key o'
    else
      v ← get_attr psbt_map key;
      set_attr out key v
  else if truthy v then
    o ← get_attr out key;
    if truthy o then
      lift (py_assert (bool_decide (v = o)) key)
    else
      set_attr out key v
  else mret tt.

Definition _combine (maps : list loc) : M loc :=
  out ← lift (py_index maps 0);
  forM_ (fun psbt_map => forM_ (_combine_key out psbt_map) dict_keys_of)
    (slice_from 1 maps);;
  r ← deref heap out;
  lift (assert_valid r);;
  mret out.

End Combine.

Section Operations.
Context `{Collaborators}.

(** The local variable [psbt] of [combine_psbts] after the loop
    [for psbt in psbts[1:]]: the last element met, unbound when there was
    none. *)
Definition combine_psbts (psbts_ : list loc) : M loc :=
  final_psbt ← lift (py_index psbts_ 0);
  P0 ← deref psbts final_psbt;
  T0 ← deref txs (PsbtObj.tx P0);
  txid ← lift (Tx_txid T0);
  forM_ (fun psbt =>
           P ← deref psbts psbt;
           T ← deref txs (PsbtObj.tx P);
           t ← lift (Tx_txid T);
           lift (py_assert (bool_decide (t = txid)) ""))
    (slice_from 1 psbts_);;
  let psbt := last (slice_from 1 psbts_) in
  psbt_ ← lift (read_local psbt);
  P ← deref psbts psbt_;
  inputs ← forM (fun x =>
                   maps ← forM (fun psbt =>
                                  P ← deref psbts psbt;
                                  lift (py_index (PsbtObj.inputs P) x))
                            psbts_;
                   _combine (R := PsbtInput) maps)
              (map Z.of_nat (seq 0 (length (PsbtObj.inputs P))));
  psbt_ ← lift (read_local psbt);
  P ← deref psbts psbt_;
  assign psbts set_psbts psbt_ (PsbtObj.set_inputs inputs P);;
  psbt_ ← lift (read_local psbt);
  P ← deref psbts psbt_;
  outputs ← forM (fun x =>
                    maps ← forM (fun psbt =>
                                   P ← deref psbts psbt;
                                   lift (py_index (PsbtObj.outputs P) x))
                             psbts_;
                    _combine (R := PsbtOutput) maps)
               (map Z.of_nat (seq 0 (length (PsbtObj.outputs P))));
  F ← deref psbts final_psbt;
  assign psbts set_psbts final_psbt (PsbtObj.set_outputs outputs F);;
  forM_ (fun psbt =>
           F ← deref psbts final_psbt;
           P ← deref psbts psbt;
           if nonempty (PsbtObj.unknown F) then
             assign psbts set_psbts final_psbt
               (PsbtObj.set_unknown
                  (dict_update (PsbtObj.unknown F) (PsbtObj.unknown P)) F)
           else
             assign psbts set_psbts final_psbt
               (PsbtObj.set_unknown (PsbtObj.unknown P) F))
    psbts_;;
  mret final_psbt.

(** ** Finalizer ([psbt.py], [finalize_psbt]) *)

(** [deepcopy] of the objects that a list of references reaches in one
    heap; [memo] maps an object already copied to its copy. *)
Fixpoint deepcopy_refs {A} (hp : store -> list A)
  (set_hp : list A -> store -> store) (ls : list loc)
  (memo : dict loc loc) : M (list loc * dict loc loc) :=
  match ls with
  | [] => mret ([], memo)
  | l :: r =>
      '(l', memo) ← match dict_get l memo with
                     | Some l' => mret (l', memo)
                     | None =>
                         x ← deref hp l;
                         l' ← alloc hp set_hp x;
                         mret (l', dict_set l l' memo)
                     end;
      '(r', memo) ← deepcopy_refs hp set_hp r memo;
      mret (l' :: r', memo)
  end.

(** [deepcopy(psbt)] *)
Definition deepcopy_psbt (psbt : loc) : M loc :=
  P ← deref psbts psbt;
  T ← deref txs (PsbtObj.tx P);
  tx' ← alloc txs set_txs T;
  '(inputs', _) ← deepcopy_refs ins set_ins (PsbtObj.inputs P) [];
  '(outputs', _) ← deepcopy_refs outs set_outs (PsbtObj.outputs P) [];
  alloc psbts set_psbts
    (PsbtObj.mk tx' inputs' outputs' (PsbtObj.version P)
       (PsbtObj.hd_keypaths P) (PsbtObj.proprietary P) (PsbtObj.unknown P)).

(** The body of the loop [for psbt_in in psbt.inputs], on the value of
    the record; the record is written back once the body is through. *)
Definition finalize_input (psbt_in : PsbtInput) : result PsbtInput :=
  py_assert (nonempty (PsbtInput.partial_sigs psbt_in)) "";;
  psbt_in ←
    (if nonempty (PsbtInput.witness_script psbt_in) then
       e ← script_encode (PsbtInput.redeem_script psbt_in);
       let psbt_in :=
         PsbtInput.set_final_script_sig [TStr (upper (hex e))] psbt_in in
       let psbt_in :=
         PsbtInput.set_final_script_witness
           (dict_values (PsbtInput.partial_sigs psbt_in)) psbt_in in
       e ← script_encode (PsbtInput.witness_script psbt_in);
       let psbt_in :=
         PsbtInput.set_final_script_witness
           (PsbtInput.final_script_witness psbt_in ++ [hex e]) psbt_in in
       Ok (if 1 <? len (PsbtInput.partial_sigs psbt_in)
           then PsbtInput.set_final_script_witness
                  ([""] ++ PsbtInput.final_script_witness psbt_in) psbt_in
           else psbt_in)
     else
       let psbt_in :=
         PsbtInput.set_final_script_sig
           (map (fun a => TStr (upper a))
              (dict_values (PsbtInput.partial_sigs psbt_in))) psbt_in in
       e ← script_encode (PsbtInput.redeem_script psbt_in);
       let psbt_in :=
         PsbtInput.set_final_script_sig
           (PsbtInput.final_script_sig psbt_in ++ [TStr (upper (hex e))])
           psbt_in in
       Ok (if 1 <? len (PsbtInput.partial_sigs psbt_in)
           then PsbtInput.set_final_script_sig
                  ([TInt 0] ++ PsbtInput.final_script_sig psbt_in) psbt_in
           else psbt_in));
  let psbt_in := PsbtInput.set_partial_sigs [] psbt_in in
  let psbt_in := PsbtInput.set_sighash (Some 0) psbt_in in
  let psbt_in := PsbtInput.set_redeem_script [] psbt_in in
  let psbt_in := PsbtInput.set_witness_script [] psbt_in in
  let psbt_in := PsbtInput.set_hd_keypaths [] psbt_in in
  let psbt_in := PsbtInput.set_por_commitment None psbt_in in
  Ok psbt_in.

Definition finalize_psbt (psbt : loc) : M loc :=
  psbt ← deepcopy_psbt psbt;
  P ← deref psbts psbt;
  forM_ (fun psbt_in =>
           r ← deref ins psbt_in;
           r' ← lift (finalize_input r);
           assign ins set_ins psbt_in r')
    (PsbtObj.inputs P);;
  mret psbt.

(** ** Extractor ([psbt.py], [extract_tx]) *)

Definition set_vin v (t : Tx) : Tx :=
  Tx.mk (Tx.nVersion t) (Tx.nLockTime t) v (Tx.vout t).

(** [vin.f = v] for the [i]-th input [vin] of the transaction at [tx] *)
Definition update_vin (tx : loc) (i : Z) (f : TxIn -> TxIn) : M unit :=
  T ← deref txs tx;
  vin ← lift (py_index (Tx.vin T) i);
  assign txs set_txs tx (set_vin (<[Z.to_nat i := f vin]> (Tx.vin T)) T).

Definition extract_tx (psbt : loc) : M loc :=
  P ← deref psbts psbt;
  let tx := PsbtObj.tx P in
  T ← deref txs tx;
  forM_ (fun '(i, _) =>
           P ← deref psbts psbt;
           l ← lift (py_index (PsbtObj.inputs P) i);
           r ← deref ins l;
           update_vin tx i (set_scriptSig (PsbtInput.final_script_sig r));;
           P ← deref psbts psbt;
           l ← lift (py_index (PsbtObj.inputs P) i);
           r ← deref ins l;
           if nonempty (PsbtInput.final_script_witness r) then
             update_vin tx i
               (set_txinwitness (PsbtInput.final_script_witness r))
           else mret tt)
    (enumerate (Tx.vin T));;
  mret tx.

(** ** A container for a transaction ([psbt.py], [psbt_from_tx]) *)

(** [deepcopy(tx)] allocates a copy of the transaction; the loop clears
    the unlocking data of the copy's inputs; one default record is made
    for every input and for every output. *)
Definition psbt_from_tx (tx : loc) : M loc :=
  T ← deref txs tx;
  tx ← alloc txs set_txs T;
  T ← deref txs tx;
  forM_ (fun '(i, _) =>
           update_vin tx i (set_scriptSig []);;
           update_vin tx i (set_txinwitness []))
    (enumerate (Tx.vin T));;
  T ← deref txs tx;
  inputs ← forM (fun _ => alloc ins set_ins PsbtInput.default) (Tx.vin T);
  T ← deref txs tx;
  outputs ← forM (fun _ => alloc outs set_outs PsbtOutput.default) (Tx.vout T);
  alloc psbts set_psbts (PsbtObj.mk tx inputs outputs (Some 0) [] [] []).

End Operations.

(** ** Regrouping bits ([bech32_address.py], [_convertbits]) *)

(** [a << n] and [a >> n]: a negative shift count raises. *)
Definition py_shl (a n : Z) : result Z :=
  if n <? 0 then Raise ValueError else Ok (Z.shiftl a n).

Definition py_shr (a n : Z) : result Z :=
  if n <? 0 then Raise ValueError else Ok (Z.shiftr a n).

(** The loop [while bits >= tobits], one turn per unit of [fuel]. With
    [tobits] positive every turn takes [tobits] off [bits]; with
    [tobits = 0] the loop of the source does not end, and the model runs
    out of fuel. *)
Fixpoint _convertbits_while (fuel : nat) (acc bits tobits maxv : Z)
  (ret : list Z) : result (Z * list Z) :=
  match fuel with
  | O => Raise (Stuck "fuel")
  | S fuel' =>
      if tobits <=? bits then
        let bits := bits - tobits in
        x ← py_shr acc bits;
        _convertbits_while fuel' acc bits tobits maxv (ret ++ [Z.land x maxv])
      else Ok (bits, ret)
  end.

(** The body of the loop [for value in data] *)
Definition _convertbits_step (frombits tobits maxv max_acc : Z)
  (st : Z * Z * list Z) (value : Z) : result (Z * Z * list Z) :=
  let '(acc, bits, ret) := st in
  invalid ← (if value <? 0 then Ok true
             else x ← py_shr value frombits; Ok (negb (x =? 0)));
  if invalid : bool then
    Raise (BTClibValueError
             ("invalid value in _convertbits: " +:+ pretty value))
  else
    a ← py_shl acc frombits;
    let acc := Z.land (Z.lor a value) max_acc in
    let bits := bits + frombits in
    '(bits, ret) ←
      _convertbits_while (S (Z.to_nat bits)) acc bits tobits maxv ret;
    Ok (acc, bits, ret).

Definition _convertbits (data : list Z) (frombits tobits : Z) (pad : bool)
  : result (list Z) :=
  let acc := 0 in
  let bits := 0 in
  let ret := [] in
  m ← py_shl 1 tobits;
  let maxv := m - 1 in
  m ← py_shl 1 (frombits + tobits - 1);
  let max_acc := m - 1 in
  '(acc, bits, ret) ←
    foldM (_convertbits_step frombits tobits maxv max_acc) data
      (acc, bits, ret);
  if pad then
    if negb (bits =? 0) then
      x ← py_shl acc (tobits - bits);
      Ok (ret ++ [Z.land x maxv])
    else Ok ret
  else if frombits <=? bits then
    Raise (BTClibValueError
             "zero padding of more than 4 bits in 8-to-5 conversion")
  else
    x ← py_shl acc (tobits - bits);
    if negb (Z.land x maxv =? 0) then
      Raise (BTClibValueError "non-zero padding in 8-to-5 conversion")
    else Ok ret.

(** ** An instance of the collaborators, to run the model on examples *)

(** None of this is btclib's code: it is a small stand-in for each
    collaborator (scripts of pushes and small integers, transactions in
    Bitcoin's layout, a checksum in place of each hash), so that the
    definitions above can be evaluated on concrete containers. The
    theorems are stated for every instance. *)
Module Demo.

Definition push (b : bytes) : result bytes :=
  if (1 <=? len b) && (len b <=? 75) then Ok (byte_of_Z (len b) :: b)
  else Raise ValueError.

Definition encode_token (t : Token) : result bytes :=
  match t with
  | TInt n =>
      if n =? 0 then Ok [x00]
      else if (1 <=? n) && (n <=? 16) then Ok [byte_of_Z (80 + n)]
      else Raise ValueError
  | TStr s => b ← fromhex s; push b
  | TBytes b => push b
  end.

Definition script_encode (ts : list Token) : result bytes :=
  foldM (fun out t => e ← encode_token t; Ok (out ++ e)) ts [].

Fixpoint script_decode_loop (fuel : nat) (data : bytes)
  : result (list Token) :=
  match fuel, data with
  | _, [] => Ok []
  | O, _ => Raise (Stuck "fuel")
  | S fuel', b :: r =>
      let n := byte_to_Z b in
      if n =? 0 then ts ← script_decode_loop fuel' r; Ok (TInt 0 :: ts)
      else if n <=? 75 then
        if len r <? n then Raise ValueError
        else ts ← script_decode_loop fuel' (slice_from n r);
             Ok (TStr (upper (hex (slice_to n r))) :: ts)
      else if (81 <=? n) && (n <=? 96) then
        ts ← script_decode_loop fuel' r; Ok (TInt (n - 80) :: ts)
      else Raise ValueError
  end.

Definition script_decode (data : bytes) : result (list Token) :=
  script_decode_loop (length data) data.

Definition script_serialize (ts : list Token) : result bytes :=
  e ← script_encode ts; frame e.

(** A length-prefixed byte string off the front of a stream *)
Definition read_framed (stream : bytes) : result (bytes * bytes) :=
  '(n, stream) ← varint.read stream;
  if len stream <? n then Raise ValueError
  else Ok (slice_to n stream, slice_from n stream).

Definition read_fixed (k : nat) (stream : bytes) : result (bytes * bytes) :=
  if (length stream <? k)%nat then Raise ValueError
  else Ok (take k stream, drop k stream).

Definition witness_serialize (ws : list string) : result bytes :=
  n ← varint.encode (len ws);
  foldM (fun out w => b ← fromhex w; f ← frame b; Ok (out ++ f)) ws n.

Definition witness_deserialize (stream : bytes)
  : result (list string * bytes) :=
  '(n, stream) ← varint.read stream;
  read_n (fun stream => '(b, stream) ← read_framed stream; Ok (hex b, stream))
    (Z.to_nat n) stream.

Definition TxOut_serialize (o : TxOut) : result bytes :=
  v ← to_bytes (TxOut.nValue o) 8;
  s ← script_serialize (TxOut.scriptPubKey o);
  Ok (v ++ s).

Definition TxOut_deserialize (stream : bytes) : result (TxOut * bytes) :=
  '(v, stream) ← read_fixed 8 stream;
  '(s, stream) ← read_framed stream;
  ts ← script_decode s;
  Ok (TxOut.mk (from_le v) ts, stream).

Definition TxIn_serialize (i : TxIn) : result bytes :=
  h ← fromhex (OutPoint.hash (TxIn.prevout i));
  py_assert (len h =? 32) "";;
  n ← to_bytes (OutPoint.n (TxIn.prevout i)) 4;
  s ← script_serialize (TxIn.scriptSig i);
  q ← to_bytes (TxIn.nSequence i) 4;
  Ok (rev h ++ n ++ s ++ q).

Definition TxIn_deserialize (stream : bytes) : result (TxIn * bytes) :=
  '(h, stream) ← read_fixed 32 stream;
  '(n, stream) ← read_fixed 4 stream;
  '(s, stream) ← read_framed stream;
  ts ← script_decode s;
  '(q, stream) ← read_fixed 4 stream;
  Ok (TxIn.mk (OutPoint.mk (hex (rev h)) (from_le n)) ts (from_le q) [],
      stream).

(** A checksum of [k] bytes, in place of a hash *)
Definition checksum (k : nat) (b : bytes) : bytes :=
  le_bytes k
    (fold_left (fun acc x => (acc * 257 + byte_to_Z x + 1) mod 256 ^ Z.of_nat k)
       b 0).

(** [[h]] pays to the script whose checksum is [h], [[0; h]] to the
    witness script whose checksum is [h]. *)
Definition payload_from_scriptPubKey (s : list Token)
  : result (string * bytes) :=
  match s with
  | [TStr h] => b ← fromhex h; Ok ("p2sh", b)
  | [TInt 0; TStr h] => b ← fromhex h; Ok ("p2wsh", b)
  | _ => Raise ValueError
  end.

Definition b64_char (n : N) : ascii :=
  if (n <? 26)%N then ascii_of_N (65 + n)
  else if (n <? 52)%N then ascii_of_N (71 + n)
  else if (n <? 62)%N then ascii_of_N (n - 4)
  else if (n =? 62)%N then "+"%char else "/"%char.

Definition b64_val (c : ascii) : option N :=
  let n := N_of_ascii c in
  if (65 <=? n)%N && (n <=? 90)%N then Some (n - 65)%N
  else if (97 <=? n)%N && (n <=? 122)%N then Some (n - 71)%N
  else if (48 <=? n)%N && (n <=? 57)%N then Some (n + 4)%N
  else if (n =? 43)%N then Some 62%N
  else if (n =? 47)%N then Some 63%N
  else None.

Fixpoint b64encode (bs : bytes) : string :=
  match bs with
  | [] => EmptyString
  | [a] =>
      let n := (Byte.to_N a * 65536)%N in
      String (b64_char (n / 262144)) (String (b64_char (n / 4096 mod 64)) "==")
  | [a; b] =>
      let n := (Byte.to_N a * 65536 + Byte.to_N b * 256)%N in
      String (b64_char (n / 262144)) (String (b64_char (n / 4096 mod 64))
        (String (b64_char (n / 64 mod 64)) "="))
  | a :: b :: c :: r =>
      let n := (Byte.to_N a * 65536 + Byte.to_N b * 256 + Byte.to_N c)%N in
      String (b64_char (n / 262144)) (String (b64_char (n / 4096 mod 64))
        (String (b64_char (n / 64 mod 64)) (String (b64_char (n mod 64))
          (b64encode r))))
  end.

Definition pad : ascii := "="%char.

Fixpoint b64decode (s : string) : result bytes :=
  match s with
  | EmptyString => Ok []
  | String c1 (String c2 (String c3 (String c4 r))) =>
      match b64_val c1, b64_val c2 with
      | Some v1, Some v2 =>
          let b1 := byte_of_Z (Z.of_N (v1 * 4 + v2 / 16)) in
          if decide (c3 = pad) then
            if decide (c4 = pad) then Ok [b1] else Raise ValueError
          else
            match b64_val c3 with
            | Some v3 =>
                let b2 := byte_of_Z (Z.of_N (v2 mod 16 * 16 + v3 / 4)) in
                if decide (c4 = pad) then Ok [b1; b2]
                else
                  match b64_val c4 with
                  | Some v4 =>
                      let b3 := byte_of_Z (Z.of_N (v3 mod 4 * 64 + v4)) in
                      bs ← b64decode r; Ok (b1 :: b2 :: b3 :: bs)
                  | None => Raise ValueError
                  end
            | None => Raise ValueError
            end
      | _, _ => Raise ValueError
      end
  | _ => Raise ValueError
  end.

Definition collaborators : Collaborators :=
  Build_Collaborators
    TxIn_serialize TxIn_deserialize (fun _ => Ok tt)
    witness_serialize witness_deserialize
    TxOut_serialize TxOut_deserialize (fun _ => Ok tt)
    script_encode script_decode script_serialize
    (checksum 20) (checksum 32) (fun b => checksum 32 (checksum 32 b))
    payload_from_scriptPubKey b64encode b64decode.

End Demo.

(** * Properties

    Facts about the definitions above, then one theorem for each
    statement of the specification that is checked against the code. *)

(** *** Bytes and integers *)

Lemma byte_to_of_Z z : byte_to_Z (byte_of_Z z) = z mod 256.
Proof.
  unfold byte_to_Z, byte_of_Z.
  destruct (Byte.of_N (Z.to_N (z mod 256))) as [b|] eqn:E.
  - apply Byte.to_of_N in E. rewrite E. rewrite Z2N.id; [done|].
    apply Z.mod_pos_bound. lia.
  - apply Byte.of_N_None_iff in E.
    pose proof (Z.mod_pos_bound z 256). lia.
Qed.

Lemma byte_to_Z_range b : 0 <= byte_to_Z b < 256.
Proof.
  unfold byte_to_Z. pose proof (Byte.to_N_bounded b). lia.
Qed.

Lemma byte_of_to_Z b : byte_of_Z (byte_to_Z b) = b.
Proof.
  unfold byte_of_Z. pose proof (byte_to_Z_range b).
  rewrite Z.mod_small by lia. unfold byte_to_Z. rewrite N2Z.id.
  by rewrite Byte.of_to_N.
Qed.

Lemma byte_to_Z_inj a b : byte_to_Z a = byte_to_Z b -> a = b.
Proof. intros E. rewrite <- (byte_of_to_Z a), <- (byte_of_to_Z b). by rewrite E. Qed.

Lemma from_le_le_bytes k n :
  0 <= n < 256 ^ Z.of_nat k -> from_le (le_bytes k n) = n.
Proof.
  revert n. induction k as [|k IH]; intros n Hn.
  - simpl in *. lia.
  - cbn [le_bytes from_le]. rewrite byte_to_of_Z.
    rewrite IH.
    + pose proof (Z.div_mod n 256). lia.
    + rewrite Nat2Z.inj_succ, Z.pow_succ_r in Hn by lia.
      split; [apply Z.div_pos; lia|].
      apply Z.div_lt_upper_bound; lia.
Qed.

Lemma length_le_bytes k n : length (le_bytes k n) = k.
Proof. revert n; induction k; intros; simpl; auto. Qed.

(** *** Varint *)

Lemma byte_of_Z_inj a b :
  0 <= a < 256 -> 0 <= b < 256 -> byte_of_Z a = byte_of_Z b -> a = b.
Proof.
  intros Ha Hb E. apply (f_equal byte_to_Z) in E.
  rewrite !byte_to_of_Z, !Z.mod_small in E by lia. done.
Qed.

Lemma varint_encode_read n :
  0 <= n < 2 ^ 64 ->
  exists e, varint.encode n = Ok e /\
    (1 <= length e)%nat /\
    (forall d, head e = Some d -> d = x00 <-> n = 0) /\
    forall rest, varint.read (e ++ rest) = Ok (n, rest).
Proof.
  intros Hn. unfold varint.encode.
  destruct (n <? 0) eqn:E0; [lia|].
  assert (Hfd : xfd = byte_of_Z 253) by reflexivity.
  assert (Hfe : xfe = byte_of_Z 254) by reflexivity.
  assert (Hff : xff = byte_of_Z 255) by reflexivity.
  assert (H0 : x00 = byte_of_Z 0) by reflexivity.
  destruct (n <? 253) eqn:E1.
  - apply Z.ltb_lt in E1. eexists; split; [done|].
    split; [simpl; lia|]. split.
    + intros d [= <-]. rewrite H0. split.
      * intros E. apply byte_of_Z_inj in E; lia.
      * by intros ->.
    + intros rest. cbn [app varint.read].
      repeat case_decide;
        try (match goal with E : byte_of_Z _ = _ |- _ =>
               rewrite ?Hfd, ?Hfe, ?Hff in E; apply byte_of_Z_inj in E; lia end).
      rewrite byte_to_of_Z, Z.mod_small by lia. done.
  - apply Z.ltb_ge in E1.
    assert (Hread : forall k rest, 0 <= n < 256 ^ Z.of_nat k ->
              varint.read_le k (le_bytes k n ++ rest) = Ok (n, rest)).
    { intros k rest Hk. unfold varint.read_le.
      rewrite length_app, length_le_bytes.
      destruct (k + length rest <? k)%nat eqn:E; [apply Nat.ltb_lt in E; lia|].
      rewrite take_app_length', drop_app_length' by (by rewrite length_le_bytes).
      by rewrite from_le_le_bytes. }
    destruct (n <=? 65535) eqn:E2; [|destruct (n <=? 4294967295) eqn:E3;
      [|destruct (n <=? 18446744073709551615) eqn:E4]].
    + apply Z.leb_le in E2. eexists; split; [done|].
      split; [simpl; lia|]. split; [intros d [= <-]; split; [done|lia]|].
      intros rest. cbn [app varint.read]. rewrite decide_True by done.
      apply Hread. change (256 ^ Z.of_nat 2) with 65536. lia.
    + apply Z.leb_le in E3. eexists; split; [done|].
      split; [simpl; lia|]. split; [intros d [= <-]; split; [done|lia]|].
      intros rest. cbn [app varint.read].
      rewrite decide_False by done. rewrite decide_True by done.
      apply Hread. change (256 ^ Z.of_nat 4) with 4294967296. lia.
    + apply Z.leb_le in E4. eexists; split; [done|].
      split; [simpl; lia|]. split; [intros d [= <-]; split; [done|lia]|].
      intros rest. cbn [app varint.read].
      rewrite decide_False by done. rewrite decide_False by done.
      rewrite decide_True by done.
      apply Hread. change (256 ^ Z.of_nat 8) with 18446744073709551616. lia.
    + apply Z.leb_gt in E4. lia.
Qed.

(** *** The key-value map codec *)

Lemma slice_from_len_app {A} (a b : list A) : slice_from (len a) (a ++ b) = b.
Proof. unfold slice_from, len. rewrite Nat2Z.id. apply drop_app_length. Qed.

Lemma slice_to_len_app {A} (a b : list A) : slice_to (len a) (a ++ b) = a.
Proof. unfold slice_to, len. rewrite Nat2Z.id. apply take_app_length. Qed.

Lemma varint_encode_bound n e : varint.encode n = Ok e -> 0 <= n < 2 ^ 64.
Proof.
  unfold varint.encode. intros E.
  destruct (n <? 0) eqn:E0; [done|]. apply Z.ltb_ge in E0.
  destruct (n <? 253) eqn:E1; [apply Z.ltb_lt in E1; lia|].
  destruct (n <=? 65535) eqn:E2; [apply Z.leb_le in E2; lia|].
  destruct (n <=? 4294967295) eqn:E3; [apply Z.leb_le in E3; lia|].
  destruct (n <=? 18446744073709551615) eqn:E4; [apply Z.leb_le in E4; lia|].
  done.
Qed.

(** What [frame] gives, and how the codec reads it back. *)
Lemma frame_inv b f :
  frame b = Ok f ->
  exists e, varint.encode (len b) = Ok e /\ f = e ++ b /\
    (1 <= length e)%nat /\
    (forall d, head e = Some d -> d = x00 <-> b = []) /\
    forall rest, varint.read (e ++ rest) = Ok (len b, rest).
Proof.
  unfold frame. intros E.
  destruct (varint.encode (len b)) as [e|] eqn:Ee; [|done].
  injection E as <-. pose proof (varint_encode_bound _ _ Ee) as Hb.
  destruct (varint_encode_read _ Hb) as (e' & He' & Hl & H0 & Hr).
  rewrite Ee in He'. injection He' as <-.
  exists e. split; [done|]. split; [done|]. split; [done|]. split; [|done].
  intros d Hd. rewrite (H0 d Hd). unfold len. destruct b; simpl; split; try done; lia.
Qed.

Lemma frame_nonempty b f : frame b = Ok f -> (1 <= length f)%nat.
Proof.
  intros (e & _ & -> & Hl & _)%frame_inv. rewrite length_app. lia.
Qed.

(** Reading a framed byte string off the front of a buffer, the way
    [deserialize_map] does it. *)
Lemma read_frame b f rest :
  frame b = Ok f ->
  exists e, varint.decode (f ++ rest) = Ok (len b) /\
    varint.encode (len b) = Ok e /\
    slice_to (len b) (slice_from (len e) (f ++ rest)) = b /\
    slice_from (len b) (slice_from (len e) (f ++ rest)) = rest.
Proof.
  intros (e & He & -> & Hl & H0 & Hr)%frame_inv. exists e.
  unfold varint.decode. rewrite <- app_assoc, Hr. split; [done|].
  split; [done|]. rewrite slice_from_len_app.
  by rewrite slice_to_len_app, slice_from_len_app.
Qed.

Lemma py_index_cons_0 {A} (x : A) l : py_index (x :: l) 0 = Ok x.
Proof. reflexivity. Qed.

Definition duplicate_keys : exn :=
  AssertionError "Malformed psbt: duplicate keys".

(** The dictionary the loop builds from a list of entries. *)
Fixpoint insert_all (es : list (bytes * bytes)) (m : dict bytes bytes)
  : result (dict bytes bytes) :=
  match es with
  | [] => Ok m
  | (k, v) :: r =>
      if dict_mem k m then Raise duplicate_keys
      else insert_all r (dict_set k v m)
  end.

Lemma deserialize_map_loop_entry fuel k v fk fv rest m :
  k <> [] -> frame k = Ok fk -> frame v = Ok fv ->
  deserialize_map_loop (S fuel) (fk ++ fv ++ rest) m =
    if dict_mem k m then Raise duplicate_keys
    else deserialize_map_loop fuel rest (dict_set k v m).
Proof.
  intros Hk Fk Fv.
  destruct (read_frame k fk (fv ++ rest) Fk) as (ek & Dk & Ek & Tk & Sk).
  destruct (read_frame v fv rest Fv) as (ev & Dv & Ev & Tv & Sv).
  apply frame_inv in Fk as (ek' & Ek' & -> & Hl & H0 & _).
  rewrite Ek in Ek'. injection Ek' as <-.
  cbn [deserialize_map_loop].
  destruct ek as [|d ek]; [simpl in Hl; lia|].
  assert (d <> x00) as Hd by (intros E; by apply (H0 d) in E).
  cbn [app]. rewrite py_index_cons_0. cbn [mbind result_bind].
  rewrite decide_False by done.
  change (d :: (ek ++ k) ++ fv ++ rest) with (((d :: ek) ++ k) ++ fv ++ rest).
  rewrite Dk. cbn [mbind result_bind]. rewrite Ek. cbn [mbind result_bind].
  rewrite Tk, Sk, Dv. cbn [mbind result_bind]. rewrite Ev. cbn [mbind result_bind].
  rewrite Tv, Sv. unfold py_assert, duplicate_keys.
  by destruct (dict_mem k m).
Qed.

Lemma map_wire_length es w :
  map_wire es = Ok w -> (2 * length es <= length w)%nat.
Proof.
  revert w. induction es as [|[k v] es IH]; intros w E; [simpl; lia|].
  cbn [map_wire] in E.
  destruct (frame k) as [fk|] eqn:Fk; [|done].
  destruct (frame v) as [fv|] eqn:Fv; [|done].
  destruct (map_wire es) as [w'|] eqn:Ew; [|done].
  injection E as <-. apply frame_nonempty in Fk, Fv.
  specialize (IH _ eq_refl). rewrite !length_app. simpl. lia.
Qed.

Lemma deserialize_map_loop_wire es : forall fuel w rest m,
  Forall (fun kv => fst kv <> []) es ->
  map_wire es = Ok w ->
  (length es <= fuel)%nat ->
  deserialize_map_loop fuel (w ++ rest) m =
    match insert_all es m with
    | Ok m' => deserialize_map_loop (fuel - length es) rest m'
    | Raise e => Raise e
    end.
Proof.
  induction es as [|[k v] es IH]; intros fuel w rest m Hne E Hf.
  - injection E as <-. simpl. by rewrite Nat.sub_0_r.
  - cbn [map_wire] in E.
    destruct (frame k) as [fk|] eqn:Fk; [|done].
    destruct (frame v) as [fv|] eqn:Fv; [|done].
    destruct (map_wire es) as [w'|] eqn:Ew; [|done].
    injection E as <-. apply Forall_cons in Hne as [Hk Hne].
    destruct fuel as [|fuel]; [simpl in Hf; lia|].
    rewrite <- !app_assoc.
    rewrite (deserialize_map_loop_entry fuel k v fk fv _ m Hk Fk Fv).
    cbn [insert_all]. destruct (dict_mem k m); [done|].
    rewrite IH; auto. simpl in Hf; lia.
Qed.

Lemma deserialize_map_loop_end fuel rest m :
  deserialize_map_loop (S fuel) (x00 :: rest) m = Ok (m, rest).
Proof. reflexivity. Qed.

(** *** Dictionaries *)

Section DictFacts.
Context {K V : Type} `{EqDecision K}.
Implicit Types (d : dict K V) (k : K) (v : V).

Lemma dict_get_None k d : dict_get k d = None <-> k ∉ dict_keys d.
Proof.
  induction d as [|[k' v'] d IH]; simpl.
  - split; [intros _; apply not_elem_of_nil|done].
  - rewrite not_elem_of_cons. case_decide; subst.
    + split; [done|]. intros [? _]; done.
    + rewrite IH. split; [intros; split; auto|intros [_ ?]; done].
Qed.

Lemma dict_mem_true k d : dict_mem k d = true <-> k ∈ dict_keys d.
Proof.
  unfold dict_mem. pose proof (dict_get_None k d) as Hn.
  destruct (dict_get k d); split; try done.
  - intros _. destruct (decide (k ∈ dict_keys d)); [done|].
    apply Hn in n. done.
  - intros Hin. apply Hn in Hin; done.
Qed.

Lemma dict_mem_false k d : dict_mem k d = false <-> k ∉ dict_keys d.
Proof.
  rewrite <- dict_mem_true. destruct (dict_mem k d); split; done.
Qed.

Lemma dict_set_new k v d : k ∉ dict_keys d -> dict_set k v d = d ++ [(k, v)].
Proof.
  induction d as [|[k' v'] d IH]; simpl; [done|].
  rewrite not_elem_of_cons. intros [Hne Hn].
  rewrite decide_False by done. by rewrite IH.
Qed.

Lemma dict_get_set k v d k' :
  dict_get k' (dict_set k v d) = if decide (k = k') then Some v else dict_get k' d.
Proof.
  induction d as [|[k0 v0] d IH]; simpl.
  - done.
  - destruct (decide (k0 = k)) as [->|Hne]; simpl.
    + by destruct (decide (k = k')).
    + destruct (decide (k0 = k')) as [->|Hne'].
      * by rewrite decide_False.
      * apply IH.
Qed.

Lemma dict_keys_set k v d :
  dict_keys (dict_set k v d) =
    if dict_mem k d then dict_keys d else dict_keys d ++ [k].
Proof.
  induction d as [|[k0 v0] d IH]; simpl; [done|].
  unfold dict_mem in *. simpl.
  destruct (decide (k0 = k)) as [->|Hne]; simpl; [done|].
  rewrite IH. by destruct (dict_get k d).
Qed.

Lemma dict_wf_set k v d : dict_wf d -> dict_wf (dict_set k v d).
Proof.
  unfold dict_wf. rewrite dict_keys_set.
  destruct (dict_mem k d) eqn:E; [done|].
  apply dict_mem_false in E. intros Hd.
  apply NoDup_app. split; [done|]. split; [|apply NoDup_singleton].
  intros x Hx ->%list_elem_of_singleton. done.
Qed.

Lemma dict_set_same k v d :
  dict_wf d -> dict_get k d = Some v -> dict_set k v d = d.
Proof.
  induction d as [|[k0 v0] d IH]; simpl; [done|].
  intros Hwf. apply NoDup_cons in Hwf as [Hn Hwf].
  destruct (decide (k0 = k)) as [->|Hne]; [by intros [= ->]|].
  intros E. by rewrite IH.
Qed.

Lemma dict_get_update d d2 k :
  dict_get k (dict_update d d2) =
    match dict_get k (rev d2) with
    | Some v => Some v
    | None => dict_get k d
    end.
Proof.
  unfold dict_update. revert d.
  induction d2 as [|[k2 v2] d2 IH] using rev_ind; intros d; [done|].
  rewrite fold_left_app, rev_app_distr. simpl.
  rewrite dict_get_set. destruct (decide (k2 = k)); [done|]. apply IH.
Qed.

Lemma dict_wf_update d d2 : dict_wf d -> dict_wf (dict_update d d2).
Proof.
  unfold dict_update. revert d.
  induction d2 as [|[k2 v2] d2 IH]; intros d Hd; [done|].
  simpl. apply IH. by apply dict_wf_set.
Qed.

Lemma dict_get_rev_wf d k : dict_wf d -> dict_get k (rev d) = dict_get k d.
Proof.
  induction d as [|[k0 v0] d IH]; [done|].
  intros Hwf. apply NoDup_cons in Hwf as [Hn Hwf]. simpl.
  assert (Happ : forall (a b : dict K V),
            dict_get k (a ++ b) = match dict_get k a with
                                  | Some v => Some v | None => dict_get k b end).
  { clear. induction a as [|[k1 v1] a IHa]; intros b; simpl; [done|].
    destruct (decide (k1 = k)); [done|apply IHa]. }
  rewrite Happ, IH by done. simpl.
  destruct (decide (k0 = k)) as [->|Hne].
  - simpl in Hn. apply (dict_get_None k d) in Hn. by rewrite Hn.
  - by destruct (dict_get k d).
Qed.

(** [d.update(d)] changes nothing. *)
Lemma dict_update_self_aux d d2 :
  dict_wf d -> (forall k v, (k, v) ∈ d2 -> dict_get k d = Some v) ->
  dict_update d d2 = d.
Proof.
  unfold dict_update. induction d2 as [|[k2 v2] d2 IH]; intros Hwf Hin; [done|].
  simpl. rewrite dict_set_same; [|done|apply Hin; left].
  apply IH; [done|]. intros k v Hkv. apply Hin. by right.
Qed.

Lemma dict_get_elem d k v : dict_wf d -> (k, v) ∈ d -> dict_get k d = Some v.
Proof.
  induction d as [|[k0 v0] d IH]; [by intros _ ?%elem_of_nil|].
  intros Hwf Hin. apply NoDup_cons in Hwf as [Hn Hwf]. simpl.
  apply elem_of_cons in Hin as [[= <- <-]|Hin].
  - by rewrite decide_True.
  - rewrite decide_False; [by apply IH|].
    intros ->. apply Hn. apply list_elem_of_fmap. by exists (k, v).
Qed.

Lemma dict_update_self d : dict_wf d -> dict_update d d = d.
Proof.
  intros Hwf. apply dict_update_self_aux; [done|].
  intros k v. by apply dict_get_elem.
Qed.

Lemma dict_update_nil_l d : dict_wf d -> dict_update [] d = d.
Proof.
  intros Hwf. unfold dict_update.
  assert (G : forall acc, dict_wf (acc ++ d) ->
            fold_left (fun acc kv => dict_set kv.1 kv.2 acc) d acc = acc ++ d).
  { clear Hwf. induction d as [|[k v] d IH]; intros acc Hwf; simpl.
    - by rewrite app_nil_r.
    - rewrite dict_set_new.
      + rewrite IH; rewrite <- app_assoc; done.
      + unfold dict_wf, dict_keys in Hwf. rewrite fmap_app in Hwf.
        apply NoDup_app in Hwf as (_ & Hd & _). intros Hin.
        apply (Hd k Hin). simpl. left. }
  by apply (G []).
Qed.

End DictFacts.

Lemma insert_all_nodup es : forall m,
  NoDup (dict_keys m ++ dict_keys es) -> insert_all es m = Ok (m ++ es).
Proof.
  induction es as [|[k v] es IH]; intros m Hnd; simpl.
  - by rewrite app_nil_r.
  - assert (k ∉ dict_keys m) as Hk.
    { apply NoDup_app in Hnd as (_ & Hd & _). intros Hin.
      apply (Hd k Hin). simpl. left. }
    pose proof Hk as Hk'. apply dict_mem_false in Hk'. rewrite Hk'.
    rewrite dict_set_new by done. rewrite IH; [by rewrite <- app_assoc|].
    unfold dict_keys in *. rewrite fmap_app, <- app_assoc. done.
Qed.

Lemma insert_all_dup es : forall m,
  ~ NoDup (dict_keys m ++ dict_keys es) -> dict_wf m ->
  insert_all es m = Raise duplicate_keys.
Proof.
  induction es as [|[k v] es IH]; intros m Hnd Hwf; simpl.
  - destruct Hnd. unfold dict_keys at 2. simpl. by rewrite app_nil_r.
  - destruct (dict_mem k m) eqn:E; [done|].
    apply dict_mem_false in E. apply IH; [|by apply dict_wf_set].
    intros Hnd'. apply Hnd. rewrite dict_keys_set in Hnd'.
    apply dict_mem_false in E. rewrite E in Hnd'.
    unfold dict_keys in *. simpl. by rewrite <- app_assoc in Hnd'.
Qed.

(** The loop of [deserialize_map] always ends within the fuel it is
    given: [Stuck] is never the outcome. *)
Lemma varint_encode_nonempty n e : varint.encode n = Ok e -> (1 <= length e)%nat.
Proof.
  intros E. pose proof (varint_encode_bound _ _ E) as Hb.
  destruct (varint_encode_read _ Hb) as (e' & He' & Hl & _).
  rewrite E in He'. by injection He' as <-.
Qed.

Lemma varint_decode_raise d e : varint.decode d = Raise e -> e = ValueError.
Proof.
  unfold varint.decode, varint.read, varint.read_le.
  destruct d as [|b r]; [by intros [= <-]|].
  repeat case_decide;
    repeat match goal with |- context [(?a <? ?b)%nat] => destruct (a <? b)%nat end;
    cbn; congruence.
Qed.

Lemma varint_encode_raise n e : varint.encode n = Raise e -> e = ValueError.
Proof.
  unfold varint.encode.
  repeat match goal with |- context [if ?c then _ else _] => destruct c end;
    congruence.
Qed.

Lemma deserialize_map_loop_fuel fuel : forall data m,
  (length data < fuel)%nat ->
  deserialize_map_loop fuel data m <> Raise (Stuck "fuel").
Proof.
  induction fuel as [|fuel IH]; intros data m Hf; [lia|].
  cbn [deserialize_map_loop].
  destruct data as [|d data]; [done|].
  rewrite py_index_cons_0. cbn [mbind result_bind].
  case_decide; [done|].
  destruct (varint.decode (d :: data)) as [key_len|] eqn:E1;
    [|apply varint_decode_raise in E1 as ->; done].
  cbn [mbind result_bind].
  destruct (varint.encode key_len) as [n|] eqn:E2;
    [|apply varint_encode_raise in E2 as ->; done].
  cbn [mbind result_bind].
  match goal with |- context [varint.decode ?x] =>
    destruct (varint.decode x) as [value_len|] eqn:E3 end;
    [|apply varint_decode_raise in E3 as ->; done].
  cbn [mbind result_bind].
  destruct (varint.encode value_len) as [n'|] eqn:E4;
    [|apply varint_encode_raise in E4 as ->; done].
  cbn [mbind result_bind].
  unfold py_assert. destruct (negb _); [|done]. cbn [mbind result_bind].
  apply IH. apply varint_encode_nonempty in E2.
  unfold slice_from, len. rewrite !length_drop. rewrite Nat2Z.id.
  simpl in *. lia.
Qed.

Lemma deserialize_map_total data :
  deserialize_map data <> Raise (Stuck "fuel").
Proof.
  unfold deserialize_map, py_assert. destruct (negb _).
  - cbn [mbind result_bind]. apply deserialize_map_loop_fuel. lia.
  - done.
Qed.

Lemma deserialize_map_wire es w rest :
  Forall (fun kv => fst kv <> []) es ->
  map_wire es = Ok w ->
  deserialize_map (w ++ x00 :: rest) =
    match insert_all es [] with
    | Ok m => Ok (m, rest)
    | Raise e => Raise e
    end.
Proof.
  intros Hne Hw. unfold deserialize_map.
  assert ((len (w ++ x00 :: rest) =? 0) = false) as ->.
  { apply Z.eqb_neq. unfold len. rewrite length_app. simpl. lia. }
  cbn [negb py_assert mbind result_bind].
  pose proof (map_wire_length _ _ Hw) as Hl.
  rewrite (deserialize_map_loop_wire es _ w); [|done|done|].
  2:{ rewrite length_app. simpl. lia. }
  destruct (insert_all es []); [|done].
  rewrite length_app. cbn [length].
  replace (S (length w + S (length rest)) - length es)%nat
    with (S (length w + S (length rest) - length es))%nat by lia.
  apply deserialize_map_loop_end.
Qed.

(** C8. A buffer that starts with the wire form of a list of entries in
    which one key stands at two positions makes [deserialize_map] raise
    the duplicate-key assertion, whatever the two values are and whatever
    follows the entries; no map is returned. *)
Theorem deserialize_map_rejects_duplicate_key :
  forall (es : list (bytes * bytes)) (w rest : bytes) (i j : nat)
         (k v1 v2 : bytes),
    Forall (fun kv => fst kv <> []) es ->
    map_wire es = Ok w ->
    i <> j -> es !! i = Some (k, v1) -> es !! j = Some (k, v2) ->
    deserialize_map (w ++ rest) =
      Raise (AssertionError "Malformed psbt: duplicate keys").
Proof.
  intros es w rest i j k v1 v2 Hne Hw Hij Hi Hj.
  pose proof (map_wire_length _ _ Hw) as Hl.
  assert (1 <= length es)%nat as Hes.
  { apply lookup_lt_Some in Hi. lia. }
  unfold deserialize_map.
  assert ((len (w ++ rest) =? 0) = false) as ->.
  { apply Z.eqb_neq. unfold len. rewrite length_app. lia. }
  cbn [negb py_assert mbind result_bind].
  rewrite (deserialize_map_loop_wire es _ w); [|done|done|].
  2:{ rewrite length_app. lia. }
  rewrite insert_all_dup; [done| |apply NoDup_nil_2].
  simpl. intros Hnd. apply Hij.
  eapply (NoDup_lookup _ i j k Hnd).
  - unfold dict_keys. by rewrite list_lookup_fmap, Hi.
  - unfold dict_keys. by rewrite list_lookup_fmap, Hj.
Qed.

(** *** The error monad *)

Lemma bind_Ok_inv {A B} (c : result A) (f : A -> result B) b :
  c ≫= f = Ok b -> exists a, c = Ok a /\ f a = Ok b.
Proof. destruct c as [a|e]; [by exists a|done]. Qed.

Lemma foldM_app {A S} (f : S -> A -> result S) l1 l2 s :
  foldM f (l1 ++ l2) s = foldM f l1 s ≫= foldM f l2.
Proof.
  revert s. induction l1 as [|x l1 IH]; intros s; [done|].
  simpl. destruct (f s x); [apply IH|done].
Qed.

(** A loop of assertions goes through exactly when every one holds, and
    raises the first that does not. *)
Lemma foldM_unit_Ok {A} (f : A -> result unit) l :
  foldM (fun _ x => f x) l tt = Ok tt <-> Forall (fun x => f x = Ok tt) l.
Proof.
  induction l as [|x l IH]; simpl; [split; auto|].
  rewrite Forall_cons. destruct (f x) as [[]|e]; simpl.
  - rewrite IH. tauto.
  - split; [done|intros [? _]; done].
Qed.

Lemma foldM_unit_Raise {A} (f : A -> result unit) l e :
  Forall (fun x => f x = Ok tt \/ f x = Raise e) l ->
  Exists (fun x => f x = Raise e) l ->
  foldM (fun _ x => f x) l tt = Raise e.
Proof.
  induction 1 as [|x l [Hx|Hx] Hl IH]; intros Hex.
  - by apply Exists_nil in Hex.
  - simpl. rewrite Hx. simpl. apply IH.
    apply Exists_cons in Hex as [Hex|Hex]; [congruence|done].
  - simpl. by rewrite Hx.
Qed.

Section ValidatorFacts.
Context `{Collaborators}.

Definition skeleton_empty (vin : TxIn) : Prop :=
  TxIn.scriptSig vin = [] /\ TxIn.txinwitness vin = [].

Definition assert_skeleton_empty (vin : TxIn) : result unit :=
  py_assert (bool_decide (TxIn.scriptSig vin = [])) "";;
  py_assert (bool_decide (TxIn.txinwitness vin = [])) "".

Lemma assert_skeleton_empty_Ok vin :
  assert_skeleton_empty vin = Ok tt <-> skeleton_empty vin.
Proof.
  unfold assert_skeleton_empty, skeleton_empty, py_assert.
  repeat case_bool_decide; simpl; try case_bool_decide; split; try done;
    intros [? ?]; done.
Qed.

Lemma assert_skeleton_empty_cases vin :
  assert_skeleton_empty vin = Ok tt \/
  assert_skeleton_empty vin = Raise (AssertionError "").
Proof.
  unfold assert_skeleton_empty, py_assert.
  repeat case_bool_decide; simpl; try case_bool_decide; auto.
Qed.

Lemma Psbt_assert_valid_skeleton psbt :
  Psbt_assert_valid psbt = Ok tt ->
  Forall skeleton_empty (Tx.vin (Psbt.tx psbt)).
Proof.
  unfold Psbt_assert_valid. intros (u & Hs & _)%bind_Ok_inv.
  destruct u. apply (foldM_unit_Ok assert_skeleton_empty) in Hs.
  eapply Forall_impl; [exact Hs|]. intros vin. apply assert_skeleton_empty_Ok.
Qed.

Lemma Psbt_deserialize_valid s psbt :
  Psbt_deserialize s = Ok psbt -> Psbt_assert_valid psbt = Ok tt.
Proof.
  unfold Psbt_deserialize. intros E.
  repeat (apply bind_Ok_inv in E as (? & ? & E);
          try match type of E with (let '(_, _) := ?p in _) = _ =>
                destruct p end).
  injection E as <-.
  match goal with Hv : Psbt_assert_valid _ = Ok ?u |- _ => by destruct u end.
Qed.

Lemma Psbt_assert_valid_rejects psbt :
  Exists (fun vin => TxIn.scriptSig vin <> [] \/ TxIn.txinwitness vin <> [])
    (Tx.vin (Psbt.tx psbt)) ->
  Psbt_assert_valid psbt = Raise (AssertionError "").
Proof.
  intros Hex. unfold Psbt_assert_valid.
  rewrite (foldM_unit_Raise assert_skeleton_empty _ (AssertionError "")); [done| |].
  - apply Forall_forall. intros vin _. apply assert_skeleton_empty_cases.
  - eapply Exists_impl; [exact Hex|]. intros vin Hvin.
    destruct (assert_skeleton_empty_cases vin) as [Hok|Hr]; [|done].
    apply assert_skeleton_empty_Ok in Hok as [? ?]. destruct Hvin; done.
Qed.

(** C9. A container that [Psbt.assert_valid] accepts has an empty
    [scriptSig] and an empty witness on every input of its transaction;
    so has every container [Psbt.deserialize] returns, which validates
    before returning; and a container with a non-empty [scriptSig] or
    witness on some input makes [Psbt.assert_valid] raise. *)
Theorem validator_keeps_skeleton_empty (psbt : Psbt) :
  (Psbt_assert_valid psbt = Ok tt ->
   Forall skeleton_empty (Tx.vin (Psbt.tx psbt))) /\
  (forall s, Psbt_deserialize s = Ok psbt ->
   Forall skeleton_empty (Tx.vin (Psbt.tx psbt))) /\
  (Exists (fun vin => TxIn.scriptSig vin <> [] \/ TxIn.txinwitness vin <> [])
     (Tx.vin (Psbt.tx psbt)) ->
   Psbt_assert_valid psbt = Raise (AssertionError "")).
Proof.
  split; [apply Psbt_assert_valid_skeleton|]. split.
  - intros s Hs. by apply Psbt_assert_valid_skeleton, (Psbt_deserialize_valid s).
  - apply Psbt_assert_valid_rejects.
Qed.

End ValidatorFacts.

(** *** Partial-signature keys *)

Section PartialSigKeys.
Context `{Collaborators}.

(** [PsbtInput.decode] of [psbt.py] accepts a key with the tag [0x02]
    exactly when 33 bytes follow the tag. *)
Lemma PsbtInput_decode_entry_partial_sig out pubkey value :
  PsbtInput_decode_entry out (x02 :: pubkey, value) =
    if decide (length pubkey = 33%nat)
    then Ok (PsbtInput.set_partial_sigs
               (dict_set (hex pubkey) (hex value) (PsbtInput.partial_sigs out))
               out)
    else Raise (AssertionError "").
Proof.
  unfold PsbtInput_decode_entry. rewrite py_index_cons_0.
  cbn [mbind result_bind]. rewrite !decide_False by done.
  rewrite decide_True by done. unfold py_assert, len. cbn [length].
  case_decide as E.
  - rewrite E. done.
  - destruct (Z.of_nat (S (length pubkey)) =? 33 + 1) eqn:E'; [|done].
    apply Z.eqb_eq in E'. lia.
Qed.

End PartialSigKeys.

(** [_deserialize_partial_sigs] of [psbt_in.py] accepts a key exactly when
    33 or 65 bytes follow its first byte. *)
Lemma _deserialize_partial_sigs_accepts tag pubkey value :
  _deserialize_partial_sigs (tag :: pubkey) value =
    if decide (length pubkey = 33%nat \/ length pubkey = 65%nat)
    then Ok [(pubkey, value)]
    else Raise (BTClibValueError
                  ("invalid partial signature pubkey length: " +:+
                   pretty (len pubkey) +:+ " instead of (33, 65)")).
Proof.
  unfold _deserialize_partial_sigs.
  replace (len (tag :: pubkey) - 1) with (len pubkey)
    by (unfold len; cbn [length]; lia).
  unfold len.
  destruct (Z.of_nat (length pubkey) =? 33) eqn:E1;
    destruct (Z.of_nat (length pubkey) =? 65) eqn:E2;
    rewrite ?Z.eqb_eq, ?Z.eqb_neq in *; case_decide; simpl; try done; lia.
Qed.

(** An uncompressed public key: 65 bytes. *)
Definition uncompressed_pubkey : bytes := x04 :: repeat x11 64.

(** C6. A partial-signature key with an uncompressed (65-byte) public
    key: [PsbtInput.decode] of [psbt.py] raises on it, for every signature
    value, while [_deserialize_partial_sigs] of [psbt_in.py] accepts
    it. *)
Theorem psbt_py_rejects_uncompressed_pubkey `{Collaborators} (sig : bytes) :
  PsbtInput_decode [(x02 :: uncompressed_pubkey, sig)]
    = Raise (AssertionError "") /\
  _deserialize_partial_sigs (x02 :: uncompressed_pubkey) sig
    = Ok [(uncompressed_pubkey, sig)].
Proof.
  split.
  - unfold PsbtInput_decode. cbn [foldM].
    by rewrite PsbtInput_decode_entry_partial_sig.
  - by rewrite _deserialize_partial_sigs_accepts.
Qed.

(** *** The validator on an input without UTXO *)

Section ValidatorNoUtxo.
Context `{Collaborators}.

(** An input record with neither UTXO and no script set passes: nothing
    is checked for it, and the local [scriptPubKey] is left as it was. *)
Lemma Psbt_assert_valid_input_skips psbt spk i tx_in r :
  py_index (Psbt.inputs psbt) i = Ok r ->
  PsbtInput.non_witness_utxo r = None ->
  PsbtInput.witness_utxo r = None ->
  PsbtInput.redeem_script r = [] ->
  PsbtInput.witness_script r = [] ->
  Psbt_assert_valid_input psbt spk (i, tx_in) = Ok spk.
Proof.
  intros Hi Hn Hw Hr Hs. unfold Psbt_assert_valid_input.
  rewrite Hi. cbn [mbind result_bind]. by rewrite Hn, Hw, Hr, Hs.
Qed.

(** With a redeem script set and [scriptPubKey] still unbound, the check
    is not skipped: reading the variable raises. *)
Lemma Psbt_assert_valid_input_unbound psbt i tx_in r e :
  py_index (Psbt.inputs psbt) i = Ok r ->
  PsbtInput.non_witness_utxo r = None ->
  PsbtInput.witness_utxo r = None ->
  PsbtInput.redeem_script r <> [] ->
  script_encode (PsbtInput.redeem_script r) = Ok e ->
  Psbt_assert_valid_input psbt None (i, tx_in) = Raise UnboundLocalError.
Proof.
  intros Hi Hn Hw Hr He. unfold Psbt_assert_valid_input.
  rewrite Hi. cbn [mbind result_bind]. rewrite Hn, Hw.
  cbn [mbind result_bind].
  destruct (PsbtInput.redeem_script r) eqn:E; [done|].
  cbn [nonempty]. rewrite He. done.
Qed.

End ValidatorNoUtxo.

(** A container over a one-input transaction whose record has no UTXO and
    a redeem script. *)
Definition txid0 : string :=
  "000102030405060708090a0b0c0d0e0f101112131415161718191a1b1c1d1e1f".

Definition tx_one_input : Tx :=
  Tx.mk 2 0 [TxIn.mk (OutPoint.mk txid0 1) [] 4294967295 []]
    [TxOut.mk 5000 [TInt 0; TStr "AABB"]].

Definition psbt_no_utxo : Psbt :=
  Psbt.mk tx_one_input
    [PsbtInput.set_redeem_script [TInt 1] PsbtInput.default]
    [PsbtOutput.default] (Some 0) [] [] [].

(** C7. The validator does not skip the script-hash check of an input
    without UTXO whose redeem script is set: on [psbt_no_utxo] it raises,
    whatever the collaborators are ([UnboundLocalError] from reading
    [scriptPubKey], unless encoding the script raised before). *)
Theorem validator_fails_without_utxo `{Collaborators} :
  Psbt_assert_valid psbt_no_utxo = Raise UnboundLocalError \/
  exists e, script_encode [TInt 1] = Raise e /\
            Psbt_assert_valid psbt_no_utxo = Raise e.
Proof.
  destruct (script_encode [TInt 1]) as [e|e] eqn:E.
  - left. unfold Psbt_assert_valid.
    change (Tx.vin (Psbt.tx psbt_no_utxo))
      with [TxIn.mk (OutPoint.mk txid0 1) [] 4294967295 []].
    cbn [foldM enumerate imap]. cbn [mbind result_bind py_assert].
    rewrite (Psbt_assert_valid_input_unbound psbt_no_utxo 0 _
               (PsbtInput.set_redeem_script [TInt 1] PsbtInput.default) e);
      done.
  - right. exists e. split; [done|]. unfold Psbt_assert_valid.
    change (Tx.vin (Psbt.tx psbt_no_utxo))
      with [TxIn.mk (OutPoint.mk txid0 1) [] 4294967295 []].
    cbn [foldM enumerate imap]. cbn [mbind result_bind py_assert].
    unfold Psbt_assert_valid_input.
    change (py_index (Psbt.inputs psbt_no_utxo) (Z.of_nat 0))
      with (Ok (PsbtInput.set_redeem_script [TInt 1] PsbtInput.default)).
    cbn [mbind result_bind]. cbn -[script_encode]. by rewrite E.
Qed.

Example validator_fails_without_utxo_demo :
  Psbt_assert_valid (H := Demo.collaborators) psbt_no_utxo
    = Raise UnboundLocalError.
Proof. reflexivity. Qed.

(** *** The store monad *)

Lemma M_bind_run {A B} (c : M A) (f : A -> M B) s :
  (c ≫= f) s =
    match c s with
    | (Ok a, s') => f a s'
    | (Raise e, s') => (Raise e, s')
    end.
Proof. reflexivity. Qed.

Lemma M_ret_run {A} (a : A) s : (mret a : M A) s = (Ok a, s).
Proof. reflexivity. Qed.

Lemma lift_run {A} (r : result A) s : lift r s = (r, s).
Proof. reflexivity. Qed.

Lemma deref_Some {A} (hp : store -> list A) l x s :
  hp s !! l = Some x -> deref hp l s = (Ok x, s).
Proof. unfold deref. by intros ->. Qed.

Lemma alloc_run {A} (hp : store -> list A) set_hp x s :
  alloc hp set_hp x s = (Ok (length (hp s)), set_hp (hp s ++ [x]) s).
Proof. reflexivity. Qed.

Lemma assign_run {A} (hp : store -> list A) set_hp l x s :
  assign hp set_hp l x s = (Ok tt, set_hp (<[l := x]> (hp s)) s).
Proof. reflexivity. Qed.

(** Unfolds the monad's operations where they are applied to a store. *)
Ltac msimpl :=
  repeat (progress (rewrite ?M_bind_run, ?M_ret_run, ?lift_run;
                    cbv beta iota)).

(** A heap of the store, with the setter that replaces it. *)
Class HeapLaws {A} (hp : store -> list A)
  (set_hp : list A -> store -> store) : Prop := {
  hp_set : forall v s, hp (set_hp v s) = v;
  set_set : forall v w s, set_hp v (set_hp w s) = set_hp v s;
  set_get : forall s, set_hp (hp s) s = s }.

#[global] Instance txs_laws : HeapLaws txs set_txs.
Proof. split; intros; try done. by destruct s. Qed.
#[global] Instance ins_laws : HeapLaws ins set_ins.
Proof. split; intros; try done. by destruct s. Qed.
#[global] Instance outs_laws : HeapLaws outs set_outs.
Proof. split; intros; try done. by destruct s. Qed.
#[global] Instance psbts_laws : HeapLaws psbts set_psbts.
Proof. split; intros; try done. by destruct s. Qed.

(** *** [deepcopy] *)

(** Every object the memo knows has a copy that equals it. *)
Definition memo_ok {A} (h : list A) (memo : dict loc loc) : Prop :=
  forall l l', dict_get l memo = Some l' ->
    exists x, h !! l = Some x /\ h !! l' = Some x.

Lemma memo_ok_app {A} (h added : list A) memo :
  memo_ok h memo -> memo_ok (h ++ added) memo.
Proof.
  intros Hm l l' Hl. destruct (Hm l l' Hl) as (x & H1 & H2).
  exists x. split; by apply lookup_app_l_Some.
Qed.

Section Deepcopy.
Context {A : Type} (hp : store -> list A) (set_hp : list A -> store -> store).
Context `{!HeapLaws hp set_hp}.

(** The copies hold what the originals hold; the heap only grows. *)
Lemma deepcopy_refs_spec ls : forall memo s,
  Forall (fun l => is_Some (hp s !! l)) ls ->
  memo_ok (hp s) memo ->
  exists ls' memo' added,
    deepcopy_refs hp set_hp ls memo s
      = (Ok (ls', memo'), set_hp (hp s ++ added) s) /\
    memo_ok (hp s ++ added) memo' /\
    Forall2 (fun l l' => exists x, hp s !! l = Some x /\
                                   (hp s ++ added) !! l' = Some x) ls ls'.
Proof.
  induction ls as [|l r IH]; intros memo s Hv Hm.
  - exists [], memo, []. rewrite app_nil_r, set_get. simpl. auto.
  - apply Forall_cons in Hv as [[x Hx] Hv]. cbn [deepcopy_refs].
    destruct (dict_get l memo) as [l'|] eqn:Hl.
    + destruct (IH memo s Hv Hm) as (ls' & memo' & added & Hrun & Hm' & Hf).
      exists (l' :: ls'), memo', added.
      msimpl. rewrite Hrun. msimpl.
      split; [done|]. split; [done|]. constructor; [|done].
      destruct (Hm l l' Hl) as (y & H1 & H2). exists y.
      split; [done|]. by apply lookup_app_l_Some.
    + set (s1 := set_hp (hp s ++ [x]) s).
      assert (Hhp1 : hp s1 = hp s ++ [x]) by apply hp_set.
      msimpl. rewrite (deref_Some hp l x s Hx). msimpl.
      rewrite alloc_run. fold s1. msimpl.
      match goal with |- context [deepcopy_refs hp set_hp r ?m s1] =>
        assert (Hm1 : memo_ok (hp s1) m) end.
      { rewrite Hhp1. intros l0 l0'. rewrite dict_get_set.
        case_decide as E.
        - subst l0. intros [= <-]. exists x. split.
          + by apply lookup_app_l_Some.
          + by rewrite lookup_app_r, Nat.sub_diag.
        - intros Hl0. exact (memo_ok_app (hp s) [x] memo Hm _ _ Hl0). }
      assert (Hv1 : Forall (fun l => is_Some (hp s1 !! l)) r).
      { rewrite Hhp1. eapply Forall_impl; [exact Hv|].
        intros l0 [y Hy]. exists y. by apply lookup_app_l_Some. }
      destruct (IH _ s1 Hv1 Hm1) as (ls' & memo' & added & Hrun & Hm' & Hf).
      exists (length (hp s) :: ls'), memo', ([x] ++ added).
      rewrite Hrun. msimpl.
      rewrite Hhp1 in *. unfold s1 in *. rewrite set_set, <- app_assoc in *.
      split; [done|]. split; [done|]. constructor.
      * exists x. split; [done|].
        rewrite lookup_app_r by lia. by rewrite Nat.sub_diag.
      * apply Forall2_same_length_lookup_2; [by eapply Forall2_length|].
        intros i l0 l0' Hi Hi'.
        destruct (Forall2_lookup_lr _ _ _ _ _ _ Hf Hi Hi') as (y & H1 & H2).
        exists y. split; [|done].
        destruct (Forall_lookup_1 _ _ _ _ Hv Hi) as [z Hz].
        rewrite (lookup_app_l_Some _ _ _ _ Hz) in H1. congruence.
Qed.

(** Distinct objects, none copied before, get fresh copies in order. *)
Lemma deepcopy_refs_fresh ls : forall memo s xs,
  NoDup ls ->
  Forall (fun l => dict_get l memo = None) ls ->
  Forall2 (fun l x => hp s !! l = Some x) ls xs ->
  exists memo',
    deepcopy_refs hp set_hp ls memo s
      = (Ok (seq (length (hp s)) (length ls), memo'), set_hp (hp s ++ xs) s).
Proof.
  induction ls as [|l r IH]; intros memo s xs Hnd Hn Hf.
  - apply Forall2_nil_inv_l in Hf as ->. exists memo.
    by rewrite app_nil_r, set_get.
  - apply Forall2_cons_inv_l in Hf as (x & xs' & Hx & Hf & ->).
    apply NoDup_cons in Hnd as [Hl Hnd].
    apply Forall_cons in Hn as [Hnl Hn].
    cbn [deepcopy_refs]. rewrite Hnl.
    set (s1 := set_hp (hp s ++ [x]) s).
    assert (Hhp1 : hp s1 = hp s ++ [x]) by apply hp_set.
    msimpl. rewrite (deref_Some hp l x s Hx). msimpl.
    rewrite alloc_run. fold s1. msimpl.
    match goal with |- context [deepcopy_refs hp set_hp r ?m s1] =>
      destruct (IH m s1 xs' Hnd) as (memo' & Hrun) end.
    { apply Forall_forall. intros l0 Hl0. rewrite dict_get_set.
      rewrite decide_False by (intros ->; done).
      eapply Forall_forall in Hn; eauto. }
    { rewrite Hhp1. eapply Forall2_impl; [exact Hf|].
      intros l0 y Hy. by apply lookup_app_l_Some. }
    exists memo'. rewrite Hrun. msimpl. rewrite Hhp1.
    unfold s1. rewrite set_set, <- app_assoc, length_app. simpl.
    by rewrite Nat.add_1_r.
Qed.

End Deepcopy.

(** *** The value of a container in the store *)

Lemma load_Some s p v :
  load s p = Some v <->
  exists P,
    psbts s !! p = Some P /\
    txs s !! PsbtObj.tx P = Some (Psbt.tx v) /\
    Forall2 (fun l r => ins s !! l = Some r) (PsbtObj.inputs P) (Psbt.inputs v) /\
    Forall2 (fun l o => outs s !! l = Some o) (PsbtObj.outputs P) (Psbt.outputs v) /\
    Psbt.version v = PsbtObj.version P /\
    Psbt.hd_keypaths v = PsbtObj.hd_keypaths P /\
    Psbt.proprietary v = PsbtObj.proprietary P /\
    Psbt.unknown v = PsbtObj.unknown P.
Proof.
  unfold load. split.
  - intros E.
    destruct (psbts s !! p) as [P|] eqn:HP; [|done]. simpl in E.
    destruct (txs s !! PsbtObj.tx P) as [T|] eqn:HT; [|done]. simpl in E.
    destruct (mapM _ (PsbtObj.inputs P)) as [ri|] eqn:Hi; [|done]. simpl in E.
    destruct (mapM _ (PsbtObj.outputs P)) as [ro|] eqn:Ho; [|done]. simpl in E.
    injection E as <-. exists P. simpl.
    apply mapM_Some in Hi, Ho. auto 10.
  - intros (P & HP & HT & Hi & Ho & Hv & Hh & Hpr & Hu).
    rewrite HP. simpl. rewrite HT. simpl.
    apply mapM_Some in Hi, Ho. rewrite Hi, Ho. simpl.
    destruct v; simpl in *; by subst.
Qed.

(** *** Finalizer *)

Section FinalizeFacts.
Context `{Collaborators}.

(** The signing-intermediate fields of a record, as [finalize_psbt]
    leaves them. *)
Definition cleared (r : PsbtInput) : Prop :=
  PsbtInput.partial_sigs r = [] /\
  PsbtInput.sighash r = Some 0 /\
  PsbtInput.redeem_script r = [] /\
  PsbtInput.witness_script r = [] /\
  PsbtInput.hd_keypaths r = [] /\
  PsbtInput.por_commitment r = None.

Lemma finalize_input_empty r :
  PsbtInput.partial_sigs r = [] ->
  finalize_input r = Raise (AssertionError "").
Proof. unfold finalize_input. by intros ->. Qed.

Lemma finalize_input_Ok r r' :
  finalize_input r = Ok r' ->
  PsbtInput.partial_sigs r <> [] /\ cleared r' /\
  PsbtInput.final_script_sig r' <> [].
Proof.
  unfold finalize_input. intros E.
  apply bind_Ok_inv in E as ([] & Ha & E).
  apply bind_Ok_inv in E as (r1 & E1 & E). injection E as <-.
  split.
  { intros Hs. rewrite Hs in Ha. done. }
  split; [done|]. cbn.
  destruct (nonempty (PsbtInput.witness_script r)).
  - apply bind_Ok_inv in E1 as (e1 & _ & E1).
    apply bind_Ok_inv in E1 as (e2 & _ & E1). injection E1 as <-.
    by destruct (1 <? _).
  - apply bind_Ok_inv in E1 as (e1 & _ & E1). injection E1 as <-.
    destruct (1 <? _); cbn; [done|].
    by destruct (map _ _).
Qed.

(** The record of C2: a witness script and two partial signatures. *)
Lemma finalize_input_two_signatures r pubkey1 sig1 pubkey2 sig2 eS eR :
  PsbtInput.witness_script r <> [] ->
  PsbtInput.partial_sigs r = [(pubkey1, sig1); (pubkey2, sig2)] ->
  script_encode (PsbtInput.witness_script r) = Ok eS ->
  script_encode (PsbtInput.redeem_script r) = Ok eR ->
  exists r',
    finalize_input r = Ok r' /\
    PsbtInput.final_script_witness r' = [""; sig1; sig2; hex eS] /\
    PsbtInput.final_script_sig r' = [TStr (upper (hex eR))].
Proof.
  intros Hw Hs HeS HeR. unfold finalize_input. rewrite Hs.
  cbn [nonempty py_assert mbind result_bind].
  destruct (PsbtInput.witness_script r) as [|t ts] eqn:Ew; [done|].
  cbn [nonempty]. rewrite HeR. cbn [mbind result_bind].
  cbn [PsbtInput.witness_script PsbtInput.set_final_script_witness
       PsbtInput.set_final_script_sig PsbtInput.partial_sigs].
  rewrite Ew, HeS. cbn [mbind result_bind].
  eexists. split; [reflexivity|]. rewrite Hs. by cbn.
Qed.

(** The body of the loop of [finalize_psbt], on the store *)
Definition finalize_step (psbt_in : loc) : M unit :=
  r ← deref ins psbt_in;
  r' ← lift (finalize_input r);
  assign ins set_ins psbt_in r'.

Lemma finalize_step_run l r s :
  ins s !! l = Some r ->
  finalize_step l s =
    match finalize_input r with
    | Ok r' => (Ok tt, set_ins (<[l := r']> (ins s)) s)
    | Raise e => (Raise e, s)
    end.
Proof.
  intros Hl. unfold finalize_step. msimpl. rewrite (deref_Some ins l r s Hl).
  msimpl. by destruct (finalize_input r).
Qed.

(** The loop raises when a record it visits has no partial signature. *)
Lemma finalize_loop_fails ls : forall s,
  Forall (fun l => is_Some (ins s !! l)) ls ->
  Exists (fun l => exists r, ins s !! l = Some r /\
                             PsbtInput.partial_sigs r = []) ls ->
  exists e s', forM_ finalize_step ls s = (Raise e, s').
Proof.
  induction ls as [|l ls IH]; intros s Hv Hex.
  - by apply Exists_nil in Hex.
  - apply Forall_cons in Hv as [[r Hr] Hv]. cbn [forM_]. msimpl.
    rewrite (finalize_step_run l r s Hr).
    destruct (finalize_input r) as [r'|e] eqn:Ef; [|by exists e, s].
    msimpl. apply finalize_input_Ok in Ef as (Hne & _).
    apply IH.
    + simpl. eapply Forall_impl; [exact Hv|]. intros l0 Hl0.
      apply lookup_lt_is_Some. rewrite length_insert.
      by apply lookup_lt_is_Some.
    + apply Exists_cons in Hex as [(r0 & Hr0 & He)|Hex].
      { congruence. }
      eapply Exists_impl; [exact Hex|]. intros l0 (r0 & Hr0 & He).
      exists r0. split; [|done]. simpl.
      rewrite list_lookup_insert_ne; [done|]. intros ->. congruence.
Qed.

(** What the loop leaves outside the records it visits. *)
Lemma finalize_loop_frame ls : forall s s',
  forM_ finalize_step ls s = (Ok tt, s') ->
  txs s' = txs s /\ outs s' = outs s /\ psbts s' = psbts s /\
  length (ins s') = length (ins s) /\
  forall l, l ∉ ls -> ins s' !! l = ins s !! l.
Proof.
  induction ls as [|l ls IH]; intros s s' E.
  - injection E as <-. auto.
  - cbn [forM_] in E. rewrite M_bind_run in E.
    unfold finalize_step at 1 in E. rewrite M_bind_run in E.
    unfold deref at 1 in E.
    destruct (ins s !! l) as [r|] eqn:Hr; [|done].
    rewrite M_bind_run, lift_run in E.
    destruct (finalize_input r) as [r'|e] eqn:Ef; [|done].
    rewrite assign_run in E.
    apply IH in E as (Ht & Ho & Hp & Hlen & Hfr). simpl in *.
    rewrite length_insert in Hlen. repeat split; auto.
    intros l0 Hl0. apply not_elem_of_cons in Hl0 as [Hne Hl0].
    rewrite (Hfr l0 Hl0). by apply list_lookup_insert_ne.
Qed.

(** When the loop goes through, every record it visited is finalized. *)
Lemma finalize_loop_cleared ls : forall s s',
  forM_ finalize_step ls s = (Ok tt, s') ->
  Forall (fun l => exists r', ins s' !! l = Some r' /\ cleared r' /\
                              PsbtInput.final_script_sig r' <> []) ls.
Proof.
  induction ls as [|l ls IH]; intros s s' E; [constructor|].
  pose proof E as E0.
  cbn [forM_] in E. rewrite M_bind_run in E.
  unfold finalize_step at 1 in E. rewrite M_bind_run in E.
  unfold deref at 1 in E.
  destruct (ins s !! l) as [r|] eqn:Hr; [|done].
  rewrite M_bind_run, lift_run in E.
  destruct (finalize_input r) as [r'|e] eqn:Ef; [|done].
  rewrite assign_run in E.
  pose proof (IH _ _ E) as Hls. constructor; [|done].
  destruct (decide (l ∈ ls)) as [Hin|Hnin].
  - eapply Forall_forall in Hls; eauto.
  - apply finalize_loop_frame in E as (_ & _ & _ & _ & Hfr).
    rewrite (Hfr l Hnin). simpl.
    apply finalize_input_Ok in Ef as (_ & Hc & Hf).
    exists r'. split; [|done].
    apply list_lookup_insert_eq. by eapply lookup_lt_Some.
Qed.

(** The loop over distinct records finalizes each of them. *)
Lemma finalize_loop_distinct ls : forall s rs rs',
  NoDup ls ->
  Forall2 (fun l r => ins s !! l = Some r) ls rs ->
  Forall2 (fun r r' => finalize_input r = Ok r') rs rs' ->
  exists s',
    forM_ finalize_step ls s = (Ok tt, s') /\
    Forall2 (fun l r' => ins s' !! l = Some r') ls rs'.
Proof.
  induction ls as [|l ls IH]; intros s rs rs' Hnd Hf Hf'.
  - apply Forall2_nil_inv_l in Hf as ->.
    apply Forall2_nil_inv_l in Hf' as ->. exists s. split; [done|constructor].
  - apply Forall2_cons_inv_l in Hf as (r & rs0 & Hr & Hf & ->).
    apply Forall2_cons_inv_l in Hf' as (r' & rs0' & Hr' & Hf' & ->).
    apply NoDup_cons in Hnd as [Hl Hnd].
    cbn [forM_]. msimpl. rewrite (finalize_step_run l r s Hr), Hr'. msimpl.
    destruct (IH (set_ins (<[l:=r']> (ins s)) s) rs0 rs0' Hnd) as (s' & Hrun & Hres).
    { apply Forall2_same_length_lookup_2; [by eapply Forall2_length|].
      intros i l0 r0 Hi Hi'. simpl.
      rewrite list_lookup_insert_ne.
      - by eapply Forall2_lookup_lr in Hf.
      - intros ->. apply Hl. by eapply list_elem_of_lookup_2. }
    { done. }
    exists s'. split; [done|]. constructor; [|done].
    apply finalize_loop_frame in Hrun as (_ & _ & _ & _ & Hfr).
    rewrite (Hfr l Hl). simpl.
    apply list_lookup_insert_eq. by eapply lookup_lt_Some.
Qed.

End FinalizeFacts.

Section FinalizePsbt.
Context `{Collaborators}.

(** [deepcopy(psbt)] allocates a container whose value is that of
    [psbt]; what was in the store stays where it was. *)
Lemma deepcopy_psbt_spec s p v :
  load s p = Some v ->
  exists (lsI lsO : list loc) aI aO P,
    psbts s !! p = Some P /\
    deepcopy_psbt p s =
      (Ok (length (psbts s)),
       mkStore (txs s ++ [Psbt.tx v]) (ins s ++ aI) (outs s ++ aO)
         (psbts s ++ [PsbtObj.mk (length (txs s)) lsI lsO (PsbtObj.version P)
                        (PsbtObj.hd_keypaths P) (PsbtObj.proprietary P)
                        (PsbtObj.unknown P)])) /\
    Forall2 (fun l' r => (ins s ++ aI) !! l' = Some r) lsI (Psbt.inputs v) /\
    Forall2 (fun l' o => (outs s ++ aO) !! l' = Some o) lsO (Psbt.outputs v) /\
    (NoDup (PsbtObj.inputs P) ->
     lsI = seq (length (ins s)) (length (PsbtObj.inputs P))).
Proof.
  intros (P & HP & HT & Hi & Ho & Hv & Hh & Hpr & Hu)%load_Some.
  unfold deepcopy_psbt.
  set (s1 := set_txs (txs s ++ [Psbt.tx v]) s).
  destruct (deepcopy_refs_spec ins set_ins (PsbtObj.inputs P) [] s1)
    as (lsI & memoI & aI & HrunI & _ & HfI).
  { apply Forall_forall. intros l Hl.
    apply list_elem_of_lookup in Hl as [i Hl].
    destruct (Forall2_lookup_l _ _ _ _ _ Hi Hl) as (r & _ & Hr). by exists r. }
  { intros l l'. done. }
  set (s2 := set_ins (ins s1 ++ aI) s1) in *.
  destruct (deepcopy_refs_spec outs set_outs (PsbtObj.outputs P) [] s2)
    as (lsO & memoO & aO & HrunO & _ & HfO).
  { apply Forall_forall. intros l Hl.
    apply list_elem_of_lookup in Hl as [i Hl].
    destruct (Forall2_lookup_l _ _ _ _ _ Ho Hl) as (r & _ & Hr). by exists r. }
  { intros l l'. done. }
  exists lsI, lsO, aI, aO, P. split; [done|].
  split; [|split; [|split]].
  - msimpl. rewrite (deref_Some psbts p P s HP). msimpl.
    rewrite (deref_Some txs _ _ s HT). msimpl. rewrite alloc_run. fold s1.
    msimpl. rewrite HrunI. fold s2. msimpl. rewrite HrunO. msimpl.
    rewrite alloc_run. done.
  - apply Forall2_same_length_lookup_2.
    { rewrite <- (Forall2_length _ _ _ HfI). by eapply Forall2_length. }
    intros i l' r Hl' Hr.
    destruct (Forall2_lookup_r _ _ _ _ _ HfI Hl') as (l & Hl & x & Hx & Hx').
    destruct (Forall2_lookup_lr _ _ _ _ _ _ Hi Hl Hr). simpl in *. congruence.
  - apply Forall2_same_length_lookup_2.
    { rewrite <- (Forall2_length _ _ _ HfO). by eapply Forall2_length. }
    intros i l' r Hl' Hr.
    destruct (Forall2_lookup_r _ _ _ _ _ HfO Hl') as (l & Hl & x & Hx & Hx').
    destruct (Forall2_lookup_lr _ _ _ _ _ _ Ho Hl Hr). simpl in *. congruence.
  - intros Hnd.
    destruct (deepcopy_refs_fresh ins set_ins (PsbtObj.inputs P) [] s1
                (Psbt.inputs v) Hnd) as (memo' & Hrun').
    { by apply Forall_forall. }
    { done. }
    rewrite Hrun' in HrunI. by injection HrunI as <- _ _.
Qed.

(** Before its loop, [finalize_psbt] holds a private copy [p'] of the
    container; the loop runs on the copy's records. *)
Lemma finalize_psbt_run s p v :
  load s p = Some v ->
  exists s1 lsI P',
    psbts s1 !! length (psbts s) = Some P' /\
    PsbtObj.inputs P' = lsI /\
    load s1 (length (psbts s)) = Some v /\
    Forall2 (fun l' r => ins s1 !! l' = Some r) lsI (Psbt.inputs v) /\
    (forall P, psbts s !! p = Some P -> NoDup (PsbtObj.inputs P) -> NoDup lsI) /\
    finalize_psbt p s =
      match forM_ finalize_step lsI s1 with
      | (Ok _, s') => (Ok (length (psbts s)), s')
      | (Raise e, s') => (Raise e, s')
      end.
Proof.
  intros Hload.
  destruct (deepcopy_psbt_spec s p v Hload)
    as (lsI & lsO & aI & aO & P & HP & Hrun & HfI & HfO & Hnd).
  match type of Hrun with _ = (_, ?s1) => exists s1, lsI end.
  eexists.
  assert (Hnew : forall (l : list PsbtObj) x, (l ++ [x]) !! length l = Some x).
  { intros l x. by rewrite lookup_app_r, Nat.sub_diag. }
  split; [apply Hnew|]. split; [done|]. split; [|split; [exact HfI|split]].
  - apply load_Some. eexists. split; [apply Hnew|]. simpl.
    split; [by rewrite lookup_app_r, Nat.sub_diag|].
    apply load_Some in Hload as (P0 & HP0 & _ & _ & _ & Hv & Hh & Hpr & Hu).
    rewrite HP in HP0. injection HP0 as <-. auto 10.
  - intros P0 HP0 Hnd0. rewrite HP in HP0. injection HP0 as <-.
    rewrite (Hnd Hnd0). apply NoDup_seq.
  - unfold finalize_psbt. msimpl. rewrite Hrun. msimpl.
    erewrite deref_Some; [|apply Hnew]. msimpl. cbn [PsbtObj.inputs].
    change (forM_ _ lsI) with (forM_ finalize_step lsI).
    destruct (forM_ finalize_step lsI _) as [[[]|e] s']; by msimpl.
Qed.

(** C2. In a container whose records are distinct objects and can each be
    finalized (a partial signature, scripts that encode), take the record
    at index [i]: its witness script is [S], not empty, and its partial
    signatures are [pubkey1 -> sig1] then [pubkey2 -> sig2]. Then
    [finalize_psbt] returns a container whose record at [i] has
    [final_script_witness = ["", sig1, sig2, hex of the encoded S]] and
    [final_script_sig = [upper-case hex of the encoded redeem script]]. *)
Theorem finalize_two_signatures_stack
  (s : store) (p : loc) (P : PsbtObj) (v : Psbt) (i : nat) (r : PsbtInput)
  (pubkey1 sig1 pubkey2 sig2 : string) (eS eR : bytes) :
  psbts s !! p = Some P ->
  load s p = Some v ->
  NoDup (PsbtObj.inputs P) ->
  Forall (fun r => is_ok (finalize_input r) = true) (Psbt.inputs v) ->
  Psbt.inputs v !! i = Some r ->
  PsbtInput.witness_script r <> [] ->
  PsbtInput.partial_sigs r = [(pubkey1, sig1); (pubkey2, sig2)] ->
  pubkey1 <> pubkey2 ->
  script_encode (PsbtInput.witness_script r) = Ok eS ->
  script_encode (PsbtInput.redeem_script r) = Ok eR ->
  exists p' s' v' r',
    finalize_psbt p s = (Ok p', s') /\
    load s' p' = Some v' /\
    Psbt.inputs v' !! i = Some r' /\
    PsbtInput.final_script_witness r' = [""; sig1; sig2; hex eS] /\
    PsbtInput.final_script_sig r' = [TStr (upper (hex eR))].
Proof.
  intros HP Hload Hnd Hfin Hi Hw Hs _ HeS HeR.
  destruct (finalize_psbt_run s p v Hload)
    as (s1 & lsI & P' & HP' & HlsI & Hload1 & HfI & Hnd' & Hrun).
  specialize (Hnd' P HP Hnd).
  assert (exists rs', Forall2 (fun r r' => finalize_input r = Ok r')
                        (Psbt.inputs v) rs') as [rs' Hrs'].
  { clear -Hfin. induction Hfin as [|r rs Hr _ [rs' IH]]; [by exists []|].
    destruct (finalize_input r) as [r'|] eqn:E; [|done].
    exists (r' :: rs'). by constructor. }
  destruct (finalize_loop_distinct lsI s1 _ rs' Hnd' HfI Hrs')
    as (s' & Hloop & Hres).
  rewrite Hloop in Hrun.
  destruct (finalize_input_two_signatures r _ _ _ _ _ _ Hw Hs HeS HeR)
    as (r' & Hr' & Hfw & Hfs).
  exists (length (psbts s)), s', (Psbt.set_inputs rs' v), r'.
  split; [done|]. split; [|split; [|done]].
  - apply finalize_loop_frame in Hloop as (Ht & Ho & Hp & _).
    apply load_Some in Hload1 as (P1 & HP1 & HT1 & _ & Ho1 & Hrest).
    assert (Some P1 = Some P') as [= ->] by exact (eq_trans (eq_sym HP1) HP').
    apply load_Some. exists P'. rewrite Hp, Ht, Ho. simpl.
    rewrite HlsI. auto 10.
  - simpl. destruct (Forall2_lookup_l _ _ _ _ _ Hrs' Hi) as (r'' & Hr'' & E).
    rewrite Hr'' . congruence.
Qed.

(** C5. [finalize_psbt] raises on a container one of whose records has no
    partial signature, and returns nothing. When it returns, every record
    of the container it returns has its signing-intermediate fields
    cleared, and running it again on that container, if it has a record
    at all, raises. *)
Theorem finalize_needs_partial_sigs_and_clears
  (s : store) (p : loc) (v : Psbt) :
  load s p = Some v ->
  (Exists (fun r => PsbtInput.partial_sigs r = []) (Psbt.inputs v) ->
   exists e s', finalize_psbt p s = (Raise e, s')) /\
  (forall p' s',
     finalize_psbt p s = (Ok p', s') ->
     exists v',
       load s' p' = Some v' /\
       Forall cleared (Psbt.inputs v') /\
       (Psbt.inputs v' <> [] ->
        exists e s'', finalize_psbt p' s' = (Raise e, s''))).
Proof.
  intros Hload.
  destruct (finalize_psbt_run s p v Hload)
    as (s1 & lsI & P' & HP' & HlsI & Hload1 & HfI & _ & Hrun).
  assert (Hfails : forall s0 p0 v0, load s0 p0 = Some v0 ->
            Exists (fun r => PsbtInput.partial_sigs r = []) (Psbt.inputs v0) ->
            exists e s', finalize_psbt p0 s0 = (Raise e, s')).
  { clear. intros s p v Hload Hex.
    destruct (finalize_psbt_run s p v Hload)
      as (s1 & lsI & P' & HP' & HlsI & Hload1 & HfI & _ & Hrun).
    destruct (finalize_loop_fails lsI s1) as (e & s' & Hloop).
    - apply Forall_forall. intros l Hl.
      apply list_elem_of_lookup in Hl as [i Hl].
      destruct (Forall2_lookup_l _ _ _ _ _ HfI Hl) as (r & _ & Hr). by exists r.
    - apply Exists_exists in Hex as (r & Hr & He).
      apply list_elem_of_lookup in Hr as [i Hr].
      destruct (Forall2_lookup_r _ _ _ _ _ HfI Hr) as (l & Hl & Hlr).
      apply Exists_exists. exists l. split; [by eapply list_elem_of_lookup_2|].
      by exists r.
    - exists e, s'. by rewrite Hrun, Hloop. }
  split; [by apply Hfails|].
  intros p' s' Hfin. rewrite Hrun in Hfin.
  destruct (forM_ finalize_step lsI s1) as [[[]|e] s''] eqn:Hloop; [|done].
  injection Hfin as <- <-.
  pose proof (finalize_loop_cleared _ _ _ Hloop) as Hcl.
  pose proof (finalize_loop_frame _ _ _ Hloop) as (Ht & Ho & Hp & _).
  assert (exists rs', Forall2 (fun l r' => ins s'' !! l = Some r') lsI rs' /\
                      Forall cleared rs') as (rs' & Hrs' & Hc).
  { clear -Hcl. induction Hcl as [|l ls (r' & Hr' & Hc & _) _ (rs' & IH & IHc)].
    - exists []. split; constructor.
    - exists (r' :: rs'). split; constructor; done. }
  assert (Hload' : load s'' (length (psbts s)) = Some (Psbt.set_inputs rs' v)).
  { apply load_Some in Hload1 as (P1 & HP1 & HT1 & _ & Ho1 & Hrest).
    assert (Some P1 = Some P') as [= ->] by exact (eq_trans (eq_sym HP1) HP').
    apply load_Some. exists P'. rewrite Hp, Ht, Ho. simpl.
    rewrite HlsI. auto 10. }
  exists (Psbt.set_inputs rs' v). split; [done|]. split; [done|].
  simpl. intros Hne. apply (Hfails _ _ _ Hload'). simpl.
  destruct Hc as [|r' rs' [Hr' _] _]; [done|]. by left.
Qed.

End FinalizePsbt.

(** *** Extractor *)

Lemma py_index_nat {A} (l : list A) (i : nat) x :
  l !! i = Some x -> py_index l (Z.of_nat i) = Ok x.
Proof.
  intros Hl. unfold py_index.
  destruct (Z.of_nat i <? 0) eqn:E; [apply Z.ltb_lt in E; lia|].
  rewrite E, Nat2Z.id, Hl. done.
Qed.

Lemma py_index_nat_None {A} (l : list A) (i : nat) :
  l !! i = None -> py_index l (Z.of_nat i) = Raise IndexError.
Proof.
  intros Hl. unfold py_index.
  destruct (Z.of_nat i <? 0) eqn:E; [apply Z.ltb_lt in E; lia|].
  rewrite E, Nat2Z.id, Hl. done.
Qed.

(** What [extract_tx] makes of the input [vin] whose record is [r]. *)
Definition extract_vin (vin : TxIn) (r : PsbtInput) : TxIn :=
  let vin := set_scriptSig (PsbtInput.final_script_sig r) vin in
  if nonempty (PsbtInput.final_script_witness r)
  then set_txinwitness (PsbtInput.final_script_witness r) vin
  else vin.

(** The body of the loop of [extract_tx] *)
Definition extract_step (psbt tx : loc) (entry : Z * TxIn) : M unit :=
  let '(i, _) := entry in
  P ← deref psbts psbt;
  l ← lift (py_index (PsbtObj.inputs P) i);
  r ← deref ins l;
  update_vin tx i (set_scriptSig (PsbtInput.final_script_sig r));;
  P ← deref psbts psbt;
  l ← lift (py_index (PsbtObj.inputs P) i);
  r ← deref ins l;
  if nonempty (PsbtInput.final_script_witness r) then
    update_vin tx i (set_txinwitness (PsbtInput.final_script_witness r))
  else mret tt.

Lemma update_vin_run s t T (i : nat) vin f :
  txs s !! t = Some T -> Tx.vin T !! i = Some vin ->
  update_vin t (Z.of_nat i) f s =
    (Ok tt, set_txs (<[t := set_vin (<[i := f vin]> (Tx.vin T)) T]> (txs s)) s).
Proof.
  intros Ht Hv. unfold update_vin. msimpl.
  rewrite (deref_Some txs t T s Ht). msimpl.
  rewrite (py_index_nat _ _ _ Hv). msimpl.
  by rewrite assign_run, Nat2Z.id.
Qed.

Lemma extract_step_run s p t P T (i : nat) l r vin x :
  psbts s !! p = Some P -> txs s !! t = Some T ->
  PsbtObj.inputs P !! i = Some l -> ins s !! l = Some r ->
  Tx.vin T !! i = Some vin ->
  extract_step p t (Z.of_nat i, x) s =
    (Ok tt,
     set_txs (<[t := set_vin (<[i := extract_vin vin r]> (Tx.vin T)) T]> (txs s)) s).
Proof.
  intros HP HT Hl Hr Hv. unfold extract_step. msimpl.
  rewrite (deref_Some psbts p P s HP). msimpl.
  rewrite (py_index_nat _ _ _ Hl). msimpl.
  rewrite (deref_Some ins l r s Hr). msimpl.
  rewrite (update_vin_run s t T i vin _ HT Hv). msimpl.
  set (T1 := set_vin _ T). set (s1 := set_txs _ s).
  assert (HP1 : psbts s1 !! p = Some P) by done.
  assert (Hr1 : ins s1 !! l = Some r) by done.
  assert (HT1 : txs s1 !! t = Some T1).
  { unfold s1. simpl. apply list_lookup_insert_eq. by eapply lookup_lt_Some. }
  rewrite (deref_Some psbts p P s1 HP1). msimpl.
  rewrite (py_index_nat _ _ _ Hl). msimpl.
  rewrite (deref_Some ins l r s1 Hr1). msimpl.
  unfold extract_vin.
  destruct (nonempty (PsbtInput.final_script_witness r)); msimpl.
  - assert (Hv1 : Tx.vin T1 !! i = Some (set_scriptSig (PsbtInput.final_script_sig r) vin)).
    { unfold T1. simpl. apply list_lookup_insert_eq. by eapply lookup_lt_Some. }
    rewrite (update_vin_run s1 t T1 i _ _ HT1 Hv1).
    unfold s1, T1. simpl. unfold set_txs, set_vin. simpl.
    by rewrite !list_insert_insert_eq.
  - done.
Qed.

(** The loop over the inputs from index [k] on; [done] are the inputs
    written already. *)
Lemma extract_loop p t P rs : forall es rest done s T,
  psbts s !! p = Some P ->
  Forall2 (fun l r => ins s !! l = Some r) (PsbtObj.inputs P) rs ->
  txs s !! t = Some T ->
  Tx.vin T = done ++ rest ->
  length es = length rest ->
  (length (done ++ rest) <= length rs)%nat ->
  forM_ (extract_step p t)
    (imap (fun i x => (Z.of_nat (length done + i), x)) es) s =
    (Ok tt,
     set_txs (<[t := set_vin (done ++ zip_with extract_vin rest
                                        (drop (length done) rs)) T]>
                (txs s)) s).
Proof.
  induction es as [|e es IH]; intros rest done s T HP Hrs HT Hvin Hlen Hle.
  - destruct rest; [|done]. simpl. rewrite M_ret_run.
    rewrite app_nil_r in *. rewrite <- Hvin.
    replace (set_vin (Tx.vin T) T) with T by by destruct T.
    rewrite list_insert_id by done. by destruct s.
  - destruct rest as [|vin rest]; [done|]. simpl in Hlen.
    cbn [imap forM_]. msimpl.
    assert (Hk : Tx.vin T !! length done = Some vin).
    { rewrite Hvin. by rewrite lookup_app_r, Nat.sub_diag. }
    assert (exists r, rs !! length done = Some r) as [r Hr].
    { apply lookup_lt_is_Some. rewrite length_app in Hle. simpl in Hle. lia. }
    destruct (Forall2_lookup_r _ _ _ _ _ Hrs Hr) as (l & Hl & Hlr).
    rewrite Nat.add_0_r.
    rewrite (extract_step_run s p t P T _ l r vin e HP HT Hl Hlr Hk). msimpl.
    set (T1 := set_vin _ T). set (s1 := set_txs _ s).
    assert (HT1 : txs s1 !! t = Some T1).
    { unfold s1. simpl. apply list_lookup_insert_eq. by eapply lookup_lt_Some. }
    assert (Hvin1 : Tx.vin T1 = (done ++ [extract_vin vin r]) ++ rest).
    { unfold T1. simpl. rewrite Hvin.
      rewrite insert_app_r_alt by lia. rewrite Nat.sub_diag. simpl.
      by rewrite <- app_assoc. }
    erewrite (imap_ext _ (fun i x => (Z.of_nat (length (done ++ [extract_vin vin r]) + i), x))).
    2:{ intros i x _. simpl. rewrite length_app. simpl. f_equal. lia. }
    rewrite (IH rest (done ++ [extract_vin vin r]) s1 T1); try done.
    + unfold s1, T1. simpl. unfold set_txs, set_vin. simpl.
      rewrite list_insert_insert_eq. rewrite length_app. simpl.
      rewrite (drop_S _ _ _ Hr). simpl. rewrite <- app_assoc. simpl.
      by rewrite Nat.add_1_r.
    + lia.
    + rewrite !length_app in *. simpl in *. lia.
Qed.

Section ExtractFacts.
Context `{Collaborators}.

(** A container whose records went through [finalize_input]. *)
Definition finalized (v : Psbt) : Prop :=
  Forall (fun r => cleared r /\ PsbtInput.final_script_sig r <> [])
    (Psbt.inputs v).

(** The transaction of a container: one record per input, and at least
    one input ([tx.py]: "A transaction must have at least one input"). *)
Definition one_record_per_input (v : Psbt) : Prop :=
  length (Psbt.inputs v) = length (Tx.vin (Psbt.tx v)) /\
  Tx.vin (Psbt.tx v) <> [].

Lemma extract_tx_run s p P v :
  psbts s !! p = Some P ->
  load s p = Some v ->
  (length (Tx.vin (Psbt.tx v)) <= length (Psbt.inputs v))%nat ->
  extract_tx p s =
    (Ok (PsbtObj.tx P),
     set_txs (<[PsbtObj.tx P :=
                  set_vin (zip_with extract_vin (Tx.vin (Psbt.tx v))
                             (Psbt.inputs v)) (Psbt.tx v)]> (txs s)) s).
Proof.
  intros HP (P' & HP' & HT & Hi & _)%load_Some Hle.
  assert (Some P' = Some P) as [= ->] by exact (eq_trans (eq_sym HP') HP).
  unfold extract_tx. msimpl. rewrite (deref_Some psbts p P s HP). msimpl.
  rewrite (deref_Some txs _ _ s HT). msimpl.
  change (forM_ _ (enumerate ?l)) with
    (forM_ (extract_step p (PsbtObj.tx P))
       (imap (fun i x => (Z.of_nat (length (@nil TxIn) + i), x)) l)).
  rewrite (extract_loop p (PsbtObj.tx P) P (Psbt.inputs v) _
             (Tx.vin (Psbt.tx v)) [] s (Psbt.tx v)); done.
Qed.

End ExtractFacts.

Section ExtractTheorem.
Context `{Collaborators}.

(** What [finalize_psbt] returns is [finalized]. *)
Lemma finalize_psbt_finalized s p v p' s' :
  load s p = Some v ->
  finalize_psbt p s = (Ok p', s') ->
  exists v', load s' p' = Some v' /\ finalized v' /\
             Psbt.tx v' = Psbt.tx v /\
             length (Psbt.inputs v') = length (Psbt.inputs v).
Proof.
  intros Hload Hfin.
  destruct (finalize_psbt_run s p v Hload)
    as (s1 & lsI & P' & HP' & HlsI & Hload1 & HfI & _ & Hrun).
  rewrite Hrun in Hfin.
  destruct (forM_ finalize_step lsI s1) as [[[]|e] s''] eqn:Hloop; [|done].
  injection Hfin as <- <-.
  pose proof (finalize_loop_cleared _ _ _ Hloop) as Hcl.
  pose proof (finalize_loop_frame _ _ _ Hloop) as (Ht & Ho & Hp & _).
  assert (exists rs', Forall2 (fun l r' => ins s'' !! l = Some r') lsI rs' /\
            Forall (fun r => cleared r /\ PsbtInput.final_script_sig r <> []) rs')
    as (rs' & Hrs' & Hc).
  { clear -Hcl. induction Hcl as [|l ls (r' & Hr' & Hc) _ (rs' & IH & IHc)].
    - exists []. split; constructor.
    - exists (r' :: rs'). split; constructor; done. }
  exists (Psbt.set_inputs rs' v). split; [|split; [done|split; [done|]]].
  - apply load_Some in Hload1 as (P1 & HP1 & HT1 & _ & Ho1 & Hrest).
    assert (Some P1 = Some P') as [= ->] by exact (eq_trans (eq_sym HP1) HP').
    apply load_Some. exists P'. rewrite Hp, Ht, Ho. simpl.
    rewrite HlsI. auto 10.
  - simpl. rewrite <- (Forall2_length _ _ _ Hrs'). by eapply Forall2_length.
Qed.

(** C10. [extract_tx] returns the location of the transaction the
    container refers to, and leaves the container object and its records
    as they were. After it, read through the container, every input of
    the transaction has the [scriptSig] of its record's
    [final_script_sig] and, where [final_script_witness] is not empty,
    that witness (its own otherwise); and for a finalized container the
    validator now rejects the container: its skeleton carries unlocking
    data. *)
Theorem extract_tx_writes_through_container
  (s : store) (p : loc) (P : PsbtObj) (v : Psbt) :
  psbts s !! p = Some P ->
  load s p = Some v ->
  finalized v ->
  one_record_per_input v ->
  exists s' v',
    extract_tx p s = (Ok (PsbtObj.tx P), s') /\
    psbts s' = psbts s /\ ins s' = ins s /\ outs s' = outs s /\
    load s' p = Some v' /\
    Psbt.inputs v' = Psbt.inputs v /\
    Forall2 (fun vin' '(vin, r) =>
               TxIn.scriptSig vin' = PsbtInput.final_script_sig r /\
               TxIn.txinwitness vin' =
                 (if nonempty (PsbtInput.final_script_witness r)
                  then PsbtInput.final_script_witness r
                  else TxIn.txinwitness vin))
      (Tx.vin (Psbt.tx v')) (zip (Tx.vin (Psbt.tx v)) (Psbt.inputs v)) /\
    Psbt_assert_valid v' = Raise (AssertionError "").
Proof.
  intros HP Hload Hfin [Hlen Hne].
  rewrite (extract_tx_run s p P v HP Hload) by lia.
  set (T' := set_vin _ (Psbt.tx v)).
  eexists _, (Psbt.set_tx T' v).
  split; [reflexivity|]. split; [done|]. split; [done|]. split; [done|].
  pose proof Hload as (P' & HP' & HT & Hi & Ho & Hrest)%load_Some.
  assert (Some P' = Some P) as [= ->] by exact (eq_trans (eq_sym HP') HP).
  split; [|split; [done|split]].
  - apply load_Some. exists P. simpl. split; [done|]. split; [|auto 10].
    apply list_lookup_insert_eq. by eapply lookup_lt_Some.
  - simpl. clear -Hlen. revert Hlen.
    generalize (Psbt.inputs v) as rs. generalize (Tx.vin (Psbt.tx v)) as vs.
    induction vs as [|vin vs IH]; intros [|r rs] Hl; try done.
    simpl. constructor; [|apply IH; simpl in Hl; lia].
    unfold extract_vin. by destruct (nonempty (PsbtInput.final_script_witness r)).
  - apply Psbt_assert_valid_rejects. simpl.
    destruct (Tx.vin (Psbt.tx v)) as [|vin vs]; [done|].
    destruct (Psbt.inputs v) as [|r rs] eqn:Er; [done|].
    unfold finalized in Hfin. rewrite Er in Hfin.
    apply Forall_cons in Hfin as [[_ Hsig] _].
    simpl. left. left. unfold extract_vin.
    by destruct (nonempty (PsbtInput.final_script_witness r)).
Qed.

End ExtractTheorem.

(** *** The finalizer works on a copy *)

(** [finalize_psbt] returns a new container object and leaves the
    container it is given, with its records, as it was: the records it
    clears are those of the [deepcopy]. *)
Theorem finalize_psbt_leaves_argument `{Collaborators}
  (s : store) (p : loc) (P : PsbtObj) (v : Psbt) (p' : loc) (s' : store) :
  psbts s !! p = Some P ->
  load s p = Some v ->
  NoDup (PsbtObj.inputs P) ->
  finalize_psbt p s = (Ok p', s') ->
  p' <> p /\ load s' p = Some v.
Proof.
  intros HP Hload Hnd.
  destruct (deepcopy_psbt_spec s p v Hload)
    as (lsI & lsO & aI & aO & P0 & HP0 & Hrun & HfI & HfO & Hfresh).
  rewrite HP in HP0. injection HP0 as <-. specialize (Hfresh Hnd).
  unfold finalize_psbt. msimpl. rewrite Hrun. msimpl.
  assert (Hnew : forall (l : list PsbtObj) x, (l ++ [x]) !! length l = Some x).
  { intros l x. by rewrite lookup_app_r, Nat.sub_diag. }
  erewrite deref_Some; [|apply Hnew]. msimpl.
  cbn [PsbtObj.inputs].
  change (forM_ _ lsI) with (forM_ finalize_step lsI).
  destruct (forM_ finalize_step lsI _) as [[[]|e] s1] eqn:Hloop; msimpl;
    [|done].
  intros [= <- <-].
  apply finalize_loop_frame in Hloop as (Ht & Ho & Hp & _ & Hins).
  cbn [txs outs psbts ins] in Ht, Ho, Hp, Hins.
  split.
  { apply lookup_lt_Some in HP. lia. }
  apply load_Some in Hload as (P1 & HP1 & HT & Hi & Hou & Hrest).
  rewrite HP in HP1. injection HP1 as <-.
  apply load_Some. exists P. rewrite Hp, Ht, Ho.
  split; [by apply lookup_app_l_Some|].
  split; [by apply lookup_app_l_Some|].
  split; [|split; [|done]].
  - eapply Forall2_impl; [exact Hi|]. intros l r Hl.
    rewrite Hins; [by apply lookup_app_l_Some|].
    rewrite Hfresh. intros Hin%elem_of_seq.
    apply lookup_lt_Some in Hl. lia.
  - eapply Forall2_impl; [exact Hou|]. intros l o Hl.
    by apply lookup_app_l_Some.
Qed.

(** *** Combiner: attributes *)

(** [_combine_key] on the values of the two attributes: what [out]'s
    attribute becomes. *)
Definition merge_attr (key : string) (o v : attr) : result attr :=
  if isinstance_dict v then
    if truthy o then attr_update o v else Ok v
  else if isinstance_list v then
    if truthy o then attr_extend o v else Ok v
  else if truthy v then
    if truthy o then py_assert (bool_decide (v = o)) key;; Ok o else Ok v
  else Ok o.

(** Two attribute values of one Python type. *)
Definition same_kind (a b : attr) : Prop :=
  match a, b with
  | ATx _, ATx _ | ATxOut _, ATxOut _ | AInt _, AInt _ | AStr _, AStr _
  | ADict _, ADict _ | ADictOfDict _, ADictOfDict _
  | ATokens _, ATokens _ | AStrs _, AStrs _ | AKeypaths _, AKeypaths _ => True
  | _, _ => False
  end.

Lemma merge_attr_kind key o v a :
  same_kind o v -> merge_attr key o v = Ok a -> same_kind o a.
Proof.
  unfold merge_attr, py_assert.
  destruct o, v; simpl; try done;
    repeat match goal with
           | |- context [if ?c then _ else _] => destruct c
           end; simpl; intros _ E; try done; injection E as <-; done.
Qed.

(** The laws of [getattr] and [setattr] on a dataclass. *)
Class DataclassLaws (R : Type) `{Dataclass R} : Prop := {
  dc_heap :: HeapLaws heap set_heap;
  dc_psbts : forall v s, psbts (set_heap v s) = psbts s;
  dc_txs : forall v s, txs (set_heap v s) = txs s;
  dc_getattr : forall r key, key ∈ dict_keys_of -> is_ok (getattr r key) = true;
  dc_kind : forall r r' key a b,
    getattr r key = Ok a -> getattr r' key = Ok b -> same_kind a b;
  dc_set_same : forall r key a, getattr r key = Ok a -> setattr r key a = Ok r;
  dc_set : forall r key a b,
    getattr r key = Ok a -> same_kind a b ->
    exists r', setattr r key b = Ok r' /\ getattr r' key = Ok b /\
      forall key', key' <> key -> getattr r' key' = getattr r key';
  dc_valid : forall r, assert_valid r = Ok tt }.

(** Decides the comparisons of two literal keys. *)
Ltac decide_keys :=
  repeat first [rewrite decide_True by done | rewrite decide_False by done].

Ltac setattr_case getattr_ setattr_ :=
  match goal with E : ?key = _ |- _ => subst key end;
  intros [= <-];
  match goal with |- same_kind _ ?b -> _ => destruct b end; try done; intros _;
  eexists; split; [unfold setattr_; decide_keys; reflexivity|];
  split; [unfold getattr_; decide_keys; reflexivity|];
  let k' := fresh "k" in
  let Hne := fresh "Hne" in
  intros k' Hne; unfold getattr_;
  match type of Hne with
  | _ <> ?K => rewrite !(decide_False (P := k' = K)) by done
  end;
  reflexivity.

Lemma PsbtInput_setattr_spec r key a b :
  PsbtInput_getattr r key = Ok a -> same_kind a b ->
  exists r', PsbtInput_setattr r key b = Ok r' /\
    PsbtInput_getattr r' key = Ok b /\
    forall key', key' <> key -> PsbtInput_getattr r' key' = PsbtInput_getattr r key'.
Proof.
  unfold PsbtInput_getattr at 1.
  repeat (case_decide; [setattr_case PsbtInput_getattr PsbtInput_setattr|]).
  done.
Qed.

Lemma PsbtOutput_setattr_spec r key a b :
  PsbtOutput_getattr r key = Ok a -> same_kind a b ->
  exists r', PsbtOutput_setattr r key b = Ok r' /\
    PsbtOutput_getattr r' key = Ok b /\
    forall key', key' <> key -> PsbtOutput_getattr r' key' = PsbtOutput_getattr r key'.
Proof.
  unfold PsbtOutput_getattr at 1.
  repeat (case_decide; [setattr_case PsbtOutput_getattr PsbtOutput_setattr|]).
  done.
Qed.

#[global] Instance PsbtInput_laws : DataclassLaws PsbtInput.
Proof.
  split.
  - apply ins_laws.
  - done.
  - done.
  - intros r key Hk. simpl in Hk.
    repeat (apply elem_of_cons in Hk as [->|Hk]; [done|]).
    by apply elem_of_nil in Hk.
  - intros r r' key a b. simpl. unfold PsbtInput_getattr.
    repeat (case_decide; [intros [= <-] [= <-]; done|]). done.
  - intros r key a. simpl. unfold PsbtInput_getattr.
    repeat (case_decide; [subst key; intros [= <-]; by destruct r|]). done.
  - intros r key a b. apply PsbtInput_setattr_spec.
  - done.
Qed.

#[global] Instance PsbtOutput_laws : DataclassLaws PsbtOutput.
Proof.
  split.
  - apply outs_laws.
  - done.
  - done.
  - intros r key Hk. simpl in Hk.
    repeat (apply elem_of_cons in Hk as [->|Hk]; [done|]).
    by apply elem_of_nil in Hk.
  - intros r r' key a b. simpl. unfold PsbtOutput_getattr.
    repeat (case_decide; [intros [= <-] [= <-]; done|]). done.
  - intros r key a. simpl. unfold PsbtOutput_getattr.
    repeat (case_decide; [subst key; intros [= <-]; by destruct r|]). done.
  - intros r key a b. apply PsbtOutput_setattr_spec.
  - done.
Qed.

Lemma extend_new_subset {A} `{EqDecision A} (o v : list A) :
  (forall x, x ∈ v -> x ∈ o) -> extend_new o v = o.
Proof.
  unfold extend_new. induction v as [|x v IH]; intros Hin; [done|].
  simpl. rewrite bool_decide_eq_true_2 by (apply Hin; left).
  apply IH. intros y Hy. apply Hin. by right.
Qed.

(** The dictionaries of an attribute value have no key twice. *)
Definition attr_wf (a : attr) : Prop :=
  match a with
  | ADict d => dict_wf d
  | ADictOfDict d => dict_wf d
  | _ => True
  end.

(** Merging an attribute with itself changes nothing. *)
Lemma merge_attr_self key a : attr_wf a -> merge_attr key a a = Ok a.
Proof.
  unfold merge_attr, py_assert.
  destruct a; simpl; intros Hwf;
    repeat match goal with
           | |- context [if ?c then _ else _] => destruct c eqn:?
           end; simpl; try done;
    rewrite ?dict_update_self by done; rewrite ?extend_new_subset by done;
    try done;
    match goal with E : bool_decide _ = false |- _ =>
      by apply bool_decide_eq_false in E end.
Qed.

Section CombineFacts.
Context {R : Type} `{DataclassLaws R}.

(** [_combine_key] on the values of the two records *)
Definition combine_key_pure (m o : R) (key : string) : result R :=
  v ← getattr m key;
  ov ← getattr o key;
  a ← merge_attr key ov v;
  setattr o key a.

Lemma get_attr_run s l r key :
  heap s !! l = Some r -> get_attr l key s = (getattr r key, s).
Proof.
  intros Hl. unfold get_attr. msimpl. by rewrite (deref_Some heap l r s Hl).
Qed.

Lemma set_attr_run s l r key v :
  heap s !! l = Some r ->
  set_attr l key v s =
    match setattr r key v with
    | Ok r' => (Ok tt, set_heap (<[l := r']> (heap s)) s)
    | Raise e => (Raise e, s)
    end.
Proof.
  intros Hl. unfold set_attr. msimpl. rewrite (deref_Some heap l r s Hl).
  msimpl. destruct (setattr r key v); by msimpl.
Qed.

Lemma set_heap_same s l r :
  heap s !! l = Some r -> set_heap (<[l := r]> (heap s)) s = s.
Proof. intros Hl. rewrite list_insert_id by done. apply set_get. Qed.

Lemma _combine_key_run s out pm o m key :
  key ∈ dict_keys_of ->
  heap s !! out = Some o -> heap s !! pm = Some m ->
  _combine_key out pm key s =
    match combine_key_pure m o key with
    | Ok o' => (Ok tt, set_heap (<[out := o']> (heap s)) s)
    | Raise e => (Raise e, s)
    end.
Proof.
  intros Hk Ho Hm.
  pose proof (dc_getattr m key Hk) as Hgm.
  pose proof (dc_getattr o key Hk) as Hgo.
  destruct (getattr m key) as [v|] eqn:Ev; [|done].
  destruct (getattr o key) as [ov|] eqn:Eo; [|done].
  unfold _combine_key, combine_key_pure, merge_attr.
  rewrite Ev, Eo. cbn [mbind result_bind].
  msimpl. rewrite (get_attr_run s pm m key Hm), Ev.
  destruct (isinstance_dict v); [|destruct (isinstance_list v)].
  - msimpl. rewrite (get_attr_run s out o key Ho), Eo.
    destruct (truthy ov); msimpl;
      rewrite (get_attr_run s pm m key Hm), Ev; msimpl.
    + destruct (attr_update ov v); [|done]. cbn [mbind result_bind].
      apply set_attr_run, Ho.
    + apply set_attr_run, Ho.
  - msimpl. rewrite (get_attr_run s out o key Ho), Eo.
    destruct (truthy ov); msimpl;
      rewrite (get_attr_run s pm m key Hm), Ev; msimpl.
    + destruct (attr_extend ov v); [|done]. cbn [mbind result_bind].
      apply set_attr_run, Ho.
    + apply set_attr_run, Ho.
  - destruct (truthy v).
    + msimpl. rewrite (get_attr_run s out o key Ho), Eo.
      destruct (truthy ov); msimpl.
      * unfold py_assert. destruct (bool_decide (v = ov)); [|done].
        cbn [mbind result_bind]. rewrite (dc_set_same o key ov Eo).
        cbv beta iota. by rewrite (set_heap_same s out o Ho).
      * apply set_attr_run, Ho.
    + rewrite M_ret_run. cbn [mbind result_bind].
      rewrite (dc_set_same o key ov Eo).
      cbv beta iota. by rewrite (set_heap_same s out o Ho).
Qed.

(** The loop over the keys, for two distinct records *)
Lemma combine_keys_run out pm m keys : forall s o o',
  out <> pm ->
  Forall (fun key => key ∈ dict_keys_of) keys ->
  heap s !! out = Some o -> heap s !! pm = Some m ->
  foldM (combine_key_pure m) keys o = Ok o' ->
  forM_ (_combine_key out pm) keys s =
    (Ok tt, set_heap (<[out := o']> (heap s)) s).
Proof.
  induction keys as [|key keys IH]; intros s o o' Hne Hk Ho Hm Hf.
  - injection Hf as <-. simpl. rewrite M_ret_run.
    by rewrite (set_heap_same s out o Ho).
  - apply Forall_cons in Hk as [Hk Hks]. cbn [foldM] in Hf.
    apply bind_Ok_inv in Hf as (o1 & Ho1 & Hf).
    cbn [forM_]. msimpl.
    rewrite (_combine_key_run s out pm o m key Hk Ho Hm), Ho1. msimpl.
    rewrite (IH _ o1 o' Hne Hks); try done.
    + rewrite hp_set, list_insert_insert_eq. by rewrite set_set.
    + rewrite hp_set. apply list_lookup_insert_eq. by eapply lookup_lt_Some.
    + rewrite hp_set. by rewrite list_lookup_insert_ne.
Qed.

(** The loop over the keys, for a record and itself *)
Lemma combine_keys_self l o keys : forall s,
  Forall (fun key => key ∈ dict_keys_of) keys ->
  heap s !! l = Some o ->
  Forall (fun key => combine_key_pure o o key = Ok o) keys ->
  forM_ (_combine_key l l) keys s = (Ok tt, s).
Proof.
  induction keys as [|key keys IH]; intros s Hk Ho Hself; [done|].
  apply Forall_cons in Hk as [Hk Hks].
  apply Forall_cons in Hself as [Hs Hself].
  cbn [forM_]. msimpl.
  rewrite (_combine_key_run s l l o o key Hk Ho Ho), Hs. msimpl.
  rewrite (set_heap_same s l o Ho). by apply IH.
Qed.

Lemma _combine_pair_run s la lb a b a' :
  la <> lb ->
  heap s !! la = Some a -> heap s !! lb = Some b ->
  foldM (combine_key_pure b) dict_keys_of a = Ok a' ->
  _combine [la; lb] s = (Ok la, set_heap (<[la := a']> (heap s)) s).
Proof.
  intros Hne Ha Hb Hf. unfold _combine.
  change (py_index [la; lb] 0) with (Ok la).
  change (slice_from 1 [la; lb]) with [lb]. cbn [forM_]. msimpl.
  rewrite (combine_keys_run la lb b dict_keys_of s a a'); try done.
  2:{ by apply Forall_forall. }
  msimpl.
  erewrite deref_Some.
  2:{ rewrite hp_set. apply list_lookup_insert_eq. by eapply lookup_lt_Some. }
  msimpl. by rewrite dc_valid.
Qed.

Lemma _combine_self_run s l o :
  heap s !! l = Some o ->
  Forall (fun key => combine_key_pure o o key = Ok o) dict_keys_of ->
  _combine [l; l] s = (Ok l, s).
Proof.
  intros Ho Hself. unfold _combine.
  change (py_index [l; l] 0) with (Ok l).
  change (slice_from 1 [l; l]) with [l]. cbn [forM_]. msimpl.
  rewrite (combine_keys_self l o dict_keys_of s); try done.
  2:{ by apply Forall_forall. }
  msimpl. rewrite (deref_Some heap l o s Ho). msimpl. by rewrite dc_valid.
Qed.

(** A record whose dictionaries are well formed merges with itself into
    itself. *)
Lemma combine_key_pure_self o key :
  key ∈ dict_keys_of ->
  (forall a, getattr o key = Ok a -> attr_wf a) ->
  combine_key_pure o o key = Ok o.
Proof.
  intros Hk Hwf. unfold combine_key_pure.
  pose proof (dc_getattr o key Hk) as Hg.
  destruct (getattr o key) as [a|] eqn:Ea; [|done].
  cbn [mbind result_bind]. rewrite merge_attr_self by auto.
  cbn [mbind result_bind]. by apply dc_set_same.
Qed.

(** What the merge of [m] into [o] leaves in each attribute. *)
Lemma combine_fold_attr m keys : forall o o',
  NoDup keys ->
  Forall (fun key => key ∈ dict_keys_of) keys ->
  foldM (combine_key_pure m) keys o = Ok o' ->
  (forall key, key ∈ keys ->
     exists ov v a, getattr o key = Ok ov /\ getattr m key = Ok v /\
       merge_attr key ov v = Ok a /\ getattr o' key = Ok a) /\
  (forall key, key ∉ keys -> getattr o' key = getattr o key).
Proof.
  induction keys as [|k keys IH]; intros o o' Hnd Hk Hf.
  - injection Hf as <-. split; [by intros ? ?%elem_of_nil|done].
  - apply NoDup_cons in Hnd as [Hnk Hnd].
    apply Forall_cons in Hk as [Hk Hks]. cbn [foldM] in Hf.
    apply bind_Ok_inv in Hf as (o1 & Ho1 & Hf).
    destruct (IH o1 o' Hnd Hks Hf) as [IH1 IH2].
    unfold combine_key_pure in Ho1.
    apply bind_Ok_inv in Ho1 as (v & Ev & Ho1).
    apply bind_Ok_inv in Ho1 as (ov & Eo & Ho1).
    apply bind_Ok_inv in Ho1 as (a & Ea & Ho1).
    pose proof (dc_kind o m k ov v Eo Ev) as Hkind.
    pose proof (merge_attr_kind k ov v a Hkind Ea) as Hkind'.
    destruct (dc_set o k ov a Eo Hkind') as (o1' & Hset & Hget & Hother).
    rewrite Hset in Ho1. injection Ho1 as <-.
    split.
    + intros key [->|Hin]%elem_of_cons.
      * exists ov, v, a. rewrite (IH2 k Hnk). auto.
      * destruct (IH1 key Hin) as (ov' & v' & a' & E1 & E2 & E3 & E4).
        exists ov', v', a'. rewrite <- (Hother key); [auto|].
        intros ->. done.
    + intros key [Hne Hnin]%not_elem_of_cons.
      rewrite (IH2 key Hnin). by apply Hother.
Qed.

(** The merge goes through when every attribute merges. *)
Lemma combine_fold_ok m keys : forall o,
  NoDup keys ->
  Forall (fun key => key ∈ dict_keys_of) keys ->
  (forall key ov v, key ∈ keys -> getattr o key = Ok ov ->
     getattr m key = Ok v -> is_ok (merge_attr key ov v) = true) ->
  exists o', foldM (combine_key_pure m) keys o = Ok o'.
Proof.
  induction keys as [|k keys IH]; intros o Hnd Hk Hok; [by exists o|].
  apply NoDup_cons in Hnd as [Hnk Hnd].
  apply Forall_cons in Hk as [Hk Hks]. cbn [foldM].
  pose proof (dc_getattr m k Hk) as Hgm.
  pose proof (dc_getattr o k Hk) as Hgo.
  destruct (getattr m k) as [v|] eqn:Ev; [|done].
  destruct (getattr o k) as [ov|] eqn:Eo; [|done].
  pose proof (Hok k ov v ltac:(left) Eo Ev) as Hm.
  destruct (merge_attr k ov v) as [a|] eqn:Ea; [|done].
  pose proof (dc_kind o m k ov v Eo Ev) as Hkind.
  pose proof (merge_attr_kind k ov v a Hkind Ea) as Hkind'.
  destruct (dc_set o k ov a Eo Hkind') as (o1 & Hset & Hget & Hother).
  assert (combine_key_pure m o k = Ok o1) as ->.
  { unfold combine_key_pure. rewrite Ev, Eo. cbn [mbind result_bind].
    rewrite Ea. cbn [mbind result_bind]. done. }
  cbn [mbind result_bind].
  apply IH; try done.
  intros key ov' v' Hin Eo' Ev'. apply Hok; [by right| |done].
  rewrite <- (Hother key); [done|]. intros ->. done.
Qed.

End CombineFacts.

(** *** Combiner: containers *)

(** The dictionaries of a record, of a container, have no key twice. *)
Definition PsbtInput_wf (r : PsbtInput) : Prop :=
  dict_wf (PsbtInput.partial_sigs r) /\
  dict_wf (PsbtInput.proprietary r) /\
  dict_wf (PsbtInput.unknown r).

Definition PsbtOutput_wf (r : PsbtOutput) : Prop :=
  dict_wf (PsbtOutput.proprietary r) /\
  dict_wf (PsbtOutput.unknown r).

Definition Psbt_wf (v : Psbt) : Prop :=
  Forall PsbtInput_wf (Psbt.inputs v) /\
  Forall PsbtOutput_wf (Psbt.outputs v) /\
  dict_wf (Psbt.unknown v).

Lemma PsbtInput_wf_attr r key a :
  PsbtInput_wf r -> PsbtInput_getattr r key = Ok a -> attr_wf a.
Proof.
  intros (H1 & H2 & H3). unfold PsbtInput_getattr.
  repeat (case_decide; [intros [= <-]; done|]). done.
Qed.

Lemma PsbtOutput_wf_attr r key a :
  PsbtOutput_wf r -> PsbtOutput_getattr r key = Ok a -> attr_wf a.
Proof.
  intros (H1 & H2). unfold PsbtOutput_getattr.
  repeat (case_decide; [intros [= <-]; done|]). done.
Qed.

(** [[f(x) for x in range(k, k + n)]] when [f] returns the [x]-th element
    of [ls] and leaves the store alone. *)
Lemma forM_index_id {A} (f : Z -> M A) (ls : list A) s : forall n k,
  (forall i l, ls !! i = Some l -> f (Z.of_nat i) s = (Ok l, s)) ->
  (k + n <= length ls)%nat ->
  forM f (map Z.of_nat (seq k n)) s = (Ok (take n (drop k ls)), s).
Proof.
  induction n as [|n IH]; intros k Hf Hle.
  - by rewrite take_0.
  - cbn [seq map forM]. msimpl.
    destruct (lookup_lt_is_Some_2 ls k) as [l Hl]; [lia|].
    rewrite (Hf k l Hl). msimpl. rewrite (IH (S k)) by (done || lia).
    msimpl. by rewrite (drop_S _ _ _ Hl).
Qed.

Lemma PsbtObj_set_inputs_same P : PsbtObj.set_inputs (PsbtObj.inputs P) P = P.
Proof. by destruct P. Qed.
Lemma PsbtObj_set_outputs_same P : PsbtObj.set_outputs (PsbtObj.outputs P) P = P.
Proof. by destruct P. Qed.
Lemma PsbtObj_set_unknown_same P : PsbtObj.set_unknown (PsbtObj.unknown P) P = P.
Proof. by destruct P. Qed.

Section CombineSelf.
Context `{Collaborators}.

(** The column of records at index [x] of a container listed twice. *)
Lemma combine_column_self {R} `{DataclassLaws R} (sel : PsbtObj -> list loc)
  s p P (i : nat) l o :
  psbts s !! p = Some P -> sel P !! i = Some l -> heap s !! l = Some o ->
  (forall key a, getattr o key = Ok a -> attr_wf a) ->
  (maps ← forM (fun psbt => P ← deref psbts psbt;
                            lift (py_index (sel P) (Z.of_nat i))) [p; p];
   _combine maps) s = (Ok l, s).
Proof.
  intros HP Hl Ho Hwf. cbn [forM]. msimpl.
  rewrite (deref_Some psbts p P s HP). msimpl.
  rewrite (py_index_nat _ _ _ Hl). msimpl.
  rewrite (deref_Some psbts p P s HP). msimpl.
  rewrite (py_index_nat _ _ _ Hl). msimpl.
  apply (_combine_self_run s l o Ho).
  apply Forall_forall. intros key Hk.
  apply combine_key_pure_self; [done|]. intros a. apply Hwf.
Qed.

(** C4, for a container whose transaction has a transaction id.
    Combining a container with itself: [combine_psbts] on the list that
    holds the container twice returns that container and leaves the
    store, hence the container's value, as it was. [combine_psbts]
    computes the transaction id first, and raises what [Tx.txid] raises
    when the transaction has none. *)
Theorem combine_with_itself_is_noop (s : store) (p : loc) (v : Psbt) :
  load s p = Some v ->
  Psbt_wf v ->
  is_ok (Tx_txid (Psbt.tx v)) = true ->
  combine_psbts [p; p] s = (Ok p, s) /\ load s p = Some v.
Proof.
  intros Hload (Hwi & Hwo & Hwu) Htx. split; [|done].
  apply load_Some in Hload as (P & HP & HT & Hi & Ho & Hv & Hh & Hpr & Hu).
  destruct (Tx_txid (Psbt.tx v)) as [t|] eqn:Et; [|done].
  unfold combine_psbts.
  change (py_index [p; p] 0) with (Ok p).
  change (slice_from 1 [p; p]) with [p].
  change (last [p]) with (Some p). cbn [read_local forM_].
  msimpl. rewrite (deref_Some psbts p P s HP). msimpl.
  rewrite (deref_Some txs _ _ s HT). msimpl. rewrite Et. msimpl.
  rewrite (deref_Some psbts p P s HP). msimpl.
  rewrite (deref_Some txs _ _ s HT). msimpl. rewrite Et. msimpl.
  rewrite bool_decide_eq_true_2 by done. cbn [py_assert]. msimpl.
  rewrite (deref_Some psbts p P s HP). msimpl.
  rewrite (forM_index_id _ (PsbtObj.inputs P)).
  2:{ intros i l Hl.
      destruct (Forall2_lookup_l _ _ _ _ _ Hi Hl) as (r & Hr & Hlr).
      apply (combine_column_self (R := PsbtInput) PsbtObj.inputs s p P i l r);
        try done.
      intros key a. apply PsbtInput_wf_attr.
      eapply Forall_lookup_1 in Hwi; eauto. }
  2:{ simpl. lia. }
  rewrite drop_0, firstn_all. msimpl.
  rewrite (deref_Some psbts p P s HP). msimpl.
  rewrite assign_run, PsbtObj_set_inputs_same.
  rewrite (list_insert_id _ _ _ HP).
  replace (set_psbts (psbts s) s) with s by by destruct s.
  msimpl. rewrite (deref_Some psbts p P s HP). msimpl.
  rewrite (forM_index_id _ (PsbtObj.outputs P)).
  2:{ intros i l Hl.
      destruct (Forall2_lookup_l _ _ _ _ _ Ho Hl) as (r & Hr & Hlr).
      apply (combine_column_self (R := PsbtOutput) PsbtObj.outputs s p P i l r);
        try done.
      intros key a. apply PsbtOutput_wf_attr.
      eapply Forall_lookup_1 in Hwo; eauto. }
  2:{ simpl. lia. }
  rewrite drop_0, firstn_all. msimpl.
  rewrite (deref_Some psbts p P s HP). msimpl.
  rewrite assign_run, PsbtObj_set_outputs_same.
  rewrite (list_insert_id _ _ _ HP).
  replace (set_psbts (psbts s) s) with s by by destruct s.
  msimpl.
  assert (Hsame : forall u, u = PsbtObj.unknown P ->
            set_psbts (<[p := PsbtObj.set_unknown u P]> (psbts s)) s = s).
  { intros u ->. rewrite PsbtObj_set_unknown_same, (list_insert_id _ _ _ HP).
    by destruct s. }
  pose proof (dict_update_self (PsbtObj.unknown P)) as Hupd.
  rewrite <- Hu in Hupd at 1. specialize (Hupd Hwu).
  cbn [forM_].
  do 2 (msimpl; rewrite (deref_Some psbts p P s HP); msimpl;
        rewrite (deref_Some psbts p P s HP); msimpl;
        destruct (nonempty (PsbtObj.unknown P));
        rewrite assign_run, Hsame by done).
  all: by msimpl.
Qed.

End CombineSelf.

(** The writes [l := x] of a list of pairs, in turn. *)
Fixpoint writes {A} (lxs : list (loc * A)) (h : list A) : list A :=
  match lxs with
  | [] => h
  | (l, x) :: r => writes r (<[l := x]> h)
  end.

Lemma length_writes {A} (lxs : list (loc * A)) : forall h,
  length (writes lxs h) = length h.
Proof.
  induction lxs as [|[l x] r IH]; intros h; [done|].
  simpl. by rewrite IH, length_insert.
Qed.

Lemma writes_lookup_ne {A} (lxs : list (loc * A)) l : forall h,
  l ∉ lxs.*1 -> writes lxs h !! l = h !! l.
Proof.
  induction lxs as [|[l0 x] r IH]; intros h Hn; [done|].
  simpl in *. apply not_elem_of_cons in Hn as [Hne Hn].
  rewrite IH by done. by apply list_lookup_insert_ne.
Qed.

Lemma writes_lookup {A} (ls : list loc) (xs : list A) : forall h i l x,
  NoDup ls -> length ls = length xs ->
  Forall (fun l => is_Some (h !! l)) ls ->
  ls !! i = Some l -> xs !! i = Some x ->
  writes (zip ls xs) h !! l = Some x.
Proof.
  revert xs. induction ls as [|l0 ls IH]; intros [|x0 xs] h i l x Hnd Hlen Hv Hl Hx;
    try done.
  apply NoDup_cons in Hnd as [Hn Hnd]. apply Forall_cons in Hv as [Hv0 Hv].
  simpl. destruct i as [|i].
  - injection Hl as <-. injection Hx as <-.
    rewrite writes_lookup_ne.
    + apply list_lookup_insert_eq. by apply lookup_lt_is_Some.
    + rewrite fst_zip by (simpl in Hlen; lia). done.
  - simpl in Hl, Hx. eapply IH; eauto.
    eapply Forall_impl; [exact Hv|]. intros l1 Hl1.
    apply lookup_lt_is_Some. rewrite length_insert. by apply lookup_lt_is_Some.
Qed.

Section CombineColumns.
Context `{Collaborators}.
Context {R : Type} `{DataclassLaws R}.
Context (sel : PsbtObj -> list loc).

(** The body of the comprehension over [x] in [combine_psbts] *)
Definition combine_column (psbts_ : list loc) (x : Z) : M loc :=
  maps ← forM (fun psbt => P ← deref psbts psbt;
                           lift (py_index (sel P) x)) psbts_;
  _combine (R := R) maps.

(** The columns from index [k] on, for two containers that share no
    record: each record of the first takes the merge with the record of
    the second at its index. *)
Lemma combine_columns pA pB PA PB : forall las lbs ra rb ms k s,
  psbts s !! pA = Some PA -> psbts s !! pB = Some PB ->
  drop k (sel PA) = las -> drop k (sel PB) = lbs ->
  NoDup (las ++ lbs) ->
  Forall2 (fun l a => heap s !! l = Some a) las ra ->
  Forall2 (fun l b => heap s !! l = Some b) lbs rb ->
  Forall2 (fun ab m => foldM (combine_key_pure ab.2) dict_keys_of ab.1 = Ok m)
    (zip ra rb) ms ->
  length las = length lbs ->
  forM (combine_column [pA; pB]) (map Z.of_nat (seq k (length las))) s =
    (Ok las, set_heap (writes (zip las ms) (heap s)) s).
Proof.
  induction las as [|la las IH];
    intros lbs ra rb ms k s HPA HPB Hda Hdb Hnd Hra Hrb Hms Hlen.
  - simpl. rewrite M_ret_run. by rewrite set_get.
  - destruct lbs as [|lb lbs]; [done|].
    apply Forall2_cons_inv_l in Hra as (a & ra' & Ha & Hra & ->).
    apply Forall2_cons_inv_l in Hrb as (b & rb' & Hb & Hrb & ->).
    simpl in Hms. apply Forall2_cons_inv_l in Hms as (m & ms' & Hm & Hms & ->).
    simpl in Hm.
    assert (Hka : sel PA !! k = Some la).
    { rewrite <- (Nat.add_0_r k), <- lookup_drop, Hda. done. }
    assert (Hkb : sel PB !! k = Some lb).
    { rewrite <- (Nat.add_0_r k), <- lookup_drop, Hdb. done. }
    assert (Hne : la <> lb).
    { intros ->. apply NoDup_cons in Hnd as [Hn _]. apply Hn.
      apply elem_of_app. right. left. }
    cbn [length seq map forM]. msimpl.
    unfold combine_column at 1. cbn [forM]. msimpl.
    rewrite (deref_Some psbts pA PA s HPA). msimpl.
    rewrite (py_index_nat _ _ _ Hka). msimpl.
    rewrite (deref_Some psbts pB PB s HPB). msimpl.
    rewrite (py_index_nat _ _ _ Hkb). msimpl.
    rewrite (_combine_pair_run s la lb a b m Hne Ha Hb Hm). msimpl.
    set (s1 := set_heap (<[la:=m]> (heap s)) s).
    assert (Hh1 : heap s1 = <[la:=m]> (heap s)) by apply hp_set.
    assert (Hnda : la ∉ las ++ lbs).
    { apply NoDup_cons in Hnd as [Hn _]. intros Hin. apply Hn.
      apply elem_of_app in Hin as [Hin|Hin]; apply elem_of_app; [by left|].
      right. by right. }
    rewrite (IH lbs ra' rb' ms' (S k) s1).
    + msimpl. unfold s1. simpl. by rewrite hp_set, set_set.
    + unfold s1. by rewrite dc_psbts.
    + unfold s1. by rewrite dc_psbts.
    + rewrite (drop_S _ _ _ Hka) in Hda. by injection Hda.
    + rewrite (drop_S _ _ _ Hkb) in Hdb. by injection Hdb.
    + apply NoDup_cons in Hnd as [_ Hnd]. simpl in Hnd.
      apply NoDup_app in Hnd as (Hn1 & Hn2 & Hn3).
      apply NoDup_cons in Hn3 as [_ Hn3].
      apply NoDup_app. split; [done|]. split; [|done].
      intros x Hx Hx'. apply (Hn2 x Hx). by right.
    + rewrite Hh1. apply Forall2_same_length_lookup_2; [by eapply Forall2_length|].
      intros i l0 a0 Hi Hi'. rewrite list_lookup_insert_ne.
      * by eapply Forall2_lookup_lr in Hra.
      * intros ->. apply Hnda. apply elem_of_app. left.
        by eapply list_elem_of_lookup_2.
    + rewrite Hh1. apply Forall2_same_length_lookup_2; [by eapply Forall2_length|].
      intros i l0 a0 Hi Hi'. rewrite list_lookup_insert_ne.
      * by eapply Forall2_lookup_lr in Hrb.
      * intros ->. apply Hnda. apply elem_of_app. right.
        by eapply list_elem_of_lookup_2.
    + done.
    + simpl in Hlen. lia.
Qed.

End CombineColumns.

(** A scalar attribute set in both records has one value. *)
Definition agree (o v : attr) : Prop :=
  truthy v = true -> truthy o = true -> v = o.

Definition scalars_agree (a b : PsbtInput) : Prop :=
  agree (ATx (PsbtInput.non_witness_utxo a)) (ATx (PsbtInput.non_witness_utxo b)) /\
  agree (ATxOut (PsbtInput.witness_utxo a)) (ATxOut (PsbtInput.witness_utxo b)) /\
  agree (AInt (PsbtInput.sighash a)) (AInt (PsbtInput.sighash b)) /\
  agree (AStr (PsbtInput.por_commitment a)) (AStr (PsbtInput.por_commitment b)).

Lemma merge_attr_ok key o v :
  same_kind o v ->
  (isinstance_dict v = false -> isinstance_list v = false -> agree o v) ->
  is_ok (merge_attr key o v) = true.
Proof.
  unfold merge_attr, agree, py_assert.
  destruct o, v; simpl; try done; intros _ Hag;
    repeat match goal with
           | |- context [if ?c then _ else _] => destruct c eqn:?
           end; simpl; try done;
    match goal with E : bool_decide _ = false |- _ =>
      apply bool_decide_eq_false in E; destruct E; by apply Hag end.
Qed.

Lemma PsbtInput_merge_ok a b key ov v :
  scalars_agree a b ->
  PsbtInput_getattr a key = Ok ov -> PsbtInput_getattr b key = Ok v ->
  is_ok (merge_attr key ov v) = true.
Proof.
  intros (H1 & H2 & H3 & H4). unfold PsbtInput_getattr.
  repeat (case_decide; [intros [= <-] [= <-]; by apply merge_attr_ok|]).
  done.
Qed.

Lemma PsbtOutput_merge_ok a b key ov v :
  PsbtOutput_getattr a key = Ok ov -> PsbtOutput_getattr b key = Ok v ->
  is_ok (merge_attr key ov v) = true.
Proof.
  unfold PsbtOutput_getattr.
  repeat (case_decide; [intros [= <-] [= <-]; by apply merge_attr_ok|]).
  done.
Qed.

(** The union of two dictionaries in which the second wins. *)
Definition later_wins (da db d : dict string string) : Prop :=
  forall k, dict_get k d =
            match dict_get k db with
            | Some x => Some x
            | None => dict_get k da
            end.

Lemma PsbtInput_merged_partial_sigs a b m :
  dict_wf (PsbtInput.partial_sigs b) ->
  foldM (combine_key_pure b) (@dict_keys_of PsbtInput _) a = Ok m ->
  later_wins (PsbtInput.partial_sigs a) (PsbtInput.partial_sigs b)
    (PsbtInput.partial_sigs m).
Proof.
  intros Hwf Hm.
  destruct (combine_fold_attr b (@dict_keys_of PsbtInput _) a m) as [Hattr _]; [| |done|].
  { simpl. apply (bool_decide_unpack _). by vm_compute. }
  { apply Forall_forall. intros ? Hx. exact Hx. }
  destruct (Hattr "partial_sigs") as (ov & v & x & Eo & Ev & Ex & Em).
  { apply (bool_decide_unpack _). by vm_compute. }
  simpl in Eo, Ev, Em. unfold PsbtInput_getattr in Eo, Ev, Em.
  revert Eo Ev Em. decide_keys. intros [= <-] [= <-] [= <-].
  unfold merge_attr in Ex. simpl in Ex. intros k.
  destruct (PsbtInput.partial_sigs a) as [|kv da] eqn:Ea; simpl in Ex.
  - injection Ex as Ex. rewrite Ex. by destruct (dict_get k _).
  - injection Ex as Ex. rewrite <- Ex.
    by rewrite dict_get_update, dict_get_rev_wf.
Qed.

(** *** Combiner: two containers *)

Lemma merged_records_exist {R} `{DataclassLaws R} (ok : R -> R -> Prop) :
  NoDup (@dict_keys_of R _) ->
  (forall a b key ov v, ok a b -> getattr a key = Ok ov ->
     getattr b key = Ok v -> is_ok (merge_attr key ov v) = true) ->
  forall ra rb, Forall2 ok ra rb ->
  exists ms,
    Forall2 (fun ab m =>
               foldM (combine_key_pure ab.2) (@dict_keys_of R _) ab.1 = Ok m)
      (zip ra rb) ms.
Proof.
  intros Hnd Hok ra rb Hab. induction Hab as [|a b ra rb Hab _ [ms IH]].
  - by exists [].
  - destruct (combine_fold_ok b dict_keys_of a Hnd) as [m Hm].
    { apply Forall_forall. intros ? Hx. exact Hx. }
    { intros key ov v _. by apply Hok. }
    exists (m :: ms). simpl. by constructor.
Qed.

(** Two containers of the store that share no record. *)
Definition disjoint_records (s : store) (pA pB : loc) : Prop :=
  match psbts s !! pA, psbts s !! pB with
  | Some PA, Some PB =>
      NoDup (PsbtObj.inputs PA ++ PsbtObj.inputs PB) /\
      NoDup (PsbtObj.outputs PA ++ PsbtObj.outputs PB)
  | _, _ => False
  end.

Lemma PsbtObj_set_unknown_twice u u' P :
  PsbtObj.set_unknown u (PsbtObj.set_unknown u' P) = PsbtObj.set_unknown u P.
Proof. by destruct P. Qed.

Section CombinePair.
Context `{Collaborators}.

(** The last loop of [combine_psbts] rewrites the [unknown] dictionary of
    the first container and nothing else. *)
Lemma combine_unknown_run final : forall ps s F,
  psbts s !! final = Some F ->
  Forall (fun p => is_Some (psbts s !! p)) ps ->
  exists u,
    forM_ (fun psbt =>
             F ← deref psbts final;
             P ← deref psbts psbt;
             if nonempty (PsbtObj.unknown F) then
               assign psbts set_psbts final
                 (PsbtObj.set_unknown
                    (dict_update (PsbtObj.unknown F) (PsbtObj.unknown P)) F)
             else
               assign psbts set_psbts final
                 (PsbtObj.set_unknown (PsbtObj.unknown P) F))
      ps s =
    (Ok tt, set_psbts (<[final := PsbtObj.set_unknown u F]> (psbts s)) s).
Proof.
  induction ps as [|p ps IH]; intros s F HF Hps.
  - exists (PsbtObj.unknown F). cbn [forM_]. rewrite M_ret_run.
    rewrite PsbtObj_set_unknown_same, (list_insert_id _ _ _ HF).
    by destruct s.
  - apply Forall_cons in Hps as [[P HP] Hps].
    assert (Hstep : forall u1,
      exists u,
        forM_ (fun psbt =>
             F ← deref psbts final;
             P ← deref psbts psbt;
             if nonempty (PsbtObj.unknown F) then
               assign psbts set_psbts final
                 (PsbtObj.set_unknown
                    (dict_update (PsbtObj.unknown F) (PsbtObj.unknown P)) F)
             else
               assign psbts set_psbts final
                 (PsbtObj.set_unknown (PsbtObj.unknown P) F))
          ps (set_psbts (<[final := PsbtObj.set_unknown u1 F]> (psbts s)) s) =
        (Ok tt, set_psbts (<[final := PsbtObj.set_unknown u F]> (psbts s)) s)).
    { intros u1.
      destruct (IH (set_psbts (<[final := PsbtObj.set_unknown u1 F]> (psbts s)) s)
                  (PsbtObj.set_unknown u1 F)) as [u Hu].
      - simpl. apply list_lookup_insert_eq. by eapply lookup_lt_Some.
      - eapply Forall_impl; [exact Hps|]. intros q Hq. simpl.
        apply lookup_lt_is_Some. rewrite length_insert.
        by apply lookup_lt_is_Some.
      - exists u. rewrite Hu. simpl.
        by rewrite list_insert_insert_eq, PsbtObj_set_unknown_twice. }
    cbn [forM_]. msimpl.
    rewrite (deref_Some psbts final F s HF). msimpl.
    rewrite (deref_Some psbts p P s HP). msimpl.
    destruct (nonempty (PsbtObj.unknown F)).
    + destruct (Hstep (dict_update (PsbtObj.unknown F) (PsbtObj.unknown P)))
        as [u Hu].
      exists u. rewrite assign_run. msimpl. by rewrite Hu.
    + destruct (Hstep (PsbtObj.unknown P)) as [u Hu].
      exists u. rewrite assign_run. msimpl. by rewrite Hu.
Qed.

End CombinePair.

Section CombineTwo.
Context `{Collaborators}.

(** C3, for containers whose records agree. Combining two containers
    [A] and [B]: two distinct objects that share no record, wrap
    transactions of one transaction id, have as many input records and as
    many output records as each other, and whose input records agree, at
    every index, on every scalar attribute that both set (on one set in
    both with two values [_combine] raises [AssertionError]).
    [combine_psbts [A; B]] returns [A], and the input record of [A] at
    every index then maps a key to the signature that [B]'s record has
    for it, and to the one [A]'s record had when [B]'s has none: the
    union, in which the later container wins. *)
Theorem combine_unions_partial_sigs (s : store) (pA pB : loc) (vA vB : Psbt) :
  pA <> pB ->
  load s pA = Some vA -> load s pB = Some vB ->
  disjoint_records s pA pB ->
  is_ok (Tx_txid (Psbt.tx vA)) = true ->
  Tx_txid (Psbt.tx vB) = Tx_txid (Psbt.tx vA) ->
  Forall2 scalars_agree (Psbt.inputs vA) (Psbt.inputs vB) ->
  length (Psbt.outputs vA) = length (Psbt.outputs vB) ->
  Forall (fun r => dict_wf (PsbtInput.partial_sigs r)) (Psbt.inputs vB) ->
  exists s' v',
    combine_psbts [pA; pB] s = (Ok pA, s') /\
    load s' pA = Some v' /\
    Forall2 (fun ab r =>
               later_wins (PsbtInput.partial_sigs ab.1)
                 (PsbtInput.partial_sigs ab.2) (PsbtInput.partial_sigs r))
      (zip (Psbt.inputs vA) (Psbt.inputs vB)) (Psbt.inputs v').
Proof.
  intros Hne HlA HlB Hdis Htx Htxeq Hag HlenO Hwf.
  apply load_Some in HlA as (PA & HPA & HTA & HiA & HoA & HvA & HhA & HprA & HuA).
  apply load_Some in HlB as (PB & HPB & HTB & HiB & HoB & HvB & HhB & HprB & HuB).
  unfold disjoint_records in Hdis. rewrite HPA, HPB in Hdis.
  destruct Hdis as [HndI HndO].
  destruct (Tx_txid (Psbt.tx vA)) as [t|] eqn:Et; [|done].
  destruct (merged_records_exist (R := PsbtInput) scalars_agree) with
    (ra := Psbt.inputs vA) (rb := Psbt.inputs vB) as [msI HmsI]; [| |done|].
  { apply (bool_decide_unpack _). by vm_compute. }
  { intros a b key ov v Hab. by apply PsbtInput_merge_ok. }
  destruct (merged_records_exist (R := PsbtOutput) (fun _ _ => True)) with
    (ra := Psbt.outputs vA) (rb := Psbt.outputs vB) as [msO HmsO].
  { apply (bool_decide_unpack _). by vm_compute. }
  { intros a b key ov v _. apply PsbtOutput_merge_ok. }
  { by apply Forall2_true. }
  pose proof (Forall2_length _ _ _ HiA) as LiA.
  pose proof (Forall2_length _ _ _ HiB) as LiB.
  pose proof (Forall2_length _ _ _ HoA) as LoA.
  pose proof (Forall2_length _ _ _ HoB) as LoB.
  pose proof (Forall2_length _ _ _ Hag) as Lag.
  pose proof (Forall2_length _ _ _ HmsI) as LmI.
  pose proof (Forall2_length _ _ _ HmsO) as LmO.
  rewrite length_zip in LmI. rewrite length_zip in LmO.
  unfold combine_psbts.
  change (py_index [pA; pB] 0) with (Ok pA).
  change (slice_from 1 [pA; pB]) with [pB].
  change (last [pB]) with (Some pB). msimpl.
  match goal with
  | |- context [forM_ ?f [pA; pB]] => set (unknowns := forM_ f [pA; pB])
  end.
  cbn [read_local forM_].
  msimpl. rewrite (deref_Some psbts pA PA s HPA). msimpl.
  rewrite (deref_Some txs _ _ s HTA). msimpl. rewrite Et. msimpl.
  rewrite (deref_Some psbts pB PB s HPB). msimpl.
  rewrite (deref_Some txs _ _ s HTB). msimpl. rewrite Htxeq. msimpl.
  rewrite bool_decide_eq_true_2 by done. cbn [py_assert]. msimpl.
  rewrite (deref_Some psbts pB PB s HPB). msimpl.
  replace (length (PsbtObj.inputs PB)) with (length (PsbtObj.inputs PA)) by lia.
  match goal with
  | |- context [forM ?f (map Z.of_nat (seq 0 ?n)) s] =>
      change (forM f (map Z.of_nat (seq 0 n)) s) with
        (forM (combine_column (R := PsbtInput) PsbtObj.inputs [pA; pB])
           (map Z.of_nat (seq 0 n)) s)
  end.
  rewrite (combine_columns (R := PsbtInput) PsbtObj.inputs pA pB PA PB
             (PsbtObj.inputs PA) (PsbtObj.inputs PB)
             (Psbt.inputs vA) (Psbt.inputs vB) msI 0 s); try done; [|lia].
  msimpl.
  set (s1 := set_heap (writes (zip (PsbtObj.inputs PA) msI) (heap s)) s).
  assert (Hp1 : psbts s1 = psbts s) by done.
  assert (Ht1 : txs s1 = txs s) by done.
  assert (Ho1 : outs s1 = outs s) by done.
  assert (Hi1 : ins s1 = writes (zip (PsbtObj.inputs PA) msI) (ins s)) by done.
  rewrite (deref_Some psbts pB PB s1) by by rewrite Hp1.
  msimpl. rewrite assign_run. msimpl.
  set (PB' := PsbtObj.set_inputs (PsbtObj.inputs PA) PB).
  set (s2 := set_psbts (<[pB := PB']> (psbts s1)) s1).
  assert (HPA2 : psbts s2 !! pA = Some PA).
  { simpl. by rewrite list_lookup_insert_ne. }
  assert (HPB2 : psbts s2 !! pB = Some PB').
  { simpl. apply list_lookup_insert_eq. by eapply lookup_lt_Some. }
  rewrite (deref_Some psbts pB PB' s2 HPB2). msimpl.
  change (PsbtObj.outputs PB') with (PsbtObj.outputs PB).
  replace (length (PsbtObj.outputs PB)) with (length (PsbtObj.outputs PA)) by lia.
  match goal with
  | |- context [forM ?f (map Z.of_nat (seq 0 ?n)) s2] =>
      change (forM f (map Z.of_nat (seq 0 n)) s2) with
        (forM (combine_column (R := PsbtOutput) PsbtObj.outputs [pA; pB])
           (map Z.of_nat (seq 0 n)) s2)
  end.
  rewrite (combine_columns (R := PsbtOutput) PsbtObj.outputs pA pB PA PB'
             (PsbtObj.outputs PA) (PsbtObj.outputs PB)
             (Psbt.outputs vA) (Psbt.outputs vB) msO 0 s2); try done; [|lia].
  msimpl.
  set (s3 := set_heap (writes (zip (PsbtObj.outputs PA) msO) (heap s2)) s2).
  assert (HPA3 : psbts s3 !! pA = Some PA) by done.
  rewrite (deref_Some psbts pA PA s3 HPA3). msimpl.
  rewrite assign_run, PsbtObj_set_outputs_same, (list_insert_id _ _ _ HPA3).
  replace (set_psbts (psbts s3) s3) with s3 by by destruct s3.
  msimpl.
  destruct (combine_unknown_run pA [pA; pB] s3 PA HPA3) as [u Hu].
  { repeat constructor; [by exists PA|]. exists PB'. exact HPB2. }
  unfold unknowns. rewrite Hu. msimpl.
  exists (set_psbts (<[pA := PsbtObj.set_unknown u PA]> (psbts s3)) s3),
    (Psbt.mk (Psbt.tx vA) msI msO (PsbtObj.version PA)
       (PsbtObj.hd_keypaths PA) (PsbtObj.proprietary PA) u).
  split; [done|]. split.
  - apply load_Some. exists (PsbtObj.set_unknown u PA). simpl.
    split; [apply list_lookup_insert_eq; by eapply lookup_lt_Some|].
    split; [done|].
    apply NoDup_app in HndI as (HndA & _ & _).
    apply NoDup_app in HndO as (HndOA & _ & _).
    split; [|split; [|done]].
    + apply Forall2_same_length_lookup_2; [lia|].
      intros i l m Hl Hm.
      eapply (writes_lookup (PsbtObj.inputs PA) msI); eauto; [lia|].
      eapply Forall_forall. intros l' Hl'.
      apply list_elem_of_lookup_1 in Hl' as [j Hj].
      destruct (Forall2_lookup_l _ _ _ _ _ HiA Hj) as (r & _ & Hr).
      by exists r.
    + apply Forall2_same_length_lookup_2; [lia|].
      intros i l m Hl Hm.
      eapply (writes_lookup (PsbtObj.outputs PA) msO); eauto; [lia|].
      eapply Forall_forall. intros l' Hl'.
      apply list_elem_of_lookup_1 in Hl' as [j Hj].
      destruct (Forall2_lookup_l _ _ _ _ _ HoA Hj) as (r & _ & Hr).
      by exists r.
  - simpl. apply Forall2_same_length_lookup_2; [by eapply Forall2_length|].
    intros i [a b] m Hab Hm.
    pose proof (Forall2_lookup_lr _ _ _ _ _ _ HmsI Hab Hm) as Hfold.
    apply lookup_zip_with_Some in Hab as (a' & b' & [= <- <-] & Ha & Hb).
    simpl in *. apply PsbtInput_merged_partial_sigs; [|done].
    by eapply Forall_lookup_1 in Hwf.
Qed.
End CombineTwo.

(** ** The codec: serialization and decoding *)

(** *** Hexadecimal strings *)

Lemma slen_hex b : slen (hex b) = 2 * len b.
Proof.
  unfold slen, len. induction b as [|x b IH]; [done|].
  cbn [hex String.length length]. lia.
Qed.

(** A string in the form [hex] writes: [fromhex] reads it, and [hex]
    gives it back. *)
Definition hexstr (s : string) : Prop :=
  match fromhex s with
  | Ok b => hex b = s
  | Raise _ => False
  end.

Lemma hexstr_inv s b : hexstr s -> fromhex s = Ok b -> hex b = s /\ slen s / 2 = len b.
Proof.
  unfold hexstr. intros Hs Hb. rewrite Hb in Hs. split; [done|].
  rewrite <- Hs, slen_hex. rewrite Z.mul_comm. by apply Z.div_mul.
Qed.

(** *** The wire form of a list of entries *)

Lemma map_wire_app es1 es2 w1 w2 :
  map_wire es1 = Ok w1 -> map_wire es2 = Ok w2 ->
  map_wire (es1 ++ es2) = Ok (w1 ++ w2).
Proof.
  revert w1. induction es1 as [|[k v] es1 IH]; intros w1 H1 H2.
  - by injection H1 as <-.
  - simpl in *.
    apply bind_Ok_inv in H1 as (fk & -> & H1).
    apply bind_Ok_inv in H1 as (fv & -> & H1).
    apply bind_Ok_inv in H1 as (w & Hw & H1). injection H1 as <-.
    rewrite (IH w Hw H2). simpl. by rewrite <- !app_assoc.
Qed.

Lemma map_wire_one k v fk fv :
  frame k = Ok fk -> frame v = Ok fv -> map_wire [(k, v)] = Ok (fk ++ fv).
Proof.
  intros Hk Hv. cbn [map_wire]. rewrite Hk. simpl. rewrite Hv. simpl.
  by rewrite app_nil_r.
Qed.

(** The frame of a key of one byte, and of a key of [n < 253] bytes *)
Lemma frame_short k :
  len k < 253 -> frame k = Ok (byte_of_Z (len k) :: k).
Proof.
  intros Hk. unfold frame, varint.encode.
  assert ((len k <? 0) = false) as -> by (apply Z.ltb_ge; unfold len; lia).
  assert ((len k <? 253) = true) as -> by by apply Z.ltb_lt. done.
Qed.

(** *** Segments: the entries one attribute is written as *)

Section Segments.
Context {R : Type}.
Context (dec : R -> bytes * bytes -> result R).
Context (rank : bytes -> nat).

(** [w] is the wire form of entries with distinct, non-empty keys of rank
    [i], which the decoder's loop folds into [upd]. *)
Definition segment (i : nat) (w : bytes) (upd : R -> R) : Prop :=
  exists es,
    map_wire es = Ok w /\
    NoDup es.*1 /\
    Forall (fun kv => kv.1 <> [] /\ rank kv.1 = i) es /\
    forall r, foldM dec es r = Ok (upd r).

(** The entries written before the attribute of rank [hi], which the
    decoder's loop takes from [r] to [r']. *)
Definition segments_upto (hi : nat) (w : bytes) (r r' : R) : Prop :=
  exists es,
    map_wire es = Ok w /\
    NoDup es.*1 /\
    Forall (fun kv => kv.1 <> [] /\ (rank kv.1 < hi)%nat) es /\
    foldM dec es r = Ok r'.

Lemma segment_nil i : segment i [] id.
Proof. exists []. repeat split; try done. constructor. Qed.

Lemma segments_upto_nil r : segments_upto 0 [] r r.
Proof. exists []. repeat split; try done. constructor. Qed.

Lemma segments_upto_snoc i w1 w2 upd r r1 :
  segments_upto i w1 r r1 -> segment i w2 upd ->
  segments_upto (S i) (w1 ++ w2) r (upd r1).
Proof.
  intros (es1 & Hw1 & Hn1 & Hr1 & Hd1) (es2 & Hw2 & Hn2 & Hr2 & Hd2).
  exists (es1 ++ es2). split; [by apply map_wire_app|]. split; [|split].
  - rewrite fmap_app. apply NoDup_app. split; [done|]. split; [|done].
    intros k [kv1 [-> Hk1]]%list_elem_of_fmap [kv2 [E Hk2]]%list_elem_of_fmap.
    apply (proj1 (Forall_forall _ _) Hr1) in Hk1 as [_ Hk1].
    apply (proj1 (Forall_forall _ _) Hr2) in Hk2 as [_ Hk2].
    rewrite <- E in Hk2. lia.
  - apply Forall_app. split.
    + eapply Forall_impl; [exact Hr1|]. intros kv [? ?]. split; [done|lia].
    + eapply Forall_impl; [exact Hr2|]. intros kv [? ?]. split; [done|lia].
  - rewrite foldM_app, Hd1. apply Hd2.
Qed.

(** An attribute that is not written *)
Lemma segments_upto_skip i w r r' :
  segments_upto i w r r' -> segments_upto (S i) w r r'.
Proof.
  intros (es & Hw & Hn & Hr & Hd). exists es. repeat split; try done.
  eapply Forall_impl; [exact Hr|]. intros kv [? ?]. split; [done|lia].
Qed.

(** One entry *)
Lemma segment_one i k v fk fv upd :
  k <> [] -> rank k = i -> frame k = Ok fk -> frame v = Ok fv ->
  (forall r, dec r (k, v) = Ok (upd r)) ->
  segment i (fk ++ fv) upd.
Proof.
  intros Hk Hr Hfk Hfv Hd. exists [(k, v)].
  split; [by apply map_wire_one|]. split; [|split].
  - apply NoDup_singleton.
  - by repeat constructor.
  - intros r. simpl. by rewrite Hd.
Qed.

(** The entries a loop of the serializer writes, one per element *)
Lemma entries_fold {A} (f : bytes -> A -> result bytes) (key_of : A -> bytes)
  (step : R -> A -> R) (xs : list A) :
  (forall x out out', x ∈ xs -> f out x = Ok out' ->
     exists v fk fv,
       frame (key_of x) = Ok fk /\ frame v = Ok fv /\
       out' = out ++ fk ++ fv /\
       forall r, dec r (key_of x, v) = Ok (step r x)) ->
  forall out out', foldM f xs out = Ok out' ->
  exists es w, out' = out ++ w /\ map_wire es = Ok w /\
               es.*1 = map key_of xs /\
               forall r, foldM dec es r = Ok (fold_left step xs r).
Proof.
  induction xs as [|x xs IH]; intros Hf out out' Hfold.
  - injection Hfold as <-. exists [], []. by rewrite app_nil_r.
  - simpl in Hfold. apply bind_Ok_inv in Hfold as (out1 & Hx & Hfold).
    destruct (Hf x out out1) as (v & fk & fv & Hfk & Hfv & -> & Hd);
      [left|done|].
    destruct (IH (fun y o o' Hy => Hf y o o' (list_elem_of_further _ _ _ Hy))
                _ _ Hfold) as (es & w & -> & Hw & Hkeys & Hdec).
    exists ((key_of x, v) :: es), ((fk ++ fv) ++ w).
    split; [by rewrite <- !app_assoc|]. split; [|split].
    + change ((key_of x, v) :: es) with ([(key_of x, v)] ++ es).
      apply map_wire_app; [by apply map_wire_one|done].
    + rewrite fmap_cons. simpl. by f_equal.
    + intros r. simpl. rewrite Hd. simpl. apply Hdec.
Qed.

Lemma segment_fold {A} i (f : bytes -> A -> result bytes) (key_of : A -> bytes)
  (step : R -> A -> R) (xs : list A) out out' :
  (forall x out out', x ∈ xs -> f out x = Ok out' ->
     exists v fk fv,
       frame (key_of x) = Ok fk /\ frame v = Ok fv /\
       out' = out ++ fk ++ fv /\
       forall r, dec r (key_of x, v) = Ok (step r x)) ->
  NoDup (map key_of xs) ->
  Forall (fun x => key_of x <> [] /\ rank (key_of x) = i) xs ->
  foldM f xs out = Ok out' ->
  exists w, out' = out ++ w /\
            segment i w (fun r => fold_left step xs r).
Proof.
  intros Hf Hnd Hrk Hfold.
  destruct (entries_fold f key_of step xs Hf out out' Hfold)
    as (es & w & -> & Hw & Hkeys & Hdec).
  exists w. split; [done|]. exists es. split; [done|].
  split; [by rewrite Hkeys|]. split; [|done].
  assert (Hk : Forall (fun k => k <> [] /\ rank k = i) (map key_of xs)).
  { apply Forall_fmap. eapply Forall_impl; [exact Hrk|]. by intros x. }
  rewrite <- Hkeys in Hk. apply Forall_fmap in Hk.
  eapply Forall_impl; [exact Hk|]. by intros kv.
Qed.

End Segments.

(** *** Attributes read and written by the decoders *)

Class Field {R V : Type} (get : R -> V) (set : V -> R -> R) : Prop := {
  fld_get_set : forall v r, get (set v r) = v;
  fld_set_set : forall v w r, set v (set w r) = set v r;
  fld_set_get : forall r, set (get r) r = r }.

(** The bytes a hexadecimal string stands for, the bytes of a varint. *)
Definition bytes_of (s : string) : bytes :=
  match fromhex s with Ok b => b | Raise _ => [] end.

Definition varint_of (n : Z) : bytes :=
  match varint.encode n with Ok e => e | Raise _ => [] end.

Lemma hexstr_bytes_of s :
  hexstr s ->
  fromhex s = Ok (bytes_of s) /\ hex (bytes_of s) = s /\
  slen s / 2 = len (bytes_of s).
Proof.
  intros Hs. unfold bytes_of. destruct (fromhex s) as [b|] eqn:E.
  - by destruct (hexstr_inv s b Hs E).
  - unfold hexstr in Hs. by rewrite E in Hs.
Qed.

Lemma bytes_of_inj s1 s2 :
  hexstr s1 -> hexstr s2 -> bytes_of s1 = bytes_of s2 -> s1 = s2.
Proof.
  intros (_ & H1 & _)%hexstr_bytes_of (_ & H2 & _)%hexstr_bytes_of E.
  by rewrite <- H1, <- H2, E.
Qed.

Lemma frame_of_encode b n :
  varint.encode (len b) = Ok n -> frame b = Ok (n ++ b).
Proof. intros Hn. unfold frame. by rewrite Hn. Qed.

(** *** Dictionaries of dictionaries *)

Definition prop_insert (o : Z) (k v : string)
  (p : dict Z (dict string string)) : dict Z (dict string string) :=
  let p' := if negb (dict_mem o p) then dict_set o [] p else p in
  match dict_get o p' with
  | Some inner => dict_set o (dict_set k v inner) p'
  | None => p'
  end.

(** The entries of a dictionary of dictionaries, in the order written *)
Definition prop_entries (d : dict Z (dict string string))
  : list (Z * (string * string)) :=
  concat (map (fun oi => map (pair oi.1) oi.2) d).

Definition prop_step (p : dict Z (dict string string))
  (x : Z * (string * string)) : dict Z (dict string string) :=
  prop_insert x.1 x.2.1 x.2.2 p.

Lemma dict_get_app_last {K V} `{EqDecision K} (p : dict K V) k c :
  k ∉ dict_keys p -> dict_get k (p ++ [(k, c)]) = Some c.
Proof.
  induction p as [|[k0 v0] p IH]; simpl.
  - intros _. by rewrite decide_True.
  - rewrite not_elem_of_cons. intros [Hne Hn].
    rewrite decide_False by done. by apply IH.
Qed.

Lemma dict_set_app_last {K V} `{EqDecision K} (p : dict K V) k c x :
  k ∉ dict_keys p -> dict_set k x (p ++ [(k, c)]) = p ++ [(k, x)].
Proof.
  induction p as [|[k0 v0] p IH]; simpl.
  - intros _. by rewrite decide_True.
  - rewrite not_elem_of_cons. intros [Hne Hn].
    rewrite decide_False by done. by rewrite IH.
Qed.

Lemma dict_keys_app_last {K V} (p : dict K V) k c :
  dict_keys (p ++ [(k, c)]) = dict_keys p ++ [k].
Proof. unfold dict_keys. by rewrite map_app. Qed.

Lemma prop_insert_present p o k v cur :
  o ∉ dict_keys p ->
  prop_insert o k v (p ++ [(o, cur)]) = p ++ [(o, dict_set k v cur)].
Proof.
  intros Hn. unfold prop_insert.
  assert (dict_mem o (p ++ [(o, cur)]) = true) as ->.
  { apply dict_mem_true. rewrite dict_keys_app_last.
    apply elem_of_app. right. left. }
  simpl. rewrite dict_get_app_last by done. by apply dict_set_app_last.
Qed.

Lemma prop_insert_absent p o k v :
  o ∉ dict_keys p -> prop_insert o k v p = p ++ [(o, [(k, v)])].
Proof.
  intros Hn. unfold prop_insert.
  assert (dict_mem o p = false) as -> by by apply dict_mem_false.
  simpl. rewrite (dict_set_new o [] p Hn).
  rewrite dict_get_app_last by done. by apply dict_set_app_last.
Qed.

Lemma prop_fold_present p o : forall es cur,
  o ∉ dict_keys p ->
  fold_left prop_step (map (pair o) es) (p ++ [(o, cur)]) =
    p ++ [(o, dict_update cur es)].
Proof.
  induction es as [|[k v] es IH]; intros cur Hn; [done|].
  simpl. unfold prop_step at 2. simpl.
  rewrite prop_insert_present by done. by rewrite IH.
Qed.

Lemma prop_fold_owner p o inner :
  o ∉ dict_keys p -> inner <> [] -> dict_wf inner ->
  fold_left prop_step (map (pair o) inner) p = p ++ [(o, inner)].
Proof.
  intros Hn Hne Hwf. destruct inner as [|[k v] es]; [done|].
  simpl. unfold prop_step at 2. simpl.
  rewrite prop_insert_absent by done.
  rewrite prop_fold_present by done.
  do 3 f_equal. change (dict_update [(k, v)] es) with (dict_update [] ((k, v) :: es)).
  by apply dict_update_nil_l.
Qed.

Lemma prop_fold_entries d : forall p,
  NoDup (dict_keys p ++ dict_keys d) ->
  Forall (fun oi => oi.2 <> [] /\ dict_wf oi.2) d ->
  fold_left prop_step (prop_entries d) p = p ++ d.
Proof.
  induction d as [|[o inner] d IH]; intros p Hnd Hd.
  - by rewrite app_nil_r.
  - apply Forall_cons in Hd as [[Hne Hwf] Hd].
    unfold prop_entries. simpl. rewrite fold_left_app.
    assert (Ho : o ∉ dict_keys p).
    { apply NoDup_app in Hnd as (_ & Hx & _). intros Hin.
      apply (Hx o Hin). left. }
    rewrite prop_fold_owner by done.
    change (concat _) with (prop_entries d). rewrite IH; [|  |done].
    + by rewrite <- app_assoc.
    + rewrite dict_keys_app_last, <- app_assoc. exact Hnd.
Qed.

(** The keys of the entries of a well-formed dictionary of dictionaries
    are pairwise distinct. *)
Lemma prop_entries_nodup d :
  dict_wf d -> Forall (fun oi => dict_wf oi.2) d ->
  NoDup (map (fun x => (x.1, x.2.1)) (prop_entries d)).
Proof.
  induction d as [|[o inner] d IH]; intros Hwf Hd; [constructor|].
  apply NoDup_cons in Hwf as [Ho Hwf]. apply Forall_cons in Hd as [Hi Hd].
  unfold prop_entries. simpl. rewrite map_app. apply NoDup_app.
  split; [|split].
  - rewrite map_map. simpl.
    unfold dict_wf, dict_keys in Hi.
    apply (NoDup_fmap_2 (pair o)) in Hi.
    change (map fst inner) with (fst <$> inner) in Hi.
    rewrite <- list_fmap_compose in Hi. exact Hi.
  - intros [o' k'] H1 H2.
    apply list_elem_of_fmap in H1 as ([o1 [k1 v1]] & E1 & H1).
    apply list_elem_of_fmap in H1 as ([k2 v2] & E2 & H1).
    simpl in E1. injection E2 as -> -> ->. injection E1 as -> ->.
    apply list_elem_of_fmap in H2 as ([o3 [k3 v3]] & E3 & H3).
    simpl in E3. injection E3 as -> ->.
    apply Ho. unfold prop_entries in H3.
    apply list_elem_of_In, in_concat in H3 as (l & Hin & Hl).
    apply list_elem_of_In, list_elem_of_fmap in Hin as ([o4 i4] & -> & Hin).
    apply list_elem_of_In, list_elem_of_fmap in Hl as (kv & E & _).
    injection E as -> _.
    apply (list_elem_of_fmap_2 fst) in Hin. exact Hin.
  - by apply IH.
Qed.

(** *** The attributes the three records share *)

Lemma fold_dict_set {R} (get : R -> dict string string) set `{!Field get set}
  (d : dict string string) : forall r,
  fold_left (fun r kv => set (dict_set kv.1 kv.2 (get r)) r) d r =
    set (dict_update (get r) d) r.
Proof.
  induction d as [|[k v] d IH]; intros r; simpl.
  - by rewrite (fld_set_get (get := get)).
  - rewrite IH, (fld_get_set (get := get)), (fld_set_set (set := set)). done.
Qed.

Lemma fold_append {R A} (get : R -> list A) set `{!Field get set}
  (l : list A) : forall r,
  fold_left (fun r x => set (get r ++ [x]) r) l r = set (get r ++ l) r.
Proof.
  induction l as [|x l IH]; intros r; simpl.
  - by rewrite app_nil_r, (fld_set_get (get := get)).
  - rewrite IH, (fld_get_set (get := get)), (fld_set_set (set := set)). by rewrite <- app_assoc.
Qed.

Lemma fold_prop_step {R} (get : R -> dict Z (dict string string)) set
  `{!Field get set} (l : list (Z * (string * string))) : forall r,
  fold_left (fun r x => set (prop_step (get r) x) r) l r =
    set (fold_left prop_step l (get r)) r.
Proof.
  induction l as [|x l IH]; intros r; simpl.
  - by rewrite (fld_set_get (get := get)).
  - rewrite IH, (fld_get_set (get := get)), (fld_set_set (set := set)). done.
Qed.

Lemma foldM_nested {S A B} (f : S -> A * B -> result S)
  (d : list (A * list B)) : forall s,
  foldM (fun s '(a, bs) => foldM (fun s b => f s (a, b)) bs s) d s =
    foldM f (concat (map (fun ab => map (pair ab.1) ab.2) d)) s.
Proof.
  induction d as [|[a bs] d IH]; intros s; [done|].
  simpl. rewrite foldM_app.
  assert (E : forall s, foldM (fun s b => f s (a, b)) bs s =
                        foldM f (map (pair a) bs) s).
  { clear. induction bs as [|b bs IH]; intros s; [done|].
    simpl. destruct (f s (a, b)); [apply IH|done]. }
  rewrite E. destruct (foldM f (map (pair a) bs) s); [apply IH|done].
Qed.

Section Pieces.
Context {R : Type}.
Context (dec : R -> bytes * bytes -> result R).
Context (rank : bytes -> nat).

Lemma segment_ext i w upd upd' :
  (forall r, upd r = upd' r) -> segment dec rank i w upd ->
  segment dec rank i w upd'.
Proof.
  intros E (es & H1 & H2 & H3 & H4). exists es. repeat split; try done.
  intros r. by rewrite <- E.
Qed.

(** What [deserialize_map] and the decoder's loop make of segments *)
Lemma segments_upto_read hi w r r' rest :
  segments_upto dec rank hi w r r' ->
  exists m, deserialize_map (w ++ x00 :: rest) = Ok (m, rest) /\
            foldM dec m r = Ok r'.
Proof.
  intros (es & Hw & Hn & Hk & Hd). exists es. split; [|done].
  rewrite (deserialize_map_wire es w rest); [|  |done].
  - by rewrite (insert_all_nodup es []).
  - eapply Forall_impl; [exact Hk|]. by intros kv [? _].
Qed.

(** One entry whose key is a tag *)
Lemma segment_tagged i tag v fv upd :
  rank [tag] = i -> frame v = Ok fv ->
  (forall r, dec r ([tag], v) = Ok (upd r)) ->
  segment dec rank i ([x01; tag] ++ fv) upd.
Proof.
  intros Hr Hv Hd.
  apply (segment_one dec rank i [tag] v [x01; tag] fv); done.
Qed.

(** [unknown]: one entry per key *)
Lemma unknown_segment i (get : R -> dict string string) set
  `{!Field get set} d out out' :
  (forall r key value, key <> [] -> rank key = i ->
     dec r (key, value) = Ok (set (decode_unknown key value (get r)) r)) ->
  dict_wf d ->
  Forall (fun kv => hexstr kv.1 /\ hexstr kv.2 /\
                    bytes_of kv.1 <> [] /\ rank (bytes_of kv.1) = i) d ->
  serialize_unknown d out = Ok out' ->
  exists w, out' = out ++ w /\
            segment dec rank i w (fun r => set (dict_update (get r) d) r).
Proof.
  intros Hdec Hwf Hd Hser.
  assert (E : serialize_unknown d out =
              foldM (fun out '(key, value) =>
                       n ← varint.encode (slen key / 2);
                       k ← fromhex key;
                       let out := out ++ n ++ k in
                       n ← varint.encode (slen value / 2);
                       v ← fromhex value;
                       Ok (out ++ n ++ v)) d out) by by destruct d.
  rewrite E in Hser. clear E.
  eapply (segment_fold dec rank i _ (fun kv => bytes_of kv.1)
            (fun r kv => set (dict_set kv.1 kv.2 (get r)) r)) in Hser.
  - destruct Hser as (w & -> & Hseg). exists w. split; [done|].
    eapply segment_ext; [|exact Hseg]. intros r. by apply fold_dict_set.
  - intros [k v] o o' Hin Hf.
    apply (proj1 (Forall_forall _ _) Hd) in Hin as (Hk & Hv & Hne & Hr).
    simpl in *.
    apply hexstr_bytes_of in Hk as (Ek & Hk & Lk).
    apply hexstr_bytes_of in Hv as (Ev & Hv & Lv).
    rewrite Ek, Ev, Lk, Lv in Hf.
    apply bind_Ok_inv in Hf as (n1 & Hn1 & Hf). simpl in Hf.
    apply bind_Ok_inv in Hf as (n2 & Hn2 & Hf). simpl in Hf.
    injection Hf as <-.
    exists (bytes_of v), (n1 ++ bytes_of k), (n2 ++ bytes_of v).
    split; [by apply frame_of_encode|]. split; [by apply frame_of_encode|].
    split; [by rewrite <- !app_assoc|].
    intros r. rewrite Hdec by done. unfold decode_unknown. by rewrite Hk, Hv.
  - unfold dict_wf, dict_keys in Hwf.
    change (map (fun kv : string * string => bytes_of kv.1) d)
      with ((bytes_of ∘ fst) <$> d).
    rewrite (list_fmap_compose fst bytes_of).
    apply NoDup_fmap_2_strong; [|done].
    intros k1 k2 [kv1 [-> H1]]%list_elem_of_fmap [kv2 [-> H2]]%list_elem_of_fmap.
    apply (proj1 (Forall_forall _ _) Hd) in H1 as (H1 & _).
    apply (proj1 (Forall_forall _ _) Hd) in H2 as (H2 & _).
    by apply bytes_of_inj.
  - eapply Forall_impl; [exact Hd|]. by intros kv (_ & _ & ? & ?).
Qed.

(** [hd_keypaths]: one entry per element; the key is the tag and the
    extended public key, the value the fingerprint and the path. *)
Definition hd_keypath_ok (klen : Z) (kp : HdKeypath) : Prop :=
  hexstr (HdKeypath.xpub kp) /\
  len (bytes_of (HdKeypath.xpub kp)) = klen /\
  hexstr (HdKeypath.fingerprint kp) /\
  len (bytes_of (HdKeypath.fingerprint kp)) = 4 /\
  hexstr (HdKeypath.derivation_path kp) /\
  len (bytes_of (HdKeypath.derivation_path kp)) mod 4 = 0.

Lemma hd_keypaths_segment i (t lb : byte) (klen : Z)
  (get : R -> list HdKeypath) set `{!Field get set} hd out out' :
  0 <= klen -> klen + 1 < 253 -> byte_of_Z (klen + 1) = lb ->
  (forall k, rank (t :: k) = i) ->
  (forall r k value, len k = klen -> len value mod 4 = 0 ->
     dec r (t :: k, value) =
       Ok (set (get r ++ [decode_hd_keypath (t :: k) value]) r)) ->
  NoDup (map HdKeypath.xpub hd) ->
  Forall (hd_keypath_ok klen) hd ->
  serialize_hd_keypaths [lb; t] hd out = Ok out' ->
  exists w, out' = out ++ w /\
            segment dec rank i w (fun r => set (get r ++ hd) r).
Proof.
  intros Hk0 Hk Hlb Hrk Hdec Hnd Hhd Hser.
  assert (E : serialize_hd_keypaths [lb; t] hd out =
              foldM (fun out hd_keypath =>
                       x ← fromhex (HdKeypath.xpub hd_keypath);
                       let out := out ++ [lb; t] ++ x in
                       keypath ← fromhex (HdKeypath.fingerprint hd_keypath);
                       dp ← fromhex (HdKeypath.derivation_path hd_keypath);
                       let keypath := keypath ++ dp in
                       n ← varint.encode (len keypath);
                       Ok (out ++ n ++ keypath)) hd out) by by destruct hd.
  rewrite E in Hser. clear E.
  eapply (segment_fold dec rank i _
            (fun kp => t :: bytes_of (HdKeypath.xpub kp))
            (fun r kp => set (get r ++ [kp]) r)) in Hser.
  - destruct Hser as (w & -> & Hseg). exists w. split; [done|].
    eapply segment_ext; [|exact Hseg]. intros r. by apply fold_append.
  - intros [xpub fp dp] o o' Hin Hf.
    apply (proj1 (Forall_forall _ _) Hhd) in Hin
      as (Hx & Lx & Hfp & Lfp & Hdp & Ldp).
    simpl in *.
    apply hexstr_bytes_of in Hx as (Ex & Hx & _).
    apply hexstr_bytes_of in Hfp as (Efp & Hfp & _).
    apply hexstr_bytes_of in Hdp as (Edp & Hdp & _).
    rewrite Ex, Efp, Edp in Hf. simpl in Hf.
    apply bind_Ok_inv in Hf as (n & Hn & Hf). injection Hf as <-.
    exists (bytes_of fp ++ bytes_of dp),
      (lb :: t :: bytes_of xpub), (n ++ bytes_of fp ++ bytes_of dp).
    split; [|split; [by apply frame_of_encode|split]].
    + rewrite frame_short.
      * do 3 f_equal. rewrite <- Hlb. f_equal. unfold len in *. simpl. lia.
      * unfold len in *. simpl. lia.
    + by rewrite <- !app_assoc.
    + intros r. rewrite Hdec; [|done|].
      * unfold decode_hd_keypath. do 4 f_equal.
        change (slice_from 1 (t :: bytes_of xpub)) with (bytes_of xpub).
        rewrite <- Lfp, slice_to_len_app, slice_from_len_app.
        by rewrite Hx, Hfp, Hdp.
      * unfold len in *. rewrite length_app, Nat2Z.inj_add, Lfp.
        rewrite Z.add_comm, <- Z.add_mod_idemp_r, Z.mod_same by done.
        by rewrite Z.add_0_r.
  - rewrite <- (map_map HdKeypath.xpub (fun s => t :: bytes_of s)).
    apply (NoDup_fmap_2_strong (fun s => t :: bytes_of s)); [|done].
    intros k1 k2 [p1 [-> H1]]%list_elem_of_fmap [p2 [-> H2]]%list_elem_of_fmap.
    apply (proj1 (Forall_forall _ _) Hhd) in H1 as (H1 & _).
    apply (proj1 (Forall_forall _ _) Hhd) in H2 as (H2 & _).
    intros [= E]. by apply bytes_of_inj.
  - apply Forall_forall. intros kp _. split; [done|]. apply Hrk.
Qed.

(** [proprietary]: one entry per key of every owner; the key is the tag,
    the owner's number and the key. *)
Definition prop_owner_ok (oi : Z * dict string string) : Prop :=
  0 <= oi.1 < 2 ^ 64 /\ oi.2 <> [] /\ dict_wf oi.2 /\
  Forall (fun kv => hexstr kv.1 /\ hexstr kv.2) oi.2.

Lemma prop_lookup o (p : dict Z (dict string string)) :
  is_Some (dict_get o (if negb (dict_mem o p) then dict_set o [] p else p)).
Proof.
  destruct (dict_mem o p) eqn:E; cbn [negb].
  - apply dict_mem_true in E.
    destruct (dict_get o p) eqn:G; [by eexists|].
    by apply dict_get_None in G.
  - rewrite dict_get_set. destruct (decide (o = o)); [by eexists|done].
Qed.

Lemma decode_proprietary_entry o e k value p :
  varint.encode o = Ok e ->
  decode_proprietary (xfc :: e ++ k) value p =
    Ok (prop_insert o (hex k) (hex value) p).
Proof.
  intros He. unfold decode_proprietary, prop_insert.
  destruct (varint_encode_read o) as (e' & He' & _ & _ & Hread).
  { by eapply varint_encode_bound. }
  rewrite He in He'. injection He' as <-.
  change (slice_from 1 (xfc :: e ++ k)) with (e ++ k).
  unfold varint.decode. rewrite Hread. simpl. rewrite He. simpl.
  replace (slice_from (1 + len e) (xfc :: e ++ k)) with k.
  2:{ change (xfc :: e ++ k) with ((xfc :: e) ++ k).
      replace (1 + len e) with (len (xfc :: e)).
      - by rewrite slice_from_len_app.
      - unfold len. simpl. lia. }
  by destruct (prop_lookup o p) as [inner ->].
Qed.

Lemma proprietary_segment i
  (get : R -> dict Z (dict string string)) set `{!Field get set} d out out' :
  (forall k, rank (xfc :: k) = i) ->
  (forall r k value,
     dec r (xfc :: k, value) =
       p ← decode_proprietary (xfc :: k) value (get r); Ok (set p r)) ->
  dict_wf d -> Forall prop_owner_ok d ->
  serialize_proprietary d out = Ok out' ->
  exists w, out' = out ++ w /\
            segment dec rank i w
              (fun r => set (fold_left prop_step (prop_entries d) (get r)) r).
Proof.
  intros Hrk Hdec Hwf Hd Hser.
  set (f := fun (out : bytes) (x : Z * (string * string)) =>
              let '(owner, (key, value)) := x in
              o ← varint.encode owner;
              k ← fromhex key;
              let key_bytes := [xfc] ++ o ++ k in
              n ← varint.encode (len key_bytes);
              let out := out ++ n ++ key_bytes in
              n ← varint.encode (slen value / 2);
              v ← fromhex value;
              Ok (out ++ n ++ v)).
  assert (E : serialize_proprietary d out = foldM f (prop_entries d) out).
  { unfold prop_entries. rewrite <- (foldM_nested f). by destruct d. }
  rewrite E in Hser. clear E.
  assert (Hall : Forall (fun x => 0 <= x.1 < 2 ^ 64 /\ hexstr x.2.1 /\ hexstr x.2.2)
                   (prop_entries d)).
  { clear -Hd. induction Hd as [|[o inner] d (Ho & _ & _ & Hi) _ IH];
      [constructor|].
    unfold prop_entries. simpl. apply Forall_app. split; [|exact IH].
    apply Forall_fmap. eapply Forall_impl; [exact Hi|].
    intros [k v] [? ?]. done. }
  eapply (segment_fold dec rank i _
            (fun x => xfc :: varint_of x.1 ++ bytes_of x.2.1)
            (fun r x => set (prop_step (get r) x) r)) in Hser.
  - destruct Hser as (w & -> & Hseg). exists w. split; [done|].
    eapply segment_ext; [|exact Hseg]. intros r. by apply fold_prop_step.
  - intros [o [k v]] out0 out1 Hin Hf.
    apply (proj1 (Forall_forall _ _) Hall) in Hin as (Ho & Hk & Hv).
    simpl in *.
    apply hexstr_bytes_of in Hk as (Ek & Hk & _).
    apply hexstr_bytes_of in Hv as (Ev & Hv & Lv).
    apply bind_Ok_inv in Hf as (e & He & Hf). rewrite Ek in Hf. simpl in Hf.
    apply bind_Ok_inv in Hf as (n1 & Hn1 & Hf). rewrite Lv in Hf.
    apply bind_Ok_inv in Hf as (n2 & Hn2 & Hf). rewrite Ev in Hf.
    injection Hf as <-.
    assert (varint_of o = e) as -> by (unfold varint_of; by rewrite He).
    exists (bytes_of v), (n1 ++ xfc :: e ++ bytes_of k), (n2 ++ bytes_of v).
    split; [by apply frame_of_encode|]. split; [by apply frame_of_encode|].
    split; [by rewrite <- !app_assoc|].
    intros r. rewrite Hdec, (decode_proprietary_entry o e) by done.
    simpl. unfold prop_step. simpl. by rewrite Hk, Hv.
  - rewrite <- (map_map (fun x : Z * (string * string) => (x.1, x.2.1))
                  (fun ok => xfc :: varint_of ok.1 ++ bytes_of ok.2)).
    apply (NoDup_fmap_2_strong
             (fun ok : Z * string => xfc :: varint_of ok.1 ++ bytes_of ok.2)).
    + intros [o1 k1] [o2 k2] [x1 [E1 H1]]%list_elem_of_fmap
        [x2 [E2 H2]]%list_elem_of_fmap.
      apply (proj1 (Forall_forall _ _) Hall) in H1 as (Ho1 & Hk1 & _).
      apply (proj1 (Forall_forall _ _) Hall) in H2 as (Ho2 & Hk2 & _).
      injection E1 as -> ->. injection E2 as -> ->. simpl. intros [= E].
      destruct (varint_encode_read _ Ho1) as (e1 & He1 & _ & _ & Hr1).
      destruct (varint_encode_read _ Ho2) as (e2 & He2 & _ & _ & Hr2).
      unfold varint_of in E. rewrite He1, He2 in E.
      pose proof (Hr1 (bytes_of x1.2.1)) as Hr. rewrite E, Hr2 in Hr.
      injection Hr as -> Hb. f_equal. by apply bytes_of_inj.
    + apply prop_entries_nodup; [done|].
      eapply Forall_impl; [exact Hd|]. by intros oi (_ & _ & ? & _).
  - apply Forall_forall. intros x _. split; [done|]. apply Hrk.
Qed.

End Pieces.

(** *** Input records *)

(** The place of a key's tag in the order [PsbtInput.serialize] writes
    the attributes in; a key that starts with no tag is [unknown]. *)
Definition rank_in (key : bytes) : nat :=
  match key with
  | [] => 0
  | b :: _ =>
      if decide (b = x00) then 0
      else if decide (b = x01) then 1
      else if decide (b = x02) then 2
      else if decide (b = x03) then 3
      else if decide (b = x04) then 4
      else if decide (b = x05) then 5
      else if decide (b = x06) then 6
      else if decide (b = x07) then 7
      else if decide (b = x08) then 8
      else if decide (b = x09) then 9
      else if decide (b = xfc) then 10
      else 11
  end%nat.

#[global] Instance PsbtInput_partial_sigs_field :
  Field PsbtInput.partial_sigs PsbtInput.set_partial_sigs.
Proof. split; intros; try done. by destruct r. Qed.
#[global] Instance PsbtInput_hd_keypaths_field :
  Field PsbtInput.hd_keypaths PsbtInput.set_hd_keypaths.
Proof. split; intros; try done. by destruct r. Qed.
#[global] Instance PsbtInput_proprietary_field :
  Field PsbtInput.proprietary PsbtInput.set_proprietary.
Proof. split; intros; try done. by destruct r. Qed.
#[global] Instance PsbtInput_unknown_field :
  Field PsbtInput.unknown PsbtInput.set_unknown.
Proof. split; intros; try done. by destruct r. Qed.

(** An entry of [unknown]: hexadecimal strings, and a key the decoder
    takes for no attribute. *)
Definition unknown_ok (rank : bytes -> nat) (i : nat)
  (kv : string * string) : Prop :=
  hexstr kv.1 /\ hexstr kv.2 /\
  bytes_of kv.1 <> [] /\ rank (bytes_of kv.1) = i.

Section InputCodec.
Context `{Collaborators}.

(** The codecs of the values a record holds give back what they are
    given. *)
Definition tx_ok (t : Tx) : Prop :=
  match Tx_serialize t true true with
  | Ok u => Tx_deserialize u true = Ok t
  | Raise _ => True
  end.

Definition txout_ok (o : TxOut) : Prop :=
  match TxOut_serialize o with
  | Ok u =>
      match TxOut_deserialize u with
      | Ok (o', _) => o' = o
      | Raise _ => False
      end
  | Raise _ => True
  end.

Definition script_ok (ts : list Token) : Prop :=
  if nonempty ts then
    match script_encode ts with
    | Ok e => script_serialize ts = frame e /\ script_decode e = Ok ts
    | Raise _ => False
    end
  else True.

Definition witness_ok (ws : list string) : Prop :=
  match witness_serialize ws with
  | Ok u =>
      match witness_deserialize u with
      | Ok (ws', _) => ws' = ws
      | Raise _ => False
      end
  | Raise _ => True
  end.

(** The input records that [PsbtInput.serialize] writes in full and
    [PsbtInput.decode] reads back. *)
Definition PsbtInput_canonical (r : PsbtInput) : Prop :=
  from_option tx_ok True (PsbtInput.non_witness_utxo r) /\
  from_option txout_ok True (PsbtInput.witness_utxo r) /\
  (dict_wf (PsbtInput.partial_sigs r) /\
   Forall (fun kv => hexstr kv.1 /\ len (bytes_of kv.1) = 33 /\ hexstr kv.2)
     (PsbtInput.partial_sigs r)) /\
  is_Some (PsbtInput.sighash r) /\
  script_ok (PsbtInput.redeem_script r) /\
  script_ok (PsbtInput.witness_script r) /\
  (NoDup (map HdKeypath.xpub (PsbtInput.hd_keypaths r)) /\
   Forall (hd_keypath_ok 33) (PsbtInput.hd_keypaths r)) /\
  script_ok (PsbtInput.final_script_sig r) /\
  witness_ok (PsbtInput.final_script_witness r) /\
  from_option (fun s => s <> "" /\ hexstr s) True (PsbtInput.por_commitment r) /\
  (dict_wf (PsbtInput.proprietary r) /\
   Forall prop_owner_ok (PsbtInput.proprietary r)) /\
  (dict_wf (PsbtInput.unknown r) /\
   Forall (unknown_ok rank_in 11) (PsbtInput.unknown r)).

(** A script attribute, as the serializers write it *)
Lemma script_segment {R} (dec : R -> bytes * bytes -> result R) rank i tag
  ts s upd :
  script_ok ts -> nonempty ts = true -> rank [tag] = i ->
  script_serialize ts = Ok s ->
  (forall r e, script_decode e = Ok ts -> dec r ([tag], e) = Ok (upd r)) ->
  segment dec rank i ([x01; tag] ++ s) upd.
Proof.
  unfold script_ok. intros Hok Hne Hr Hs Hd. rewrite Hne in Hok.
  destruct (script_encode ts) as [e|]; [|done]. destruct Hok as [He Hdec].
  rewrite Hs in He. apply (segment_tagged dec rank i tag e); [done|done|].
  intros r. by apply Hd.
Qed.

Ltac dispatch :=
  intros; cbn [fst snd PsbtInput_decode_entry]; rewrite py_index_cons_0;
  cbn [mbind result_bind];
  repeat first [rewrite decide_True by done | rewrite decide_False by done].

Lemma nonempty_false {A} (l : list A) : nonempty l = false -> l = [].
Proof. by destruct l. Qed.

Lemma partial_sigs_segment ps out out' :
  dict_wf ps ->
  Forall (fun kv => hexstr kv.1 /\ len (bytes_of kv.1) = 33 /\ hexstr kv.2) ps ->
  foldM (fun out '(key, value) =>
           k ← fromhex key;
           let out := out ++ [x22; x02] ++ k in
           n ← varint.encode (slen value / 2);
           v ← fromhex value;
           Ok (out ++ n ++ v)) ps out = Ok out' ->
  exists w, out' = out ++ w /\
    segment PsbtInput_decode_entry rank_in 2 w
      (fun r => PsbtInput.set_partial_sigs
                  (dict_update (PsbtInput.partial_sigs r) ps) r).
Proof.
  intros Hwf Hps Hser.
  eapply (segment_fold PsbtInput_decode_entry rank_in 2 _
            (fun kv => x02 :: bytes_of kv.1)
            (fun r kv => PsbtInput.set_partial_sigs
                           (dict_set kv.1 kv.2 (PsbtInput.partial_sigs r)) r))
    in Hser.
  - destruct Hser as (w & -> & Hseg). exists w. split; [done|].
    eapply segment_ext; [|exact Hseg]. intros r.
    apply (fold_dict_set PsbtInput.partial_sigs PsbtInput.set_partial_sigs).
  - intros [k v] o o' Hin Hf.
    apply (proj1 (Forall_forall _ _) Hps) in Hin as (Hk & Lk & Hv).
    cbn [fst snd] in *.
    apply hexstr_bytes_of in Hk as (Ek & Hk & _).
    apply hexstr_bytes_of in Hv as (Ev & Hv & Lv).
    rewrite Ek, Ev, Lv in Hf. simpl in Hf.
    apply bind_Ok_inv in Hf as (n & Hn & Hf). injection Hf as <-.
    exists (bytes_of v), (x22 :: x02 :: bytes_of k), (n ++ bytes_of v).
    split; [|split; [by apply frame_of_encode|split]].
    + rewrite frame_short.
      * do 2 f_equal. unfold len in *. simpl length.
        rewrite Nat2Z.inj_succ, Lk. done.
      * unfold len in *. simpl length. lia.
    + by rewrite <- !app_assoc.
    + dispatch.
      assert ((len (x02 :: bytes_of k) =? 33 + 1) = true) as ->.
      { apply Z.eqb_eq. unfold len in *. simpl length. lia. }
      cbn [py_assert mbind result_bind].
      change (slice_from 1 (x02 :: bytes_of k)) with (bytes_of k).
      by rewrite Hk, Hv.
  - rewrite <- (map_map fst (fun s => x02 :: bytes_of s)).
    apply (NoDup_fmap_2_strong (fun s => x02 :: bytes_of s)); [|done].
    intros k1 k2 [p1 [-> H1]]%list_elem_of_fmap [p2 [-> H2]]%list_elem_of_fmap.
    apply (proj1 (Forall_forall _ _) Hps) in H1 as (H1 & _).
    apply (proj1 (Forall_forall _ _) Hps) in H2 as (H2 & _).
    intros [= E]. by apply bytes_of_inj.
  - apply Forall_forall. by intros kv _.
Qed.

Lemma rank_in_unknown b k :
  rank_in (b :: k) = 11%nat ->
  b <> x00 /\ b <> x01 /\ b <> x02 /\ b <> x03 /\ b <> x04 /\ b <> x05 /\
  b <> x06 /\ b <> x07 /\ b <> x08 /\ b <> x09 /\ b <> xfc.
Proof. unfold rank_in. repeat case_decide; try done. Qed.

Lemma PsbtInput_serialize_segments r w :
  PsbtInput_canonical r -> PsbtInput_serialize r = Ok w ->
  segments_upto PsbtInput_decode_entry rank_in 12 w PsbtInput.default r.
Proof.
  destruct r as [nwu wu ps sh rs ws hd fs fw por prop unk].
  unfold PsbtInput_canonical. cbn [PsbtInput.non_witness_utxo
    PsbtInput.witness_utxo PsbtInput.partial_sigs PsbtInput.sighash
    PsbtInput.redeem_script PsbtInput.witness_script PsbtInput.hd_keypaths
    PsbtInput.final_script_sig PsbtInput.final_script_witness
    PsbtInput.por_commitment PsbtInput.proprietary PsbtInput.unknown].
  intros (Hnwu & Hwu & [Hps1 Hps2] & Hsh & Hrs & Hws & [Hhd1 Hhd2] & Hfs & Hfw
          & Hpor & [Hpr1 Hpr2] & [Hunk1 Hunk2]) Hser.
  unfold PsbtInput_serialize in Hser. cbn [PsbtInput.non_witness_utxo
    PsbtInput.witness_utxo PsbtInput.partial_sigs PsbtInput.sighash
    PsbtInput.redeem_script PsbtInput.witness_script PsbtInput.hd_keypaths
    PsbtInput.final_script_sig PsbtInput.final_script_witness
    PsbtInput.por_commitment PsbtInput.proprietary PsbtInput.unknown] in Hser.
  pose proof (segments_upto_nil PsbtInput_decode_entry rank_in
                PsbtInput.default) as A0.
  set (dec := PsbtInput_decode_entry) in *.
  (* non_witness_utxo *)
  apply bind_Ok_inv in Hser as (o1 & H1 & Hser).
  assert (A1 : segments_upto dec rank_in 1 o1 PsbtInput.default
                 (PsbtInput.mk nwu None [] (Some 0) [] [] [] [] [] None [] [])).
  { destruct nwu as [t|].
    - apply bind_Ok_inv in H1 as (u & Hu & H1).
      apply bind_Ok_inv in H1 as (n & Hn & H1). injection H1 as <-.
      simpl in Hnwu. unfold tx_ok in Hnwu. rewrite Hu in Hnwu.
      change (([] ++ [x01; x00]) ++ n ++ u) with ([] ++ [x01; x00] ++ n ++ u).
      apply (segments_upto_snoc _ _ 0 _ _
               (PsbtInput.set_non_witness_utxo (Some t)) _ _ A0).
      apply (segment_tagged _ _ 0 x00 u); [done|by apply frame_of_encode|].
      unfold dec. dispatch. cbn. by rewrite Hnwu.
    - injection H1 as <-. by apply segments_upto_skip. }
  clear A0 H1 Hnwu.
  (* witness_utxo *)
  apply bind_Ok_inv in Hser as (o2 & H2 & Hser).
  assert (A2 : segments_upto dec rank_in 2 o2 PsbtInput.default
                 (PsbtInput.mk nwu wu [] (Some 0) [] [] [] [] [] None [] [])).
  { destruct wu as [t|].
    - apply bind_Ok_inv in H2 as (u & Hu & H2).
      apply bind_Ok_inv in H2 as (n & Hn & H2). injection H2 as <-.
      simpl in Hwu. unfold txout_ok in Hwu. rewrite Hu in Hwu.
      destruct (TxOut_deserialize u) as [[o' rest]|] eqn:Hde; [|done].
      subst o'. rewrite <- app_assoc.
      apply (segments_upto_snoc _ _ 1 _ _
               (PsbtInput.set_witness_utxo (Some t)) _ _ A1).
      apply (segment_tagged _ _ 1 x01 u); [done|by apply frame_of_encode|].
      unfold dec. dispatch. cbn. by rewrite Hde.
    - injection H2 as <-. by apply segments_upto_skip. }
  clear A1 H2 Hwu.
  (* partial_sigs *)
  apply bind_Ok_inv in Hser as (o3 & H3 & Hser).
  assert (A3 : segments_upto dec rank_in 3 o3 PsbtInput.default
                 (PsbtInput.mk nwu wu ps (Some 0) [] [] [] [] [] None [] [])).
  { assert (H3' : foldM (fun out '(key, value) =>
                           k ← fromhex key;
                           let out := out ++ [x22; x02] ++ k in
                           n ← varint.encode (slen value / 2);
                           v ← fromhex value;
                           Ok (out ++ n ++ v)) ps o2 = Ok o3).
    { destruct ps; [|exact H3]. exact H3. }
    destruct (partial_sigs_segment ps o2 o3 Hps1 Hps2 H3') as (w3 & -> & Hseg).
    pose proof (segments_upto_snoc _ _ 2 _ _ _ _ _ A2 Hseg) as A3.
    cbn in A3. by rewrite dict_update_nil_l in A3. }
  clear A2 H3 Hps1 Hps2.
  (* sighash *)
  apply bind_Ok_inv in Hser as (o4 & H4 & Hser).
  assert (A4 : segments_upto dec rank_in 4 o4 PsbtInput.default
                 (PsbtInput.mk nwu wu ps sh [] [] [] [] [] None [] [])).
  { destruct Hsh as [z ->]. cbn [truthy_int default from_option id] in H4.
    destruct (z =? 0) eqn:Ez; cbn [negb] in H4.
    - injection H4 as <-. apply Z.eqb_eq in Ez as ->.
      by apply segments_upto_skip.
    - apply bind_Ok_inv in H4 as (s & Hs & H4). injection H4 as <-.
      assert (Hs' : s = le_bytes 4 z /\ 0 <= z < 256 ^ Z.of_nat 4).
      { unfold to_bytes in Hs.
        destruct ((0 <=? z) && (z <? 256 ^ Z.of_nat 4)) eqn:Hz; [|done].
        apply andb_true_iff in Hz as [Hz1 Hz2].
        apply Z.leb_le in Hz1. apply Z.ltb_lt in Hz2.
        split; [congruence|done]. }
      destruct Hs' as [-> Hz]. clear Hs.
      replace ((o3 ++ [x01; x03; x04]) ++ le_bytes 4 z)
        with (o3 ++ [x01; x03] ++ x04 :: le_bytes 4 z)
        by by rewrite <- !app_assoc.
      apply (segments_upto_snoc _ _ 3 _ _
               (PsbtInput.set_sighash (Some z)) _ _ A3).
      apply (segment_tagged _ _ 3 x03 (le_bytes 4 z)); [done|done|].
      unfold dec. dispatch. change (len [x03] =? 1) with true.
      assert ((len (le_bytes 4 z) =? 4) = true) as ->.
      { unfold len. by rewrite length_le_bytes. }
      cbn [py_assert mbind result_bind]. by rewrite from_le_le_bytes. }
  clear A3 H4 Hsh.
  (* redeem_script *)
  apply bind_Ok_inv in Hser as (o5 & H5 & Hser).
  assert (A5 : segments_upto dec rank_in 5 o5 PsbtInput.default
                 (PsbtInput.mk nwu wu ps sh rs [] [] [] [] None [] [])).
  { destruct (nonempty rs) eqn:E.
    - apply bind_Ok_inv in H5 as (s & Hs & H5). injection H5 as <-.
      rewrite <- app_assoc.
      apply (segments_upto_snoc _ _ 4 _ _
               (PsbtInput.set_redeem_script rs) _ _ A4).
      apply (script_segment _ _ 4 x04 rs); try done.
      unfold dec. dispatch. cbn. by rewrite H0.
    - injection H5 as <-. apply nonempty_false in E as ->.
      by apply segments_upto_skip. }
  clear A4 H5 Hrs.
  (* witness_script *)
  apply bind_Ok_inv in Hser as (o6 & H6 & Hser).
  assert (A6 : segments_upto dec rank_in 6 o6 PsbtInput.default
                 (PsbtInput.mk nwu wu ps sh rs ws [] [] [] None [] [])).
  { destruct (nonempty ws) eqn:E.
    - apply bind_Ok_inv in H6 as (s & Hs & H6). injection H6 as <-.
      rewrite <- app_assoc.
      apply (segments_upto_snoc _ _ 5 _ _
               (PsbtInput.set_witness_script ws) _ _ A5).
      apply (script_segment _ _ 5 x05 ws); try done.
      unfold dec. dispatch. cbn. by rewrite H0.
    - injection H6 as <-. apply nonempty_false in E as ->.
      by apply segments_upto_skip. }
  clear A5 H6 Hws.
  (* hd_keypaths *)
  apply bind_Ok_inv in Hser as (o7 & H7 & Hser).
  assert (A7 : segments_upto dec rank_in 7 o7 PsbtInput.default
                 (PsbtInput.mk nwu wu ps sh rs ws hd [] [] None [] [])).
  { destruct (hd_keypaths_segment dec rank_in 6 x06 x22 33
                PsbtInput.hd_keypaths PsbtInput.set_hd_keypaths hd o6 o7)
      as (w7 & -> & Hseg); try done.
    - unfold dec. dispatch.
      assert ((len (x06 :: k) =? 33 + 1) = true) as ->.
      { apply Z.eqb_eq. unfold len in *. simpl length. lia. }
      cbn [py_assert mbind result_bind]. rewrite H1. done.
    - exact (segments_upto_snoc _ _ 6 _ _ _ _ _ A6 Hseg). }
  clear A6 H7 Hhd1 Hhd2.
  (* final_script_sig *)
  apply bind_Ok_inv in Hser as (o8 & H8 & Hser).
  assert (A8 : segments_upto dec rank_in 8 o8 PsbtInput.default
                 (PsbtInput.mk nwu wu ps sh rs ws hd fs [] None [] [])).
  { destruct (nonempty fs) eqn:E.
    - apply bind_Ok_inv in H8 as (s & Hs & H8). injection H8 as <-.
      rewrite <- app_assoc.
      apply (segments_upto_snoc _ _ 7 _ _
               (PsbtInput.set_final_script_sig fs) _ _ A7).
      apply (script_segment _ _ 7 x07 fs); try done.
      unfold dec. dispatch. cbn. by rewrite H0.
    - injection H8 as <-. apply nonempty_false in E as ->.
      by apply segments_upto_skip. }
  clear A7 H8 Hfs.
  (* final_script_witness *)
  apply bind_Ok_inv in Hser as (o9 & H9 & Hser).
  assert (A9 : segments_upto dec rank_in 9 o9 PsbtInput.default
                 (PsbtInput.mk nwu wu ps sh rs ws hd fs fw None [] [])).
  { destruct (nonempty fw) eqn:E.
    - apply bind_Ok_inv in H9 as (u & Hu & H9).
      apply bind_Ok_inv in H9 as (n & Hn & H9). injection H9 as <-.
      unfold witness_ok in Hfw. rewrite Hu in Hfw.
      destruct (witness_deserialize u) as [[fw' rest]|] eqn:Hde; [|done].
      subst fw'. rewrite <- app_assoc.
      apply (segments_upto_snoc _ _ 8 _ _
               (PsbtInput.set_final_script_witness fw) _ _ A8).
      apply (segment_tagged _ _ 8 x08 u); [done|by apply frame_of_encode|].
      unfold dec. dispatch. cbn. by rewrite Hde.
    - injection H9 as <-. apply nonempty_false in E as ->.
      by apply segments_upto_skip. }
  clear A8 H9 Hfw.
  (* por_commitment *)
  apply bind_Ok_inv in Hser as (o10 & H10 & Hser).
  assert (A10 : segments_upto dec rank_in 10 o10 PsbtInput.default
                  (PsbtInput.mk nwu wu ps sh rs ws hd fs fw por [] [])).
  { destruct por as [c|]; cbn [truthy_str default from_option id] in H10.
    - destruct Hpor as [Hc Hhex].
      assert (String.eqb c "" = false) as E by by apply String.eqb_neq.
      rewrite E in H10. cbn [negb] in H10.
      apply hexstr_bytes_of in Hhex as (Ec & Hhex & _). rewrite Ec in H10.
      cbn [mbind result_bind] in H10.
      apply bind_Ok_inv in H10 as (n & Hn & H10). injection H10 as <-.
      rewrite <- app_assoc.
      apply (segments_upto_snoc _ _ 9 _ _
               (PsbtInput.set_por_commitment (Some c)) _ _ A9).
      apply (segment_tagged _ _ 9 x09 (bytes_of c));
        [done|by apply frame_of_encode|].
      unfold dec. dispatch. cbn. by rewrite Hhex.
    - injection H10 as <-. by apply segments_upto_skip. }
  clear A9 H10 Hpor.
  (* proprietary *)
  apply bind_Ok_inv in Hser as (o11 & H11 & Hser).
  assert (A11 : segments_upto dec rank_in 11 o11 PsbtInput.default
                  (PsbtInput.mk nwu wu ps sh rs ws hd fs fw por prop [])).
  { destruct (proprietary_segment dec rank_in 10
                PsbtInput.proprietary PsbtInput.set_proprietary prop o10 o11)
      as (w11 & -> & Hseg); try done.
    pose proof (segments_upto_snoc _ _ 10 _ _ _ _ _ A10 Hseg) as A11.
    cbn in A11. rewrite (prop_fold_entries prop []) in A11; try done.
    eapply Forall_impl; [exact Hpr2|]. by intros oi (_ & ? & ? & _). }
  clear A10 H11 Hpr1 Hpr2.
  (* unknown *)
  apply bind_Ok_inv in Hser as (o12 & H12 & Hser). injection Hser as <-.
  destruct (unknown_segment dec rank_in 11
              PsbtInput.unknown PsbtInput.set_unknown unk o11 o12)
    as (w12 & -> & Hseg); try done.
  - intros r [|b k] value Hk Hr; [done|].
    apply rank_in_unknown in Hr as (?&?&?&?&?&?&?&?&?&?&?).
    unfold dec. by dispatch.
  - pose proof (segments_upto_snoc _ _ 11 _ _ _ _ _ A11 Hseg) as A12.
    cbn in A12. by rewrite dict_update_nil_l in A12.
Qed.

(** An input record read off the front of a stream *)
Lemma read_input_serialize r w rest :
  PsbtInput_canonical r -> PsbtInput_serialize r = Ok w ->
  read_input (w ++ x00 :: rest) = Ok (r, rest).
Proof.
  intros Hc Hs.
  destruct (segments_upto_read _ _ _ _ _ _ rest
              (PsbtInput_serialize_segments r w Hc Hs)) as (m & Hm & Hd).
  unfold read_input, PsbtInput_decode. rewrite Hm. cbn [mbind result_bind].
  change (PsbtInput.mk None None [] (Some 0) [] [] [] [] [] None [] [])
    with PsbtInput.default.
  by rewrite Hd.
Qed.

End InputCodec.

(** *** Output records *)

Definition rank_out (key : bytes) : nat :=
  match key with
  | [] => 0
  | b :: _ =>
      if decide (b = x00) then 0
      else if decide (b = x01) then 1
      else if decide (b = x02) then 2
      else if decide (b = xfc) then 3
      else 4
  end%nat.

#[global] Instance PsbtOutput_hd_keypaths_field :
  Field PsbtOutput.hd_keypaths PsbtOutput.set_hd_keypaths.
Proof. split; intros; try done. by destruct r. Qed.
#[global] Instance PsbtOutput_proprietary_field :
  Field PsbtOutput.proprietary PsbtOutput.set_proprietary.
Proof. split; intros; try done. by destruct r. Qed.
#[global] Instance PsbtOutput_unknown_field :
  Field PsbtOutput.unknown PsbtOutput.set_unknown.
Proof. split; intros; try done. by destruct r. Qed.

Section OutputCodec.
Context `{Collaborators}.

(** The output records that [PsbtOutput.serialize] writes in full and
    [PsbtOutput.decode] reads back. *)
Definition PsbtOutput_canonical (r : PsbtOutput) : Prop :=
  script_ok (PsbtOutput.redeem_script r) /\
  script_ok (PsbtOutput.witness_script r) /\
  (NoDup (map HdKeypath.xpub (PsbtOutput.hd_keypaths r)) /\
   Forall (hd_keypath_ok 33) (PsbtOutput.hd_keypaths r)) /\
  (dict_wf (PsbtOutput.proprietary r) /\
   Forall prop_owner_ok (PsbtOutput.proprietary r)) /\
  (dict_wf (PsbtOutput.unknown r) /\
   Forall (unknown_ok rank_out 4) (PsbtOutput.unknown r)).

Ltac dispatch_out :=
  intros; cbn [fst snd PsbtOutput_decode_entry]; rewrite py_index_cons_0;
  cbn [mbind result_bind];
  repeat first [rewrite decide_True by done | rewrite decide_False by done].

Lemma rank_out_unknown b k :
  rank_out (b :: k) = 4%nat ->
  b <> x00 /\ b <> x01 /\ b <> x02 /\ b <> xfc.
Proof. unfold rank_out. repeat case_decide; try done. Qed.

Lemma PsbtOutput_serialize_segments r w :
  PsbtOutput_canonical r -> PsbtOutput_serialize r = Ok w ->
  segments_upto PsbtOutput_decode_entry rank_out 5 w PsbtOutput.default r.
Proof.
  destruct r as [rs ws hd prop unk].
  unfold PsbtOutput_canonical. cbn [PsbtOutput.redeem_script
    PsbtOutput.witness_script PsbtOutput.hd_keypaths PsbtOutput.proprietary
    PsbtOutput.unknown].
  intros (Hrs & Hws & [Hhd1 Hhd2] & [Hpr1 Hpr2] & [Hunk1 Hunk2]) Hser.
  unfold PsbtOutput_serialize in Hser. cbn [PsbtOutput.redeem_script
    PsbtOutput.witness_script PsbtOutput.hd_keypaths PsbtOutput.proprietary
    PsbtOutput.unknown] in Hser.
  pose proof (segments_upto_nil PsbtOutput_decode_entry rank_out
                PsbtOutput.default) as A0.
  set (dec := PsbtOutput_decode_entry) in *.
  (* redeem_script *)
  apply bind_Ok_inv in Hser as (o1 & H1 & Hser).
  assert (A1 : segments_upto dec rank_out 1 o1 PsbtOutput.default
                 (PsbtOutput.mk rs [] [] [] [])).
  { destruct (nonempty rs) eqn:E.
    - apply bind_Ok_inv in H1 as (s & Hs & H1). injection H1 as <-.
      match goal with
      | |- segments_upto _ _ _ ?w _ _ => change w with ([] ++ [x01; x00] ++ s)
      end.
      apply (segments_upto_snoc _ _ 0 _ _
               (PsbtOutput.set_redeem_script rs) _ _ A0).
      apply (script_segment _ _ 0 x00 rs); try done.
      unfold dec. dispatch_out. cbn. by rewrite H0.
    - injection H1 as <-. apply nonempty_false in E as ->.
      by apply segments_upto_skip. }
  clear A0 H1 Hrs.
  (* witness_script *)
  apply bind_Ok_inv in Hser as (o2 & H2 & Hser).
  assert (A2 : segments_upto dec rank_out 2 o2 PsbtOutput.default
                 (PsbtOutput.mk rs ws [] [] [])).
  { destruct (nonempty ws) eqn:E.
    - apply bind_Ok_inv in H2 as (s & Hs & H2). injection H2 as <-.
      rewrite <- app_assoc.
      apply (segments_upto_snoc _ _ 1 _ _
               (PsbtOutput.set_witness_script ws) _ _ A1).
      apply (script_segment _ _ 1 x01 ws); try done.
      unfold dec. dispatch_out. cbn. by rewrite H0.
    - injection H2 as <-. apply nonempty_false in E as ->.
      by apply segments_upto_skip. }
  clear A1 H2 Hws.
  (* hd_keypaths *)
  apply bind_Ok_inv in Hser as (o3 & H3 & Hser).
  assert (A3 : segments_upto dec rank_out 3 o3 PsbtOutput.default
                 (PsbtOutput.mk rs ws hd [] [])).
  { destruct (hd_keypaths_segment dec rank_out 2 x02 x22 33
                PsbtOutput.hd_keypaths PsbtOutput.set_hd_keypaths hd o2 o3)
      as (w3 & -> & Hseg); try done.
    - unfold dec. dispatch_out.
      assert ((len (x02 :: k) =? 33 + 1) = true) as ->.
      { apply Z.eqb_eq. unfold len in *. simpl length. lia. }
      cbn [py_assert mbind result_bind]. rewrite H1. done.
    - exact (segments_upto_snoc _ _ 2 _ _ _ _ _ A2 Hseg). }
  clear A2 H3 Hhd1 Hhd2.
  (* proprietary *)
  apply bind_Ok_inv in Hser as (o4 & H4 & Hser).
  assert (A4 : segments_upto dec rank_out 4 o4 PsbtOutput.default
                 (PsbtOutput.mk rs ws hd prop [])).
  { destruct (proprietary_segment dec rank_out 3
                PsbtOutput.proprietary PsbtOutput.set_proprietary prop o3 o4)
      as (w4 & -> & Hseg); try done.
    pose proof (segments_upto_snoc _ _ 3 _ _ _ _ _ A3 Hseg) as A4.
    cbn in A4. rewrite (prop_fold_entries prop []) in A4; try done.
    eapply Forall_impl; [exact Hpr2|]. by intros oi (_ & ? & ? & _). }
  clear A3 H4 Hpr1 Hpr2.
  (* unknown *)
  apply bind_Ok_inv in Hser as (o5 & H5 & Hser). injection Hser as <-.
  destruct (unknown_segment dec rank_out 4
              PsbtOutput.unknown PsbtOutput.set_unknown unk o4 o5)
    as (w5 & -> & Hseg); try done.
  - intros r [|b k] value Hk Hr; [done|].
    apply rank_out_unknown in Hr as (?&?&?&?).
    unfold dec. by dispatch_out.
  - pose proof (segments_upto_snoc _ _ 4 _ _ _ _ _ A4 Hseg) as A5.
    cbn in A5. by rewrite dict_update_nil_l in A5.
Qed.

(** An output record read off the front of a stream *)
Lemma read_output_serialize r w rest :
  PsbtOutput_canonical r -> PsbtOutput_serialize r = Ok w ->
  read_output (w ++ x00 :: rest) = Ok (r, rest).
Proof.
  intros Hc Hs.
  destruct (segments_upto_read _ _ _ _ _ _ rest
              (PsbtOutput_serialize_segments r w Hc Hs)) as (m & Hm & Hd).
  unfold read_output, PsbtOutput_decode. rewrite Hm. cbn [mbind result_bind].
  change (PsbtOutput.mk [] [] [] [] []) with PsbtOutput.default.
  by rewrite Hd.
Qed.

End OutputCodec.

(** *** The global map *)

Definition rank_global (key : bytes) : nat :=
  match key with
  | [] => 0
  | b :: _ =>
      if decide (b = x00) then 0
      else if decide (b = x01) then 1
      else if decide (b = xfb) then 2
      else if decide (b = xfc) then 3
      else 4
  end%nat.

Definition g_set_hd_keypaths v (g : GlobalLocals) : GlobalLocals :=
  mkGlobalLocals (g_tx g) (g_version g) v (g_proprietary g) (g_unknown g).
Definition g_set_proprietary v (g : GlobalLocals) : GlobalLocals :=
  mkGlobalLocals (g_tx g) (g_version g) (g_hd_keypaths g) v (g_unknown g).
Definition g_set_unknown v (g : GlobalLocals) : GlobalLocals :=
  mkGlobalLocals (g_tx g) (g_version g) (g_hd_keypaths g) (g_proprietary g) v.

#[global] Instance g_hd_keypaths_field : Field g_hd_keypaths g_set_hd_keypaths.
Proof. split; intros; try done. by destruct r. Qed.
#[global] Instance g_proprietary_field : Field g_proprietary g_set_proprietary.
Proof. split; intros; try done. by destruct r. Qed.
#[global] Instance g_unknown_field : Field g_unknown g_set_unknown.
Proof. split; intros; try done. by destruct r. Qed.

Section GlobalCodec.
Context `{Collaborators}.

(** The attributes of a container that [Psbt.serialize] writes in the
    global map in full and [Psbt.deserialize] reads back. *)
Definition globals_canonical (p : Psbt) : Prop :=
  tx_ok (Psbt.tx p) /\
  (NoDup (map HdKeypath.xpub (Psbt.hd_keypaths p)) /\
   Forall (hd_keypath_ok 78) (Psbt.hd_keypaths p)) /\
  is_Some (Psbt.version p) /\
  (dict_wf (Psbt.proprietary p) /\
   Forall prop_owner_ok (Psbt.proprietary p)) /\
  (dict_wf (Psbt.unknown p) /\
   Forall (unknown_ok rank_global 4) (Psbt.unknown p)).

Ltac dispatch_g :=
  intros; cbn [fst snd Psbt_deserialize_entry]; rewrite py_index_cons_0;
  cbn [mbind result_bind];
  repeat first [rewrite decide_True by done | rewrite decide_False by done].

Lemma rank_global_unknown b k :
  rank_global (b :: k) = 4%nat ->
  b <> x00 /\ b <> x01 /\ b <> xfb /\ b <> xfc.
Proof. unfold rank_global. repeat case_decide; try done. Qed.

(** The part of [Psbt.serialize] that writes the global map, from the
    bytes [out] on. *)
Definition serialize_globals (self : Psbt) (out : bytes) : result bytes :=
  let out := out ++ [x01; x00] in
  tx ← Tx_serialize (Psbt.tx self) true true;
  n ← varint.encode (len tx);
  let out := out ++ n ++ tx in
  out ← serialize_hd_keypaths [x4f; x01] (Psbt.hd_keypaths self) out;
  out ← (if truthy_int (Psbt.version self) then
           let out := out ++ [x01; xfb; x04] in
           s ← to_bytes (default 0 (Psbt.version self)) 4;
           Ok (out ++ s)
         else Ok out);
  out ← serialize_proprietary (Psbt.proprietary self) out;
  serialize_unknown (Psbt.unknown self) out.

Lemma serialize_globals_segments p out out' :
  globals_canonical p -> serialize_globals p out = Ok out' ->
  exists v w,
    Psbt.version p = Some v /\ out' = out ++ w /\
    segments_upto Psbt_deserialize_entry rank_global 5 w
      (mkGlobalLocals None 0 [] [] [])
      (mkGlobalLocals (Some (Psbt.tx p)) v (Psbt.hd_keypaths p)
         (Psbt.proprietary p) (Psbt.unknown p)).
Proof.
  destruct p as [tx ri ro ver hd prop unk].
  unfold globals_canonical. cbn [Psbt.tx Psbt.version Psbt.hd_keypaths
    Psbt.proprietary Psbt.unknown].
  intros (Htx & [Hhd1 Hhd2] & [v ->] & [Hpr1 Hpr2] & [Hunk1 Hunk2]) Hser.
  exists v. unfold serialize_globals in Hser. cbn [Psbt.tx Psbt.version
    Psbt.hd_keypaths Psbt.proprietary Psbt.unknown] in Hser.
  set (g0 := mkGlobalLocals None 0 [] [] []).
  pose proof (segments_upto_nil Psbt_deserialize_entry rank_global g0) as A0.
  set (dec := Psbt_deserialize_entry) in *.
  (* tx *)
  apply bind_Ok_inv in Hser as (u & Hu & Hser).
  apply bind_Ok_inv in Hser as (n & Hn & Hser).
  assert (A1 : segments_upto dec rank_global 1 ([x01; x00] ++ n ++ u) g0
                 (mkGlobalLocals (Some tx) 0 [] [] [])).
  { unfold tx_ok in Htx. rewrite Hu in Htx.
    apply (segments_upto_snoc _ _ 0 [] _
             (fun g => mkGlobalLocals (Some tx) (g_version g) (g_hd_keypaths g)
                         (g_proprietary g) (g_unknown g)) _ _ A0).
    apply (segment_tagged _ _ 0 x00 u); [done|by apply frame_of_encode|].
    unfold dec. dispatch_g. cbn. by rewrite Htx. }
  clear A0 Htx.
  (* hd_keypaths *)
  apply bind_Ok_inv in Hser as (o2 & H2 & Hser).
  assert (A2 : exists w2, o2 = out ++ w2 /\
                 segments_upto dec rank_global 2 w2 g0
                   (mkGlobalLocals (Some tx) 0 hd [] [])).
  { destruct (hd_keypaths_segment dec rank_global 1 x01 x4f 78
                g_hd_keypaths g_set_hd_keypaths hd
                ((out ++ [x01; x00]) ++ n ++ u) o2)
      as (w2 & -> & Hseg); try done.
    - unfold dec. dispatch_g.
      assert ((len (x01 :: k) =? 78 + 1) = true) as ->.
      { apply Z.eqb_eq. unfold len in *. simpl length. lia. }
      cbn [py_assert mbind result_bind]. rewrite H1. done.
    - exists (([x01; x00] ++ n ++ u) ++ w2). split; [by rewrite <- !app_assoc|].
      exact (segments_upto_snoc _ _ 1 _ _ _ _ _ A1 Hseg). }
  destruct A2 as (w2 & -> & A2).
  clear A1 H2 Hhd1 Hhd2.
  (* version *)
  apply bind_Ok_inv in Hser as (o3 & H3 & Hser).
  assert (A3 : exists w3, o3 = out ++ w3 /\
                 segments_upto dec rank_global 3 w3 g0
                   (mkGlobalLocals (Some tx) v hd [] [])).
  { cbn [truthy_int default from_option id] in H3.
    destruct (v =? 0) eqn:Ez; cbn [negb] in H3.
    - injection H3 as <-. apply Z.eqb_eq in Ez as ->.
      exists w2. split; [done|]. by apply segments_upto_skip.
    - apply bind_Ok_inv in H3 as (s & Hs & H3). injection H3 as <-.
      assert (Hs' : s = le_bytes 4 v /\ 0 <= v < 256 ^ Z.of_nat 4).
      { unfold to_bytes in Hs.
        destruct ((0 <=? v) && (v <? 256 ^ Z.of_nat 4)) eqn:Hz; [|done].
        apply andb_true_iff in Hz as [Hz1 Hz2].
        apply Z.leb_le in Hz1. apply Z.ltb_lt in Hz2.
        split; [congruence|done]. }
      destruct Hs' as [-> Hz]. clear Hs.
      exists (w2 ++ [x01; xfb] ++ x04 :: le_bytes 4 v).
      split; [by rewrite <- !app_assoc|].
      apply (segments_upto_snoc _ _ 2 _ _
               (fun g => mkGlobalLocals (g_tx g) v (g_hd_keypaths g)
                           (g_proprietary g) (g_unknown g)) _ _ A2).
      apply (segment_tagged _ _ 2 xfb (le_bytes 4 v)); [done|done|].
      unfold dec. dispatch_g.
      assert ((len (le_bytes 4 v) =? 4) = true) as ->.
      { unfold len. by rewrite length_le_bytes. }
      cbn [py_assert mbind result_bind]. by rewrite from_le_le_bytes. }
  destruct A3 as (w3 & -> & A3).
  clear A2 H3.
  (* proprietary *)
  apply bind_Ok_inv in Hser as (o4 & H4 & Hser).
  assert (A4 : exists w4, o4 = out ++ w4 /\
                 segments_upto dec rank_global 4 w4 g0
                   (mkGlobalLocals (Some tx) v hd prop [])).
  { destruct (proprietary_segment dec rank_global 3
                g_proprietary g_set_proprietary prop (out ++ w3) o4)
      as (w4 & -> & Hseg); try done.
    exists (w3 ++ w4). split; [by rewrite <- !app_assoc|].
    pose proof (segments_upto_snoc _ _ 3 _ _ _ _ _ A3 Hseg) as A4.
    cbn in A4. rewrite (prop_fold_entries prop []) in A4; try done.
    eapply Forall_impl; [exact Hpr2|]. by intros oi (_ & ? & ? & _). }
  destruct A4 as (w4 & -> & A4).
  clear A3 H4 Hpr1 Hpr2.
  (* unknown *)
  destruct (unknown_segment dec rank_global 4
              g_unknown g_set_unknown unk (out ++ w4) out')
    as (w5 & -> & Hseg); try done.
  - intros r [|b k] value Hk Hr; [done|].
    apply rank_global_unknown in Hr as (?&?&?&?).
    unfold dec. by dispatch_g.
  - exists (w4 ++ w5). split; [done|]. split; [by rewrite <- !app_assoc|].
    pose proof (segments_upto_snoc _ _ 4 _ _ _ _ _ A4 Hseg) as A5.
    cbn in A5. by rewrite dict_update_nil_l in A5.
Qed.

End GlobalCodec.

(** *** Containers *)

(** Records written one after the other, each followed by the separator,
    are read back one after the other. *)
Lemma records_read {A} (ser : A -> result bytes)
  (read : bytes -> result (A * bytes)) (ok : A -> Prop) :
  (forall r w rest, ok r -> ser r = Ok w ->
     read (w ++ x00 :: rest) = Ok (r, rest)) ->
  forall rs out out', Forall ok rs ->
  foldM (fun out r => s ← ser r; Ok (out ++ s ++ [x00])) rs out = Ok out' ->
  exists w, out' = out ++ w /\
    forall rest, read_n read (length rs) (w ++ rest) = Ok (rs, rest).
Proof.
  intros Hread. induction rs as [|r rs IH]; intros out out' Hok Hser.
  - injection Hser as <-. exists []. by rewrite app_nil_r.
  - apply Forall_cons in Hok as [Hr Hok]. cbn [foldM] in Hser.
    apply bind_Ok_inv in Hser as (o1 & H1 & Hser).
    apply bind_Ok_inv in H1 as (s & Hs & H1). injection H1 as <-.
    destruct (IH _ _ Hok Hser) as (w & -> & Hw).
    exists ((s ++ [x00]) ++ w). split; [by rewrite <- !app_assoc|].
    intros rest. cbn [length read_n].
    rewrite <- !app_assoc. cbn [app].
    rewrite (Hread r s (w ++ rest) Hr Hs). cbn [mbind result_bind].
    by rewrite Hw.
Qed.

Section ContainerCodec.
Context `{Collaborators}.

(** [Psbt.serialize] writes the magic bytes, the global map and the
    records. *)
Lemma Psbt_serialize_bytes_globals p :
  Psbt_serialize_bytes p =
    (out ← serialize_globals p magic;
     out ← foldM (fun out input_map =>
                    s ← PsbtInput_serialize input_map; Ok (out ++ s ++ [x00]))
             (Psbt.inputs p) (out ++ [x00]);
     foldM (fun out output_map =>
              s ← PsbtOutput_serialize output_map; Ok (out ++ s ++ [x00]))
       (Psbt.outputs p) out).
Proof.
  unfold Psbt_serialize_bytes, serialize_globals.
  destruct (Tx_serialize _ _ _); [|done]. cbn [mbind result_bind].
  destruct (varint.encode _); [|done]. cbn [mbind result_bind].
  destruct (serialize_hd_keypaths _ _ _); [|done]. cbn [mbind result_bind].
  match goal with
  | |- context [if ?c then _ else _] => destruct c
  end.
  - destruct (to_bytes _ _); [|done]. cbn [mbind result_bind].
    destruct (serialize_proprietary _ _); [|done]. cbn [mbind result_bind].
    destruct (serialize_unknown _ _); [|done]. cbn [mbind result_bind].
    destruct (foldM _ (Psbt.inputs p) _); [|done]. cbn [mbind result_bind].
    by destruct (foldM _ (Psbt.outputs p) _).
  - cbn [mbind result_bind].
    destruct (serialize_proprietary _ _); [|done]. cbn [mbind result_bind].
    destruct (serialize_unknown _ _); [|done]. cbn [mbind result_bind].
    destruct (foldM _ (Psbt.inputs p) _); [|done]. cbn [mbind result_bind].
    by destruct (foldM _ (Psbt.outputs p) _).
Qed.

(** The base64 codec gives back the bytes of the container. *)
Definition base64_ok (p : Psbt) : Prop :=
  match Psbt_serialize_bytes p with
  | Ok out => b64decode (b64encode out) = Ok out
  | Raise _ => True
  end.

(** The containers in the form [Psbt.deserialize] returns them in: every
    attribute in the form the decoder writes, one record per input and
    per output of the transaction, and valid. *)
Definition Psbt_canonical (p : Psbt) : Prop :=
  globals_canonical p /\
  length (Psbt.inputs p) = length (Tx.vin (Psbt.tx p)) /\
  length (Psbt.outputs p) = length (Tx.vout (Psbt.tx p)) /\
  Forall PsbtInput_canonical (Psbt.inputs p) /\
  Forall PsbtOutput_canonical (Psbt.outputs p) /\
  Psbt_assert_valid p = Ok tt /\
  base64_ok p.

(** C1, for containers in canonical form. Deserializing the string that
    [Psbt.serialize] returns for a container in canonical form returns
    that container: the transaction, every record, the version, the key
    paths and the [proprietary] and [unknown] dictionaries with their
    entries in their order. The canonical form is [Psbt_canonical]: the
    validator accepts the container; it has one record per input and
    per output; the version and every [sighash] are set; a commitment is
    absent or not empty; every hexadecimal string is in the form [hex]
    writes; the public keys, fingerprints and paths have the lengths the
    decoders ask for; no public key occurs twice in one list of key
    paths (the key paths are written as map entries under their public
    key, and [deserialize_map] rejects a key it has read); no dictionary
    has a key twice; a [proprietary] owner is below [2 ^ 64] and has an
    entry; an [unknown] key is not empty and starts with no known tag;
    and the codecs of the transaction, the UTXOs, the scripts, the
    witnesses and base64 read back what they write. *)
Theorem canonical_round_trip (p : Psbt) (s : string) :
  Psbt_canonical p ->
  Psbt_serialize p = Ok s ->
  Psbt_deserialize s = Ok p.
Proof.
  intros (Hg & Hli & Hlo & Hi & Ho & Hvalid & Hb64) Hser.
  unfold Psbt_serialize in Hser.
  apply bind_Ok_inv in Hser as (out & Hout & Hser). injection Hser as <-.
  unfold base64_ok in Hb64. rewrite Hout in Hb64.
  rewrite Psbt_serialize_bytes_globals in Hout.
  apply bind_Ok_inv in Hout as (o1 & H1 & Hout).
  apply bind_Ok_inv in Hout as (o2 & H2 & H3).
  destruct (serialize_globals_segments p magic o1 Hg H1)
    as (v & gw & Hv & -> & Hseg).
  destruct (records_read PsbtInput_serialize read_input PsbtInput_canonical
              read_input_serialize _ _ _ Hi H2) as (wi & -> & Hri).
  destruct (records_read PsbtOutput_serialize read_output PsbtOutput_canonical
              read_output_serialize _ _ _ Ho H3) as (wo & -> & Hro).
  destruct (segments_upto_read _ _ _ _ _ _ (wi ++ wo) Hseg) as (m & Hm & Hd).
  unfold Psbt_deserialize. rewrite Hb64. cbn [mbind result_bind].
  replace ((((magic ++ gw) ++ [x00]) ++ wi) ++ wo)
    with (magic ++ gw ++ x00 :: wi ++ wo) by by rewrite <- !app_assoc.
  change (slice_to 5 (magic ++ gw ++ x00 :: wi ++ wo)) with magic.
  change (slice_from 5 (magic ++ gw ++ x00 :: wi ++ wo))
    with (gw ++ x00 :: wi ++ wo).
  rewrite bool_decide_eq_true_2 by done. cbn [py_assert mbind result_bind].
  rewrite Hm. cbn [mbind result_bind]. rewrite Hd.
  cbn [mbind result_bind g_tx read_local].
  rewrite <- Hli, Hri. cbn [mbind result_bind].
  rewrite <- Hlo. rewrite <- (app_nil_r wo), Hro. cbn [mbind result_bind].
  cbn [g_version g_hd_keypaths g_proprietary g_unknown].
  replace (Psbt.mk _ _ _ _ _ _ _) with p by (destruct p; simpl in *; by subst).
  by rewrite Hvalid.
Qed.

End ContainerCodec.

(** *** The combiner on a list of one container *)

(** [combine_psbts] on a list of one container computes the transaction
    id, skips the loop [for psbt in psbts[1:]] and then reads the loop
    variable [psbt], which was never bound: it raises
    [UnboundLocalError] and leaves the store as it was. *)
Theorem combine_single_container_raises `{Collaborators}
  (s : store) (p : loc) (v : Psbt) :
  load s p = Some v ->
  is_ok (Tx_txid (Psbt.tx v)) = true ->
  combine_psbts [p] s = (Raise UnboundLocalError, s).
Proof.
  intros Hload Htx.
  apply load_Some in Hload as (P & HP & HT & _).
  destruct (Tx_txid (Psbt.tx v)) as [t|] eqn:Et; [|done].
  unfold combine_psbts.
  change (py_index [p] 0) with (Ok p).
  change (slice_from 1 [p]) with (@nil loc).
  cbn [last read_local forM_]. msimpl.
  rewrite (deref_Some psbts p P s HP). msimpl.
  rewrite (deref_Some txs _ _ s HT). msimpl. rewrite Et. by msimpl.
Qed.


(** *** More of the codec *)

(** **** The records on their own *)

Section RecordCodec.
Context `{Collaborators}.

(** An input record in canonical form, written by [PsbtInput.serialize]
    and followed by the separator, is cut off whatever follows by
    [deserialize_map], and [PsbtInput.decode] makes the record of the
    map. *)
Theorem PsbtInput_decode_serialize (r : PsbtInput) (w rest : bytes) :
  PsbtInput_canonical r ->
  PsbtInput_serialize r = Ok w ->
  exists input_map,
    deserialize_map (w ++ x00 :: rest) = Ok (input_map, rest) /\
    PsbtInput_decode input_map = Ok r.
Proof.
  intros Hc Hs.
  destruct (segments_upto_read _ _ _ _ _ _ rest
              (PsbtInput_serialize_segments r w Hc Hs)) as (m & Hm & Hd).
  exists m. split; [done|]. unfold PsbtInput_decode.
  change (PsbtInput.mk None None [] (Some 0) [] [] [] [] [] None [] [])
    with PsbtInput.default.
  by rewrite Hd.
Qed.

(** The same for output records. *)
Theorem PsbtOutput_decode_serialize (r : PsbtOutput) (w rest : bytes) :
  PsbtOutput_canonical r ->
  PsbtOutput_serialize r = Ok w ->
  exists output_map,
    deserialize_map (w ++ x00 :: rest) = Ok (output_map, rest) /\
    PsbtOutput_decode output_map = Ok r.
Proof.
  intros Hc Hs.
  destruct (segments_upto_read _ _ _ _ _ _ rest
              (PsbtOutput_serialize_segments r w Hc Hs)) as (m & Hm & Hd).
  exists m. split; [done|]. unfold PsbtOutput_decode.
  change (PsbtOutput.mk [] [] [] [] []) with PsbtOutput.default.
  by rewrite Hd.
Qed.

End RecordCodec.

(** **** Buffers that end early *)

(** A buffer that holds the entries of a map and ends without the
    separator: [deserialize_map] reads the entries and then indexes the
    empty buffer ([data[0]]), which raises [IndexError]; no map is
    returned. *)
Theorem deserialize_map_unterminated (es : list (bytes * bytes)) (w : bytes) :
  es <> [] ->
  Forall (fun kv => fst kv <> []) es ->
  NoDup es.*1 ->
  map_wire es = Ok w ->
  deserialize_map w = Raise IndexError.
Proof.
  intros Hes Hne Hnd Hw. unfold deserialize_map.
  pose proof (map_wire_length _ _ Hw) as Hl.
  assert ((len w =? 0) = false) as ->.
  { apply Z.eqb_neq. unfold len. destruct es; [done|]. simpl in Hl. lia. }
  cbn [negb py_assert mbind result_bind].
  rewrite <- (app_nil_r w) at 2.
  rewrite (deserialize_map_loop_wire es _ w); [|done|done|lia].
  rewrite (insert_all_nodup es []) by done.
  replace (S (length w) - length es)%nat
    with (S (length w - length es))%nat by lia.
  reflexivity.
Qed.

(** **** A container without its transaction *)

Section WithoutTx.
Context `{Collaborators}.

Lemma Psbt_deserialize_entry_keeps_tx g kv g' :
  head kv.1 <> Some x00 ->
  Psbt_deserialize_entry g kv = Ok g' -> g_tx g' = g_tx g.
Proof.
  destruct kv as [[|b k] v]; [done|]. cbn [fst head]. intros Hb.
  assert (b <> x00) as Hb' by congruence.
  unfold Psbt_deserialize_entry. rewrite py_index_cons_0.
  cbn [mbind result_bind]. rewrite decide_False by done.
  repeat case_decide.
  - intros (_ & _ & E)%bind_Ok_inv. apply bind_Ok_inv in E as (_ & _ & E).
    by injection E as <-.
  - intros (_ & _ & E)%bind_Ok_inv. by injection E as <-.
  - intros (p & _ & E)%bind_Ok_inv. by injection E as <-.
  - intros E. by injection E as <-.
Qed.

Lemma Psbt_deserialize_entries_keep_tx es : forall g g',
  Forall (fun kv => head kv.1 <> Some x00) es ->
  foldM Psbt_deserialize_entry es g = Ok g' -> g_tx g' = g_tx g.
Proof.
  induction es as [|kv es IH]; intros g g' Hes Hf.
  - by injection Hf as <-.
  - apply Forall_cons in Hes as [Hkv Hes]. cbn [foldM] in Hf.
    apply bind_Ok_inv in Hf as (g1 & H1 & Hf).
    rewrite (IH _ _ Hes Hf). by eapply Psbt_deserialize_entry_keeps_tx.
Qed.

(** [Psbt.deserialize] binds its local [tx] only at the global entry of
    key [00]. On a blob whose global map has no such entry it reads [tx]
    unbound: when every global entry is accepted it raises
    [UnboundLocalError], whatever records follow; otherwise it raises
    what the first rejected entry raises. *)
Theorem Psbt_deserialize_without_tx
  (s : string) (es : list (bytes * bytes)) (w rest : bytes) :
  b64decode s = Ok (magic ++ w ++ x00 :: rest) ->
  map_wire es = Ok w ->
  Forall (fun kv => fst kv <> []) es ->
  NoDup es.*1 ->
  Forall (fun kv => head kv.1 <> Some x00) es ->
  Psbt_deserialize s =
    match foldM Psbt_deserialize_entry es (mkGlobalLocals None 0 [] [] []) with
    | Ok _ => Raise UnboundLocalError
    | Raise e => Raise e
    end.
Proof.
  intros Hs Hw Hne Hnd Hh. unfold Psbt_deserialize. rewrite Hs.
  cbn [mbind result_bind].
  change (slice_to 5 (magic ++ w ++ x00 :: rest)) with magic.
  change (slice_from 5 (magic ++ w ++ x00 :: rest)) with (w ++ x00 :: rest).
  rewrite bool_decide_eq_true_2 by done. cbn [py_assert mbind result_bind].
  rewrite (deserialize_map_wire es w rest Hne Hw).
  rewrite (insert_all_nodup es []) by done. cbn [app mbind result_bind].
  destruct (foldM _ es _) as [g|e] eqn:Hf; [|done].
  cbn [mbind result_bind].
  by rewrite (Psbt_deserialize_entries_keep_tx es _ g Hh Hf).
Qed.

End WithoutTx.

(** *** More of the validator *)

(** A loop over [enumerate(l)] that goes through has run its body on
    every element, at its index. *)
Lemma foldM_enumerate_Ok {A St} (f : St -> Z * A -> result St) (l : list A) :
  forall s0 s,
  foldM f (enumerate l) s0 = Ok s ->
  forall i x, l !! i = Some x ->
  exists s1 s2, f s1 (Z.of_nat i, x) = Ok s2.
Proof.
  unfold enumerate.
  assert (G : forall k s0 s,
    foldM f (imap (fun j x => (Z.of_nat (k + j), x)) l) s0 = Ok s ->
    forall i x, l !! i = Some x ->
    exists s1 s2, f s1 (Z.of_nat (k + i), x) = Ok s2).
  { induction l as [|y l IH]; intros k s0 s Hf i x Hi; [done|].
    cbn [imap foldM] in Hf. apply bind_Ok_inv in Hf as (s1 & H1 & Hf).
    destruct i as [|i].
    - injection Hi as <-. by exists s0, s1.
    - simpl in Hi.
      assert (E : imap ((fun j x => (Z.of_nat (k + j), x)) ∘ S) l =
                  imap (fun j x => (Z.of_nat (S k + j), x)) l).
      { apply imap_ext. intros j z _. simpl. do 2 f_equal. lia. }
      rewrite E in Hf.
      destruct (IH (S k) s1 s Hf i x Hi) as (a & b & Hab).
      exists a, b. replace (k + S i)%nat with (S k + i)%nat by lia. done. }
  intros s0 s Hf i x Hi. exact (G 0%nat s0 s Hf i x Hi).
Qed.

Section ValidatorChecks.
Context `{Collaborators}.

(** The [scriptPubKey] of the UTXO an input record holds for the input
    [tx_in], when it holds one. *)
Definition utxo_script (r : PsbtInput) (tx_in : TxIn)
  : option (list Token) :=
  match PsbtInput.non_witness_utxo r with
  | Some utxo =>
      match py_index (Tx.vout utxo) (OutPoint.n (TxIn.prevout tx_in)) with
      | Ok o => Some (TxOut.scriptPubKey o)
      | Raise _ => None
      end
  | None =>
      match PsbtInput.witness_utxo r with
      | Some utxo => Some (TxOut.scriptPubKey utxo)
      | None => None
      end
  end.

(** [h] is the hash, under [hash], of the encoding of [script], and the
    payload of [scriptPubKey]. *)
Definition pays_to (hash : bytes -> bytes) (script scriptPubKey : list Token)
  : Prop :=
  exists e p,
    script_encode script = Ok e /\
    payload_from_scriptPubKey scriptPubKey = Ok p /\
    hash e = p.2.

(** What [Psbt.assert_valid] has checked of an input and its record. *)
Definition input_checked (r : PsbtInput) (tx_in : TxIn) : Prop :=
  (forall utxo, PsbtInput.non_witness_utxo r = Some utxo ->
     Tx_txid utxo = Ok (OutPoint.hash (TxIn.prevout tx_in)) /\
     is_Some (utxo_script r tx_in)) /\
  (PsbtInput.redeem_script r <> [] ->
   forall s, utxo_script r tx_in = Some s ->
     pays_to hash160 (PsbtInput.redeem_script r) s) /\
  (PsbtInput.witness_script r <> [] ->
   if nonempty (PsbtInput.redeem_script r)
   then pays_to sha256 (PsbtInput.witness_script r) (PsbtInput.redeem_script r)
   else forall s, utxo_script r tx_in = Some s ->
          pays_to sha256 (PsbtInput.witness_script r) s).

Lemma nonempty_true {A} (l : list A) : nonempty l = true <-> l <> [].
Proof. by destruct l. Qed.

Lemma Psbt_assert_valid_input_checked psbt spk i tx_in r spk' :
  Psbt.inputs psbt !! i = Some r ->
  Psbt_assert_valid_input psbt spk (Z.of_nat i, tx_in) = Ok spk' ->
  input_checked r tx_in.
Proof.
  intros Hr. unfold Psbt_assert_valid_input.
  rewrite (py_index_nat _ _ _ Hr). cbn [mbind result_bind].
  intros (s1 & H1 & E)%bind_Ok_inv.
  apply bind_Ok_inv in E as ([] & H2 & H3).
  unfold input_checked, utxo_script.
  destruct (PsbtInput.non_witness_utxo r) as [utxo|].
  - apply bind_Ok_inv in H1 as (t & Ht & H1).
    apply bind_Ok_inv in H1 as ([] & Ha & H1).
    apply bind_Ok_inv in H1 as (s & Hs & H1). injection H1 as <-.
    unfold utxo_scriptPubKey in Hs, H3.
    apply bind_Ok_inv in Hs as (o & Ho & Hs). injection Hs as <-.
    rewrite Ho in *. cbn [mbind result_bind] in H3.
    unfold py_assert in Ha. case_bool_decide as Et; [|done]. subst t.
    split; [intros u [= <-]; split; [done|by eexists]|].
    split.
    + intros Hrs%nonempty_true s [= <-]. rewrite Hrs in H2.
      apply bind_Ok_inv in H2 as (e & He & H2). cbn [read_local] in H2.
      cbn [mbind result_bind] in H2.
      apply bind_Ok_inv in H2 as (p & Hp & H2).
      unfold py_assert in H2. case_bool_decide; [|done]. by exists e, p.
    + intros Hws%nonempty_true. rewrite Hws in H3.
      destruct (nonempty (PsbtInput.redeem_script r)).
      * apply bind_Ok_inv in H3 as (e & He & H3). cbn [read_local] in H3.
        cbn [mbind result_bind] in H3.
        apply bind_Ok_inv in H3 as (p & Hp & H3).
        apply bind_Ok_inv in H3 as ([] & H3 & _).
        unfold py_assert in H3. case_bool_decide; [|done]. by exists e, p.
      * intros s [= <-].
        apply bind_Ok_inv in H3 as (e & He & H3). cbn [read_local] in H3.
        cbn [mbind result_bind] in H3.
        apply bind_Ok_inv in H3 as (p & Hp & H3).
        apply bind_Ok_inv in H3 as ([] & H3 & _).
        unfold py_assert in H3. case_bool_decide; [|done]. by exists e, p.
  - split; [done|].
    destruct (PsbtInput.witness_utxo r) as [utxo|].
    + injection H1 as <-. cbn [mbind result_bind] in H3. split.
      * intros Hrs%nonempty_true s [= <-]. rewrite Hrs in H2.
        apply bind_Ok_inv in H2 as (e & He & H2). cbn [read_local] in H2.
        cbn [mbind result_bind] in H2.
        apply bind_Ok_inv in H2 as (p & Hp & H2).
        unfold py_assert in H2. case_bool_decide; [|done]. by exists e, p.
      * intros Hws%nonempty_true. rewrite Hws in H3.
        destruct (nonempty (PsbtInput.redeem_script r)).
        -- apply bind_Ok_inv in H3 as (e & He & H3). cbn [read_local] in H3.
           cbn [mbind result_bind] in H3.
           apply bind_Ok_inv in H3 as (p & Hp & H3).
           apply bind_Ok_inv in H3 as ([] & H3 & _).
           unfold py_assert in H3. case_bool_decide; [|done]. by exists e, p.
        -- intros s [= <-].
           apply bind_Ok_inv in H3 as (e & He & H3). cbn [read_local] in H3.
           cbn [mbind result_bind] in H3.
           apply bind_Ok_inv in H3 as (p & Hp & H3).
           apply bind_Ok_inv in H3 as ([] & H3 & _).
           unfold py_assert in H3. case_bool_decide; [|done]. by exists e, p.
    + injection H1 as <-. cbn [mbind result_bind] in H3.
      split; [done|].
      intros Hws%nonempty_true. rewrite Hws in H3.
      destruct (nonempty (PsbtInput.redeem_script r)); [|done].
      apply bind_Ok_inv in H3 as (e & He & H3). cbn [read_local] in H3.
      cbn [mbind result_bind] in H3.
      apply bind_Ok_inv in H3 as (p & Hp & H3).
      apply bind_Ok_inv in H3 as ([] & H3 & _).
      unfold py_assert in H3. case_bool_decide; [|done]. by exists e, p.
Qed.

(** What acceptance by [Psbt.assert_valid] means for an input that has a
    record: a [non_witness_utxo] has the transaction id the input spends
    and an output at the index it spends; a redeem script hashes
    ([hash160]) to the payload of the UTXO's [scriptPubKey]; a witness
    script hashes ([sha256]) to the payload of the redeem script when
    there is one, and of the UTXO's [scriptPubKey] otherwise. *)
Theorem Psbt_assert_valid_sound (psbt : Psbt) (i : nat) (tx_in : TxIn)
  (r : PsbtInput) :
  Psbt_assert_valid psbt = Ok tt ->
  Tx.vin (Psbt.tx psbt) !! i = Some tx_in ->
  Psbt.inputs psbt !! i = Some r ->
  input_checked r tx_in.
Proof.
  unfold Psbt_assert_valid. intros E Hi Hr.
  apply bind_Ok_inv in E as (_ & _ & E).
  apply bind_Ok_inv in E as (_ & _ & E).
  apply bind_Ok_inv in E as (_ & _ & E).
  apply bind_Ok_inv in E as (spk & E & _).
  destruct (foldM_enumerate_Ok _ _ _ _ E i tx_in Hi) as (s1 & s2 & Hstep).
  by eapply Psbt_assert_valid_input_checked.
Qed.

End ValidatorChecks.

Section ValidatorStale.
Context `{Collaborators}.

Lemma PsbtInput_asserts_Ok (l : list PsbtInput) :
  foldM (fun _ input_map => PsbtInput_assert_valid input_map) l tt = Ok tt.
Proof. by induction l. Qed.

Lemma PsbtOutput_asserts_Ok (l : list PsbtOutput) :
  foldM (fun _ output_map => PsbtOutput_assert_valid output_map) l tt = Ok tt.
Proof. by induction l. Qed.

(** The local [scriptPubKey] of [Psbt.assert_valid] is not reset between
    inputs. In a container of two inputs whose first record holds a
    [witness_utxo] and no script, and whose second record holds no UTXO
    and a redeem script, the second record's redeem script is checked
    against the [scriptPubKey] of the first record's UTXO: the container
    is accepted exactly when the script hashes to its payload. *)
Theorem Psbt_assert_valid_stale_scriptPubKey (psbt : Psbt)
  (in0 in1 : TxIn) (r0 r1 : PsbtInput) (u0 : TxOut) :
  Tx.vin (Psbt.tx psbt) = [in0; in1] ->
  Psbt.inputs psbt = [r0; r1] ->
  skeleton_empty in0 -> skeleton_empty in1 ->
  PsbtInput.non_witness_utxo r0 = None ->
  PsbtInput.witness_utxo r0 = Some u0 ->
  PsbtInput.redeem_script r0 = [] ->
  PsbtInput.witness_script r0 = [] ->
  PsbtInput.non_witness_utxo r1 = None ->
  PsbtInput.witness_utxo r1 = None ->
  PsbtInput.redeem_script r1 <> [] ->
  PsbtInput.witness_script r1 = [] ->
  Psbt_assert_valid psbt = Ok tt <->
  pays_to hash160 (PsbtInput.redeem_script r1) (TxOut.scriptPubKey u0).
Proof.
  intros Hvin Hin [Hs0 Hw0] [Hs1 Hw1] Hn0 Hu0 Hr0 Hws0 Hn1 Hu1 Hr1 Hws1.
  unfold Psbt_assert_valid. rewrite Hvin, PsbtInput_asserts_Ok,
    PsbtOutput_asserts_Ok.
  change (enumerate [in0; in1]) with [(0, in0); (1, in1)].
  cbn [foldM mbind result_bind].
  rewrite Hs0, Hw0, Hs1, Hw1.
  rewrite !bool_decide_eq_true_2 by done.
  cbn [py_assert mbind result_bind].
  unfold Psbt_assert_valid_input. rewrite Hin.
  change (py_index [r0; r1] 0) with (Ok r0).
  change (py_index [r0; r1] 1) with (Ok r1).
  cbn [mbind result_bind].
  rewrite Hn0, Hu0, Hr0, Hws0. cbn [nonempty mbind result_bind].
  rewrite Hn1, Hu1, Hws1. cbn [nonempty mbind result_bind].
  apply nonempty_true in Hr1. rewrite Hr1. cbn [read_local].
  unfold pays_to. split.
  - intros E.
    destruct (script_encode (PsbtInput.redeem_script r1)) as [e|]; [|done].
    cbn [mbind result_bind] in E.
    destruct (payload_from_scriptPubKey (TxOut.scriptPubKey u0)) as [p|];
      [|done].
    cbn [mbind result_bind] in E. unfold py_assert in E.
    case_bool_decide; [|done]. by exists e, p.
  - intros (e & p & -> & Hp & Hh). cbn [mbind result_bind]. rewrite Hp.
    cbn [mbind result_bind]. by rewrite bool_decide_eq_true_2.
Qed.

End ValidatorStale.

(** *** [psbt_from_tx] *)

(** An input with its unlocking data cleared, a transaction with the
    unlocking data of every input cleared, and the container
    [psbt_from_tx] makes for a transaction. *)
Definition strip_vin (vin : TxIn) : TxIn :=
  set_txinwitness [] (set_scriptSig [] vin).

Definition stripped (T : Tx) : Tx := set_vin (map strip_vin (Tx.vin T)) T.

Definition fresh_psbt (T : Tx) : Psbt :=
  Psbt.mk (stripped T)
    (replicate (length (Tx.vin T)) PsbtInput.default)
    (replicate (length (Tx.vout T)) PsbtOutput.default)
    (Some 0) [] [] [].

(** The loop of [psbt_from_tx] over the inputs from index [length done]
    on. *)
Lemma strip_loop t : forall es rest done s T,
  txs s !! t = Some T ->
  Tx.vin T = done ++ rest ->
  length es = length rest ->
  forM_ (fun '(i, _) =>
           update_vin t i (set_scriptSig []);;
           update_vin t i (set_txinwitness []))
    (imap (fun i (x : TxIn) => (Z.of_nat (length done + i), x)) es) s =
    (Ok tt,
     set_txs (<[t := set_vin (done ++ map strip_vin rest) T]> (txs s)) s).
Proof.
  induction es as [|e es IH]; intros rest done s T HT Hvin Hlen.
  - destruct rest; [|done]. simpl. rewrite M_ret_run.
    rewrite app_nil_r in *. rewrite <- Hvin.
    replace (set_vin (Tx.vin T) T) with T by by destruct T.
    rewrite list_insert_id by done. by destruct s.
  - destruct rest as [|vin rest]; [done|]. simpl in Hlen.
    cbn [imap forM_]. msimpl.
    assert (Hk : Tx.vin T !! length done = Some vin).
    { rewrite Hvin. by rewrite lookup_app_r, Nat.sub_diag. }
    rewrite Nat.add_0_r.
    rewrite (update_vin_run s t T _ vin _ HT Hk). msimpl.
    set (T0 := set_vin _ T). set (s0 := set_txs _ s).
    assert (HT0 : txs s0 !! t = Some T0).
    { unfold s0. simpl. apply list_lookup_insert_eq. by eapply lookup_lt_Some. }
    assert (Hk0 : Tx.vin T0 !! length done = Some (set_scriptSig [] vin)).
    { unfold T0. simpl. apply list_lookup_insert_eq. by eapply lookup_lt_Some. }
    rewrite (update_vin_run s0 t T0 _ _ _ HT0 Hk0). msimpl.
    set (T1 := set_vin _ T0). set (s1 := set_txs _ s0).
    assert (HT1 : txs s1 !! t = Some T1).
    { unfold s1. simpl. apply list_lookup_insert_eq.
      rewrite length_insert. by eapply lookup_lt_Some. }
    assert (Hvin1 : Tx.vin T1 = (done ++ [strip_vin vin]) ++ rest).
    { unfold T1, T0. simpl. rewrite list_insert_insert_eq, Hvin.
      rewrite insert_app_r_alt by lia. rewrite Nat.sub_diag. simpl.
      by rewrite <- app_assoc. }
    erewrite (imap_ext _ (fun i x => (Z.of_nat (length (done ++ [strip_vin vin]) + i), x))).
    2:{ intros i x _. simpl. rewrite length_app. simpl. f_equal. lia. }
    rewrite (IH rest (done ++ [strip_vin vin]) s1 T1); try done; [|lia].
    unfold s1, T1, s0, T0. simpl. unfold set_txs, set_vin. simpl.
    rewrite !list_insert_insert_eq. by rewrite <- app_assoc.
Qed.

(** [[alloc(x) for _ in l]] *)
Lemma alloc_loop {A B} (hp : store -> list A) set_hp `{!HeapLaws hp set_hp}
  (x : A) (l : list B) : forall s,
  forM (fun _ => alloc hp set_hp x) l s =
    (Ok (seq (length (hp s)) (length l)),
     set_hp (hp s ++ replicate (length l) x) s).
Proof.
  induction l as [|b l IH]; intros s.
  - simpl. by rewrite M_ret_run, app_nil_r, set_get.
  - cbn [forM]. msimpl. rewrite alloc_run. msimpl. rewrite IH. msimpl.
    rewrite hp_set, set_set, <- app_assoc, length_app. simpl.
    by rewrite Nat.add_1_r.
Qed.

(** What is in the store stays what it is when the heaps grow. *)
Lemma load_extend s q v ta ia oa pa :
  load s q = Some v ->
  load (mkStore (txs s ++ ta) (ins s ++ ia) (outs s ++ oa) (psbts s ++ pa)) q
    = Some v.
Proof.
  intros (P & HP & HT & Hi & Ho & Hrest)%load_Some. apply load_Some.
  exists P. simpl. repeat split; try tauto.
  - by apply lookup_app_l_Some.
  - by apply lookup_app_l_Some.
  - eapply Forall2_impl; [exact Hi|]. intros. by apply lookup_app_l_Some.
  - eapply Forall2_impl; [exact Ho|]. intros. by apply lookup_app_l_Some.
Qed.

Section FromTx.
Context `{Collaborators}.

Lemma psbt_from_tx_run s t T :
  txs s !! t = Some T ->
  psbt_from_tx t s =
    (Ok (length (psbts s)),
     mkStore (txs s ++ [stripped T])
       (ins s ++ replicate (length (Tx.vin T)) PsbtInput.default)
       (outs s ++ replicate (length (Tx.vout T)) PsbtOutput.default)
       (psbts s ++ [PsbtObj.mk (length (txs s))
                      (seq (length (ins s)) (length (Tx.vin T)))
                      (seq (length (outs s)) (length (Tx.vout T)))
                      (Some 0) [] [] []])).
Proof.
  intros HT. unfold psbt_from_tx. msimpl.
  rewrite (deref_Some txs t T s HT). msimpl. rewrite alloc_run. msimpl.
  set (s1 := set_txs (txs s ++ [T]) s).
  assert (HT1 : txs s1 !! length (txs s) = Some T).
  { unfold s1. simpl. by rewrite lookup_app_r, Nat.sub_diag. }
  rewrite (deref_Some txs _ T s1 HT1). msimpl.
  change (forM_ ?f (enumerate ?l)) with
    (forM_ f (imap (fun i x => (Z.of_nat (length (@nil TxIn) + i), x)) l)).
  rewrite (strip_loop (length (txs s)) (Tx.vin T) (Tx.vin T) [] s1 T);
    try done.
  msimpl. simpl app.
  set (s2 := set_txs _ s1).
  assert (HT2 : txs s2 !! length (txs s) = Some (stripped T)).
  { unfold s2, s1. simpl. apply list_lookup_insert_eq.
    rewrite length_app. simpl. lia. }
  rewrite (deref_Some txs _ _ s2 HT2). msimpl.
  rewrite (alloc_loop ins set_ins). msimpl.
  rewrite (deref_Some txs _ (stripped T)) by done. msimpl.
  rewrite (alloc_loop outs set_outs). msimpl. rewrite alloc_run.
  unfold s2, s1, stripped. simpl. rewrite length_map.
  do 2 f_equal. unfold set_txs, set_ins, set_outs, set_psbts. simpl.
  f_equal.
  rewrite insert_app_r_alt by lia. by rewrite Nat.sub_diag.
Qed.

(** The validator has nothing to check in a container [psbt_from_tx]
    makes: there is no unlocking data, no UTXO and no script. *)
Lemma fresh_psbt_valid T : Psbt_assert_valid (fresh_psbt T) = Ok tt.
Proof.
  unfold Psbt_assert_valid.
  assert (E1 : foldM (fun _ vin =>
                 py_assert (bool_decide (TxIn.scriptSig vin = [])) "";;
                 py_assert (bool_decide (TxIn.txinwitness vin = [])) "")
                (Tx.vin (Psbt.tx (fresh_psbt T))) tt = Ok tt).
  { simpl. induction (Tx.vin T) as [|v l IH]; [done|]. simpl. exact IH. }
  rewrite E1, PsbtInput_asserts_Ok, PsbtOutput_asserts_Ok.
  cbn [mbind result_bind].
  assert (E2 : forall l k (spk : option (list Token)),
    (k + length l <= length (Tx.vin T))%nat ->
    foldM (Psbt_assert_valid_input (fresh_psbt T))
      (imap (fun j x => (Z.of_nat (k + j), x)) l) spk = Ok spk).
  { induction l as [|x l IH]; intros k spk Hk; [done|].
    cbn [imap foldM].
    assert (Hskip : Psbt_assert_valid_input (fresh_psbt T) spk
                      (Z.of_nat (k + 0), x) = Ok spk).
    { unfold Psbt_assert_valid_input.
      rewrite (py_index_nat _ _ PsbtInput.default); [done|].
      simpl. apply lookup_replicate. split; [done|]. simpl in Hk. lia. }
    rewrite Hskip. cbn [mbind result_bind].
    erewrite (imap_ext _ (fun j x => (Z.of_nat (S k + j), x))).
    - apply IH. simpl in Hk. lia.
    - intros j y _. simpl. do 2 f_equal. lia. }
  change (foldM ?f (enumerate ?l) ?a) with
    (foldM f (imap (fun j x => (Z.of_nat (0 + j), x)) l) a).
  rewrite (E2 (Tx.vin (Psbt.tx (fresh_psbt T))) 0%nat None); [done|].
  simpl. by rewrite length_map.
Qed.

(** [psbt_from_tx] returns a new container, the one of the transaction
    with its unlocking data cleared and a default record for each of its
    inputs and outputs; the validator accepts it; and the transaction it
    is given and every container of the store are as they were. *)
Theorem psbt_from_tx_fresh (s : store) (t : loc) (T : Tx) :
  txs s !! t = Some T ->
  exists p s',
    psbt_from_tx t s = (Ok p, s') /\
    load s' p = Some (fresh_psbt T) /\
    Psbt_assert_valid (fresh_psbt T) = Ok tt /\
    txs s' !! t = Some T /\
    forall q v, load s q = Some v -> q <> p /\ load s' q = Some v.
Proof.
  intros HT. eexists _, _. split; [by apply psbt_from_tx_run|].
  split; [|split; [apply fresh_psbt_valid|split]].
  - apply load_Some. eexists. simpl. split.
    { by rewrite lookup_app_r, Nat.sub_diag. }
    simpl. split; [by rewrite lookup_app_r, Nat.sub_diag|].
    split; [|split; [|done]].
    + apply Forall2_same_length_lookup_2.
      { by rewrite length_seq, length_replicate. }
      intros i l r Hl [-> Hi]%lookup_replicate.
      apply lookup_seq in Hl as [-> _].
      rewrite lookup_app_r by lia.
      apply lookup_replicate. split; [done|lia].
    + apply Forall2_same_length_lookup_2.
      { by rewrite length_seq, length_replicate. }
      intros i l r Hl [-> Hi]%lookup_replicate.
      apply lookup_seq in Hl as [-> _].
      rewrite lookup_app_r by lia.
      apply lookup_replicate. split; [done|lia].
  - simpl. by apply lookup_app_l_Some.
  - intros q v Hq. split; [|by apply load_extend].
    apply load_Some in Hq as (P & HP & _). apply lookup_lt_Some in HP. lia.
Qed.

End FromTx.

(** *** [combine_psbts]: containers of different transactions *)

Section CombineMismatch.
Context `{Collaborators}.




End CombineMismatch.

(** *** [extract_tx]: fewer records than inputs, and extracting again *)

Lemma forM__app {A} (f : A -> M unit) (l1 l2 : list A) : forall s,
  forM_ f (l1 ++ l2) s =
    match forM_ f l1 s with
    | (Ok _, s') => forM_ f l2 s'
    | (Raise e, s') => (Raise e, s')
    end.
Proof.
  induction l1 as [|x l1 IH]; intros s; [done|].
  simpl. msimpl. destruct (f x s) as [[[]|e] s1]; [|done]. apply IH.
Qed.

(** The loop of [extract_tx] over the inputs [rest], which follow [done]
    and come before [tail]. *)
Lemma extract_loop_tail p t P rs tail : forall es rest done s T,
  psbts s !! p = Some P ->
  Forall2 (fun l r => ins s !! l = Some r) (PsbtObj.inputs P) rs ->
  txs s !! t = Some T ->
  Tx.vin T = done ++ rest ++ tail ->
  length es = length rest ->
  (length (done ++ rest) <= length rs)%nat ->
  forM_ (extract_step p t)
    (imap (fun i x => (Z.of_nat (length done + i), x)) es) s =
    (Ok tt,
     set_txs (<[t := set_vin (done ++ zip_with extract_vin rest
                                        (drop (length done) rs) ++ tail) T]>
                (txs s)) s).
Proof.
  induction es as [|e es IH]; intros rest done s T HP Hrs HT Hvin Hlen Hle.
  - destruct rest; [|done]. simpl. rewrite M_ret_run.
    simpl in Hvin. rewrite <- Hvin.
    replace (set_vin (Tx.vin T) T) with T by by destruct T.
    rewrite list_insert_id by done. by destruct s.
  - destruct rest as [|vin rest]; [done|]. simpl in Hlen.
    cbn [imap forM_]. msimpl.
    assert (Hk : Tx.vin T !! length done = Some vin).
    { rewrite Hvin. by rewrite lookup_app_r, Nat.sub_diag. }
    assert (exists r, rs !! length done = Some r) as [r Hr].
    { apply lookup_lt_is_Some. rewrite length_app in Hle. simpl in Hle. lia. }
    destruct (Forall2_lookup_r _ _ _ _ _ Hrs Hr) as (l & Hl & Hlr).
    rewrite Nat.add_0_r.
    rewrite (extract_step_run s p t P T _ l r vin e HP HT Hl Hlr Hk). msimpl.
    set (T1 := set_vin _ T). set (s1 := set_txs _ s).
    assert (HT1 : txs s1 !! t = Some T1).
    { unfold s1. simpl. apply list_lookup_insert_eq. by eapply lookup_lt_Some. }
    assert (Hvin1 : Tx.vin T1 = (done ++ [extract_vin vin r]) ++ rest ++ tail).
    { unfold T1. simpl. rewrite Hvin.
      rewrite insert_app_r_alt by lia. rewrite Nat.sub_diag. simpl.
      by rewrite <- app_assoc. }
    erewrite (imap_ext _ (fun i x => (Z.of_nat (length (done ++ [extract_vin vin r]) + i), x))).
    2:{ intros i x _. simpl. rewrite length_app. simpl. f_equal. lia. }
    rewrite (IH rest (done ++ [extract_vin vin r]) s1 T1); try done.
    + unfold s1, T1. simpl. unfold set_txs, set_vin. simpl.
      rewrite list_insert_insert_eq. rewrite length_app. simpl.
      rewrite (drop_S _ _ _ Hr). simpl. rewrite <- app_assoc. simpl.
      by rewrite Nat.add_1_r.
    + lia.
    + rewrite !length_app in *. simpl in *. lia.
Qed.

Lemma extract_vin_twice vin r :
  extract_vin (extract_vin vin r) r = extract_vin vin r.
Proof.
  unfold extract_vin.
  by destruct (nonempty (PsbtInput.final_script_witness r)).
Qed.

Section ExtractEdges.
Context `{Collaborators}.

(** [extract_tx] on a container with fewer input records than its
    transaction has inputs: it writes the scripts of the records there
    are into the first inputs of the transaction, then raises
    [IndexError] at the first input without a record; what it wrote
    stays written. *)
Theorem extract_tx_short_records_raises
  (s : store) (p : loc) (v : Psbt) :
  load s p = Some v ->
  (length (Psbt.inputs v) < length (Tx.vin (Psbt.tx v)))%nat ->
  exists s',
    extract_tx p s = (Raise IndexError, s') /\
    load s' p =
      Some (Psbt.set_tx
              (set_vin
                 (zip_with extract_vin (Tx.vin (Psbt.tx v)) (Psbt.inputs v) ++
                  drop (length (Psbt.inputs v)) (Tx.vin (Psbt.tx v)))
                 (Psbt.tx v)) v).
Proof.
  intros Hload Hlt.
  pose proof Hload as (P & HP & HT & Hi & Ho & Hrest)%load_Some.
  pose proof (Forall2_length _ _ _ Hi) as Hli.
  set (k := length (Psbt.inputs v)) in *.
  set (vin := Tx.vin (Psbt.tx v)) in *.
  destruct (drop k vin) as [|vk tl] eqn:Hdrop.
  { apply (f_equal length) in Hdrop. rewrite length_drop in Hdrop.
    simpl in Hdrop. lia. }
  assert (Hsplit : vin = take k vin ++ vk :: tl).
  { by rewrite <- Hdrop, take_drop. }
  assert (Hlk : length (take k vin) = k) by (rewrite length_take; lia).
  assert (Henum : enumerate vin =
            imap (fun i x => (Z.of_nat (length (@nil TxIn) + i), x)) (take k vin)
            ++ (Z.of_nat k, vk)
            :: imap (fun i x => (Z.of_nat (S k + i), x)) tl).
  { unfold enumerate. rewrite Hsplit at 1. rewrite imap_app. cbn [imap].
    rewrite Hlk, Nat.add_0_r. f_equal. f_equal.
    apply imap_ext. intros i x _. simpl. do 2 f_equal. lia. }
  unfold extract_tx. msimpl. rewrite (deref_Some psbts p P s HP). msimpl.
  rewrite (deref_Some txs _ _ s HT). msimpl.
  change (forM_ _ (enumerate ?l)) with
    (forM_ (extract_step p (PsbtObj.tx P)) (enumerate l)).
  fold vin. rewrite Henum, forM__app.
  rewrite (extract_loop_tail p (PsbtObj.tx P) P (Psbt.inputs v) (vk :: tl)
             (take k vin) (take k vin) [] s (Psbt.tx v)); try done;
    [|simpl; lia].
  cbn [forM_ app length drop]. msimpl.
  set (T' := set_vin _ (Psbt.tx v)). set (s1 := set_txs _ s).
  assert (HP1 : psbts s1 !! p = Some P) by done.
  unfold extract_step at 1. msimpl.
  rewrite (deref_Some psbts p P s1 HP1). msimpl.
  rewrite py_index_nat_None by (apply lookup_ge_None; lia). msimpl.
  eexists. split; [reflexivity|].
  apply load_Some. exists P. simpl. split; [done|].
  split; [|auto 10].
  replace (zip_with extract_vin vin (Psbt.inputs v))
    with (zip_with extract_vin (take k vin) (Psbt.inputs v)).
  { apply list_lookup_insert_eq. by eapply lookup_lt_Some. }
  rewrite Hsplit at 2. rewrite zip_with_app_l.
  rewrite Hlk. rewrite (take_ge (Psbt.inputs v)) by (unfold k; lia).
  rewrite (drop_ge (Psbt.inputs v)) by (unfold k; lia).
  by rewrite zip_with_nil_r, app_nil_r.
Qed.

(** Extracting twice is extracting once: the second [extract_tx] returns
    the same transaction object and writes into it what is there. *)
Theorem extract_tx_twice
  (s : store) (p : loc) (v : Psbt) (t : loc) (s' : store) :
  load s p = Some v ->
  (length (Tx.vin (Psbt.tx v)) <= length (Psbt.inputs v))%nat ->
  extract_tx p s = (Ok t, s') ->
  extract_tx p s' = (Ok t, s').
Proof.
  intros Hload Hle.
  pose proof Hload as (P & HP & HT & Hi & Ho & Hrest)%load_Some.
  rewrite (extract_tx_run s p P v HP Hload Hle).
  set (T' := set_vin _ (Psbt.tx v)). intros [= <- <-].
  set (s1 := set_txs (<[PsbtObj.tx P := T']> (txs s)) s).
  assert (HP1 : psbts s1 !! p = Some P) by done.
  assert (Hload' : load s1 p = Some (Psbt.set_tx T' v)).
  { apply load_Some. exists P. simpl. split; [done|]. split; [|auto 10].
    apply list_lookup_insert_eq. by eapply lookup_lt_Some. }
  rewrite (extract_tx_run s1 p P _ HP1 Hload').
  2:{ simpl. rewrite length_zip_with. lia. }
  unfold s1. simpl. f_equal. unfold set_txs. simpl. f_equal.
  rewrite list_insert_insert_eq. f_equal. unfold T', set_vin. simpl. f_equal.
  clear. generalize (Psbt.inputs v) as rs.
  induction (Tx.vin (Psbt.tx v)) as [|x l IH]; intros [|r rs]; try done.
  simpl. by rewrite extract_vin_twice, IH.
Qed.

End ExtractEdges.

(** *** Transactions ([tx.py]) *)

Section TxCodec.
Context `{Collaborators}.

(** **** Without witness data *)

(** The flag [witness_flag] after the loop over the inputs. *)
Lemma Tx_serialize_vin_flag vin : forall out0 wf0 out wf,
  foldM (fun '(out, witness_flag) tx_input =>
           s ← TxIn_serialize tx_input;
           Ok (out ++ s,
               if nonempty (TxIn.txinwitness tx_input)
               then true else witness_flag))
    vin (out0, wf0) = Ok (out, wf) ->
  wf = wf0 || existsb (fun i => nonempty (TxIn.txinwitness i)) vin.
Proof.
  induction vin as [|i vin IH]; intros out0 wf0 out wf E.
  - injection E as <- <-. by rewrite orb_false_r.
  - cbn [foldM] in E. apply bind_Ok_inv in E as ([o1 w1] & E1 & E).
    apply bind_Ok_inv in E1 as (u & _ & E1). injection E1 as <- <-.
    rewrite (IH _ _ _ _ E). simpl.
    destruct (nonempty (TxIn.txinwitness i)), wf0; simpl; done.
Qed.

Lemma no_witness_existsb vin :
  Forall (fun i => TxIn.txinwitness i = []) vin ->
  existsb (fun i => nonempty (TxIn.txinwitness i)) vin = false.
Proof.
  induction 1 as [|i vin Hi _ IH]; [done|]. simpl. by rewrite Hi, IH.
Qed.

Lemma Tx_serialize_no_witness tx av :
  Forall (fun i => TxIn.txinwitness i = []) (Tx.vin tx) ->
  Tx_serialize tx true av = Tx_serialize tx false av.
Proof.
  intros Hnw. unfold Tx_serialize.
  destruct (if av then Tx_assert_valid tx else Ok tt); [|done].
  cbn [mbind result_bind].
  destruct (to_bytes (Tx.nVersion tx) 4) as [ver|]; [|done].
  cbn [mbind result_bind].
  destruct (varint.encode (len (Tx.vin tx))) as [n1|]; [|done].
  cbn [mbind result_bind].
  destruct (foldM _ (Tx.vin tx) _) as [[out1 wf]|] eqn:E; [|done].
  apply Tx_serialize_vin_flag in E.
  rewrite (no_witness_existsb _ Hnw) in E. simpl in E. subst wf. done.
Qed.

(** A transaction none of whose inputs carries witness data serializes
    to the same bytes with and without [include_witness]: its [hash] is
    its [txid], and its [weight] is four times its [size]. *)
Theorem Tx_legacy_hash_is_txid (tx : Tx) :
  Forall (fun i => TxIn.txinwitness i = []) (Tx.vin tx) ->
  Tx_hash tx = Tx_txid tx /\
  Tx_weight tx =
    match Tx_size tx with Ok n => Ok (4 * n) | Raise e => Raise e end.
Proof.
  intros Hnw. unfold Tx_hash, Tx_txid, Tx_weight, Tx_size.
  rewrite (Tx_serialize_no_witness tx true Hnw). split; [done|].
  destruct (Tx_serialize tx false true) as [a|e]; [|done].
  cbn [mbind result_bind]. f_equal. lia.
Qed.

(** **** Round trip *)

(** The codecs of the parts of a transaction read back what they wrote,
    whatever follows it in the stream; [TxIn.deserialize] returns the
    input without witness data, which [TxIn.serialize] does not write. *)
Definition TxIn_reads_back (i : TxIn) : Prop :=
  forall u rest, TxIn_serialize i = Ok u ->
    TxIn_deserialize (u ++ rest) = Ok (set_txinwitness [] i, rest).

Definition TxOut_reads_back (o : TxOut) : Prop :=
  forall u rest, TxOut_serialize o = Ok u ->
    TxOut_deserialize (u ++ rest) = Ok (o, rest).

Definition witness_reads_back (ws : list string) : Prop :=
  forall u rest, witness_serialize ws = Ok u ->
    witness_deserialize (u ++ rest) = Ok (ws, rest).

Definition Tx_parts_read_back (tx : Tx) : Prop :=
  Forall TxIn_reads_back (Tx.vin tx) /\
  Forall (fun i => witness_reads_back (TxIn.txinwitness i)) (Tx.vin tx) /\
  Forall TxOut_reads_back (Tx.vout tx).

Lemma Tx_serialize_vin_read vin : forall out0 wf0 out wf,
  Forall TxIn_reads_back vin ->
  foldM (fun '(out, witness_flag) tx_input =>
           s ← TxIn_serialize tx_input;
           Ok (out ++ s,
               if nonempty (TxIn.txinwitness tx_input)
               then true else witness_flag))
    vin (out0, wf0) = Ok (out, wf) ->
  exists body, out = out0 ++ body /\
    forall rest, read_n TxIn_deserialize (length vin) (body ++ rest) =
                 Ok (map (set_txinwitness []) vin, rest).
Proof.
  induction vin as [|i vin IH]; intros out0 wf0 out wf Hrb E.
  - injection E as <- <-. exists []. by rewrite app_nil_r.
  - apply Forall_cons in Hrb as [Hi Hrb].
    cbn [foldM] in E. apply bind_Ok_inv in E as ([o1 w1] & E1 & E).
    apply bind_Ok_inv in E1 as (u & Hu & E1). injection E1 as <- <-.
    destruct (IH _ _ _ _ Hrb E) as (body & -> & Hread).
    exists (u ++ body). split; [by rewrite app_assoc|].
    intros rest. cbn [length read_n]. rewrite <- app_assoc.
    rewrite (Hi u _ Hu). cbn [mbind result_bind]. rewrite Hread. done.
Qed.

Lemma Tx_serialize_vout_read vout : forall out0 out,
  Forall TxOut_reads_back vout ->
  foldM (fun out tx_output => s ← TxOut_serialize tx_output; Ok (out ++ s))
    vout out0 = Ok out ->
  exists body, out = out0 ++ body /\
    forall rest, read_n TxOut_deserialize (length vout) (body ++ rest) =
                 Ok (vout, rest).
Proof.
  induction vout as [|o vout IH]; intros out0 out Hrb E.
  - injection E as <-. exists []. by rewrite app_nil_r.
  - apply Forall_cons in Hrb as [Ho Hrb].
    cbn [foldM] in E. apply bind_Ok_inv in E as (o1 & E1 & E).
    apply bind_Ok_inv in E1 as (u & Hu & E1). injection E1 as <-.
    destruct (IH _ _ Hrb E) as (body & -> & Hread).
    exists (u ++ body). split; [by rewrite app_assoc|].
    intros rest. cbn [length read_n]. rewrite <- app_assoc.
    rewrite (Ho u _ Hu). cbn [mbind result_bind]. rewrite Hread. done.
Qed.

Lemma set_txinwitness_back i :
  set_txinwitness (TxIn.txinwitness i) (set_txinwitness [] i) = i.
Proof. by destruct i. Qed.

Lemma Tx_serialize_witness_read vin : forall out0 out,
  Forall (fun i => witness_reads_back (TxIn.txinwitness i)) vin ->
  foldM (fun out tx_input =>
           w ← witness_serialize (TxIn.txinwitness tx_input);
           Ok (out ++ w))
    vin out0 = Ok out ->
  exists body, out = out0 ++ body /\
    forall done rest,
      foldM (fun '(done, stream) tx_input =>
               '(w, stream) ← witness_deserialize stream;
               Ok (done ++ [set_txinwitness w tx_input], stream))
        (map (set_txinwitness []) vin) (done, body ++ rest) =
      Ok (done ++ vin, rest).
Proof.
  induction vin as [|i vin IH]; intros out0 out Hrb E.
  - injection E as <-. exists []. split; [by rewrite app_nil_r|].
    intros done rest. simpl. by rewrite app_nil_r.
  - apply Forall_cons in Hrb as [Hi Hrb].
    cbn [foldM] in E. apply bind_Ok_inv in E as (o1 & E1 & E).
    apply bind_Ok_inv in E1 as (u & Hu & E1). injection E1 as <-.
    destruct (IH _ _ Hrb E) as (body & -> & Hread).
    exists (u ++ body). split; [by rewrite app_assoc|].
    intros done rest. cbn [map foldM]. rewrite <- app_assoc.
    rewrite (Hi u _ Hu). cbn [mbind result_bind].
    rewrite set_txinwitness_back, Hread. by rewrite <- app_assoc.
Qed.

Lemma to_bytes_Ok z k b :
  to_bytes z k = Ok b -> b = le_bytes k z /\ 0 <= z < 256 ^ Z.of_nat k.
Proof.
  unfold to_bytes. destruct (0 <=? z) eqn:E1; [|done].
  destruct (z <? 256 ^ Z.of_nat k) eqn:E2; [|done].
  intros [= <-]. apply Z.leb_le in E1. apply Z.ltb_lt in E2. done.
Qed.

Lemma Tx_assert_valid_vin tx : Tx_assert_valid tx = Ok tt -> Tx.vin tx <> [].
Proof. unfold Tx_assert_valid. by destruct (Tx.vin tx). Qed.

(** [Tx.deserialize] gives back the transaction [Tx.serialize] wrote,
    with and without witness data, when the codecs of its inputs,
    outputs and witnesses read back what they write. A transaction
    without witness data has at least one input, so that the count of
    its inputs is not taken for the marker of the witness format. *)
Theorem Tx_deserialize_serialize (tx : Tx) (u : bytes) :
  Tx_parts_read_back tx ->
  Tx_serialize tx true true = Ok u ->
  Tx_deserialize u true = Ok tx.
Proof.
  intros (Hin & Hwit & Hout) Hser. unfold Tx_serialize in Hser.
  apply bind_Ok_inv in Hser as ([] & Hvalid & Hser).
  apply bind_Ok_inv in Hser as (ver & Hver & Hser).
  apply to_bytes_Ok in Hver as [Ever Hv].
  apply bind_Ok_inv in Hser as (n1 & Hn1 & Hser).
  apply bind_Ok_inv in Hser as ([out1 wf] & Hfin & Hser).
  apply bind_Ok_inv in Hser as (n2 & Hn2 & Hser).
  apply bind_Ok_inv in Hser as (out2 & Hfout & Hser).
  apply bind_Ok_inv in Hser as (out3 & Hfwit & Hser).
  apply bind_Ok_inv in Hser as (lt & Hlt & Hser).
  apply to_bytes_Ok in Hlt as [Elt Hl].
  injection Hser as <-.
  pose proof (Tx_serialize_vin_flag _ _ _ _ _ Hfin) as Hwf. simpl in Hwf.
  destruct (Tx_serialize_vin_read _ _ _ _ _ Hin Hfin) as (bin & -> & Hrin).
  destruct (Tx_serialize_vout_read _ _ _ Hout Hfout) as (bout & -> & Hrout).
  pose proof (varint_encode_bound _ _ Hn1) as Hb1.
  pose proof (varint_encode_bound _ _ Hn2) as Hb2.
  destruct (varint_encode_read _ Hb1) as (e1 & He1 & Hlen1 & Hhd1 & Hr1).
  destruct (varint_encode_read _ Hb2) as (e2 & He2 & _ & _ & Hr2).
  assert (e1 = n1) as -> by congruence.
  assert (e2 = n2) as -> by congruence.
  pose proof (Tx_assert_valid_vin tx Hvalid) as Hne.
  assert (Hlv : 4%nat = length ver) by (rewrite Ever; by rewrite length_le_bytes).
  assert (Hfv : from_le ver = Tx.nVersion tx).
  { rewrite Ever. by apply from_le_le_bytes. }
  assert (Hfl : from_le (take 4 (lt ++ [])) = Tx.nLockTime tx).
  { rewrite app_nil_r, take_ge by (rewrite Elt; by rewrite length_le_bytes).
    rewrite Elt. by apply from_le_le_bytes. }
  clear Ever Elt.
  assert (Hlen_in : Z.to_nat (len (Tx.vin tx)) = length (Tx.vin tx)).
  { unfold len. lia. }
  assert (Hlen_out : Z.to_nat (len (Tx.vout tx)) = length (Tx.vout tx)).
  { unfold len. lia. }
  unfold Tx_deserialize. cbv zeta. destruct wf.
  - change (true && true) with true in *. cbv iota in Hfwit.
    destruct (Tx_serialize_witness_read _ _ _ Hwit Hfwit) as (bw & -> & Hrw).
    replace ((((((ver ++ n1) ++ bin) ++ n2) ++ bout) ++ bw) ++ lt)
      with (ver ++ n1 ++ bin ++ n2 ++ bout ++ bw ++ lt) by
      by rewrite <- !app_assoc.
    rewrite !(take_app_length' ver _ 4 Hlv), !(drop_app_length' ver _ 4 Hlv).
    cbn [app take drop].
    rewrite bool_decide_eq_true_2 by done.
    rewrite ?drop_0. cbn iota.
    rewrite Hr1. cbn [mbind result_bind]. rewrite Hlen_in, Hrin.
    cbn [mbind result_bind]. rewrite Hr2. cbn [mbind result_bind].
    rewrite Hlen_out, Hrout. cbn [mbind result_bind].
    rewrite (Hrw [] lt). cbn [mbind result_bind app].
    rewrite <- (app_nil_r lt), Hfl, Hfv.
    replace (Tx.mk _ _ _ _) with tx by by destruct tx.
    by rewrite Hvalid.
  - change (false && true) with false in *. cbv iota in Hfwit.
    injection Hfwit as <-.
    replace (((((ver ++ n1) ++ bin) ++ n2) ++ bout) ++ lt)
      with (ver ++ n1 ++ bin ++ n2 ++ bout ++ lt) by
      by rewrite <- !app_assoc.
    rewrite !(take_app_length' ver _ 4 Hlv), !(drop_app_length' ver _ 4 Hlv).
    destruct n1 as [|d n1]; [simpl in Hlen1; lia|].
    assert (Hd : d <> x00).
    { intros ->. destruct (Hhd1 x00 eq_refl) as [Hz _].
      specialize (Hz eq_refl). destruct (Tx.vin tx); [done|].
      unfold len in Hz. simpl in Hz. lia. }
    rewrite bool_decide_eq_false_2.
    2:{ simpl. destruct (n1 ++ _); intros [= ? ?]; done. }
    cbn iota.
    rewrite Hr1. cbn [mbind result_bind]. rewrite Hlen_in, Hrin.
    cbn [mbind result_bind]. rewrite Hr2. cbn [mbind result_bind].
    rewrite Hlen_out. rewrite <- (app_nil_r lt), Hrout.
    cbn [mbind result_bind]. rewrite Hfl, Hfv.
    assert (Hall : map (set_txinwitness []) (Tx.vin tx) = Tx.vin tx).
    { symmetry in Hwf. clear -Hwf.
      induction (Tx.vin tx) as [|i l IH]; [done|]. simpl in Hwf.
      apply orb_false_iff in Hwf as [Hi Hl]. simpl. rewrite (IH Hl).
      f_equal. destruct i as [? ? ? w]. simpl in Hi. by destruct w. }
    rewrite Hall.
    replace (Tx.mk _ _ _ _) with tx by by destruct tx.
    by rewrite Hvalid.
Qed.

End TxCodec.

(** *** What [Psbt.deserialize] returns, and what [Psbt.serialize] takes *)

Lemma read_n_length {A} (p : bytes -> result (A * bytes)) n :
  forall d xs d', read_n p n d = Ok (xs, d') -> length xs = n.
Proof.
  induction n as [|n IH]; intros d xs d' E.
  - by injection E as <- _.
  - cbn [read_n] in E. apply bind_Ok_inv in E as ([x d1] & _ & E).
    apply bind_Ok_inv in E as ([xs1 d2] & E1 & E). injection E as <- _.
    simpl. by rewrite (IH _ _ _ E1).
Qed.

Section ContainerShape.
Context `{Collaborators}.

Lemma Tx_deserialize_valid d tx :
  Tx_deserialize d true = Ok tx -> Tx_assert_valid tx = Ok tt.
Proof.
  unfold Tx_deserialize. cbv zeta. intros E.
  repeat (apply bind_Ok_inv in E as (? & ? & E);
          try match type of E with (let '(_, _) := ?p in _) = _ =>
                destruct p end).
  injection E as <-.
  match goal with Hv : Tx_assert_valid _ = Ok ?u |- _ => by destruct u end.
Qed.

Lemma Psbt_deserialize_entry_tx_valid g kv g' :
  (forall tx, g_tx g = Some tx -> Tx_assert_valid tx = Ok tt) ->
  Psbt_deserialize_entry g kv = Ok g' ->
  forall tx, g_tx g' = Some tx -> Tx_assert_valid tx = Ok tt.
Proof.
  intros Hg. destruct kv as [key value]. unfold Psbt_deserialize_entry.
  intros (k0 & _ & E)%bind_Ok_inv. revert E. repeat case_decide.
  - intros (_ & _ & E)%bind_Ok_inv. apply bind_Ok_inv in E as (t & Ht & E).
    injection E as <-. cbn [g_tx]. intros tx [= <-].
    by eapply Tx_deserialize_valid.
  - intros (_ & _ & E)%bind_Ok_inv. apply bind_Ok_inv in E as (_ & _ & E).
    by injection E as <-.
  - intros (_ & _ & E)%bind_Ok_inv. by injection E as <-.
  - intros (p & _ & E)%bind_Ok_inv. by injection E as <-.
  - intros E. by injection E as <-.
Qed.

Lemma Psbt_deserialize_entries_tx_valid es : forall g g',
  (forall tx, g_tx g = Some tx -> Tx_assert_valid tx = Ok tt) ->
  foldM Psbt_deserialize_entry es g = Ok g' ->
  forall tx, g_tx g' = Some tx -> Tx_assert_valid tx = Ok tt.
Proof.
  induction es as [|kv es IH]; intros g g' Hg Hf.
  - by injection Hf as <-.
  - cbn [foldM] in Hf. apply bind_Ok_inv in Hf as (g1 & H1 & Hf).
    apply (IH g1 g'); [|done]. by eapply Psbt_deserialize_entry_tx_valid.
Qed.

(** Every container [Psbt.deserialize] returns wraps a transaction that
    [Tx.assert_valid] accepts, with at least one input and one output,
    and holds one input record for each input of the transaction and
    one output record for each output: the decoder validates the
    transaction it reads, and reads as many records as the transaction
    has inputs and outputs. *)
Theorem Psbt_deserialize_shape (s : string) (p : Psbt) :
  Psbt_deserialize s = Ok p ->
  Tx_assert_valid (Psbt.tx p) = Ok tt /\
  Tx.vin (Psbt.tx p) <> [] /\ Tx.vout (Psbt.tx p) <> [] /\
  length (Psbt.inputs p) = length (Tx.vin (Psbt.tx p)) /\
  length (Psbt.outputs p) = length (Tx.vout (Psbt.tx p)).
Proof.
  unfold Psbt_deserialize. intros E.
  apply bind_Ok_inv in E as (data & _ & E).
  apply bind_Ok_inv in E as (_ & _ & E).
  apply bind_Ok_inv in E as ([global_map data1] & _ & E).
  apply bind_Ok_inv in E as (g & Hg & E).
  apply bind_Ok_inv in E as (tx & Htx & E).
  apply bind_Ok_inv in E as ([inputs data2] & Hi & E).
  apply bind_Ok_inv in E as ([outputs data3] & Ho & E).
  apply bind_Ok_inv in E as (_ & _ & E). injection E as <-.
  cbn [Psbt.tx Psbt.inputs Psbt.outputs].
  destruct (g_tx g) as [tx'|] eqn:Egtx; [|done]. injection Htx as ->.
  assert (Hvalid : Tx_assert_valid tx = Ok tt).
  { eapply (Psbt_deserialize_entries_tx_valid global_map); [|exact Hg|exact Egtx].
    intros tx0. done. }
  split; [done|].
  split; [by apply Tx_assert_valid_vin|].
  split.
  { revert Hvalid. unfold Tx_assert_valid.
    destruct (negb (nonempty (Tx.vin tx))); [done|]. cbn [mbind result_bind].
    destruct (foldM _ (Tx.vin tx) tt); [|done]. cbn [mbind result_bind].
    by destruct (Tx.vout tx). }
  split; by eapply read_n_length.
Qed.

(** The containers [Psbt.serialize] writes in full and [Psbt.deserialize]
    reads back, valid or not. *)
Definition Psbt_wire_form (p : Psbt) : Prop :=
  globals_canonical p /\
  length (Psbt.inputs p) = length (Tx.vin (Psbt.tx p)) /\
  length (Psbt.outputs p) = length (Tx.vout (Psbt.tx p)) /\
  Forall PsbtInput_canonical (Psbt.inputs p) /\
  Forall PsbtOutput_canonical (Psbt.outputs p) /\
  base64_ok p.

(** The string [Psbt.serialize] returns for a container in wire form
    is read back up to the validator. *)
Lemma Psbt_deserialize_serialize_validates (p : Psbt) (s : string) :
  Psbt_wire_form p ->
  Psbt_serialize p = Ok s ->
  Psbt_deserialize s = (Psbt_assert_valid p;; Ok p).
Proof.
  intros (Hg & Hli & Hlo & Hi & Ho & Hb64) Hser.
  unfold Psbt_serialize in Hser.
  apply bind_Ok_inv in Hser as (out & Hout & Hser). injection Hser as <-.
  unfold base64_ok in Hb64. rewrite Hout in Hb64.
  rewrite Psbt_serialize_bytes_globals in Hout.
  apply bind_Ok_inv in Hout as (o1 & H1 & Hout).
  apply bind_Ok_inv in Hout as (o2 & H2 & H3).
  destruct (serialize_globals_segments p magic o1 Hg H1)
    as (v & gw & Hv & -> & Hseg).
  destruct (records_read PsbtInput_serialize read_input PsbtInput_canonical
              read_input_serialize _ _ _ Hi H2) as (wi & -> & Hri).
  destruct (records_read PsbtOutput_serialize read_output PsbtOutput_canonical
              read_output_serialize _ _ _ Ho H3) as (wo & -> & Hro).
  destruct (segments_upto_read _ _ _ _ _ _ (wi ++ wo) Hseg) as (m & Hm & Hd).
  unfold Psbt_deserialize. rewrite Hb64. cbn [mbind result_bind].
  replace ((((magic ++ gw) ++ [x00]) ++ wi) ++ wo)
    with (magic ++ gw ++ x00 :: wi ++ wo) by by rewrite <- !app_assoc.
  change (slice_to 5 (magic ++ gw ++ x00 :: wi ++ wo)) with magic.
  change (slice_from 5 (magic ++ gw ++ x00 :: wi ++ wo))
    with (gw ++ x00 :: wi ++ wo).
  rewrite bool_decide_eq_true_2 by done. cbn [py_assert mbind result_bind].
  rewrite Hm. cbn [mbind result_bind]. rewrite Hd.
  cbn [mbind result_bind g_tx read_local].
  rewrite <- Hli, Hri. cbn [mbind result_bind].
  rewrite <- Hlo. rewrite <- (app_nil_r wo), Hro. cbn [mbind result_bind].
  cbn [g_version g_hd_keypaths g_proprietary g_unknown].
  by replace (Psbt.mk _ _ _ _ _ _ _) with p by (destruct p; simpl in *; by subst).
Qed.

(** The parts of a container can each be written: its global map (the
    transaction, the key paths, the version and the two dictionaries)
    and each of its records. Nothing here asks the validator. *)
Definition Psbt_parts_serialize (p : Psbt) : Prop :=
  is_ok (serialize_globals p magic) = true /\
  Forall (fun r => is_ok (PsbtInput_serialize r) = true) (Psbt.inputs p) /\
  Forall (fun r => is_ok (PsbtOutput_serialize r) = true) (Psbt.outputs p).

Lemma records_serialize {A} (ser : A -> result bytes) (rs : list A) :
  Forall (fun r => is_ok (ser r) = true) rs ->
  forall out, is_ok (foldM (fun out r => s ← ser r; Ok (out ++ s ++ [x00]))
                       rs out) = true.
Proof.
  induction 1 as [|r rs Hr _ IH]; intros out; [done|].
  cbn [foldM]. destruct (ser r); [|done]. cbn [mbind result_bind]. apply IH.
Qed.

(** [Psbt.serialize] returns a string when the parts can be written,
    whatever the validator says of the container. *)
Lemma Psbt_serialize_returns (p : Psbt) :
  Psbt_parts_serialize p -> exists s, Psbt_serialize p = Ok s.
Proof.
  intros (Hg & Hi & Ho). unfold Psbt_serialize.
  rewrite Psbt_serialize_bytes_globals.
  destruct (serialize_globals p magic) as [o1|]; [|done].
  cbn [mbind result_bind].
  pose proof (records_serialize PsbtInput_serialize _ Hi (o1 ++ [x00])) as H1.
  destruct (foldM _ (Psbt.inputs p) _) as [o2|]; [|done].
  cbn [mbind result_bind].
  pose proof (records_serialize PsbtOutput_serialize _ Ho o2) as H2.
  destruct (foldM _ (Psbt.outputs p) _) as [o3|]; [|done].
  cbn [mbind result_bind]. by eexists.
Qed.

(** [Psbt.serialize] does not run the validator; [Psbt.deserialize] runs
    it last. For a container in wire form whose parts can be written and
    that [Psbt.assert_valid] rejects, [Psbt.serialize] returns a string,
    and [Psbt.deserialize] on that string raises what the validator
    raises on the container: the serializer writes strings that the
    deserializer refuses. *)
Theorem Psbt_serialize_does_not_validate (p : Psbt) (e : exn) :
  Psbt_wire_form p ->
  Psbt_parts_serialize p ->
  Psbt_assert_valid p = Raise e ->
  exists s, Psbt_serialize p = Ok s /\ Psbt_deserialize s = Raise e.
Proof.
  intros Hwire Hparts Hinvalid.
  destruct (Psbt_serialize_returns p Hparts) as [s Hs].
  exists s. split; [done|].
  rewrite (Psbt_deserialize_serialize_validates p s Hwire Hs).
  by rewrite Hinvalid.
Qed.

End ContainerShape.

(** *** [combine_psbts] on two containers: the whole store *)

(** The dictionary [unknown] of the first container after the last loop
    of [combine_psbts] on two containers: the loop meets the first
    container, then the second. *)
Definition merged_unknown (uA uB : dict string string) : dict string string :=
  let u1 := if nonempty uA then dict_update uA uA else uA in
  if nonempty u1 then dict_update u1 uB else uB.

Lemma merged_unknown_later_wins uA uB :
  dict_wf uA -> dict_wf uB -> later_wins uA uB (merged_unknown uA uB).
Proof.
  intros HA HB k. unfold merged_unknown.
  destruct uA as [|kv uA]; cbn [nonempty].
  - simpl. by destruct (dict_get k uB).
  - rewrite (dict_update_self _ HA). cbn [nonempty].
    by rewrite dict_get_update, dict_get_rev_wf.
Qed.

Section CombinePairStore.
Context `{Collaborators}.

(** The store after [combine_psbts [A; B]]: the records of [A] hold the
    merges, [B] refers to the input records of [A], and [A] has the
    merged [unknown]. *)
Lemma combine_pair_run (s : store) (pA pB : loc) (vA vB : Psbt)
  (PA PB : PsbtObj) :
  pA <> pB ->
  psbts s !! pA = Some PA -> psbts s !! pB = Some PB ->
  load s pA = Some vA -> load s pB = Some vB ->
  disjoint_records s pA pB ->
  is_ok (Tx_txid (Psbt.tx vA)) = true ->
  Tx_txid (Psbt.tx vB) = Tx_txid (Psbt.tx vA) ->
  Forall2 scalars_agree (Psbt.inputs vA) (Psbt.inputs vB) ->
  length (Psbt.outputs vA) = length (Psbt.outputs vB) ->
  exists msI msO,
    Forall2 (fun ab m =>
               foldM (combine_key_pure ab.2) (@dict_keys_of PsbtInput _) ab.1
               = Ok m)
      (zip (Psbt.inputs vA) (Psbt.inputs vB)) msI /\
    Forall2 (fun ab m =>
               foldM (combine_key_pure ab.2) (@dict_keys_of PsbtOutput _) ab.1
               = Ok m)
      (zip (Psbt.outputs vA) (Psbt.outputs vB)) msO /\
    combine_psbts [pA; pB] s =
      (Ok pA,
       mkStore (txs s)
         (writes (zip (PsbtObj.inputs PA) msI) (ins s))
         (writes (zip (PsbtObj.outputs PA) msO) (outs s))
         (<[pA := PsbtObj.set_unknown
                    (merged_unknown (PsbtObj.unknown PA) (PsbtObj.unknown PB))
                    PA]>
            (<[pB := PsbtObj.set_inputs (PsbtObj.inputs PA) PB]> (psbts s)))).
Proof.
  intros Hne HPA HPB HlA HlB Hdis Htx Htxeq Hag HlenO.
  apply load_Some in HlA as (PA' & HPA' & HTA & HiA & HoA & _).
  apply load_Some in HlB as (PB' & HPB' & HTB & HiB & HoB & _).
  assert (PA' = PA) as -> by congruence.
  assert (PB' = PB) as -> by congruence.
  unfold disjoint_records in Hdis. rewrite HPA, HPB in Hdis.
  destruct Hdis as [HndI HndO].
  destruct (Tx_txid (Psbt.tx vA)) as [t|] eqn:Et; [|done].
  destruct (merged_records_exist (R := PsbtInput) scalars_agree) with
    (ra := Psbt.inputs vA) (rb := Psbt.inputs vB) as [msI HmsI]; [| |done|].
  { apply (bool_decide_unpack _). by vm_compute. }
  { intros a b key ov v Hab. by apply PsbtInput_merge_ok. }
  destruct (merged_records_exist (R := PsbtOutput) (fun _ _ => True)) with
    (ra := Psbt.outputs vA) (rb := Psbt.outputs vB) as [msO HmsO].
  { apply (bool_decide_unpack _). by vm_compute. }
  { intros a b key ov v _. apply PsbtOutput_merge_ok. }
  { by apply Forall2_true. }
  exists msI, msO. split; [exact HmsI|]. split; [exact HmsO|].
  pose proof (Forall2_length _ _ _ HiA) as LiA.
  pose proof (Forall2_length _ _ _ HiB) as LiB.
  pose proof (Forall2_length _ _ _ HoA) as LoA.
  pose proof (Forall2_length _ _ _ HoB) as LoB.
  pose proof (Forall2_length _ _ _ Hag) as Lag.
  pose proof (Forall2_length _ _ _ HmsI) as LmI.
  pose proof (Forall2_length _ _ _ HmsO) as LmO.
  rewrite length_zip in LmI. rewrite length_zip in LmO.
  unfold combine_psbts.
  change (py_index [pA; pB] 0) with (Ok pA).
  change (slice_from 1 [pA; pB]) with [pB].
  change (last [pB]) with (Some pB). msimpl.
  match goal with
  | |- context [forM_ ?f [pA; pB]] => set (unknowns := forM_ f [pA; pB])
  end.
  cbn [read_local forM_].
  msimpl. rewrite (deref_Some psbts pA PA s HPA). msimpl.
  rewrite (deref_Some txs _ _ s HTA). msimpl. rewrite Et. msimpl.
  rewrite (deref_Some psbts pB PB s HPB). msimpl.
  rewrite (deref_Some txs _ _ s HTB). msimpl. rewrite Htxeq. msimpl.
  rewrite bool_decide_eq_true_2 by done. cbn [py_assert]. msimpl.
  rewrite (deref_Some psbts pB PB s HPB). msimpl.
  replace (length (PsbtObj.inputs PB)) with (length (PsbtObj.inputs PA)) by lia.
  match goal with
  | |- context [forM ?f (map Z.of_nat (seq 0 ?n)) s] =>
      change (forM f (map Z.of_nat (seq 0 n)) s) with
        (forM (combine_column (R := PsbtInput) PsbtObj.inputs [pA; pB])
           (map Z.of_nat (seq 0 n)) s)
  end.
  rewrite (combine_columns (R := PsbtInput) PsbtObj.inputs pA pB PA PB
             (PsbtObj.inputs PA) (PsbtObj.inputs PB)
             (Psbt.inputs vA) (Psbt.inputs vB) msI 0 s); try done; [|lia].
  msimpl.
  set (s1 := set_heap (writes (zip (PsbtObj.inputs PA) msI) (heap s)) s).
  assert (Hp1 : psbts s1 = psbts s) by done.
  rewrite (deref_Some psbts pB PB s1) by by rewrite Hp1.
  msimpl. rewrite assign_run. msimpl.
  set (PB' := PsbtObj.set_inputs (PsbtObj.inputs PA) PB).
  set (s2 := set_psbts (<[pB := PB']> (psbts s1)) s1).
  assert (HPA2 : psbts s2 !! pA = Some PA).
  { simpl. by rewrite list_lookup_insert_ne. }
  assert (HPB2 : psbts s2 !! pB = Some PB').
  { simpl. apply list_lookup_insert_eq. by eapply lookup_lt_Some. }
  rewrite (deref_Some psbts pB PB' s2 HPB2). msimpl.
  change (PsbtObj.outputs PB') with (PsbtObj.outputs PB).
  replace (length (PsbtObj.outputs PB)) with (length (PsbtObj.outputs PA)) by lia.
  match goal with
  | |- context [forM ?f (map Z.of_nat (seq 0 ?n)) s2] =>
      change (forM f (map Z.of_nat (seq 0 n)) s2) with
        (forM (combine_column (R := PsbtOutput) PsbtObj.outputs [pA; pB])
           (map Z.of_nat (seq 0 n)) s2)
  end.
  rewrite (combine_columns (R := PsbtOutput) PsbtObj.outputs pA pB PA PB'
             (PsbtObj.outputs PA) (PsbtObj.outputs PB)
             (Psbt.outputs vA) (Psbt.outputs vB) msO 0 s2); try done; [|lia].
  msimpl.
  set (s3 := set_heap (writes (zip (PsbtObj.outputs PA) msO) (heap s2)) s2).
  assert (HPA3 : psbts s3 !! pA = Some PA) by done.
  assert (HPB3 : psbts s3 !! pB = Some PB') by done.
  rewrite (deref_Some psbts pA PA s3 HPA3). msimpl.
  rewrite assign_run, PsbtObj_set_outputs_same, (list_insert_id _ _ _ HPA3).
  replace (set_psbts (psbts s3) s3) with s3 by by destruct s3.
  msimpl.
  unfold unknowns. cbn [forM_]. msimpl.
  rewrite (deref_Some psbts pA PA s3 HPA3). msimpl.
  rewrite (deref_Some psbts pA PA s3 HPA3). msimpl.
  set (u1 := if nonempty (PsbtObj.unknown PA)
             then dict_update (PsbtObj.unknown PA) (PsbtObj.unknown PA)
             else PsbtObj.unknown PA).
  set (F1 := PsbtObj.set_unknown u1 PA).
  set (s4 := set_psbts (<[pA := F1]> (psbts s3)) s3).
  assert (Hstep1 :
    (if nonempty (PsbtObj.unknown PA)
     then assign psbts set_psbts pA
            (PsbtObj.set_unknown
               (dict_update (PsbtObj.unknown PA) (PsbtObj.unknown PA)) PA)
     else assign psbts set_psbts pA
            (PsbtObj.set_unknown (PsbtObj.unknown PA) PA)) s3 = (Ok tt, s4)).
  { unfold s4, F1, u1. by destruct (nonempty (PsbtObj.unknown PA)). }
  rewrite Hstep1. msimpl.
  assert (HPA4 : psbts s4 !! pA = Some F1).
  { simpl. apply list_lookup_insert_eq. rewrite length_insert.
    by eapply lookup_lt_Some. }
  assert (HPB4 : psbts s4 !! pB = Some PB').
  { unfold s4. simpl. rewrite list_lookup_insert_ne by done.
    apply list_lookup_insert_eq. by eapply lookup_lt_Some. }
  rewrite (deref_Some psbts pA F1 s4 HPA4). msimpl.
  rewrite (deref_Some psbts pB PB' s4 HPB4). msimpl.
  change (PsbtObj.unknown F1) with u1.
  change (PsbtObj.unknown PB') with (PsbtObj.unknown PB).
  assert (Hstep2 :
    (if nonempty u1
     then assign psbts set_psbts pA
            (PsbtObj.set_unknown (dict_update u1 (PsbtObj.unknown PB)) F1)
     else assign psbts set_psbts pA
            (PsbtObj.set_unknown (PsbtObj.unknown PB) F1)) s4 =
    (Ok tt,
     set_psbts (<[pA := PsbtObj.set_unknown
                    (merged_unknown (PsbtObj.unknown PA) (PsbtObj.unknown PB))
                    PA]> (psbts s4)) s4)).
  { unfold merged_unknown. fold u1. unfold F1.
    destruct (nonempty u1); by rewrite assign_run, PsbtObj_set_unknown_twice. }
  rewrite Hstep2. msimpl. f_equal.
  unfold s4, s3, s2, s1. simpl. unfold set_psbts. simpl.
  by rewrite list_insert_insert_eq.
Qed.

(** The container that [combine_psbts [A; B]] returns, read in the
    store it leaves. *)
Lemma combine_pair_load (s : store) (pA pB : loc) (vA vB : Psbt) :
  pA <> pB ->
  load s pA = Some vA -> load s pB = Some vB ->
  disjoint_records s pA pB ->
  is_ok (Tx_txid (Psbt.tx vA)) = true ->
  Tx_txid (Psbt.tx vB) = Tx_txid (Psbt.tx vA) ->
  Forall2 scalars_agree (Psbt.inputs vA) (Psbt.inputs vB) ->
  length (Psbt.outputs vA) = length (Psbt.outputs vB) ->
  exists s' msI msO,
    Forall2 (fun ab m =>
               foldM (combine_key_pure ab.2) (@dict_keys_of PsbtInput _) ab.1
               = Ok m)
      (zip (Psbt.inputs vA) (Psbt.inputs vB)) msI /\
    Forall2 (fun ab m =>
               foldM (combine_key_pure ab.2) (@dict_keys_of PsbtOutput _) ab.1
               = Ok m)
      (zip (Psbt.outputs vA) (Psbt.outputs vB)) msO /\
    combine_psbts [pA; pB] s = (Ok pA, s') /\
    load s' pA =
      Some (Psbt.mk (Psbt.tx vA) msI msO (Psbt.version vA)
              (Psbt.hd_keypaths vA) (Psbt.proprietary vA)
              (merged_unknown (Psbt.unknown vA) (Psbt.unknown vB))).
Proof.
  intros Hne HlA HlB Hdis Htx Htxeq Hag HlenO.
  pose proof HlA as (PA & HPA & HTA & HiA & HoA & HvA & HhA & HprA & HuA)%load_Some.
  pose proof HlB as (PB & HPB & HTB & HiB & HoB & HvB & HhB & HprB & HuB)%load_Some.
  destruct (combine_pair_run s pA pB vA vB PA PB) as (msI & msO & HmsI & HmsO & Hrun);
    try done.
  pose proof Hdis as Hdis'.
  unfold disjoint_records in Hdis'. rewrite HPA, HPB in Hdis'.
  destruct Hdis' as [HndI HndO].
  pose proof (Forall2_length _ _ _ HiA) as LiA.
  pose proof (Forall2_length _ _ _ HiB) as LiB.
  pose proof (Forall2_length _ _ _ HoA) as LoA.
  pose proof (Forall2_length _ _ _ HoB) as LoB.
  pose proof (Forall2_length _ _ _ Hag) as Lag.
  pose proof (Forall2_length _ _ _ HmsI) as LmI.
  pose proof (Forall2_length _ _ _ HmsO) as LmO.
  rewrite length_zip in LmI. rewrite length_zip in LmO.
  eexists _, msI, msO.
  split; [exact HmsI|]. split; [exact HmsO|]. split; [exact Hrun|].
  apply load_Some. eexists. cbn [psbts txs ins outs]. split.
  { apply list_lookup_insert_eq. rewrite length_insert.
    by eapply lookup_lt_Some. }
  cbn. rewrite HuA, HuB.
  apply NoDup_app in HndI as (HndA & _ & _).
  apply NoDup_app in HndO as (HndOA & _ & _).
  split; [done|]. split; [|split; [|done]].
  - apply Forall2_same_length_lookup_2; [lia|].
    intros i l m Hl Hm.
    eapply (writes_lookup (PsbtObj.inputs PA) msI); eauto; [lia|].
    eapply Forall_forall. intros l' Hl'.
    apply list_elem_of_lookup_1 in Hl' as [j Hj].
    destruct (Forall2_lookup_l _ _ _ _ _ HiA Hj) as (r & _ & Hr).
    by exists r.
  - apply Forall2_same_length_lookup_2; [lia|].
    intros i l m Hl Hm.
    eapply (writes_lookup (PsbtObj.outputs PA) msO); eauto; [lia|].
    eapply Forall_forall. intros l' Hl'.
    apply list_elem_of_lookup_1 in Hl' as [j Hj].
    destruct (Forall2_lookup_l _ _ _ _ _ HoA Hj) as (r & _ & Hr).
    by exists r.
Qed.

(** [combine_psbts [A; B]] merges the records of the two containers and
    the global [unknown] dictionary, in which [B] wins, and nothing else
    of the global fields: the container it returns has the transaction,
    the version, the global key paths and the [proprietary] dictionary
    of [A], whatever [B] has there. *)
Theorem combine_keeps_first_globals
  (s : store) (pA pB : loc) (vA vB : Psbt) :
  pA <> pB ->
  load s pA = Some vA -> load s pB = Some vB ->
  disjoint_records s pA pB ->
  is_ok (Tx_txid (Psbt.tx vA)) = true ->
  Tx_txid (Psbt.tx vB) = Tx_txid (Psbt.tx vA) ->
  Forall2 scalars_agree (Psbt.inputs vA) (Psbt.inputs vB) ->
  length (Psbt.outputs vA) = length (Psbt.outputs vB) ->
  dict_wf (Psbt.unknown vA) -> dict_wf (Psbt.unknown vB) ->
  exists s' v',
    combine_psbts [pA; pB] s = (Ok pA, s') /\
    load s' pA = Some v' /\
    Psbt.tx v' = Psbt.tx vA /\
    Psbt.version v' = Psbt.version vA /\
    Psbt.hd_keypaths v' = Psbt.hd_keypaths vA /\
    Psbt.proprietary v' = Psbt.proprietary vA /\
    later_wins (Psbt.unknown vA) (Psbt.unknown vB) (Psbt.unknown v').
Proof.
  intros Hne HlA HlB Hdis Htx Htxeq Hag HlenO HwA HwB.
  destruct (combine_pair_load s pA pB vA vB)
    as (s' & msI & msO & _ & _ & Hrun & Hload); try done.
  eexists _, _. split; [exact Hrun|]. split; [exact Hload|].
  cbn. repeat (split; [done|]). by apply merged_unknown_later_wins.
Qed.

(** **** Lists are merged element by element *)

(** [l] is [a] followed by the elements of [b] that [a] does not have,
    once each; when [a] is empty, [l] is [b]. *)
Definition appended {A} (a b l : list A) : Prop :=
  match a with
  | [] => l = b
  | _ => exists new, l = a ++ new /\ NoDup new /\
           forall x, x ∈ new <-> x ∈ b /\ x ∉ a
  end.

Lemma extend_new_appended {A} `{EqDecision A} (a b : list A) :
  exists new, extend_new a b = a ++ new /\ NoDup new /\
    forall x, x ∈ new <-> x ∈ b /\ x ∉ a.
Proof.
  unfold extend_new.
  assert (G : forall new0, NoDup new0 -> (forall x, x ∈ new0 -> x ∉ a) ->
    exists new,
      fold_left (fun o x => if bool_decide (x ∈ o) then o else o ++ [x]) b
        (a ++ new0) = a ++ new /\
      NoDup new /\
      forall x, x ∈ new <-> x ∈ new0 \/ (x ∈ b /\ x ∉ a)).
  { induction b as [|y b IH]; intros new0 Hnd Hn.
    - exists new0. split; [done|]. split; [done|]. intros x. split; [auto|].
      intros [?|[?%elem_of_nil _]]; done.
    - simpl. case_bool_decide as Hy.
      + destruct (IH new0 Hnd Hn) as (new & E & Hnd' & Hx).
        exists new. split; [done|]. split; [done|]. intros x. rewrite Hx.
        split.
        * intros [?|[? ?]]; [by left|]. right. split; [by right|done].
        * intros [?|[[->|?]%elem_of_cons ?]]; [by left| |by right].
          left. apply elem_of_app in Hy as [?|?]; done.
      + apply not_elem_of_app in Hy as [Hya Hyn].
        destruct (IH (new0 ++ [y])) as (new & E & Hnd' & Hx).
        { apply NoDup_app. split; [done|]. split; [|apply NoDup_singleton].
          intros x Hx ->%list_elem_of_singleton. done. }
        { intros x [?| ->%list_elem_of_singleton]%elem_of_app; [by apply Hn|done]. }
        exists new. rewrite <- app_assoc. split; [done|]. split; [done|].
        intros x. rewrite Hx. rewrite elem_of_app, list_elem_of_singleton.
        split.
        * intros [[?| ->]|[? ?]]; [by left| |].
          -- right. split; [by left|done].
          -- right. split; [by right|done].
        * intros [?|[[->|?]%elem_of_cons ?]]; [by left; left|by left; right|].
          by right. }
  destruct (G [] (NoDup_nil_2)) as (new & E & Hnd & Hx); [by intros ? ?%elem_of_nil|].
  rewrite app_nil_r in E. exists new. split; [done|]. split; [done|].
  intros x. rewrite Hx. split; [|by right].
  intros [?%elem_of_nil|?]; done.
Qed.

Lemma merge_attr_appended {A} `{EqDecision A} (inj : list A -> attr)
  key (a b : list A) x :
  (forall l, isinstance_dict (inj l) = false) ->
  (forall l, isinstance_list (inj l) = true) ->
  (forall l, truthy (inj l) = nonempty l) ->
  (forall l l', attr_extend (inj l) (inj l') = Ok (inj (extend_new l l'))) ->
  merge_attr key (inj a) (inj b) = Ok (inj x) ->
  (forall l l', inj l = inj l' -> l = l') ->
  appended a b x.
Proof.
  intros Hd Hl Ht He Hm Hinj. unfold merge_attr in Hm.
  rewrite Hd, Hl, Ht in Hm. destruct a as [|a0 a]; cbn [nonempty] in Hm.
  - injection Hm as Hm. apply Hinj in Hm. by subst.
  - rewrite He in Hm. injection Hm as Hm. apply Hinj in Hm. subst x.
    apply extend_new_appended.
Qed.

(** The list attributes of an input record [r], against those of the
    records [a] and [b] it was merged from. *)
Definition lists_appended (a b r : PsbtInput) : Prop :=
  appended (PsbtInput.redeem_script a) (PsbtInput.redeem_script b)
    (PsbtInput.redeem_script r) /\
  appended (PsbtInput.witness_script a) (PsbtInput.witness_script b)
    (PsbtInput.witness_script r) /\
  appended (PsbtInput.hd_keypaths a) (PsbtInput.hd_keypaths b)
    (PsbtInput.hd_keypaths r) /\
  appended (PsbtInput.final_script_sig a) (PsbtInput.final_script_sig b)
    (PsbtInput.final_script_sig r) /\
  appended (PsbtInput.final_script_witness a) (PsbtInput.final_script_witness b)
    (PsbtInput.final_script_witness r).

Lemma PsbtInput_merged_lists a b m :
  foldM (combine_key_pure b) (@dict_keys_of PsbtInput _) a = Ok m ->
  lists_appended a b m.
Proof.
  intros Hm.
  destruct (combine_fold_attr b (@dict_keys_of PsbtInput _) a m) as [Hattr _]; [| |done|].
  { simpl. apply (bool_decide_unpack _). by vm_compute. }
  { apply Forall_forall. intros ? Hx. exact Hx. }
  assert (G : forall key {A} `{EqDecision A} (inj : list A -> attr)
                (get : PsbtInput -> list A),
    key ∈ (@dict_keys_of PsbtInput _) ->
    (forall r, PsbtInput_getattr r key = Ok (inj (get r))) ->
    (forall l, isinstance_dict (inj l) = false) ->
    (forall l, isinstance_list (inj l) = true) ->
    (forall l, truthy (inj l) = nonempty l) ->
    (forall l l', attr_extend (inj l) (inj l') = Ok (inj (extend_new l l'))) ->
    (forall l l', inj l = inj l' -> l = l') ->
    appended (get a) (get b) (get m)).
  { intros key A ? inj get Hk Hget Hd Hl Ht He Hinj.
    destruct (Hattr key Hk) as (ov & v & x & Eo & Ev & Ex & Em).
    simpl in Eo, Ev, Em. rewrite Hget in Eo, Ev, Em.
    injection Eo as <-. injection Ev as <-. injection Em as <-.
    by eapply merge_attr_appended. }
  repeat split.
  - apply (G "redeem_script" _ _ ATokens PsbtInput.redeem_script); try done.
    + apply (bool_decide_unpack _). by vm_compute.
    + by intros l l' [= ->].
  - apply (G "witness_script" _ _ ATokens PsbtInput.witness_script); try done.
    + apply (bool_decide_unpack _). by vm_compute.
    + by intros l l' [= ->].
  - apply (G "hd_keypaths" _ _ AKeypaths PsbtInput.hd_keypaths); try done.
    + apply (bool_decide_unpack _). by vm_compute.
    + by intros l l' [= ->].
  - apply (G "final_script_sig" _ _ ATokens PsbtInput.final_script_sig); try done.
    + apply (bool_decide_unpack _). by vm_compute.
    + by intros l l' [= ->].
  - apply (G "final_script_witness" _ _ AStrs PsbtInput.final_script_witness);
      try done.
    + apply (bool_decide_unpack _). by vm_compute.
    + by intros l l' [= ->].
Qed.

(** [_combine] tells lists from scalars by their Python type, and a
    script is a list of tokens: after [combine_psbts [A; B]] every list
    attribute of an input record of [A] (the two scripts, the key
    paths, the final script and the final witness) is what [A] had
    followed by the elements of [B]'s list that [A] had not, once each,
    and [B]'s list where [A]'s was empty. Two different scripts are
    merged token by token; they are not compared. *)
Theorem combine_appends_lists
  (s : store) (pA pB : loc) (vA vB : Psbt) :
  pA <> pB ->
  load s pA = Some vA -> load s pB = Some vB ->
  disjoint_records s pA pB ->
  is_ok (Tx_txid (Psbt.tx vA)) = true ->
  Tx_txid (Psbt.tx vB) = Tx_txid (Psbt.tx vA) ->
  Forall2 scalars_agree (Psbt.inputs vA) (Psbt.inputs vB) ->
  length (Psbt.outputs vA) = length (Psbt.outputs vB) ->
  exists s' v',
    combine_psbts [pA; pB] s = (Ok pA, s') /\
    load s' pA = Some v' /\
    Forall2 (fun ab r => lists_appended ab.1 ab.2 r)
      (zip (Psbt.inputs vA) (Psbt.inputs vB)) (Psbt.inputs v').
Proof.
  intros Hne HlA HlB Hdis Htx Htxeq Hag HlenO.
  destruct (combine_pair_load s pA pB vA vB)
    as (s' & msI & msO & HmsI & _ & Hrun & Hload); try done.
  eexists _, _. split; [exact Hrun|]. split; [exact Hload|].
  cbn. eapply Forall2_impl; [exact HmsI|].
  intros [a b] m. apply PsbtInput_merged_lists.
Qed.

(** [combine_psbts [A; B]] changes [B] as well: the assignment
    [psbt.inputs = inputs] is to the last container of the list, so
    that afterwards [B] refers to the input records of [A], the merged
    ones (the same objects, not copies), and no longer to its own;
    its output records and its global fields are as they were. *)
Theorem combine_rebinds_inputs_of_last
  (s : store) (pA pB : loc) (vA vB : Psbt) :
  pA <> pB ->
  load s pA = Some vA -> load s pB = Some vB ->
  disjoint_records s pA pB ->
  is_ok (Tx_txid (Psbt.tx vA)) = true ->
  Tx_txid (Psbt.tx vB) = Tx_txid (Psbt.tx vA) ->
  Forall2 scalars_agree (Psbt.inputs vA) (Psbt.inputs vB) ->
  length (Psbt.outputs vA) = length (Psbt.outputs vB) ->
  exists s' v' PA' PB',
    combine_psbts [pA; pB] s = (Ok pA, s') /\
    psbts s' !! pA = Some PA' /\ psbts s' !! pB = Some PB' /\
    PsbtObj.inputs PB' = PsbtObj.inputs PA' /\
    load s' pA = Some v' /\
    load s' pB = Some (Psbt.set_inputs (Psbt.inputs v') vB).
Proof.
  intros Hne HlA HlB Hdis Htx Htxeq Hag HlenO.
  pose proof HlA as (PA & HPA & HTA & HiA & HoA & HvA & HhA & HprA & HuA)%load_Some.
  pose proof HlB as (PB & HPB & HTB & HiB & HoB & HvB & HhB & HprB & HuB)%load_Some.
  destruct (combine_pair_run s pA pB vA vB PA PB) as (msI & msO & HmsI & HmsO & Hrun);
    try done.
  pose proof Hdis as Hdis'.
  unfold disjoint_records in Hdis'. rewrite HPA, HPB in Hdis'.
  destruct Hdis' as [HndI HndO].
  pose proof (Forall2_length _ _ _ HiA) as LiA.
  pose proof (Forall2_length _ _ _ HiB) as LiB.
  pose proof (Forall2_length _ _ _ HoA) as LoA.
  pose proof (Forall2_length _ _ _ HoB) as LoB.
  pose proof (Forall2_length _ _ _ Hag) as Lag.
  pose proof (Forall2_length _ _ _ HmsI) as LmI.
  pose proof (Forall2_length _ _ _ HmsO) as LmO.
  rewrite length_zip in LmI. rewrite length_zip in LmO.
  assert (HinsA : Forall2 (fun l m =>
            writes (zip (PsbtObj.inputs PA) msI) (ins s) !! l = Some m)
            (PsbtObj.inputs PA) msI).
  { apply NoDup_app in HndI as (HndA & _ & _).
    apply Forall2_same_length_lookup_2; [lia|].
    intros i l m Hl Hm.
    eapply (writes_lookup (PsbtObj.inputs PA) msI); eauto; [lia|].
    eapply Forall_forall. intros l' Hl'.
    apply list_elem_of_lookup_1 in Hl' as [j Hj].
    destruct (Forall2_lookup_l _ _ _ _ _ HiA Hj) as (r & _ & Hr).
    by exists r. }
  eexists _,
    (Psbt.mk (Psbt.tx vA) msI msO (Psbt.version vA) (Psbt.hd_keypaths vA)
       (Psbt.proprietary vA)
       (merged_unknown (Psbt.unknown vA) (Psbt.unknown vB))),
    _, (PsbtObj.set_inputs (PsbtObj.inputs PA) PB).
  split; [exact Hrun|]. cbn [psbts txs ins outs].
  split.
  { apply list_lookup_insert_eq. rewrite length_insert.
    by eapply lookup_lt_Some. }
  split.
  { rewrite list_lookup_insert_ne by done.
    apply list_lookup_insert_eq. by eapply lookup_lt_Some. }
  split; [done|]. split.
  - apply load_Some. eexists. cbn [psbts txs ins outs]. split.
    { apply list_lookup_insert_eq. rewrite length_insert.
      by eapply lookup_lt_Some. }
    cbn. rewrite HuA, HuB.
    apply NoDup_app in HndO as (HndOA & _ & _).
    split; [done|]. split; [done|]. split; [|done].
    apply Forall2_same_length_lookup_2; [lia|].
    intros i l m Hl Hm.
    eapply (writes_lookup (PsbtObj.outputs PA) msO); eauto; [lia|].
    eapply Forall_forall. intros l' Hl'.
    apply list_elem_of_lookup_1 in Hl' as [j Hj].
    destruct (Forall2_lookup_l _ _ _ _ _ HoA Hj) as (r & _ & Hr).
    by exists r.
  - apply load_Some. exists (PsbtObj.set_inputs (PsbtObj.inputs PA) PB).
    cbn [psbts txs ins outs]. split.
    { rewrite list_lookup_insert_ne by done.
      apply list_lookup_insert_eq. by eapply lookup_lt_Some. }
    cbn. split; [done|]. split; [done|]. split; [|done].
    apply Forall2_same_length_lookup_2; [lia|].
    intros i l o Hl Ho'.
    pose proof (Forall2_lookup_lr _ _ _ _ _ _ HoB Hl Ho') as Hlo. cbn in Hlo.
    rewrite writes_lookup_ne; [done|].
    rewrite fst_zip by lia. intros Hin.
    apply NoDup_app in HndO as (_ & Hd & _). apply (Hd l Hin).
    by eapply list_elem_of_lookup_2.
Qed.

End CombinePairStore.

(** *** Regrouping bits ([bech32_address.py], [_convertbits]) *)

(** The number that a list of [w]-bit digits writes, first digit first. *)
Definition value_of (w : Z) (l : list Z) : Z :=
  fold_left (fun a x => a * 2 ^ w + x) l 0.

Definition in_range (w : Z) (l : list Z) : Prop :=
  Forall (fun x => 0 <= x < 2 ^ w) l.

Lemma value_of_snoc w l x : value_of w (l ++ [x]) = value_of w l * 2 ^ w + x.
Proof. unfold value_of. by rewrite fold_left_app. Qed.

Lemma land_mask x k : 0 <= k -> Z.land x (Z.shiftl 1 k - 1) = x mod 2 ^ k.
Proof.
  intros Hk. rewrite Z.shiftl_1_l.
  replace (2 ^ k - 1) with (Z.ones k) by (rewrite Z.ones_equiv; lia).
  by apply Z.land_ones.
Qed.

Lemma lor_shift a v f :
  0 <= f -> 0 <= v < 2 ^ f -> Z.lor (Z.shiftl a f) v = a * 2 ^ f + v.
Proof.
  intros Hf Hv.
  assert (Hland : Z.land (Z.shiftl a f) v = 0).
  { apply Z.bits_inj'. intros n Hn. rewrite Z.land_spec, Z.bits_0.
    destruct (Z.lt_ge_cases n f) as [Hlt|Hge].
    - by rewrite Z.shiftl_spec_low.
    - rewrite <- (Z.mod_small v (2 ^ f)) by done.
      rewrite Z.mod_pow2_bits_high by lia. apply andb_false_r. }
  rewrite <- Z.lxor_lor by done. rewrite <- Z.add_nocarry_lxor by done.
  by rewrite Z.shiftl_mul_pow2.
Qed.

Lemma py_shl_Ok a n : 0 <= n -> py_shl a n = Ok (a * 2 ^ n).
Proof.
  intros Hn. unfold py_shl. destruct (n <? 0) eqn:E; [apply Z.ltb_lt in E; lia|].
  by rewrite Z.shiftl_mul_pow2.
Qed.

Lemma py_shr_Ok a n : 0 <= n -> py_shr a n = Ok (a / 2 ^ n).
Proof.
  intros Hn. unfold py_shr. destruct (n <? 0) eqn:E; [apply Z.ltb_lt in E; lia|].
  by rewrite Z.shiftr_div_pow2.
Qed.

Lemma pow2_pos k : 0 <= k -> 0 < 2 ^ k.
Proof. intros. by apply Z.pow_pos_nonneg. Qed.

(** The low [c + t] bits are the low [c] bits under the next [t]. *)
Lemma mod_pow2_split a c t :
  0 <= c -> 0 <= t ->
  a mod 2 ^ (c + t) = (a / 2 ^ c) mod 2 ^ t * 2 ^ c + a mod 2 ^ c.
Proof.
  intros Hc Ht. rewrite Z.pow_add_r by done.
  pose proof (pow2_pos c Hc). pose proof (pow2_pos t Ht).
  rewrite Z.rem_mul_r by lia. lia.
Qed.

(** The loop [while bits >= tobits] *)
Lemma _convertbits_while_spec t acc :
  1 <= t ->
  forall fuel b ret,
    0 <= b -> (Z.to_nat b < fuel)%nat ->
    exists b' new,
      _convertbits_while fuel acc b t (Z.shiftl 1 t - 1) ret
        = Ok (b', ret ++ new) /\
      0 <= b' < t /\ b = b' + len new * t /\ in_range t new /\
      value_of t (ret ++ new) * 2 ^ b' + acc mod 2 ^ b' =
        value_of t ret * 2 ^ b + acc mod 2 ^ b.
Proof.
  intros Ht. induction fuel as [|fuel IH]; intros b ret Hb Hfuel; [lia|].
  cbn [_convertbits_while]. destruct (t <=? b) eqn:E.
  - apply Z.leb_le in E. cbv zeta.
    rewrite py_shr_Ok by lia. cbn [mbind result_bind].
    rewrite land_mask by lia.
    set (e := (acc / 2 ^ (b - t)) mod 2 ^ t).
    destruct (IH (b - t) (ret ++ [e])) as (b' & new & Hrun & Hb' & Hlen & Hr & Hv);
      [lia|lia|].
    exists b', (e :: new). rewrite <- app_assoc in Hrun, Hv. cbn [app] in Hrun, Hv.
    split; [done|]. split; [done|]. split.
    { unfold len in *. cbn [length]. lia. }
    split.
    { constructor; [|done]. apply Z.mod_pos_bound. apply pow2_pos. lia. }
    rewrite Hv, value_of_snoc.
    replace b with ((b - t) + t) at 3 4 by lia.
    rewrite (mod_pow2_split acc (b - t) t) by lia.
    rewrite Z.pow_add_r by lia. fold e. lia.
  - apply Z.leb_gt in E. exists b, []. rewrite app_nil_r.
    split; [done|]. split; [lia|]. split; [unfold len; simpl; lia|].
    split; [constructor|done].
Qed.

(** What holds of [acc], [bits] and [ret] after the digits [seen]. *)
Definition regrouped (f t : Z) (seen : list Z) (st : Z * Z * list Z)
  : Prop :=
  let '(acc, bits, ret) := st in
  0 <= bits < t /\ in_range t ret /\
  len ret * t + bits = len seen * f /\
  value_of f seen = value_of t ret * 2 ^ bits + acc mod 2 ^ bits.

Lemma _convertbits_step_spec f t seen st v :
  1 <= f -> 1 <= t ->
  regrouped f t seen st -> 0 <= v < 2 ^ f ->
  exists st',
    _convertbits_step f t (Z.shiftl 1 t - 1) (Z.shiftl 1 (f + t - 1) - 1) st v
      = Ok st' /\
    regrouped f t (seen ++ [v]) st'.
Proof.
  intros Hf Ht Hinv Hv. destruct st as [[acc bits] ret].
  destruct Hinv as (Hb & Hr & Hlen & Hval).
  unfold _convertbits_step.
  destruct (v <? 0) eqn:E0; [apply Z.ltb_lt in E0; lia|].
  rewrite py_shr_Ok by lia. cbn [mbind result_bind].
  rewrite Z.div_small by done. cbn [Z.eqb negb].
  rewrite py_shl_Ok by lia. cbn [mbind result_bind]. cbv zeta.
  rewrite <- (Z.shiftl_mul_pow2 acc f) by lia.
  rewrite lor_shift by (done || lia). rewrite land_mask by lia.
  set (acc1 := (acc * 2 ^ f + v) mod 2 ^ (f + t - 1)).
  destruct (_convertbits_while_spec t acc1 Ht (S (Z.to_nat (bits + f)))
              (bits + f) ret) as (b' & new & Hrun & Hb' & Hl' & Hr' & Hv');
    [lia|lia|].
  rewrite Hrun. cbn [mbind result_bind].
  eexists. split; [reflexivity|].
  assert (Hacc1 : acc1 mod 2 ^ (bits + f) = acc mod 2 ^ bits * 2 ^ f + v).
  { unfold acc1.
    rewrite Z.mod_mod_divide.
    - rewrite (Z.div_mod acc (2 ^ bits)) at 1 by (pose proof (pow2_pos bits); lia).
      replace ((2 ^ bits * (acc / 2 ^ bits) + acc mod 2 ^ bits) * 2 ^ f + v)
        with ((acc mod 2 ^ bits * 2 ^ f + v) + (acc / 2 ^ bits) * 2 ^ (bits + f))
        by (rewrite Z.pow_add_r by lia; lia).
      rewrite Z_mod_plus_full. apply Z.mod_small.
      pose proof (Z.mod_pos_bound acc (2 ^ bits) (pow2_pos bits ltac:(lia))).
      rewrite Z.pow_add_r by lia. pose proof (pow2_pos f). nia.
    - exists (2 ^ (t - 1 - bits)). rewrite <- Z.pow_add_r by lia.
      f_equal. lia. }
  split; [done|]. split.
  { apply Forall_app. done. }
  split.
  { unfold len in *. rewrite !length_app. cbn [length]. lia. }
  rewrite Hv', Hacc1, value_of_snoc, Hval. rewrite Z.pow_add_r by lia. lia.
Qed.

Lemma _convertbits_fold_spec f t :
  1 <= f -> 1 <= t ->
  forall data seen st,
    regrouped f t seen st -> in_range f data ->
    exists st',
      foldM (_convertbits_step f t (Z.shiftl 1 t - 1)
               (Z.shiftl 1 (f + t - 1) - 1)) data st = Ok st' /\
      regrouped f t (seen ++ data) st'.
Proof.
  intros Hf Ht. induction data as [|v data IH]; intros seen st Hinv Hr.
  - exists st. by rewrite app_nil_r.
  - apply Forall_cons in Hr as [Hv Hr].
    destruct (_convertbits_step_spec f t seen st v Hf Ht Hinv Hv)
      as (st1 & Hstep & Hinv1).
    destruct (IH (seen ++ [v]) st1 Hinv1 Hr) as (st' & Hfold & Hinv').
    exists st'. cbn [foldM]. rewrite Hstep. cbn [mbind result_bind].
    rewrite <- app_assoc in Hinv'. done.
Qed.

Lemma regrouped_start f t : 1 <= t -> regrouped f t [] (0, 0, []).
Proof.
  intros Ht. unfold regrouped. split; [lia|]. split; [constructor|].
  split; [done|]. done.
Qed.

(** With padding, the digits written are those of the number of the
    input followed by [pad] zero bits. *)
Lemma _convertbits_pad f t data :
  1 <= f -> 1 <= t -> in_range f data ->
  exists ret pad,
    _convertbits data f t true = Ok ret /\
    in_range t ret /\ 0 <= pad < t /\
    len ret * t = len data * f + pad /\
    value_of t ret = value_of f data * 2 ^ pad.
Proof.
  intros Hf Ht Hr. unfold _convertbits.
  rewrite !py_shl_Ok by lia. cbn [mbind result_bind]. cbv zeta.
  rewrite <- !(Z.shiftl_mul_pow2 1) by lia.
  destruct (_convertbits_fold_spec f t Hf Ht data [] (0, 0, [])
              (regrouped_start f t Ht) Hr) as ([[acc bits] ret] & Hfold & Hinv).
  rewrite Hfold. cbn [mbind result_bind app] in *.
  destruct Hinv as (Hb & Hrr & Hlen & Hval).
  destruct (bits =? 0) eqn:E; cbn [negb].
  - apply Z.eqb_eq in E. subst bits. exists ret, 0.
    split; [done|]. split; [done|]. split; [lia|]. split; [lia|].
    rewrite Hval. simpl. rewrite Z.mod_1_r. lia.
  - apply Z.eqb_neq in E. rewrite py_shl_Ok by lia. cbn [mbind result_bind].
    rewrite land_mask by lia.
    exists (ret ++ [(acc * 2 ^ (t - bits)) mod 2 ^ t]), (t - bits).
    split; [done|].
    assert (He : (acc * 2 ^ (t - bits)) mod 2 ^ t
                 = acc mod 2 ^ bits * 2 ^ (t - bits)).
    { replace t with (bits + (t - bits)) at 2 by lia.
      rewrite Z.pow_add_r by lia.
      rewrite Z.mul_mod_distr_r; [done| |].
      - pose proof (pow2_pos bits). lia.
      - pose proof (pow2_pos (t - bits)). lia. }
    split.
    { apply Forall_app. split; [done|]. constructor; [|constructor].
      apply Z.mod_pos_bound. apply pow2_pos. lia. }
    split; [lia|]. split.
    { unfold len in *. rewrite length_app. cbn [length]. lia. }
    rewrite value_of_snoc, He, Hval.
    replace t with (bits + (t - bits)) at 2 by lia.
    rewrite Z.pow_add_r by lia. lia.
Qed.

(** Lists of as many digits in range that write one number are equal. *)
Lemma value_of_inj w :
  0 <= w ->
  forall l l', length l = length l' -> in_range w l -> in_range w l' ->
    value_of w l = value_of w l' -> l = l'.
Proof.
  intros Hw. induction l as [|x l IH] using rev_ind; intros l' Hlen Hr Hr' Hv.
  - destruct l'; [done|]. simpl in Hlen. lia.
  - destruct l' as [|x' l' _] using rev_ind.
    { rewrite length_app in Hlen. simpl in Hlen. lia. }
    rewrite !length_app in Hlen. simpl in Hlen.
    apply Forall_app in Hr as [Hr Hx]. apply Forall_app in Hr' as [Hr' Hx'].
    apply Forall_inv in Hx. apply Forall_inv in Hx'.
    rewrite !value_of_snoc in Hv.
    pose proof (pow2_pos w Hw).
    assert (x = x').
    { assert (H1 : (value_of w l * 2 ^ w + x) mod 2 ^ w = x).
      { rewrite Z.add_comm, Z_mod_plus_full. apply Z.mod_small, Hx. }
      assert (H2 : (value_of w l' * 2 ^ w + x') mod 2 ^ w = x').
      { rewrite Z.add_comm, Z_mod_plus_full. apply Z.mod_small, Hx'. }
      rewrite Hv in H1. congruence. }
    subst x'. f_equal. apply IH; [lia|done|done|nia].
Qed.

(** Regrouping the digits of [data], of [f] bits each, into digits of
    [t] bits with padding, and those back into digits of [f] bits without
    padding, gives [data] back, when [t] is at most [f]: bytes to 5-bit
    groups and back. *)
Theorem _convertbits_round_trip (data : list Z) (f t : Z) :
  1 <= t <= f ->
  in_range f data ->
  exists groups,
    _convertbits data f t true = Ok groups /\
    in_range t groups /\
    _convertbits groups t f false = Ok data.
Proof.
  intros [Ht Htf] Hr. assert (Hf : 1 <= f) by lia.
  destruct (_convertbits_pad f t data Hf Ht Hr)
    as (groups & pad & Henc & Hrg & Hpad & Hlen & Hval).
  exists groups. split; [done|]. split; [done|].
  unfold _convertbits.
  rewrite !py_shl_Ok by lia. cbn [mbind result_bind]. cbv zeta.
  rewrite <- !(Z.shiftl_mul_pow2 1) by lia.
  destruct (_convertbits_fold_spec t f Ht Hf groups [] (0, 0, [])
              (regrouped_start t f Hf) Hrg) as ([[acc bits] ret] & Hfold & Hinv).
  rewrite Hfold. cbn [mbind result_bind app] in *.
  destruct Hinv as (Hb & Hrr & Hlen2 & Hval2).
  assert (Hbits : bits = pad /\ length ret = length data).
  { unfold len in *.
    assert (Z.of_nat (length ret) = Z.of_nat (length data)) as Hl;
      [|split; [nia|lia]].
    destruct (Z.lt_trichotomy (Z.of_nat (length ret))
                (Z.of_nat (length data))) as [Hlt|[Heq|Hgt]]; [|done|].
    - assert ((Z.of_nat (length ret) + 1) * f <= Z.of_nat (length data) * f)
        by (apply Z.mul_le_mono_nonneg_r; lia). lia.
    - assert ((Z.of_nat (length data) + 1) * f <= Z.of_nat (length ret) * f)
        by (apply Z.mul_le_mono_nonneg_r; lia). lia. }
  destruct Hbits as [-> Hlr].
  pose proof (pow2_pos pad ltac:(lia)) as Hpp.
  assert (Hz : acc mod 2 ^ pad = 0 /\ value_of f ret = value_of f data).
  { rewrite Hval in Hval2.
    pose proof (Z.mod_pos_bound acc (2 ^ pad) Hpp) as Hm.
    remember (2 ^ pad) as P eqn:EP. remember (acc mod P) as r eqn:Er.
    clear EP Er.
    assert (value_of f ret = value_of f data) as Hl; [|split; [nia|done]].
    destruct (Z.lt_trichotomy (value_of f ret) (value_of f data))
      as [Hlt|[Heq|Hgt]]; [|done|].
    - assert ((value_of f ret + 1) * P <= value_of f data * P)
        by (apply Z.mul_le_mono_nonneg_r; lia). lia.
    - assert ((value_of f data + 1) * P <= value_of f ret * P)
        by (apply Z.mul_le_mono_nonneg_r; lia). lia. }
  destruct Hz as [Hz Hv].
  destruct (t <=? pad) eqn:E; [apply Z.leb_le in E; lia|].
  rewrite py_shl_Ok by lia. cbn [mbind result_bind].
  rewrite land_mask by lia.
  assert (Hzero : (acc * 2 ^ (f - pad)) mod 2 ^ f = 0).
  { replace f with (pad + (f - pad)) at 2 by lia.
    rewrite Z.pow_add_r by lia.
    rewrite Z.mul_mod_distr_r, Hz; [done|lia|].
    pose proof (pow2_pos (f - pad)). lia. }
  rewrite Hzero. cbn [Z.eqb negb]. f_equal.
  apply (value_of_inj f); [lia|done|done|done|done].
Qed.

(** The other way round: the groups that the conversion without padding
    accepts are the ones that the conversion with padding writes for the
    digits it returns. No two lists of groups are read as the same
    digits. *)
Theorem _convertbits_accepts_own_output (groups data : list Z) (f t : Z) :
  1 <= f -> 1 <= t ->
  in_range t groups ->
  _convertbits groups t f false = Ok data ->
  in_range f data /\ _convertbits data f t true = Ok groups.
Proof.
  intros Hf Ht Hrg Hdec. unfold _convertbits in Hdec.
  rewrite !py_shl_Ok in Hdec by lia. cbn [mbind result_bind] in Hdec.
  cbv zeta in Hdec. rewrite <- !(Z.shiftl_mul_pow2 1) in Hdec by lia.
  destruct (_convertbits_fold_spec t f Ht Hf groups [] (0, 0, [])
              (regrouped_start t f Hf) Hrg) as ([[acc bits] ret] & Hfold & Hinv).
  rewrite Hfold in Hdec. cbn [mbind result_bind app] in *.
  destruct Hinv as (Hb & Hrr & Hlen & Hval).
  destruct (t <=? bits) eqn:E; [done|]. apply Z.leb_gt in E.
  rewrite py_shl_Ok in Hdec by lia. cbn [mbind result_bind] in Hdec.
  rewrite land_mask in Hdec by lia.
  destruct ((acc * 2 ^ (f - bits)) mod 2 ^ f =? 0) eqn:Ez; [|done].
  apply Z.eqb_eq in Ez. cbn [negb] in Hdec. injection Hdec as <-.
  split; [done|].
  pose proof (pow2_pos bits ltac:(lia)) as Hpb.
  pose proof (pow2_pos (f - bits) ltac:(lia)) as Hpf.
  assert (Hz : acc mod 2 ^ bits = 0).
  { replace f with (bits + (f - bits)) in Ez at 2 by lia.
    rewrite Z.pow_add_r in Ez by lia.
    rewrite Z.mul_mod_distr_r in Ez by lia. nia. }
  rewrite Hz, Z.add_0_r in Hval.
  destruct (_convertbits_pad f t ret Hf Ht Hrr)
    as (groups' & pad & Henc & Hrg' & Hpad & Hlen' & Hval').
  rewrite Henc. f_equal.
  assert (Hbits : pad = bits /\ length groups' = length groups).
  { unfold len in *.
    assert (Z.of_nat (length groups') = Z.of_nat (length groups)) as Hl;
      [|split; [nia|lia]].
    destruct (Z.lt_trichotomy (Z.of_nat (length groups'))
                (Z.of_nat (length groups))) as [Hlt|[Heq|Hgt]]; [|done|].
    - assert ((Z.of_nat (length groups') + 1) * t
              <= Z.of_nat (length groups) * t)
        by (apply Z.mul_le_mono_nonneg_r; lia). lia.
    - assert ((Z.of_nat (length groups) + 1) * t
              <= Z.of_nat (length groups') * t)
        by (apply Z.mul_le_mono_nonneg_r; lia). lia. }
  destruct Hbits as [-> Hl].
  apply (value_of_inj t); [lia|done|done|done|congruence].
Qed.

(** A digit that does not fit in [frombits] bits, or is negative, is
    refused where the loop meets it: nothing is truncated. *)
Theorem _convertbits_rejects_out_of_range
  (seen rest : list Z) (v f t : Z) (pad : bool) :
  1 <= f -> 1 <= t ->
  in_range f seen ->
  ~ (0 <= v < 2 ^ f) ->
  _convertbits (seen ++ v :: rest) f t pad =
    Raise (BTClibValueError ("invalid value in _convertbits: " +:+ pretty v)).
Proof.
  intros Hf Ht Hr Hv. unfold _convertbits.
  rewrite !py_shl_Ok by lia. cbn [mbind result_bind]. cbv zeta.
  rewrite <- !(Z.shiftl_mul_pow2 1) by lia.
  destruct (_convertbits_fold_spec f t Hf Ht seen [] (0, 0, [])
              (regrouped_start f t Ht) Hr) as ([[acc bits] ret] & Hfold & _).
  rewrite foldM_app, Hfold. cbn [mbind result_bind foldM].
  assert (Hstep :
    _convertbits_step f t (Z.shiftl 1 t - 1) (Z.shiftl 1 (f + t - 1) - 1)
      (acc, bits, ret) v =
    Raise (BTClibValueError ("invalid value in _convertbits: " +:+ pretty v))).
  { unfold _convertbits_step. destruct (v <? 0) eqn:E0; [done|].
    apply Z.ltb_ge in E0. rewrite py_shr_Ok by lia. cbn [mbind result_bind].
    destruct (v / 2 ^ f =? 0) eqn:Ed; [|done].
    apply Z.eqb_eq in Ed. pose proof (pow2_pos f ltac:(lia)).
    apply Z.div_small_iff in Ed; [|lia]. lia. }
  by rewrite Hstep.
Qed.

(** * Examples

    The theorems above at concrete containers, evaluated with the
    stand-in collaborators of [Demo]. *)

#[local] Existing Instance Demo.collaborators.

(** ** The codec *)

(** A container whose input record holds the empty proof-of-reserves
    commitment, as [Psbt.deserialize] returns it for a record with the
    entry [09 -> empty]. *)
Definition psbt_empty_commitment : Psbt :=
  Psbt.mk tx_one_input
    [PsbtInput.set_por_commitment (Some "") PsbtInput.default]
    [PsbtOutput.default] (Some 0) [] [] [].

Definition psbt_no_commitment : Psbt :=
  Psbt.mk tx_one_input [PsbtInput.default] [PsbtOutput.default]
    (Some 0) [] [] [].

Definition wire_empty_commitment : string :=
  "cHNidP8BAEACAAAAAR8eHRwbGhkYFxYVFBMSERAPDg0MCwoJCAcGBQQDAgEAAQAAAAD/////AYgTAAAAAAAABAACqrsAAAAAAAEJAAAA".

Definition wire_no_commitment : string :=
  "cHNidP8BAEACAAAAAR8eHRwbGhkYFxYVFBMSERAPDg0MCwoJCAcGBQQDAgEAAQAAAAD/////AYgTAAAAAAAABAACqrsAAAAAAAAA".

(** C1, as stated, fails: [psbt_empty_commitment] is a container that
    [Psbt.deserialize] returns and [Psbt.assert_valid] accepts;
    [Psbt.serialize] leaves its empty commitment out ([if
    self.por_commitment:]), and deserializing the string gives a
    container whose record has no commitment. *)
Lemma round_trip_loses_empty_commitment :
  Psbt_deserialize wire_empty_commitment = Ok psbt_empty_commitment /\
  Psbt_assert_valid psbt_empty_commitment = Ok tt /\
  Psbt_serialize psbt_empty_commitment = Ok wire_no_commitment /\
  Psbt_deserialize wire_no_commitment = Ok psbt_no_commitment /\
  psbt_no_commitment <> psbt_empty_commitment.
Proof.
  split; [by vm_compute|]. split; [by vm_compute|].
  split; [by vm_compute|]. split; [by vm_compute|]. done.
Qed.

(** A container with an attribute of every kind. *)
Definition pubkey_a : string :=
  "021111111111111111111111111111111111111111111111111111111111111111".
Definition pubkey_b : string :=
  "032222222222222222222222222222222222222222222222222222222222222222".
Definition xpub_a : string :=
  hex (x04 :: x88 :: xb2 :: x1e :: repeat x00 73 ++ [x01]).

Definition input_full : PsbtInput :=
  PsbtInput.mk None (Some (TxOut.mk 5000 [TInt 0; TStr "AABB"]))
    [(pubkey_a, "3044")] (Some 1) [] []
    [HdKeypath.mk pubkey_b "aabbccdd" "0000008001000000"]
    [TInt 1; TStr "AB"] ["aa"; ""] (Some "dead")
    [(7, [("01", "02"); ("", "ff")]); (300, [("aa", "")])]
    [("f0aa", "bb"); ("0a", "")].

Definition output_full : PsbtOutput :=
  PsbtOutput.mk [TInt 2] [TStr "CC"; TInt 0]
    [HdKeypath.mk pubkey_a "01020304" ""]
    [(1, [("", "")])] [("0f", "01")].

Definition psbt_full : Psbt :=
  Psbt.mk tx_one_input [input_full] [output_full] (Some 2)
    [HdKeypath.mk xpub_a "01020304" "00000080"] [(5, [("00", "11")])]
    [("ee", "01")].

(** Decides the conditions of the canonical form on a concrete value. *)
Ltac canonical_leaf :=
  first
    [ exact I
    | by eexists
    | apply (bool_decide_unpack _); vm_compute; reflexivity
    | vm_compute; first [reflexivity | done | by split | lia] ].

Ltac canonical :=
  cbv [Psbt_canonical globals_canonical PsbtInput_canonical
       PsbtOutput_canonical hd_keypath_ok prop_owner_ok unknown_ok
       psbt_full input_full output_full from_option
       Psbt.tx Psbt.inputs Psbt.outputs Psbt.version Psbt.hd_keypaths
       Psbt.proprietary Psbt.unknown
       PsbtInput.non_witness_utxo PsbtInput.witness_utxo
       PsbtInput.partial_sigs PsbtInput.sighash PsbtInput.redeem_script
       PsbtInput.witness_script PsbtInput.hd_keypaths
       PsbtInput.final_script_sig PsbtInput.final_script_witness
       PsbtInput.por_commitment PsbtInput.proprietary PsbtInput.unknown
       PsbtOutput.redeem_script PsbtOutput.witness_script
       PsbtOutput.hd_keypaths PsbtOutput.proprietary PsbtOutput.unknown
       HdKeypath.xpub HdKeypath.fingerprint HdKeypath.derivation_path
       fst snd];
  repeat match goal with
         | |- _ /\ _ => split
         | |- Forall _ [] => apply Forall_nil
         | |- Forall _ (_ :: _) => apply Forall_cons
         end;
  canonical_leaf.

Lemma psbt_full_canonical : Psbt_canonical psbt_full.
Proof. canonical. Qed.

Lemma canonical_round_trip_witness :
  exists s, Psbt_serialize psbt_full = Ok s /\
            Psbt_deserialize s = Ok psbt_full.
Proof.
  eexists. split; [by vm_compute|].
  apply canonical_round_trip; [canonical|by vm_compute].
Defined.

(** ** The map codec *)

Lemma deserialize_map_rejects_duplicate_key_witness :
  deserialize_map
    ([x01; x01; x01; x02; x01; x01; x01; x03] ++ [x00]) =
    Raise (AssertionError "Malformed psbt: duplicate keys").
Proof.
  apply (deserialize_map_rejects_duplicate_key
           [([x01], [x02]); ([x01], [x03])] _ [x00] 0 1 [x01] [x02] [x03]).
  - repeat constructor; done.
  - reflexivity.
  - lia.
  - reflexivity.
  - reflexivity.
Defined.

(** ** The finalizer and the extractor *)

(** A store with one container over [tx_one_input], whose record holds
    two partial signatures, a redeem script and a witness script. *)
Definition record_two_sigs : PsbtInput :=
  PsbtInput.mk None None [("02aa", "3044"); ("03bb", "3045")] (Some 1)
    [TInt 0; TStr "AB"] [TInt 2; TStr "CD"; TInt 1] [] [] [] None [] [].

Definition container_0 : PsbtObj := PsbtObj.mk 0 [0%nat] [0%nat] (Some 0) [] [] [].

Definition store_two_sigs : store :=
  mkStore [tx_one_input] [record_two_sigs] [PsbtOutput.default] [container_0].

Definition psbt_two_sigs : Psbt :=
  Psbt.mk tx_one_input [record_two_sigs] [PsbtOutput.default] (Some 0)
    [] [] [].

Lemma finalize_two_signatures_stack_witness :
  exists p' s' v' r',
    finalize_psbt 0%nat store_two_sigs = (Ok p', s') /\
    load s' p' = Some v' /\
    Psbt.inputs v' !! 0%nat = Some r' /\
    PsbtInput.final_script_witness r' =
      [""; "3044"; "3045"; hex [x52; x01; xcd; x51]] /\
    PsbtInput.final_script_sig r' = [TStr (upper (hex [x00; x01; xab]))].
Proof.
  apply (finalize_two_signatures_stack store_two_sigs 0%nat container_0
           psbt_two_sigs 0%nat record_two_sigs "02aa" "3044" "03bb" "3045").
  - reflexivity.
  - reflexivity.
  - apply NoDup_singleton.
  - repeat constructor.
  - reflexivity.
  - done.
  - reflexivity.
  - done.
  - reflexivity.
  - reflexivity.
Defined.

Lemma finalize_needs_partial_sigs_and_clears_witness :
  (Exists (fun r => PsbtInput.partial_sigs r = []) (Psbt.inputs psbt_two_sigs) ->
   exists e s', finalize_psbt 0%nat store_two_sigs = (Raise e, s')) /\
  (forall p' s',
     finalize_psbt 0%nat store_two_sigs = (Ok p', s') ->
     exists v',
       load s' p' = Some v' /\
       Forall cleared (Psbt.inputs v') /\
       (Psbt.inputs v' <> [] ->
        exists e s'', finalize_psbt p' s' = (Raise e, s''))).
Proof.
  apply (finalize_needs_partial_sigs_and_clears store_two_sigs 0%nat
           psbt_two_sigs).
  reflexivity.
Defined.

(** A store with one finalized container. *)
Definition record_final : PsbtInput :=
  PsbtInput.mk None None [] (Some 0) [] [] [] [TStr "AB"] ["aa"] None [] [].

Definition store_final : store :=
  mkStore [tx_one_input] [record_final] [PsbtOutput.default] [container_0].

Definition psbt_final : Psbt :=
  Psbt.mk tx_one_input [record_final] [PsbtOutput.default] (Some 0) [] [] [].

Lemma extract_tx_writes_through_container_witness :
  exists s' v',
    extract_tx 0%nat store_final = (Ok 0%nat, s') /\
    psbts s' = psbts store_final /\ ins s' = ins store_final /\
    outs s' = outs store_final /\
    load s' 0%nat = Some v' /\
    Psbt.inputs v' = [record_final] /\
    Forall2 (fun vin' '(vin, r) =>
               TxIn.scriptSig vin' = PsbtInput.final_script_sig r /\
               TxIn.txinwitness vin' =
                 (if nonempty (PsbtInput.final_script_witness r)
                  then PsbtInput.final_script_witness r
                  else TxIn.txinwitness vin))
      (Tx.vin (Psbt.tx v')) (zip (Tx.vin tx_one_input) [record_final]) /\
    Psbt_assert_valid v' = Raise (AssertionError "").
Proof.
  apply (extract_tx_writes_through_container store_final 0%nat container_0
           psbt_final).
  - reflexivity.
  - reflexivity.
  - repeat constructor; done.
  - split; [reflexivity|done].
Defined.

(** ** The combiner *)

Lemma combine_with_itself_is_noop_witness :
  combine_psbts [0%nat; 0%nat] store_two_sigs = (Ok 0%nat, store_two_sigs) /\
  load store_two_sigs 0%nat = Some psbt_two_sigs.
Proof.
  apply (combine_with_itself_is_noop store_two_sigs 0%nat psbt_two_sigs).
  - reflexivity.
  - repeat split; repeat constructor;
      apply (bool_decide_unpack _); by vm_compute.
  - by vm_compute.
Defined.

(** Two containers over the same transaction, each with the signature of
    one co-signer. *)
Definition record_signer_1 : PsbtInput :=
  PsbtInput.set_partial_sigs [("02aa", "3044")] PsbtInput.default.
Definition record_signer_2 : PsbtInput :=
  PsbtInput.set_partial_sigs [("03bb", "3045")] PsbtInput.default.

Definition container_1 : PsbtObj := PsbtObj.mk 1 [1%nat] [1%nat] (Some 0) [] [] [].

Definition store_two_signers : store :=
  mkStore [tx_one_input; tx_one_input] [record_signer_1; record_signer_2]
    [PsbtOutput.default; PsbtOutput.default] [container_0; container_1].

Definition psbt_signer_1 : Psbt :=
  Psbt.mk tx_one_input [record_signer_1] [PsbtOutput.default] (Some 0)
    [] [] [].
Definition psbt_signer_2 : Psbt :=
  Psbt.mk tx_one_input [record_signer_2] [PsbtOutput.default] (Some 0)
    [] [] [].

Lemma combine_unions_partial_sigs_witness :
  exists s' v',
    combine_psbts [0%nat; 1%nat] store_two_signers = (Ok 0%nat, s') /\
    load s' 0%nat = Some v' /\
    Forall2 (fun ab r =>
               later_wins (PsbtInput.partial_sigs ab.1)
                 (PsbtInput.partial_sigs ab.2) (PsbtInput.partial_sigs r))
      (zip [record_signer_1] [record_signer_2]) (Psbt.inputs v').
Proof.
  apply (combine_unions_partial_sigs store_two_signers 0%nat 1%nat
           psbt_signer_1 psbt_signer_2).
  - done.
  - reflexivity.
  - reflexivity.
  - split; apply (bool_decide_unpack _); by vm_compute.
  - by vm_compute.
  - reflexivity.
  - repeat constructor; by intros ? ?.
  - reflexivity.
  - repeat constructor. apply (bool_decide_unpack _). by vm_compute.
Defined.

(** C3, as stated, fails: two containers that the validator accepts,
    over one transaction, each with the signature of one co-signer under
    a key of its own, whose records name two signature-hash types.
    [_combine] merges the signatures, then meets [sighash] set in both
    records with two values and raises. *)
Definition record_sighash_1 : PsbtInput :=
  PsbtInput.set_sighash (Some 1) record_signer_1.
Definition record_sighash_2 : PsbtInput :=
  PsbtInput.set_sighash (Some 2) record_signer_2.

Definition store_sighash_conflict : store :=
  mkStore [tx_one_input; tx_one_input] [record_sighash_1; record_sighash_2]
    [PsbtOutput.default; PsbtOutput.default] [container_0; container_1].

Definition psbt_sighash_1 : Psbt :=
  Psbt.mk tx_one_input [record_sighash_1] [PsbtOutput.default] (Some 0)
    [] [] [].
Definition psbt_sighash_2 : Psbt :=
  Psbt.mk tx_one_input [record_sighash_2] [PsbtOutput.default] (Some 0)
    [] [] [].

Lemma combine_raises_on_sighash_conflict :
  load store_sighash_conflict 0%nat = Some psbt_sighash_1 /\
  load store_sighash_conflict 1%nat = Some psbt_sighash_2 /\
  Psbt_assert_valid psbt_sighash_1 = Ok tt /\
  Psbt_assert_valid psbt_sighash_2 = Ok tt /\
  is_ok (Tx_txid (Psbt.tx psbt_sighash_1)) = true /\
  Tx_txid (Psbt.tx psbt_sighash_2) = Tx_txid (Psbt.tx psbt_sighash_1) /\
  dict_keys (PsbtInput.partial_sigs record_sighash_1) = ["02aa"] /\
  dict_keys (PsbtInput.partial_sigs record_sighash_2) = ["03bb"] /\
  (combine_psbts [0%nat; 1%nat] store_sighash_conflict).1
    = Raise (AssertionError "sighash").
Proof. repeat split; by vm_compute. Qed.

(** C4, as stated, fails: a container that the validator accepts, over a
    transaction that has no output yet. [Tx.assert_valid] refuses the
    transaction, so it has no transaction id, and [combine_psbts] on the
    container twice raises. *)
Definition tx_no_output : Tx :=
  Tx.mk 2 0 [TxIn.mk (OutPoint.mk txid0 1) [] 4294967295 []] [].

Definition psbt_no_output : Psbt :=
  Psbt.mk tx_no_output [PsbtInput.default] [] (Some 0) [] [] [].

Definition store_no_output : store :=
  mkStore [tx_no_output] [PsbtInput.default] []
    [PsbtObj.mk 0 [0%nat] [] (Some 0) [] [] []].

Lemma combine_with_itself_raises_without_txid :
  load store_no_output 0%nat = Some psbt_no_output /\
  Psbt_assert_valid psbt_no_output = Ok tt /\
  combine_psbts [0%nat; 0%nat] store_no_output
    = (Raise ValueError, store_no_output).
Proof. repeat split; by vm_compute. Qed.

Lemma combine_single_container_raises_witness :
  combine_psbts [0%nat] store_two_sigs =
    (Raise UnboundLocalError, store_two_sigs).
Proof.
  apply (combine_single_container_raises store_two_sigs 0%nat psbt_two_sigs).
  - reflexivity.
  - by vm_compute.
Defined.

Lemma finalize_psbt_leaves_argument_witness :
  1%nat <> 0%nat /\
  load (snd (finalize_psbt 0%nat store_two_sigs)) 0%nat = Some psbt_two_sigs.
Proof.
  apply (finalize_psbt_leaves_argument store_two_sigs 0%nat container_0
           psbt_two_sigs 1%nat (snd (finalize_psbt 0%nat store_two_sigs))).
  - reflexivity.
  - reflexivity.
  - apply NoDup_singleton.
  - by vm_compute.
Defined.

(** ** The validator *)

Lemma Psbt_assert_valid_input_skips_witness :
  Psbt_assert_valid_input psbt_no_commitment None
    (0, TxIn.mk (OutPoint.mk txid0 1) [] 4294967295 []) = Ok None.
Proof.
  apply (Psbt_assert_valid_input_skips psbt_no_commitment None 0 _
           PsbtInput.default); reflexivity.
Defined.

(** ** The records on their own *)

Definition wire_input_full : bytes :=
  Eval vm_compute in
    match PsbtInput_serialize input_full with Ok w => w | Raise _ => [] end.

Definition wire_output_full : bytes :=
  Eval vm_compute in
    match PsbtOutput_serialize output_full with Ok w => w | Raise _ => [] end.

Lemma PsbtInput_decode_serialize_witness :
  exists input_map,
    deserialize_map (wire_input_full ++ x00 :: [x2a]) = Ok (input_map, [x2a]) /\
    PsbtInput_decode input_map = Ok input_full.
Proof.
  apply (PsbtInput_decode_serialize input_full wire_input_full [x2a]);
    [canonical|by vm_compute].
Defined.

Lemma PsbtOutput_decode_serialize_witness :
  exists output_map,
    deserialize_map (wire_output_full ++ x00 :: [x2a]) = Ok (output_map, [x2a]) /\
    PsbtOutput_decode output_map = Ok output_full.
Proof.
  apply (PsbtOutput_decode_serialize output_full wire_output_full [x2a]);
    [canonical|by vm_compute].
Defined.

(** ** Buffers that end early *)

Lemma deserialize_map_unterminated_witness :
  deserialize_map [x01; x01; x01; x02] = Raise IndexError.
Proof.
  apply (deserialize_map_unterminated [([x01], [x02])]).
  - done.
  - repeat constructor; done.
  - apply NoDup_singleton.
  - reflexivity.
Defined.

(** A blob whose global map holds the version and no transaction. *)
Definition wire_without_tx : string :=
  Eval vm_compute in
    b64encode (magic ++ [x01; xfb; x04; x02; x00; x00; x00] ++ [x00]).

Lemma Psbt_deserialize_without_tx_witness :
  Psbt_deserialize wire_without_tx = Raise UnboundLocalError.
Proof.
  exact (Psbt_deserialize_without_tx wire_without_tx
           [([xfb], [x02; x00; x00; x00])]
           [x01; xfb; x04; x02; x00; x00; x00] []
           ltac:(by vm_compute) ltac:(reflexivity)
           ltac:(repeat constructor; done) ltac:(apply NoDup_singleton)
           ltac:(repeat constructor; done)).
Defined.

(** ** The validator on scripts *)

(** The [scriptPubKey] that pays to the redeem script [[1]]. *)
Definition spk_p2sh : list Token :=
  Eval vm_compute in
    match script_encode [TInt 1] with
    | Ok e => [TStr (hex (hash160 e))]
    | Raise _ => []
    end.

Definition input_0 : TxIn := TxIn.mk (OutPoint.mk txid0 1) [] 4294967295 [].
Definition input_1 : TxIn := TxIn.mk (OutPoint.mk txid0 0) [] 4294967295 [].

Definition record_p2sh : PsbtInput :=
  PsbtInput.mk None (Some (TxOut.mk 5000 spk_p2sh)) [] (Some 0) [TInt 1] []
    [] [] [] None [] [].

Definition psbt_p2sh : Psbt :=
  Psbt.mk tx_one_input [record_p2sh] [PsbtOutput.default] (Some 0) [] [] [].

Lemma Psbt_assert_valid_sound_witness : input_checked record_p2sh input_0.
Proof.
  apply (Psbt_assert_valid_sound psbt_p2sh 0 input_0 record_p2sh);
    [by vm_compute|reflexivity|reflexivity].
Defined.

(** Two inputs: the first record holds the UTXO, the second the redeem
    script. *)
Definition tx_two_inputs : Tx :=
  Tx.mk 2 0 [input_0; input_1] [TxOut.mk 5000 [TInt 0; TStr "AABB"]].

Definition record_utxo_only : PsbtInput :=
  PsbtInput.set_witness_utxo (Some (TxOut.mk 5000 spk_p2sh)) PsbtInput.default.

Definition record_script_only : PsbtInput :=
  PsbtInput.set_redeem_script [TInt 1] PsbtInput.default.

Definition psbt_stale : Psbt :=
  Psbt.mk tx_two_inputs [record_utxo_only; record_script_only]
    [PsbtOutput.default] (Some 0) [] [] [].

Lemma Psbt_assert_valid_stale_scriptPubKey_witness :
  Psbt_assert_valid psbt_stale = Ok tt <->
  pays_to hash160 [TInt 1] spk_p2sh.
Proof.
  apply (Psbt_assert_valid_stale_scriptPubKey psbt_stale input_0 input_1
           record_utxo_only record_script_only (TxOut.mk 5000 spk_p2sh));
    try reflexivity; done.
Defined.

(** ** A container for a transaction *)

(** A signed transaction: its input carries a [scriptSig] and a witness. *)
Definition tx_signed : Tx :=
  Tx.mk 2 0 [TxIn.mk (OutPoint.mk txid0 1) [TStr "AB"] 4294967295 ["aa"]]
    [TxOut.mk 5000 [TInt 0; TStr "AABB"]].

Definition store_signed : store := mkStore [tx_signed] [] [] [].

Lemma psbt_from_tx_fresh_witness :
  exists p s',
    psbt_from_tx 0%nat store_signed = (Ok p, s') /\
    load s' p = Some (fresh_psbt tx_signed) /\
    Psbt_assert_valid (fresh_psbt tx_signed) = Ok tt /\
    txs s' !! 0%nat = Some tx_signed /\
    forall q v, load store_signed q = Some v ->
                q <> p /\ load s' q = Some v.
Proof.
  apply (psbt_from_tx_fresh store_signed 0%nat tx_signed). reflexivity.
Defined.

(** ** The combiner on containers of two transactions *)






(** ** The extractor at the bounds *)

(** A container with one record over a transaction of two inputs. *)
Definition store_short : store :=
  mkStore [tx_two_inputs] [record_final] [PsbtOutput.default] [container_0].

Definition psbt_short : Psbt :=
  Psbt.mk tx_two_inputs [record_final] [PsbtOutput.default] (Some 0) [] [] [].

Lemma extract_tx_short_records_raises_witness :
  exists s',
    extract_tx 0%nat store_short = (Raise IndexError, s') /\
    load s' 0%nat =
      Some (Psbt.set_tx
              (set_vin [extract_vin input_0 record_final; input_1]
                 tx_two_inputs) psbt_short).
Proof.
  apply (extract_tx_short_records_raises store_short 0%nat psbt_short).
  - reflexivity.
  - simpl. lia.
Defined.

Lemma extract_tx_twice_witness :
  extract_tx 0%nat (extract_tx 0%nat store_final).2 =
    (Ok 0%nat, (extract_tx 0%nat store_final).2).
Proof.
  apply (extract_tx_twice store_final 0%nat psbt_final).
  - reflexivity.
  - simpl. lia.
  - by vm_compute.
Defined.

(** ** Transactions *)

Lemma Tx_legacy_hash_is_txid_witness :
  Tx_hash tx_one_input = Tx_txid tx_one_input /\
  Tx_weight tx_one_input =
    match Tx_size tx_one_input with Ok n => Ok (4 * n) | Raise e => Raise e end.
Proof.
  apply (Tx_legacy_hash_is_txid tx_one_input). repeat constructor.
Defined.

(** The stand-in codecs on streams *)
Lemma read_fixed_app (k : nat) (b rest : bytes) :
  length b = k -> Demo.read_fixed k (b ++ rest) = Ok (b, rest).
Proof.
  intros <-. unfold Demo.read_fixed. rewrite length_app.
  destruct (length b + length rest <? length b)%nat eqn:E;
    [apply Nat.ltb_lt in E; lia|].
  by rewrite take_app_length, drop_app_length.
Qed.

Lemma read_framed_frame (b f rest : bytes) :
  frame b = Ok f -> Demo.read_framed (f ++ rest) = Ok (b, rest).
Proof.
  intros (e & He & -> & Hl & H0 & Hr)%frame_inv. unfold Demo.read_framed.
  rewrite <- app_assoc, Hr. cbn [mbind result_bind].
  destruct (len (b ++ rest) <? len b) eqn:E.
  { apply Z.ltb_lt in E. unfold len in E. rewrite length_app in E. lia. }
  by rewrite slice_to_len_app, slice_from_len_app.
Qed.

Definition input_signed : TxIn :=
  TxIn.mk (OutPoint.mk txid0 1) [TStr "AB"] 4294967295 ["aa"].

Definition output_0 : TxOut := TxOut.mk 5000 [TInt 0; TStr "AABB"].

Lemma input_signed_reads_back : TxIn_reads_back input_signed.
Proof.
  intros u rest Hu. vm_compute in Hu. injection Hu as <-.
  change (TxIn_deserialize ?s) with (Demo.TxIn_deserialize s).
  unfold Demo.TxIn_deserialize.
  match goal with
  | |- context [Demo.read_fixed 32 (?w ++ rest)] =>
      change (w ++ rest)
        with (take 32 w ++ (take 4 (drop 32 w)) ++ [x02; x01; xab]
                ++ drop 39 w ++ rest)
  end.
  rewrite read_fixed_app by reflexivity. cbn [mbind result_bind].
  rewrite read_fixed_app by reflexivity. cbn [mbind result_bind].
  rewrite (read_framed_frame [x01; xab]) by reflexivity.
  cbn [mbind result_bind].
  change (Demo.script_decode [x01; xab]) with (Ok [TStr "AB"]).
  cbn [mbind result_bind].
  rewrite read_fixed_app by reflexivity.
  reflexivity.
Qed.

Lemma output_0_reads_back : TxOut_reads_back output_0.
Proof.
  intros u rest Hu. vm_compute in Hu. injection Hu as <-.
  change (TxOut_deserialize ?s) with (Demo.TxOut_deserialize s).
  unfold Demo.TxOut_deserialize.
  match goal with
  | |- context [Demo.read_fixed 8 (?w ++ rest)] =>
      change (w ++ rest) with (take 8 w ++ drop 8 w ++ rest)
  end.
  rewrite read_fixed_app by reflexivity. cbn [mbind result_bind].
  rewrite (read_framed_frame [x00; x02; xaa; xbb]) by reflexivity.
  reflexivity.
Qed.

Lemma witness_aa_reads_back : witness_reads_back ["aa"].
Proof.
  intros u rest Hu. vm_compute in Hu. injection Hu as <-.
  change (witness_deserialize ?s) with (Demo.witness_deserialize s).
  unfold Demo.witness_deserialize.
  change ([x01; x01; xaa] ++ rest) with (x01 :: ([x01; xaa] ++ rest)).
  change (varint.read (x01 :: ?l)) with (Ok (1, l)).
  cbn [mbind result_bind]. change (Z.to_nat 1) with 1%nat.
  cbn [read_n]. rewrite (read_framed_frame [xaa]) by reflexivity.
  reflexivity.
Qed.

Definition wire_tx_signed : bytes :=
  Eval vm_compute in
    match Tx_serialize tx_signed true true with Ok u => u | Raise _ => [] end.

Lemma Tx_deserialize_serialize_witness :
  Tx_deserialize wire_tx_signed true = Ok tx_signed.
Proof.
  apply (Tx_deserialize_serialize tx_signed wire_tx_signed).
  - split; [|split]; repeat constructor.
    + exact input_signed_reads_back.
    + exact witness_aa_reads_back.
    + exact output_0_reads_back.
  - by vm_compute.
Defined.

(** ** What the codec returns and takes *)

Lemma Psbt_deserialize_shape_witness :
  Tx_assert_valid tx_one_input = Ok tt /\
  Tx.vin tx_one_input <> [] /\ Tx.vout tx_one_input <> [] /\
  length [PsbtInput.default] = length (Tx.vin tx_one_input) /\
  length [PsbtOutput.default] = length (Tx.vout tx_one_input).
Proof.
  apply (Psbt_deserialize_shape wire_no_commitment psbt_no_commitment).
  by vm_compute.
Defined.

(** A container over a signed transaction, which the validator
    rejects. *)
Definition psbt_signed : Psbt :=
  Psbt.mk tx_signed [PsbtInput.default] [PsbtOutput.default] (Some 0)
    [] [] [].

Lemma psbt_signed_wire_form : Psbt_wire_form psbt_signed.
Proof.
  unfold Psbt_wire_form, psbt_signed. cbn [Psbt.tx Psbt.inputs Psbt.outputs].
  split; [|split; [done|split; [done|split; [|split]]]].
  - canonical.
  - repeat constructor; canonical.
  - repeat constructor; canonical.
  - by vm_compute.
Qed.

Lemma Psbt_serialize_does_not_validate_witness :
  exists s, Psbt_serialize psbt_signed = Ok s /\
            Psbt_deserialize s = Raise (AssertionError "").
Proof.
  apply (Psbt_serialize_does_not_validate psbt_signed).
  - exact psbt_signed_wire_form.
  - split; [by vm_compute|]. split; repeat constructor.
  - by vm_compute.
Defined.

(** ** The combiner on two containers *)

(** Two containers over one transaction that differ in every global
    field and in every list attribute of their input record. *)
Definition keypath_1 : HdKeypath := HdKeypath.mk pubkey_a "aabbccdd" "00000080".
Definition keypath_2 : HdKeypath := HdKeypath.mk pubkey_b "aabbccdd" "01000080".

Definition record_cosigner_1 : PsbtInput :=
  PsbtInput.mk None None [("02aa", "3044")] (Some 1)
    [TInt 1; TStr "AB"] [TInt 2; TStr "CD"] [keypath_1] [] [] None [] [].

Definition record_cosigner_2 : PsbtInput :=
  PsbtInput.mk None None [("03bb", "3045")] (Some 1)
    [TInt 1; TStr "EF"] [TInt 2; TStr "CD"; TInt 3] [keypath_2]
    [TStr "AB"] ["aa"] None [] [].

Definition globals_1 : PsbtObj :=
  PsbtObj.mk 0 [0%nat] [0%nat] (Some 0) [keypath_1] [(5, [("00", "11")])]
    [("01", "aa"); ("02", "bb")].

Definition globals_2 : PsbtObj :=
  PsbtObj.mk 1 [1%nat] [1%nat] (Some 2) [keypath_2] [(7, [("00", "22")])]
    [("02", "cc"); ("03", "dd")].

Definition store_two_cosigners : store :=
  mkStore [tx_one_input; tx_one_input] [record_cosigner_1; record_cosigner_2]
    [PsbtOutput.default; PsbtOutput.default] [globals_1; globals_2].

Definition psbt_cosigner_1 : Psbt :=
  Psbt.mk tx_one_input [record_cosigner_1] [PsbtOutput.default] (Some 0)
    [keypath_1] [(5, [("00", "11")])] [("01", "aa"); ("02", "bb")].

Definition psbt_cosigner_2 : Psbt :=
  Psbt.mk tx_one_input [record_cosigner_2] [PsbtOutput.default] (Some 2)
    [keypath_2] [(7, [("00", "22")])] [("02", "cc"); ("03", "dd")].

Lemma combine_keeps_first_globals_witness :
  exists s' v',
    combine_psbts [0%nat; 1%nat] store_two_cosigners = (Ok 0%nat, s') /\
    load s' 0%nat = Some v' /\
    Psbt.tx v' = tx_one_input /\
    Psbt.version v' = Some 0 /\
    Psbt.hd_keypaths v' = [keypath_1] /\
    Psbt.proprietary v' = [(5, [("00", "11")])] /\
    later_wins [("01", "aa"); ("02", "bb")] [("02", "cc"); ("03", "dd")]
      (Psbt.unknown v').
Proof.
  apply (combine_keeps_first_globals store_two_cosigners 0%nat 1%nat
           psbt_cosigner_1 psbt_cosigner_2).
  - done.
  - reflexivity.
  - reflexivity.
  - split; apply (bool_decide_unpack _); by vm_compute.
  - by vm_compute.
  - reflexivity.
  - repeat constructor; by intros ? ?.
  - reflexivity.
  - apply (bool_decide_unpack _). by vm_compute.
  - apply (bool_decide_unpack _). by vm_compute.
Defined.

Lemma combine_appends_lists_witness :
  exists s' v',
    combine_psbts [0%nat; 1%nat] store_two_cosigners = (Ok 0%nat, s') /\
    load s' 0%nat = Some v' /\
    Forall2 (fun ab r => lists_appended ab.1 ab.2 r)
      (zip [record_cosigner_1] [record_cosigner_2]) (Psbt.inputs v').
Proof.
  apply (combine_appends_lists store_two_cosigners 0%nat 1%nat
           psbt_cosigner_1 psbt_cosigner_2).
  - done.
  - reflexivity.
  - reflexivity.
  - split; apply (bool_decide_unpack _); by vm_compute.
  - by vm_compute.
  - reflexivity.
  - repeat constructor; by intros ? ?.
  - reflexivity.
Defined.

(** On these two containers the merge gives the scripts token by token,
    the key paths of both, and the union of the [unknown] entries. *)
Lemma combine_two_cosigners_run :
  exists s',
    combine_psbts [0%nat; 1%nat] store_two_cosigners = (Ok 0%nat, s') /\
    load s' 0%nat =
      Some (Psbt.mk tx_one_input
              [PsbtInput.mk None None [("02aa", "3044"); ("03bb", "3045")]
                 (Some 1) [TInt 1; TStr "AB"; TStr "EF"]
                 [TInt 2; TStr "CD"; TInt 3] [keypath_1; keypath_2]
                 [TStr "AB"] ["aa"] None [] []]
              [PsbtOutput.default] (Some 0) [keypath_1]
              [(5, [("00", "11")])]
              [("01", "aa"); ("02", "cc"); ("03", "dd")]).
Proof. eexists. split; by vm_compute. Qed.

Lemma combine_rebinds_inputs_of_last_witness :
  exists s' v' PA' PB',
    combine_psbts [0%nat; 1%nat] store_two_signers = (Ok 0%nat, s') /\
    psbts s' !! 0%nat = Some PA' /\ psbts s' !! 1%nat = Some PB' /\
    PsbtObj.inputs PB' = PsbtObj.inputs PA' /\
    load s' 0%nat = Some v' /\
    load s' 1%nat = Some (Psbt.set_inputs (Psbt.inputs v') psbt_signer_2).
Proof.
  apply (combine_rebinds_inputs_of_last store_two_signers 0%nat 1%nat
           psbt_signer_1 psbt_signer_2).
  - done.
  - reflexivity.
  - reflexivity.
  - split; apply (bool_decide_unpack _); by vm_compute.
  - by vm_compute.
  - reflexivity.
  - repeat constructor; by intros ? ?.
  - reflexivity.
Defined.

(** ** Regrouping bits *)

Lemma _convertbits_round_trip_witness :
  exists groups,
    _convertbits [255; 0; 171] 8 5 true = Ok groups /\
    in_range 5 groups /\
    _convertbits groups 5 8 false = Ok [255; 0; 171].
Proof.
  apply (_convertbits_round_trip [255; 0; 171] 8 5).
  - lia.
  - repeat constructor; cbn; lia.
Defined.

Lemma _convertbits_accepts_own_output_witness :
  in_range 8 [255] /\ _convertbits [255] 8 5 true = Ok [31; 28].
Proof.
  apply (_convertbits_accepts_own_output [31; 28] [255] 8 5).
  - lia.
  - lia.
  - repeat constructor; cbn; lia.
  - by vm_compute.
Defined.

Lemma _convertbits_rejects_out_of_range_witness :
  _convertbits ([1] ++ 256 :: [2]) 8 5 true =
    Raise (BTClibValueError ("invalid value in _convertbits: " +:+ pretty 256)).
Proof.
  apply (_convertbits_rejects_out_of_range [1] [2] 256 8 5 true).
  - lia.
  - lia.
  - repeat constructor; cbn; lia.
  - cbn. lia.
Defined.
